(* ===== verification/_CoqProject ===== *)
-Q . S2P
Prelude.v
Platform.v
Bus.v
FrameAllocator.v
Bootstrap.v
FrameInit.v
Memory.v
AcpiHandler.v
Pci.v
Vga.v
Interrupts.v
Apic.v
Heap.v
Ahci.v
Acpi.v
Locks.v
Format.v
Serial.v
Exceptions.v
AcpiTables.v
Kernel.v
Main.v
AmlInterface.v
