(* ===== verification/Prelude.v ===== *)
(** * Capucho OS: a verification of the kernel's core in Rocq

    Capucho OS (src/) is a small x86_64 kernel in Rust.  The boot loader maps the
    physical memory and passes a memory map; [lib::init] sets up the interrupt
    controllers, paging and the heap; [kernel_main] then reads the ACPI tables,
    takes control from the firmware, hands interrupts over to the APICs,
    enumerates the PCI bus and looks at the SATA controller before it switches the
    machine off.  This development models the parts that hold the kernel's own
    logic, as executable functions, and proves what makes them correct, or where
    they are not, what they do instead.

    ** The parts and the files

    - [Prelude] (this file): panics, results, the state-and-panic monad [M], total
      weakest preconditions [wp], machine integers, bits, lists, automation.
    - [Platform]: what the [bootloader] and [x86_64] crates give the kernel, as
      type classes with laws ([BootInfo], [Addresses], [Mapper], [Translate]), and a
      reference instance of each.  The laws of the mapper say which frames hold page
      tables, so that theorems can tell what became of every frame that was taken.
    - [Bus]: port instructions, volatile accesses and [hlt] over an abstract
      hardware state.
    - [FrameAllocator], [Bootstrap], [FrameInit]: memory/frame_allocator/mod.rs and
      bootstrap.rs.  The allocator is a record of the memory map, the cursor and
      the bitmap words; the bootstrap allocator serves the page tables and the
      pages of the bitmap itself; [init] builds the one from the other.
    - [Memory]: memory/mod.rs, the paging context (mapper and allocator) behind
      [PAGING_CTX]; [mmap_dev], [unmap], [map_range], [memory_init].
    - [Heap]: allocator.rs, [init_heap] over [map_range].
    - [AcpiHandler]: the reference-counted mapping table of acpi.rs and the regions
      of acpi/handlers.rs, over [mmap_dev] and [unmap].
    - [Acpi]: acpi.rs, [enable] and the sleep states, with [lib::sleep].
    - [Pci]: pci.rs, and the PCI accesses of acpi/handlers.rs.
    - [Vga]: vga_buffer.rs, the text console.
    - [Interrupts]: interrupts/controller.rs (the PICs and the local APIC) and the
      timer and keyboard handlers of interrupts/mod.rs, which use [Vga].
    - [Apic]: apic.rs, redirection entries, IO APICs and [apic_init], over [Memory]
      and [Interrupts].
    - [Ahci]: ahci.rs, the register structures of the SATA controller.
    - [Locks]: the lock operations of all these functions on one processor, as a
      step relation with interrupts between any two operations.
    - [Format]: the texts [core::fmt] makes of literals and numbers.
    - [Serial]: serial.rs and logger.rs, the serial port and the log lines.
    - [Exceptions]: gdt.rs, and the descriptor table and exception handlers of
      interrupts/mod.rs, over [Vga] and [Memory].
    - [AcpiTables]: [bios_get_acpi] of acpi.rs, over [AcpiHandler].
    - [Kernel]: lib.rs, [init] as the composition of the parts on the record
      [Kernel] of their states, the timer, the test runner and the exits.
    - [Main]: main.rs, [kernel_main] and the panic handler on the record [Machine],
      which adds the console, the serial static, the handler's table and the AML
      interpreter to [Kernel].
    - [AmlInterface]: the interface [AmlHandler] of acpi/handlers.rs, its
      implementation by [AcpiHandler] and [Pci], and AML code as any program over it.

    A Rust function that changes state is a function of the monad [M S], where [S]
    is the part of the kernel's state it can reach (the fields of [self], the
    static behind a lock, the hardware); a pure one that can panic returns an
    [outcome].  A panic ends the execution, as the target aborts, and so does a page
    fault, whose handler never returns.  A function that does not return answers
    [never]: it ends in [hlt_loop].  Arithmetic is checked
    at its width, since the kernel is built with the development profile; casts
    truncate.  Frames and pages are their start addresses.

    ** What the theorems show

    - Booting: with enough zeroed memory [init] returns, and every part is ready.
      This composes the theorems of the parts.
    - Locks: no reachable state of the kernel is a deadlock, whatever interrupts
      arrive; a page fault inside the console's critical section is one.
    - Frame allocation: the allocator refines an abstract pool of frames, under any
      sequence of requests; clients never own the same frame; [init] terminates,
      and every frame it takes backs the bitmap or holds a page table and is marked,
      as are the forbidden regions; the bitmap words that are used lie in mapped
      memory.  Frames behind the cursor are lost, stale memory counts as used frames,
      the end of the bitmap slice is unmapped, and region lookup answers the next
      region for every frame but the first of a region.
    - Paging and heap: every branch of [mmap_dev], with the region types it accepts
      and when it succeeds; unmapping restores the mappings, and only page tables
      stay in use; [map_range] takes distinct free frames; the heap is fully backed,
      and its set-up succeeds when there are frames enough.
    - ACPI memory: the reference counts are exact over any run; a mapped region is
      accessible and its release restores the state; the interpreter's accesses
      keep their frame for good, and fault when they cross into a page that is not
      mapped; whatever AML code does, the counts grow by its accesses; the definition
      blocks stay mapped and held.
    - Power: the wait for the firmware is bounded, with the exact bound; the words
      written to enter a sleep state.
    - PCI: configuration accesses reach exactly the named register; enumeration is
      complete and exact; the AML accesses at every offset and width: byte reads are
      right, 16-bit accesses take the wrong half of a register, narrow writes clear
      its other bytes.
    - Console and log: the screen is always the end of an append-only log; the
      serial line carries the lines of a reference format.
    - Exceptions: exactly the kernel's vectors have handlers, the double fault has
      its own stack; the text of the reports.
    - Interrupts: the PICs' programming from any state, the handover, the end of
      interrupt on every branch; the handlers acknowledge what they serve.
    - APIC: tables read back what was written; the routing [apic_init] sets up;
      the choice of an IO APIC; what the entry setters really do.
    - SATA: the controller that is chosen, the mapping of its registers, the ports
      the accessors select and write.

    Hypotheses are well-formedness conditions of the state ([wf], [ctx_ok],
    [handler_ok], [shows], [serial_ok]), which the operations preserve, and the
    laws of the device or crate the code calls; a witness in a module at the end of
    each file applies every theorem that has hypotheses to a concrete machine.

    ** Bounds

    All loops are structural: over lists the code iterates on, over ranges, or over
    the 300 rounds of [enable_poll].  The only fuel is that of [hex_digits], the
    number of digits of the width, and [hex_digits_value] shows it is enough.
    Physical addresses have 52 bits, mapped ones lie in the lower half ([2 ^ 47]);
    memory maps have frame numbers below [2 ^ 40].

    ** What is not modelled

    The page tables themselves, the AML interpreter, the ACPI table parser, the
    keyboard decoder, the buddy allocator, the UART driver, the level filter of the
    log and the devices are not in the repository; they are parameters with the
    laws the code relies on.  A panic carries no state, so what the devices saw of an
    operation that panics is not described.  Page faults are modelled for the memory
    accesses of the AML handler; the drivers access registers they have mapped.  In
    the files of the parts a lock is taken once per operation and released on return,
    so an operation is a state transformer; the interplay of locks with interrupts is
    the subject of [Locks].  Interrupts that arrive during [init] and [kernel_main]
    are not interleaved with their state.  The trace messages of the ACPI handler and
    of the frame allocators, the [Debug] format of redirection entries and the
    functions generated for [cargo test] are left out.

    ** Plan

    Next: theorems about the whole of [kernel_main] (its order of effects up to the
    words that switch the machine off), and interrupts interleaved with the state
    of the parts. *)

From stdpp Require Export base numbers list strings gmap.
From Stdlib Require Export ZArith Lia.

Global Open Scope Z_scope.

(** Let [lia] see through division and remainder. *)
Ltac Zify.zify_post_hook ::= Z.div_mod_to_equations.

(** ** Panics, outcomes and Rust results *)

(** Why the kernel stopped.  The target's panic strategy is [abort], so a panic
    ends the execution: no state survives it.  A page fault does so too: its handler
    never returns ([Exceptions]). *)
Inductive panic : Type :=
  | Explicit (msg : string)
  | UnwrapNone
  | IndexOutOfBounds
  | ArithOverflow
  | PageFault.

Inductive outcome (A : Type) : Type :=
  | Ret (a : A)
  | Panic (p : panic).
Arguments Ret {A} a.
Arguments Panic {A} p.

(** Rust's [Result<T, E>]. *)
Inductive Result (T E : Type) : Type :=
  | Ok (t : T)
  | Err (e : E).
Arguments Ok {T E} t.
Arguments Err {T E} e.

#[export] Instance panic_eq_dec : EqDecision panic.
Proof. solve_decision. Defined.
#[export] Instance outcome_eq_dec `{EqDecision A} : EqDecision (outcome A).
Proof. solve_decision. Defined.
#[export] Instance Result_eq_dec `{EqDecision T, EqDecision E} : EqDecision (Result T E).
Proof. solve_decision. Defined.

#[export] Instance outcome_ret : MRet outcome := λ A a, Ret a.
#[export] Instance outcome_bind : MBind outcome := λ A B f m,
  match m with Ret a => f a | Panic p => Panic p end.

(** ** The kernel monad: explicit state, and panics as values *)

Definition M (S A : Type) : Type := S → outcome (A * S).

#[export] Instance M_ret {S} : MRet (M S) := λ A a s, Ret (a, s).
#[export] Instance M_bind {S} : MBind (M S) := λ A B f m s,
  match m s with
  | Ret (a, s') => f a s'
  | Panic p => Panic p
  end.

Definition get {S} : M S S := λ s, Ret (s, s).
Definition put {S} (s : S) : M S unit := λ _, Ret (tt, s).
Definition lift {S A} (o : outcome A) : M S A := λ s,
  match o with Ret a => Ret (a, s) | Panic p => Panic p end.
Definition fail {S A} (p : panic) : M S A := λ _, Panic p.

(** Run a computation on the first or the second component of a pair. *)
Definition on_fst {S T A} (m : M S A) : M (S * T) A := λ '(s, t),
  match m s with
  | Ret (a, s') => Ret (a, (s', t))
  | Panic p => Panic p
  end.
Definition on_snd {S T A} (m : M T A) : M (S * T) A := λ '(s, t),
  match m t with
  | Ret (a, t') => Ret (a, (s, t'))
  | Panic p => Panic p
  end.

(** Run a computation with a local variable that starts as [b]; its final value
    is returned with the result. *)
Definition with_local {S B A} (b : B) (m : M (S * B) A) : M S (A * B) := λ s,
  match m (s, b) with
  | Ret (a, (s', b')) => Ret ((a, b'), s')
  | Panic p => Panic p
  end.

(** [for x in l { f(x) }] *)
Fixpoint mfor {S X} (l : list X) (f : X → M S unit) : M S unit :=
  match l with
  | [] => mret tt
  | x :: l' => f x ≫= λ _, mfor l' f
  end.

(** [Option::expect], [Option::unwrap] and [Result::expect]. *)
Definition expect {A} (o : option A) (msg : string) : outcome A :=
  match o with Some a => Ret a | None => Panic (Explicit msg) end.
Definition unwrap {A} (o : option A) : outcome A :=
  match o with Some a => Ret a | None => Panic UnwrapNone end.
Definition expect_ok {A E} (r : Result A E) (msg : string) : outcome A :=
  match r with Ok a => Ret a | Err _ => Panic (Explicit msg) end.

(** ** Weakest preconditions, for total correctness

    [wp m Q s]: run from [s], [m] returns (it does not panic) and the result
    and the final state satisfy [Q]. *)
Definition wp {S A} (m : M S A) (Q : A → S → Prop) (s : S) : Prop :=
  match m s with
  | Ret (a, s') => Q a s'
  | Panic _ => False
  end.

Section wp_rules.
Context {S : Type}.
Implicit Types (s : S).

Lemma wp_elim {A} (m : M S A) Q s :
  wp m Q s → ∃ a s', m s = Ret (a, s') ∧ Q a s'.
Proof. unfold wp. destruct (m s) as [[a s']|]; naive_solver. Qed.

Lemma wp_intro {A} (m : M S A) (Q : A → S → Prop) s a s' :
  m s = Ret (a, s') → Q a s' → wp m Q s.
Proof. unfold wp. by intros ->. Qed.

Lemma wp_ret {A} (a : A) (Q : A → S → Prop) s : Q a s → wp (mret a) Q s.
Proof. done. Qed.

Lemma wp_bind {A B} (m : M S A) (f : A → M S B) Q s :
  wp m (λ a s', wp (f a) Q s') s → wp (m ≫= f) Q s.
Proof. unfold wp, mbind, M_bind. by destruct (m s) as [[a s']|]. Qed.

Lemma wp_mono {A} (m : M S A) (P Q : A → S → Prop) s :
  wp m P s → (∀ a s', P a s' → Q a s') → wp m Q s.
Proof. unfold wp. destruct (m s) as [[a s']|]; naive_solver. Qed.

Lemma wp_conj {A} (m : M S A) (P Q : A → S → Prop) s :
  wp m P s → wp m Q s → wp m (λ a s', P a s' ∧ Q a s') s.
Proof. unfold wp. destruct (m s) as [[a s']|]; naive_solver. Qed.

Lemma wp_get (Q : S → S → Prop) s : Q s s → wp get Q s.
Proof. done. Qed.

Lemma wp_put (s0 : S) (Q : unit → S → Prop) s : Q tt s0 → wp (put s0) Q s.
Proof. done. Qed.

Lemma wp_lift {A} (o : outcome A) (a : A) (Q : A → S → Prop) s :
  o = Ret a → Q a s → wp (lift o) Q s.
Proof. by intros ->. Qed.

(** A loop keeps an invariant indexed by the part of the list it has done. *)
Lemma wp_mfor {X} (l : list X) (f : X → M S unit) (I : list X → S → Prop) s :
  I [] s →
  (∀ pre x post s', l = pre ++ x :: post → I pre s' →
     wp (f x) (λ _ s'', I (pre ++ [x]) s'') s') →
  wp (mfor l f) (λ _ s', I l s') s.
Proof.
  intros H0 Hstep.
  assert (∀ rest pre s0, l = pre ++ rest → I pre s0 →
    wp (mfor rest f) (λ _ s', I l s') s0) as Hgen.
  { induction rest as [|x rest IH]; intros pre s0 El HI; simpl.
    - apply wp_ret. by rewrite El, app_nil_r.
    - apply wp_bind. eapply wp_mono; [by eapply Hstep|].
      intros ? s1 H1. apply (IH (pre ++ [x])); [by rewrite <-app_assoc|done]. }
  by apply (Hgen l []).
Qed.

(** Loops over a concatenation, and nested loops as one loop. *)
Lemma wp_mfor_app {X} (l1 l2 : list X) (f : X → M S unit) Q s :
  wp (mfor l1 f) (λ _, wp (mfor l2 f) Q) s ↔ wp (mfor (l1 ++ l2) f) Q s.
Proof.
  revert s. induction l1 as [|x l1 IH]; intros s; simpl; [done|].
  unfold wp, mbind, M_bind in *. destruct (f x s) as [[[] s']|]; [|done]. apply IH.
Qed.

Lemma wp_mfor_nested {X Y} (l : list X) (g : X → list Y) (f : Y → M S unit) Q s :
  wp (mfor (l ≫= g) f) Q s → wp (mfor l (λ x, mfor (g x) f)) Q s.
Proof.
  revert s. induction l as [|x l IH]; intros s; [done|]. simpl.
  intros Hw%wp_mfor_app. apply wp_bind. eapply wp_mono; [done|].
  intros [] s' ?. by apply IH.
Qed.

Lemma wp_mfor_one {X} (f : X → M S unit) x Q s : wp (mfor [x] f) Q s → wp (f x) Q s.
Proof. simpl. unfold wp, mbind, M_bind. by destruct (f x s) as [[[] s']|]. Qed.

Lemma wp_mfor_ext {X} (l : list X) (f g : X → M S unit) Q s :
  (∀ x P s', wp (f x) P s' → wp (g x) P s') → wp (mfor l f) Q s → wp (mfor l g) Q s.
Proof.
  intros Hfg. revert s. induction l as [|x l IH]; intros s; [done|]. simpl.
  intros Hw. apply wp_bind, Hfg. unfold wp, mbind, M_bind in Hw |- *.
  destruct (f x s) as [[[] s']|]; [|done]. by apply IH.
Qed.

(** [for i in m..m+n]: an invariant indexed by the counter. *)
Lemma wp_mfor_range (m n : Z) (f : Z → M S unit) (J : Z → S → Prop) s :
  0 ≤ n → J m s →
  (∀ i s', m ≤ i < m + n → J i s' → wp (f i) (λ _ s'', J (i + 1) s'') s') →
  wp (mfor (seqZ m n) f) (λ _ s', J (m + n) s') s.
Proof.
  intros Hn H0 Hstep.
  replace (m + n) with (m + Z.of_nat (length (seqZ m n))) by (rewrite length_seqZ; lia).
  apply (wp_mfor _ _ (λ pre s', J (m + Z.of_nat (length pre)) s')).
  { by replace (m + _) with m by (simpl; lia). }
  intros pre x post s' E HJ.
  assert (seqZ m n !! length pre = Some x) as [-> Hlt]%lookup_seqZ.
  { rewrite E, lookup_app_r, Nat.sub_diag by done. done. }
  rewrite length_app. simpl. replace (m + Z.of_nat (length pre + 1))
    with (m + Z.of_nat (length pre) + 1) by lia.
  apply Hstep; [lia|done].
Qed.
End wp_rules.

Section wp_pairs.
Context {S T : Type}.

Lemma wp_on_fst {A} (m : M S A) (Q : A → S * T → Prop) s t :
  wp m (λ a s', Q a (s', t)) s → wp (on_fst m) Q (s, t).
Proof. unfold wp, on_fst. by destruct (m s) as [[a s']|]. Qed.

Lemma wp_on_snd {A} (m : M T A) (Q : A → S * T → Prop) s t :
  wp m (λ a t', Q a (s, t')) t → wp (on_snd m) Q (s, t).
Proof. unfold wp, on_snd. by destruct (m t) as [[a t']|]. Qed.

Lemma wp_with_local {A} (m : M (S * T) A) (b : T) (Q : A * T → S → Prop) s :
  wp m (λ a st, Q (a, st.2) st.1) (s, b) → wp (with_local b m) Q s.
Proof. unfold wp, with_local. by destruct (m (s, b)) as [[a [s' b']]|]. Qed.
End wp_pairs.

(** ** Inversion of runs *)

Section run_inversion.
Context {S : Type}.

Lemma bind_Ret {A B} (m : M S A) (f : A → M S B) s b s'' :
  (m ≫= f) s = Ret (b, s'') ↔ ∃ a s', m s = Ret (a, s') ∧ f a s' = Ret (b, s'').
Proof.
  unfold mbind, M_bind. destruct (m s) as [[a s']|]; naive_solver.
Qed.

Lemma lift_Ret {A} (o : outcome A) (s : S) a s' :
  lift o s = Ret (a, s') ↔ o = Ret a ∧ s' = s.
Proof. unfold lift. destruct o; naive_solver. Qed.

Lemma ret_Ret {A} (a b : A) (s s' : S) :
  (mret a : M S A) s = Ret (b, s') ↔ a = b ∧ s' = s.
Proof. unfold mret, M_ret. naive_solver. Qed.

Lemma run_bind {A B} (m : M S A) (f : A → M S B) s a s' :
  m s = Ret (a, s') → (m ≫= f) s = f a s'.
Proof. unfold mbind, M_bind. by intros ->. Qed.

Lemma run_bind_panic {A B} (m : M S A) (f : A → M S B) s p :
  m s = Panic p → (m ≫= f) s = Panic p.
Proof. unfold mbind, M_bind. by intros ->. Qed.
End run_inversion.

Lemma bind_outcome_Ret {A B} (m : outcome A) (f : A → outcome B) b :
  (m ≫= f) = Ret b ↔ ∃ a, m = Ret a ∧ f a = Ret b.
Proof. unfold mbind, outcome_bind. destruct m; naive_solver. Qed.

(** ** Machine integers

    A [w]-bit unsigned integer is a [Z] in [[0, 2^w)].  The kernel is built
    with the default development profile, in which [+], [-] and [*] panic on
    overflow and [as] casts truncate. *)
Definition cast (w x : Z) : Z := x mod 2 ^ w.
Notation as_u8 := (cast 8).
Notation as_u16 := (cast 16).
Notation as_u32 := (cast 32).
Notation as_u64 := (cast 64).
Notation as_usize := (cast 64).

Definition fits (w x : Z) : Prop := 0 ≤ x < 2 ^ w.
Definition u8 : Z → Prop := fits 8.
Definition u16 : Z → Prop := fits 16.
Definition u32 : Z → Prop := fits 32.
Definition u64 : Z → Prop := fits 64.

Definition checked (w x : Z) : outcome Z :=
  if bool_decide (0 ≤ x < 2 ^ w) then Ret x else Panic ArithOverflow.
Definition add_w (w a b : Z) : outcome Z := checked w (a + b).
Definition sub_w (w a b : Z) : outcome Z := checked w (a - b).
Definition mul_w (w a b : Z) : outcome Z := checked w (a * b).

(** Bitwise complement at width [w]. *)
Definition not_w (w x : Z) : Z := Z.lxor x (Z.ones w).

(** [l[i]] in Rust: out of range is a panic. *)
Definition index {A} (l : list A) (i : Z) : outcome A :=
  match l !! Z.to_nat i with
  | Some a => Ret a
  | None => Panic IndexOutOfBounds
  end.

Lemma checked_ok w x : fits w x → checked w x = Ret x.
Proof. intros H. unfold checked. by rewrite bool_decide_true. Qed.

Lemma checked_overflow w x : ¬ fits w x → checked w x = Panic ArithOverflow.
Proof. intros H. unfold checked. by rewrite bool_decide_false. Qed.

Lemma checked_Ret w x y : checked w x = Ret y → y = x ∧ fits w x.
Proof. unfold checked, fits. case_bool_decide; [by intros [= <-]|done]. Qed.

Lemma cast_fits w x : 0 ≤ w → fits w (cast w x).
Proof. intros. apply Z.mod_pos_bound. lia. Qed.

Lemma cast_id w x : fits w x → cast w x = x.
Proof. apply Z.mod_small. Qed.

Lemma index_ok {A} (l : list A) i a : l !! Z.to_nat i = Some a → index l i = Ret a.
Proof. unfold index. by intros ->. Qed.

Lemma index_oob {A} (l : list A) i :
  Z.of_nat (length l) ≤ i → index l i = Panic IndexOutOfBounds.
Proof. intros. unfold index. rewrite lookup_ge_None_2; [done|lia]. Qed.

Lemma index_Ret {A} (l : list A) i a : index l i = Ret a → l !! Z.to_nat i = Some a.
Proof. unfold index. by destruct (l !! Z.to_nat i); intros [= ->]. Qed.

(** ** Bits *)

Lemma fits_testbit w x i : 0 ≤ w → fits w x → w ≤ i → Z.testbit x i = false.
Proof.
  intros Hw [H0 H1] Hi. rewrite <-(Z.mod_small x (2 ^ w)) by lia.
  apply Z.mod_pow2_bits_high. lia.
Qed.

Lemma fits_of_testbit w x :
  0 ≤ w → 0 ≤ x → (∀ i, w ≤ i → Z.testbit x i = false) → fits w x.
Proof.
  intros Hw Hx Hb. split; [done|].
  destruct (decide (x = 0)) as [->|Hne]; [lia|].
  destruct (Z.lt_ge_cases x (2 ^ w)) as [|Hge]; [done|].
  assert (w ≤ Z.log2 x) as Hlog by (apply Z.log2_le_pow2; lia).
  pose proof (Z.bit_log2 x ltac:(lia)) as E. by rewrite Hb in E.
Qed.

Lemma testbit_pow2 b i : 0 ≤ b → Z.testbit (Z.shiftl 1 b) i = bool_decide (i = b).
Proof.
  intros. rewrite Z.shiftl_1_l, Z.pow2_bits_eqb by done.
  case_bool_decide; [subst; apply Z.eqb_refl|apply Z.eqb_neq; lia].
Qed.

Lemma testbit_not_w w x i :
  0 ≤ i < w → Z.testbit (not_w w x) i = negb (Z.testbit x i).
Proof.
  intros. unfold not_w. rewrite Z.lxor_spec, Z.ones_spec_low by lia.
  by rewrite xorb_true_r.
Qed.

Lemma land_pow2_nonzero w b :
  0 ≤ b → negb (Z.land w (Z.shiftl 1 b) =? 0) = Z.testbit w b.
Proof.
  intros Hb. destruct (Z.testbit w b) eqn:E.
  - apply negb_true_iff, Z.eqb_neq. intros H0.
    apply (f_equal (λ z, Z.testbit z b)) in H0.
    rewrite Z.land_spec, testbit_pow2, bool_decide_true, E, Z.bits_0 in H0 by done.
    done.
  - apply negb_false_iff, Z.eqb_eq, Z.bits_inj'. intros i Hi.
    rewrite Z.land_spec, testbit_pow2, Z.bits_0 by done.
    case_bool_decide; [subst; by rewrite E|apply andb_false_r].
Qed.

Lemma fits_lor w x y : 0 ≤ w → fits w x → fits w y → fits w (Z.lor x y).
Proof.
  intros Hw Hx Hy. apply fits_of_testbit; [done| |].
  - apply Z.lor_nonneg. destruct Hx, Hy. lia.
  - intros i Hi. by rewrite Z.lor_spec, !(fits_testbit w).
Qed.

Lemma fits_land_l w x y : 0 ≤ w → fits w x → fits w (Z.land x y).
Proof.
  intros Hw Hx. apply fits_of_testbit; [done| |].
  - apply Z.land_nonneg. destruct Hx. lia.
  - intros i Hi. by rewrite Z.land_spec, (fits_testbit w).
Qed.

Lemma fits_lxor w x y : 0 ≤ w → fits w x → fits w y → fits w (Z.lxor x y).
Proof.
  intros Hw Hx Hy. apply fits_of_testbit; [done| |].
  - apply Z.lxor_nonneg. destruct Hx, Hy. lia.
  - intros i Hi. by rewrite Z.lxor_spec, !(fits_testbit w).
Qed.

Lemma fits_shiftl w x k : 0 ≤ k → fits (w - k) x → 0 ≤ w - k → fits w (Z.shiftl x k).
Proof.
  intros Hk [H0 H1] Hw. rewrite Z.shiftl_mul_pow2 by done. split; [lia|].
  replace (2 ^ w) with (2 ^ (w - k) * 2 ^ k) by (rewrite <-Z.pow_add_r by lia; f_equal; lia).
  apply Z.mul_lt_mono_pos_r; lia.
Qed.

Lemma fits_shiftr w x k : 0 ≤ k → fits w x → fits w (Z.shiftr x k).
Proof.
  intros Hk [H0 H1]. rewrite Z.shiftr_div_pow2 by done.
  assert (0 < 2 ^ k) by lia.
  split; [apply Z.div_pos; lia|]. eapply Z.le_lt_trans; [|exact H1].
  apply Z.div_le_upper_bound; nia.
Qed.

(** Bits that do not overlap: [lor] is [+]. *)
Lemma lor_shiftl_add a b k : 0 ≤ k → fits k a → 0 ≤ b → Z.lor a (Z.shiftl b k) = a + b * 2 ^ k.
Proof.
  intros Hk Ha Hb. rewrite <-Z.shiftl_mul_pow2 by done. rewrite <-Z.lxor_lor, Z.add_nocarry_lxor;
    [done|..]; apply Z.bits_inj'; intros i Hi;
    rewrite Z.land_spec, Z.shiftl_spec, Z.bits_0 by done;
    (destruct (Z.lt_ge_cases i k); [by rewrite (Z.testbit_neg_r b), andb_false_r by lia
      |by rewrite (fits_testbit k)]).
Qed.

(** ** Lists *)

(** Rust's [Iterator::skip_while]. *)
Fixpoint skip_while {A} (f : A → bool) (l : list A) : list A :=
  match l with
  | [] => []
  | x :: l' => if f x then skip_while f l' else l
  end.

Lemma skip_while_suffix {A} (f : A → bool) l :
  ∃ pre, l = pre ++ skip_while f l ∧ Forall (λ x, f x = true) pre.
Proof.
  induction l as [|x l (pre & E & H)]; simpl; [by exists []|].
  destruct (f x) eqn:Ef; [|by exists []].
  exists (x :: pre). split; [simpl; by f_equal|by constructor].
Qed.

Lemma skip_while_incl {A} (f : A → bool) l x : x ∈ skip_while f l → x ∈ l.
Proof.
  destruct (skip_while_suffix f l) as (pre & E & _). rewrite E at 2. set_solver.
Qed.

Lemma filter_all {A} (P : A → Prop) `{!∀ x, Decision (P x)} l :
  Forall P l → filter P l = l.
Proof.
  induction 1 as [|x l Hx _ IH]; [done|]. by rewrite filter_cons, decide_True, IH.
Qed.

Lemma filter_none {A} (P : A → Prop) `{!∀ x, Decision (P x)} l :
  Forall (λ x, ¬ P x) l → filter P l = [].
Proof.
  induction 1 as [|x l Hx _ IH]; [done|]. by rewrite filter_cons, decide_False.
Qed.

(** ** Automation *)

Create HintDb bits discriminated.
#[export] Hint Resolve fits_lor fits_land_l fits_lxor fits_shiftr cast_fits : bits.
#[export] Hint Extern 1 (0 ≤ _) => lia : bits.
#[export] Hint Extern 1 (0 < _) => lia : bits.

(** Destruct a successful run into the successful runs of its parts. *)
Ltac inv_run :=
  repeat match goal with
  | H : (_ ≫= _) _ = Ret _ |- _ =>
      let a := fresh "a" in let s := fresh "s" in
      let H1 := fresh "H" in let H2 := fresh "H" in
      apply bind_Ret in H as (a & s & H1 & H2)
  | H : lift _ _ = Ret _ |- _ => apply lift_Ret in H as [? ?]
  | H : mret _ _ = Ret _ |- _ => apply ret_Ret in H as [? ?]
  | H : get _ = Ret _ |- _ => unfold get in H
  | H : put _ _ = Ret _ |- _ => unfold put in H
  | H : Ret _ = Ret _ |- _ => injection H as ?
  | H : (_, _) = (_, _) |- _ => injection H as ?
  | H : Panic _ = Ret _ |- _ => discriminate H
  | H : Some _ = None |- _ => discriminate H
  | H : None = Some _ |- _ => discriminate H
  | H : fail _ _ = Ret _ |- _ => discriminate H
  end; subst.

(** Step through the binds of a [wp] goal. *)
Ltac wp_step :=
  lazymatch goal with
  | |- wp (_ ≫= _) _ _ => apply wp_bind
  | |- wp (mret _) _ _ => apply wp_ret
  | |- wp get _ _ => apply wp_get
  | |- wp (put _) _ _ => apply wp_put
  end.
