(* ===== verification/Platform.v ===== *)
(** * The platform: what the kernel gets from its dependencies

    The kernel calls the [bootloader] crate (the memory map) and the [x86_64]
    crate (addresses, frames, pages, the page-table mapper).  Their code is not
    part of the repository, so it enters the development as the operations of
    type classes ([BootInfo], [Addresses], [Mapper]); the documented behaviour
    the kernel relies on is stated in the companion classes ([BootInfoLaws],
    [AddressesLaws], [MapperLaws]).  The module [Reference] gives instances of
    all of them, which the witnesses run. *)

From S2P Require Import Prelude.
Local Open Scope Z_scope.

(** ** Data of the [bootloader] crate *)

(** The region types the sources mention, and the remaining ones by number. *)
Inductive MemoryRegionType : Type :=
  | Usable
  | Reserved
  | AcpiReclaimable
  | FrameZero
  | KernelStack
  | OtherRegion (tag : Z).

#[export] Instance MemoryRegionType_eq_dec : EqDecision MemoryRegionType.
Proof. solve_decision. Defined.

Record FrameRange : Type := mkRange {
  start_frame_number : Z;
  end_frame_number : Z;
}.

Record MemoryRegion : Type := mkRegion {
  range : FrameRange;
  region_type : MemoryRegionType;
}.

(** The memory map dereferences to a slice of regions. *)
Notation MemoryMap := (list MemoryRegion) (only parsing).

Class BootInfo : Type := {
  start_addr : FrameRange → Z;
  end_addr : FrameRange → Z;
}.

Class BootInfoLaws `{BootInfo} : Prop := {
  start_addr_spec r :
    0 ≤ start_frame_number r < 2 ^ 52 → start_addr r = start_frame_number r * 4096;
  end_addr_spec r :
    0 ≤ end_frame_number r < 2 ^ 52 → end_addr r = end_frame_number r * 4096;
}.

(** ** Addresses, frames and pages of the [x86_64] crate

    A [PhysFrame] and a [Page] of 4 KiB are represented by their start
    addresses. *)
Class Addresses : Type := {
  PhysAddr_new : Z → outcome Z;
  VirtAddr_new : Z → outcome Z;
  VirtAddr_add : Z → Z → outcome Z;
  VirtAddr_sub : Z → Z → outcome Z;
  frame_containing_address : Z → Z;
  frame_from_start_address : Z → option Z;
  frame_range_inclusive : Z → Z → list Z;
  page_containing_address : Z → Z;
  page_from_start_address : Z → option Z;
  page_range : Z → Z → list Z;
  page_range_inclusive : Z → Z → list Z;
}.

Definition align_down (a : Z) : Z := a - a mod 4096.
Definition aligned (a : Z) : Prop := a mod 4096 = 0.

(** The start addresses of the [n] frames (or pages) from [a] on. *)
Definition frames_from (a n : Z) : list Z := (λ i, a + i * 4096) <$> seqZ 0 n.

Class AddressesLaws `{Addresses} : Prop := {
  PhysAddr_new_ok a : 0 ≤ a < 2 ^ 52 → PhysAddr_new a = Ret a;
  PhysAddr_new_panic a : 2 ^ 52 ≤ a → ∃ p, PhysAddr_new a = Panic p;
  VirtAddr_new_ok a : 0 ≤ a < 2 ^ 47 → VirtAddr_new a = Ret a;
  VirtAddr_add_ok a b : 0 ≤ a → 0 ≤ b → a + b < 2 ^ 47 → VirtAddr_add a b = Ret (a + b);
  VirtAddr_sub_ok a b : 0 ≤ b ≤ a → a < 2 ^ 47 → VirtAddr_sub a b = Ret (a - b);
  frame_containing_spec a : frame_containing_address a = align_down a;
  frame_from_start_spec a :
    frame_from_start_address a = if bool_decide (aligned a) then Some a else None;
  frame_range_inclusive_spec a b : aligned a → aligned b →
    frame_range_inclusive a b = frames_from a ((b - a) / 4096 + 1);
  page_containing_spec a : page_containing_address a = align_down a;
  page_from_start_spec a :
    page_from_start_address a = if bool_decide (aligned a) then Some a else None;
  page_range_spec a b : aligned a → aligned b →
    page_range a b = frames_from a ((b - a) / 4096);
  page_range_inclusive_spec a b : aligned a → aligned b →
    page_range_inclusive a b = frames_from a ((b - a) / 4096 + 1);
}.

(** ** The page-table mapper of the [x86_64] crate *)

(** The page-table flags the sources use. *)
Record PageTableFlags : Type := mkFlags {
  PRESENT : bool;
  WRITABLE : bool;
  NO_CACHE : bool;
  WRITE_THROUGH : bool;
}.

#[export] Instance PageTableFlags_eq_dec : EqDecision PageTableFlags.
Proof. solve_decision. Defined.

Inductive MapToError : Type :=
  | FrameAllocationFailed
  | ParentEntryHugePage
  | PageAlreadyMapped (frame : Z).

Inductive UnmapError : Type :=
  | UnmapParentEntryHugePage
  | PageNotMapped
  | InvalidFrameAddress (addr : Z).

(** A mapper is given the [allocate_frame] of the allocator it may draw page
    tables from; [T] is the state of the page tables, [A] the allocator's. *)
Class Mapper (T : Type) : Type := {
  map_to {A} (alloc : M A (option Z)) (page frame : Z) (flags : PageTableFlags) :
    M (T * A) (Result unit MapToError);
  identity_map {A} (alloc : M A (option Z)) (frame : Z) (flags : PageTableFlags) :
    M (T * A) (Result unit MapToError);
  mapper_unmap (page : Z) : M T (Result Z UnmapError);
}.

(** [pages t] is the 4 KiB mappings of [t]; [huge t p] says that [p] lies in a
    huge page; [table_frames t] is the frames (start addresses) that hold the
    tables of [t].  The mapper touches the allocator only by calling it
    ([map_to_safe] holds for every invariant of the allocator), takes at most
    three page tables from it ([map_to_total]), and changes one mapping.  The
    frames that become tables are those the allocator answered, in the state it
    was left in ([map_to_tables]: an invariant of the set of table frames and
    the allocator that every allocation extends by its answer holds afterwards).
    A page that has a frame, or lies in a huge page, is refused without calling
    the allocator ([map_to_mapped], [map_to_huge]); unmapping frees no table. *)
Class MapperLaws (T : Type) `{Mapper T} : Type := {
  pages : T → gmap Z (Z * PageTableFlags);
  huge : T → Z → bool;
  table_frames : T → gset Z;
  pages_not_huge t page e : pages t !! page = Some e → huge t page = false;
  map_to_safe {A} (alloc : M A (option Z)) (I : A → Prop) page frame flags t a :
    (∀ a0, I a0 → wp alloc (λ _ a1, I a1) a0) → I a →
    wp (map_to alloc page frame flags) (λ r '(t', a'),
      I a' ∧ huge t' = huge t ∧
      match r with
      | Ok _ => pages t !! page = None ∧ pages t' = <[page := (frame, flags)]> (pages t)
      | Err _ => pages t' = pages t
      end) (t, a);
  map_to_total {A} (alloc : M A (option Z)) (I : nat → A → Prop) page frame flags t a k :
    (∀ n a0, I (S n) a0 → wp alloc (λ r a1, is_Some r ∧ I n a1) a0) →
    I (3 + k)%nat a → pages t !! page = None → huge t page = false →
    wp (map_to alloc page frame flags)
      (λ r '(t', a'), r = Ok tt ∧ ∃ j, (k ≤ j)%nat ∧ I j a') (t, a);
  map_to_tables {A} (alloc : M A (option Z)) (I : gset Z → A → Prop) page frame flags t a :
    (∀ X a0, I X a0 → wp alloc (λ r a1, I (option_to_set r ∪ X) a1) a0) → I (table_frames t) a →
    wp (map_to alloc page frame flags) (λ _ '(t', a'), I (table_frames t') a') (t, a);
  map_to_mapped {A} (alloc : M A (option Z)) page frame flags t a f fl :
    pages t !! page = Some (f, fl) →
    wp (map_to alloc page frame flags)
      (λ r '(t', a'), r = Err (PageAlreadyMapped f) ∧ a' = a) (t, a);
  map_to_huge {A} (alloc : M A (option Z)) page frame flags t a :
    huge t page = true →
    wp (map_to alloc page frame flags)
      (λ r '(t', a'), r = Err ParentEntryHugePage ∧ a' = a) (t, a);
  identity_map_spec {A} (alloc : M A (option Z)) frame flags s :
    0 ≤ frame < 2 ^ 47 → identity_map alloc frame flags s = map_to alloc frame frame flags s;
  unmap_mapped page f fl t : pages t !! page = Some (f, fl) →
    wp (mapper_unmap page)
      (λ r t', r = Ok f ∧ pages t' = delete page (pages t) ∧ huge t' = huge t ∧
        table_frames t' = table_frames t) t;
  unmap_not_mapped page t : pages t !! page = None →
    wp (mapper_unmap page) (λ r t', (∃ e, r = Err e) ∧ t' = t) t;
}.

(** [Translate::translate]: what the processor finds for a virtual address. *)
Inductive TranslateResult : Type :=
  | Mapped (frame : Z) (flags : PageTableFlags)
  | NotMapped
  | InvalidTable (addr : Z).

Class Translate (T : Type) : Type := { translate : T → Z → TranslateResult }.

(** It follows the mappings outside huge pages. *)
Class TranslateLaws (T : Type) `{MapperLaws T, Translate T} : Prop := {
  translate_spec t a : huge t (align_down a) = false →
    translate t a = match pages t !! align_down a with
                    | Some (f, fl) => Mapped f fl
                    | None => NotMapped
                    end;
}.

(** ** Facts about aligned addresses *)

Lemma align_down_aligned a : aligned (align_down a).
Proof. unfold aligned, align_down. rewrite Zminus_mod_idemp_r, Z.sub_diag. done. Qed.

Lemma align_down_id a : aligned a → align_down a = a.
Proof. unfold aligned, align_down. lia. Qed.

Lemma align_down_le a : align_down a ≤ a < align_down a + 4096.
Proof. unfold align_down. pose proof (Z.mod_pos_bound a 4096). lia. Qed.

Lemma aligned_mul i : aligned (i * 4096).
Proof. apply Z.mod_mul. lia. Qed.

Lemma aligned_add a b : aligned a → aligned b → aligned (a + b).
Proof. unfold aligned. intros. rewrite Z.add_mod by lia. by rewrite H, H0. Qed.

Lemma elem_of_frames_from a n x :
  x ∈ frames_from a n ↔ ∃ i, 0 ≤ i < n ∧ x = a + i * 4096.
Proof.
  unfold frames_from. rewrite list_elem_of_fmap.
  split; intros (i & H1 & H2); exists i; rewrite ?elem_of_seqZ in *; naive_solver lia.
Qed.

Lemma NoDup_frames_from a n : NoDup (frames_from a n).
Proof.
  unfold frames_from. apply NoDup_fmap_2; [|apply NoDup_seqZ].
  intros i j. lia.
Qed.

#[export] Hint Resolve align_down_aligned aligned_mul aligned_add : core.

(** ** Reference instances *)

Module Reference.

#[export] Instance ref_boot : BootInfo := {|
  start_addr r := start_frame_number r * 4096;
  end_addr r := end_frame_number r * 4096;
|}.

#[export] Instance ref_boot_laws : BootInfoLaws.
Proof. by split. Qed.

#[export] Instance ref_addr : Addresses := {|
  PhysAddr_new a := if bool_decide (a < 2 ^ 52) then Ret a else Panic (Explicit "physical address");
  VirtAddr_new a := if bool_decide (a < 2 ^ 47) then Ret a else Panic (Explicit "virtual address");
  VirtAddr_add a b :=
    if bool_decide (a + b < 2 ^ 47) then Ret (a + b) else Panic (Explicit "virtual address");
  VirtAddr_sub a b :=
    if bool_decide (0 ≤ a - b < 2 ^ 47) then Ret (a - b) else Panic (Explicit "virtual address");
  frame_containing_address := align_down;
  frame_from_start_address a := if bool_decide (aligned a) then Some a else None;
  frame_range_inclusive a b := frames_from a ((b - a) / 4096 + 1);
  page_containing_address := align_down;
  page_from_start_address a := if bool_decide (aligned a) then Some a else None;
  page_range a b := frames_from a ((b - a) / 4096);
  page_range_inclusive a b := frames_from a ((b - a) / 4096 + 1);
|}.

#[export] Instance ref_addr_laws : AddressesLaws.
Proof.
  split; try done; simpl; intros.
  all: try by rewrite bool_decide_true by lia.
  rewrite bool_decide_false by lia. eauto.
Qed.

(** A one-level mapper: a table covers 2 MiB and is taken from the allocator
    when the first page of those 2 MiB is mapped; [t_tables] has its frame. *)
Record tables : Type := mkTables {
  t_pages : gmap Z (Z * PageTableFlags);
  t_tables : gmap Z Z;
}.

Definition enter (page frame : Z) (flags : PageTableFlags) (t : tables) :
    Result unit MapToError * tables :=
  match t_pages t !! page with
  | Some (f, _) => (Err (PageAlreadyMapped f), t)
  | None => (Ok tt, mkTables (<[page := (frame, flags)]> (t_pages t)) (t_tables t))
  end.

Definition ref_map_to {A} (alloc : M A (option Z)) (page frame : Z) (flags : PageTableFlags) :
    M (tables * A) (Result unit MapToError) := λ '(t, a),
  match t_pages t !! page, t_tables t !! (page / 2 ^ 21) with
  | None, None =>
      match alloc a with
      | Panic p => Panic p
      | Ret (None, a') => Ret (Err FrameAllocationFailed, (t, a'))
      | Ret (Some f, a') =>
          let t1 := mkTables (t_pages t) (<[page / 2 ^ 21 := f]> (t_tables t)) in
          let '(r, t') := enter page frame flags t1 in Ret (r, (t', a'))
      end
  | _, _ => let '(r, t') := enter page frame flags t in Ret (r, (t', a))
  end.

#[export] Instance ref_mapper : Mapper tables := {|
  map_to A := ref_map_to;
  identity_map A alloc frame flags := ref_map_to alloc frame frame flags;
  mapper_unmap page := λ t,
    match t_pages t !! page with
    | Some (f, _) => Ret (Ok f, mkTables (delete page (t_pages t)) (t_tables t))
    | None => Ret (Err PageNotMapped, t)
    end;
|}.

(** The cases of [ref_map_to]: refused, mapped with the tables there are, out of
    frames, or mapped with a new table. *)
Lemma ref_map_to_cases {A} (alloc : M A (option Z)) page frame flags t a :
  (∃ f fl, t_pages t !! page = Some (f, fl) ∧
     ref_map_to alloc page frame flags (t, a) = Ret (Err (PageAlreadyMapped f), (t, a))) ∨
  (t_pages t !! page = None ∧ is_Some (t_tables t !! (page / 2 ^ 21)) ∧
     ref_map_to alloc page frame flags (t, a) =
       Ret (Ok tt, (mkTables (<[page := (frame, flags)]> (t_pages t)) (t_tables t), a))) ∨
  (t_pages t !! page = None ∧ t_tables t !! (page / 2 ^ 21) = None ∧
     ref_map_to alloc page frame flags (t, a) =
       match alloc a with
       | Panic p => Panic p
       | Ret (None, a') => Ret (Err FrameAllocationFailed, (t, a'))
       | Ret (Some f, a') =>
           Ret (Ok tt, (mkTables (<[page := (frame, flags)]> (t_pages t))
                          (<[page / 2 ^ 21 := f]> (t_tables t)), a'))
       end).
Proof.
  unfold ref_map_to, enter. destruct (t_pages t !! page) as [[f fl]|] eqn:Ep.
  { left. by exists f, fl. }
  right. destruct (t_tables t !! (page / 2 ^ 21)) as [g|] eqn:Et; [left; eauto|right].
  split_and!; [done|done|]. destruct (alloc a) as [[[g|] a']|]; [|done|done]. simpl. by rewrite Ep.
Qed.

#[export] Instance ref_mapper_laws : MapperLaws tables.
Proof.
  refine {| pages := t_pages; huge := λ _ _, false; table_frames t := map_img (t_tables t) |}.
  - done.
  - intros A alloc I page frame flags t a Hal HI. unfold wp. cbn [map_to ref_mapper].
    destruct (ref_map_to_cases alloc page frame flags t a)
      as [(f & fl & Ep & ->)|[(Ep & _ & ->)|(Ep & _ & ->)]]; [done|done|].
    specialize (Hal a HI). unfold wp in Hal. by destruct (alloc a) as [[[f|] a']|].
  - intros A alloc I page frame flags t a k Hal HI Hp _. unfold wp. cbn [map_to ref_mapper].
    destruct (ref_map_to_cases alloc page frame flags t a)
      as [(f & fl & Ep & _)|[(Ep & _ & ->)|(Ep & _ & ->)]]; [congruence|..].
    + split; [done|]. exists (3 + k)%nat. split; [lia|done].
    + specialize (Hal _ a HI). unfold wp in Hal. destruct (alloc a) as [[[f|] a']|]; [| |done].
      * split; [done|]. exists (2 + k)%nat. split; [lia|apply Hal].
      * by destruct Hal as [[? [=]] _].
  - intros A alloc I page frame flags t a Hal HI. unfold wp. cbn [map_to ref_mapper].
    destruct (ref_map_to_cases alloc page frame flags t a)
      as [(f & fl & Ep & ->)|[(Ep & _ & ->)|(Ep & Et & ->)]]; [done|done|].
    specialize (Hal _ a HI). unfold wp in Hal. destruct (alloc a) as [[[f|] a']|]; [| |done].
    + simpl in *. by rewrite map_img_insert_notin_L.
    + simpl in *. by rewrite (left_id_L ∅ (∪)) in Hal.
  - intros A alloc page frame flags t a f fl Hp. unfold wp. cbn [map_to ref_mapper].
    destruct (ref_map_to_cases alloc page frame flags t a)
      as [(f' & fl' & Ep & ->)|[(Ep & _)|(Ep & _)]]; naive_solver.
  - done.
  - done.
  - intros page f fl t E. unfold wp. simpl. by rewrite E.
  - intros page t E. unfold wp. simpl. rewrite E. eauto.
Defined.

#[export] Instance ref_translate : Translate tables := {|
  translate t a := match t_pages t !! align_down a with
                   | Some (f, fl) => Mapped f fl
                   | None => NotMapped
                   end;
|}.

#[export] Instance ref_translate_laws : TranslateLaws tables.
Proof. by split. Qed.

End Reference.
