(* ===== verification/Bus.v ===== *)
(** * The hardware behind port instructions and volatile accesses

    Drivers reach devices with the port instructions of the [x86_64] crate
    ([PortRead], [PortWrite]), with volatile reads and writes of mapped device
    memory, and with [hlt].  The machine on the other side is a parameter: a type
    [H] of hardware states with one transition per instruction ([Bus]).  What a
    device answers is stated by the device laws of the file that drives it. *)

From S2P Require Import Prelude.
Local Open Scope Z_scope.

Class Bus (H : Type) : Type := {
  (** A read answers with a value and may change the device. *)
  port_in (w port : Z) : H → Z * H;
  port_out (w port v : Z) : H → H;
  mem_in (w addr : Z) : H → Z * H;
  mem_out (w addr v : Z) : H → H;
  (** Wait for the next interrupt. *)
  halt : H → H;
}.

(** Answers have the width that was asked for. *)
Class BusLaws (H : Type) `{Bus H} : Prop := {
  port_in_fits w port h : 0 ≤ w → fits w (port_in w port h).1;
  mem_in_fits w addr h : 0 ≤ w → fits w (mem_in w addr h).1;
}.

Section instructions.
Context {H : Type} `{Bus H}.

(** [uN::read_from_port], [uN::write_to_port], [ptr.read_volatile()],
    [ptr.write_volatile(v)] and [hlt()]. *)
Definition read_from_port (w port : Z) : M H Z := λ h, Ret (port_in w port h).
Definition write_to_port (w port v : Z) : M H unit := λ h, Ret (tt, port_out w port v h).
Definition read_volatile (w addr : Z) : M H Z := λ h, Ret (mem_in w addr h).
Definition write_volatile (w addr v : Z) : M H unit := λ h, Ret (tt, mem_out w addr v h).
Definition hlt : M H unit := λ h, Ret (tt, halt h).

Lemma wp_read_from_port w port (Q : Z → H → Prop) h :
  Q (port_in w port h).1 (port_in w port h).2 → wp (read_from_port w port) Q h.
Proof. unfold wp, read_from_port. by destruct (port_in w port h). Qed.

Lemma wp_write_to_port w port v (Q : unit → H → Prop) h :
  Q tt (port_out w port v h) → wp (write_to_port w port v) Q h.
Proof. done. Qed.

Lemma wp_read_volatile w addr (Q : Z → H → Prop) h :
  Q (mem_in w addr h).1 (mem_in w addr h).2 → wp (read_volatile w addr) Q h.
Proof. unfold wp, read_volatile. by destruct (mem_in w addr h). Qed.

Lemma wp_write_volatile w addr v (Q : unit → H → Prop) h :
  Q tt (mem_out w addr v h) → wp (write_volatile w addr v) Q h.
Proof. done. Qed.
End instructions.

(** Step through the binds and the instructions of a driver. *)
Ltac wp_bus :=
  repeat lazymatch goal with
  | |- wp (_ ≫= _) _ _ => apply wp_bind
  | |- wp (mret _) _ _ => apply wp_ret
  | |- wp (read_from_port _ _) _ _ => apply wp_read_from_port
  | |- wp (write_to_port _ _ _) _ _ => apply wp_write_to_port
  | |- wp (read_volatile _ _) _ _ => apply wp_read_volatile
  | |- wp (write_volatile _ _ _) _ _ => apply wp_write_volatile
  end.
