(* ===== verification/FrameAllocator.v ===== *)
(** * The global frame allocator (src/memory/frame_allocator/mod.rs)

    [GlobalFrameAllocator] hands out physical frames of the regions the boot
    loader marks usable and remembers in a bitmap of [u32] words which frames
    are in use.  This file models every operation but [init] (see FrameInit.v),
    relates the bitmap to a set of frame numbers, and shows that the allocator
    refines an abstract pool of frames. *)

From S2P Require Import Prelude Platform.
From stdpp Require Import sorting.
Local Open Scope Z_scope.

(** ** The code *)

Record GlobalFrameAllocator : Type := mkAllocator {
  memory_map : list MemoryRegion;
  next_usable : Z;
  bitmap : list Z;
}.

Definition set_next_usable (i : Z) (a : GlobalFrameAllocator) : GlobalFrameAllocator :=
  mkAllocator (memory_map a) i (bitmap a).
Definition set_bitmap (b : list Z) (a : GlobalFrameAllocator) : GlobalFrameAllocator :=
  mkAllocator (memory_map a) (next_usable a) b.

(** Index of the word of a frame in the bitmap, and the mask of its bit. *)
Definition frame_idx_to_parts (idx : Z) : Z * Z :=
  let int := as_usize idx / 32 in
  let bit := as_u32 idx mod 32 in
  (int, Z.shiftl 1 bit).

Definition is_used (a : GlobalFrameAllocator) (idx : Z) : outcome bool :=
  let '(int, mask) := frame_idx_to_parts idx in
  w ← index (bitmap a) int;
  mret (negb (Z.land w mask =? 0)).

Definition mark_used (idx : Z) : M GlobalFrameAllocator unit :=
  a ← get;
  let '(int, mask) := frame_idx_to_parts idx in
  w ← lift (index (bitmap a) int);
  put (set_bitmap (<[Z.to_nat int := Z.lor w mask]> (bitmap a)) a).

Definition mark_unused (idx : Z) : M GlobalFrameAllocator unit :=
  a ← get;
  let '(int, mask) := frame_idx_to_parts idx in
  w ← lift (index (bitmap a) int);
  put (set_bitmap (<[Z.to_nat int := Z.land w (not_w 32 mask)]> (bitmap a)) a).

Definition frame_in_use (a : GlobalFrameAllocator) (frame : Z) : outcome bool :=
  is_used a (frame / 0x1000).

(** The region lookup, with the comparison the source has. *)
Definition get_frame_ty `{BootInfo} (a : GlobalFrameAllocator) (frame : Z) :
    option MemoryRegionType :=
  region_type <$>
    find (λ v, (frame <=? start_addr (range v)) && (frame <? end_addr (range v)))
      (memory_map a).

Definition frame_range (r : MemoryRegion) : list Z :=
  seqZ (start_frame_number (range r))
    (end_frame_number (range r) - start_frame_number (range r)).

(** The indices of all usable frames, in the order of the memory map. *)
Definition usable_frames (mm : list MemoryRegion) : list Z :=
  filter (λ r, region_type r = Usable) mm ≫= frame_range.

Fixpoint find_unused (a : GlobalFrameAllocator) (iter : list Z) : outcome (option Z) :=
  match iter with
  | [] => mret None
  | i :: iter' =>
      used ← is_used a i;
      if negb used then mret (Some i) else find_unused a iter'
  end.

Definition recalculate_next_usable : M GlobalFrameAllocator bool :=
  a ← get;
  let iter := skip_while (λ r, r <? next_usable a) (usable_frames (memory_map a)) in
  found ← lift (find_unused a iter);
  match found with
  | Some i => put (set_next_usable i a) ≫= λ _, mret true
  | None => mret false
  end.

Definition allocate_frame `{Addresses} : M GlobalFrameAllocator (option Z) :=
  available ← recalculate_next_usable;
  if (available : bool) then
    a ← get;
    let i := next_usable a in
    mark_used i ≫= λ _,
    bytes ← lift (mul_w 64 i 0x1000);
    addr ← lift (PhysAddr_new bytes);
    mret (Some addr)
  else mret None.

Definition deallocate_frame (frame : Z) : M GlobalFrameAllocator unit :=
  mark_unused (frame / 0x1000).

(** ** Well-formed allocators *)

(** What the boot loader guarantees of its memory map: ranges are ordered,
    disjoint, and lie below the 52-bit physical address space. *)
Definition region_ok (r : MemoryRegion) : Prop :=
  0 ≤ start_frame_number (range r) ∧
  start_frame_number (range r) ≤ end_frame_number (range r) ∧
  end_frame_number (range r) ≤ 2 ^ 40.

Definition map_sorted (mm : list MemoryRegion) : Prop :=
  StronglySorted (λ r1 r2,
    end_frame_number (range r1) ≤ start_frame_number (range r2)) mm.

Definition map_ok (mm : list MemoryRegion) : Prop := Forall region_ok mm ∧ map_sorted mm.

(** The frames the bitmap has a bit for. *)
Definition capacity (a : GlobalFrameAllocator) : Z := 32 * Z.of_nat (length (bitmap a)).
Definition covered (a : GlobalFrameAllocator) (i : Z) : Prop := 0 ≤ i < capacity a ∧ u64 i.

Record wf (a : GlobalFrameAllocator) : Prop := {
  wf_words : Forall u32 (bitmap a);
  wf_map : map_ok (memory_map a);
  wf_covered : ∀ i, i ∈ usable_frames (memory_map a) → covered a i;
}.

(** ** The bitmap as a set of frame numbers *)

Definition frame_used (a : GlobalFrameAllocator) (i : Z) : bool :=
  Z.testbit (default 0 (bitmap a !! Z.to_nat (i / 32))) (i mod 32).

Definition used_set (a : GlobalFrameAllocator) : gset Z :=
  list_to_set (filter (λ i, frame_used a i = true) (seqZ 0 (capacity a))).

(** ** The abstract pool of frames *)

Record Pool : Type := mkPool {
  p_usable : list Z;
  p_cursor : Z;
  p_used : gset Z;
}.

(** The first usable frame from the cursor on that is not in use. *)
Definition pool_next (p : Pool) : option Z :=
  head (filter (λ i, p_cursor p ≤ i ∧ i ∉ p_used p) (p_usable p)).

Definition pool_alloc (p : Pool) : option Z * Pool :=
  match pool_next p with
  | Some i => (Some i, mkPool (p_usable p) i ({[i]} ∪ p_used p))
  | None => (None, p)
  end.

Definition pool_free (i : Z) (p : Pool) : Pool :=
  mkPool (p_usable p) (p_cursor p) (p_used p ∖ {[i]}).

Definition pool_of (a : GlobalFrameAllocator) : Pool :=
  mkPool (usable_frames (memory_map a)) (next_usable a) (used_set a).

(** ** The bitmap operations *)

(** [a'] is [a] with the bit of frame [i] set to [b], and nothing else changed. *)
Record flips (a : GlobalFrameAllocator) (i : Z) (b : bool) (a' : GlobalFrameAllocator) : Prop := {
  flips_map : memory_map a' = memory_map a;
  flips_cursor : next_usable a' = next_usable a;
  flips_length : length (bitmap a') = length (bitmap a);
  flips_words : Forall u32 (bitmap a) → Forall u32 (bitmap a');
  flips_bits j : 0 ≤ j → frame_used a' j = if decide (j = i) then b else frame_used a j;
}.

Section bitmap_facts.
Implicit Types (a : GlobalFrameAllocator) (i j : Z).

Lemma parts_eq i : u64 i → frame_idx_to_parts i = (i / 32, Z.shiftl 1 (i mod 32)).
Proof.
  intros Hi. unfold frame_idx_to_parts. rewrite (cast_id 64 i Hi).
  unfold cast. by rewrite <-(Znumtheory.Zmod_div_mod 32 (2 ^ 32) i) by (try lia; by exists (2 ^ 27)).
Qed.

Lemma covered_word a i : covered a i → ∃ w, bitmap a !! Z.to_nat (i / 32) = Some w.
Proof.
  intros [Hi _]. apply lookup_lt_is_Some_2. unfold capacity in Hi. lia.
Qed.

Lemma is_used_spec a i : covered a i → is_used a i = Ret (frame_used a i).
Proof.
  intros Hc. destruct (covered_word a i Hc) as [w Hw]. destruct Hc as [Hi Hu].
  unfold is_used. rewrite parts_eq, (index_ok _ _ w) by done. simpl.
  unfold frame_used. rewrite Hw. simpl. rewrite land_pow2_nonzero by lia. done.
Qed.

Lemma is_used_out a i : u64 i → capacity a ≤ i → is_used a i = Panic IndexOutOfBounds.
Proof.
  intros Hu Hi. unfold is_used. rewrite parts_eq, index_oob; [done| |done].
  unfold capacity in Hi. lia.
Qed.

(** Replacing the word of frame [i] by one that differs from it in bit
    [i mod 32] only. *)
Lemma flips_intro a i b w w' :
  0 ≤ i → bitmap a !! Z.to_nat (i / 32) = Some w →
  (u32 w → u32 w') →
  (∀ k, 0 ≤ k < 32 → Z.testbit w' k = if decide (k = i mod 32) then b else Z.testbit w k) →
  flips a i b (set_bitmap (<[Z.to_nat (i / 32) := w']> (bitmap a)) a).
Proof.
  intros Hi Hw Hu Hbits. split; simpl; try done.
  - apply length_insert.
  - intros HF. apply Forall_insert; [done|]. apply Hu. by eapply Forall_lookup_1 in Hw.
  - intros j Hj. unfold frame_used. simpl.
    destruct (decide (j / 32 = i / 32)) as [E|E].
    + rewrite E, list_lookup_insert_eq, Hw by (by eapply lookup_lt_Some). simpl.
      rewrite Hbits by lia.
      destruct (decide (j = i)) as [->|Hne]; [by rewrite decide_True|].
      rewrite decide_False; [done|]. lia.
    + rewrite list_lookup_insert_ne by lia.
      rewrite decide_False; [done|]. by intros ->.
Qed.

Lemma mark_used_run a i : covered a i →
  ∃ a', mark_used i a = Ret (tt, a') ∧ flips a i true a'.
Proof.
  intros Hc. destruct (covered_word a i Hc) as [w Hw]. destruct Hc as [Hi Hu].
  eexists. split.
  - unfold mark_used. erewrite run_bind by done. rewrite parts_eq by done.
    by rewrite (index_ok _ _ w).
  - eapply flips_intro; [lia|done| |].
    + intros. apply fits_lor; [lia|done|]. apply fits_shiftl; [lia| |lia].
      split; [lia|]. apply (Z.pow_gt_1 2); lia.
    + intros k Hk. rewrite Z.lor_spec, testbit_pow2 by lia.
      case_decide; case_bool_decide; try done; by rewrite ?orb_true_r, ?orb_false_r.
Qed.

Lemma mark_unused_run a i : covered a i →
  ∃ a', mark_unused i a = Ret (tt, a') ∧ flips a i false a'.
Proof.
  intros Hc. destruct (covered_word a i Hc) as [w Hw]. destruct Hc as [Hi Hu].
  eexists. split.
  - unfold mark_unused. erewrite run_bind by done. rewrite parts_eq by done.
    by rewrite (index_ok _ _ w).
  - eapply flips_intro; [lia|done| |].
    + intros. apply fits_land_l; [lia|done].
    + intros k Hk. rewrite Z.land_spec, testbit_not_w, testbit_pow2 by lia.
      case_decide; case_bool_decide; try done; simpl; by rewrite ?andb_true_r, ?andb_false_r.
Qed.

Lemma mark_used_out a i : u64 i → capacity a ≤ i →
  mark_used i a = Panic IndexOutOfBounds ∧ mark_unused i a = Panic IndexOutOfBounds.
Proof.
  intros Hu Hi. assert (index (bitmap a) (i / 32) = Panic IndexOutOfBounds) as E.
  { apply index_oob. unfold capacity in Hi. lia. }
  unfold mark_used, mark_unused. rewrite parts_eq by done.
  split; erewrite run_bind by done; apply run_bind_panic; by rewrite E.
Qed.

Lemma flips_capacity a i b a' : flips a i b a' → capacity a' = capacity a.
Proof. intros []. unfold capacity. by f_equal; f_equal. Qed.

Lemma flips_wf a i b a' : flips a i b a' → wf a → wf a'.
Proof.
  intros Hf [H1 H2 H3]. pose proof (flips_capacity _ _ _ _ Hf) as Hcap.
  destruct Hf. split; [auto|congruence|].
  unfold covered in *. intros j. rewrite Hcap. rewrite flips_map0. apply H3.
Qed.

Lemma elem_of_used_set a j : j ∈ used_set a ↔ 0 ≤ j < capacity a ∧ frame_used a j = true.
Proof.
  unfold used_set. rewrite elem_of_list_to_set, list_elem_of_filter, elem_of_seqZ.
  naive_solver lia.
Qed.

Lemma flips_used_set a i b a' : flips a i b a' → covered a i →
  used_set a' = if b then {[i]} ∪ used_set a else used_set a ∖ {[i]}.
Proof.
  intros Hf [Hi _]. apply set_eq. intros j.
  rewrite elem_of_used_set, (flips_capacity _ _ _ _ Hf).
  destruct b; rewrite ?elem_of_union, ?elem_of_difference, elem_of_singleton, elem_of_used_set.
  all: destruct (decide (0 ≤ j < capacity a)) as [Hj|Hj]; [|naive_solver].
  all: rewrite (flips_bits _ _ _ _ Hf) by lia; case_decide; naive_solver.
Qed.
End bitmap_facts.

(** ** The usable frames of a memory map *)

Section usable.
Implicit Types (mm : list MemoryRegion) (l : list Z).

Lemma elem_of_frame_range r i :
  i ∈ frame_range r ↔ start_frame_number (range r) ≤ i < end_frame_number (range r).
Proof. unfold frame_range. rewrite elem_of_seqZ. lia. Qed.

Lemma elem_of_usable_frames mm i :
  i ∈ usable_frames mm ↔ ∃ r, r ∈ mm ∧ region_type r = Usable ∧ i ∈ frame_range r.
Proof.
  unfold usable_frames. rewrite list_elem_of_bind.
  setoid_rewrite list_elem_of_filter. naive_solver.
Qed.

Lemma usable_frames_bound mm i : Forall region_ok mm → i ∈ usable_frames mm → 0 ≤ i < 2 ^ 40.
Proof.
  intros HF (r & Hr & _ & Hi)%elem_of_usable_frames.
  rewrite elem_of_frame_range in Hi. rewrite Forall_forall in HF.
  destruct (HF r Hr) as (? & ? & ?). lia.
Qed.

Lemma StronglySorted_seqZ m n : StronglySorted Z.lt (seqZ m n).
Proof.
  destruct (Z.le_gt_cases n 0) as [?|Hn]; [rewrite seqZ_nil by done; constructor|].
  revert m Hn. induction (Z.lt_wf 0 n) as [n _ IH]. intros m Hn.
  rewrite seqZ_cons by done. constructor.
  - destruct (decide (n = 1)) as [->|]; [constructor|]. apply IH; lia.
  - apply Forall_forall. intros x Hx%elem_of_seqZ. lia.
Qed.

Lemma StronglySorted_app_lt l1 l2 :
  StronglySorted Z.lt l1 → StronglySorted Z.lt l2 →
  (∀ x y, x ∈ l1 → y ∈ l2 → x < y) → StronglySorted Z.lt (l1 ++ l2).
Proof.
  intros H1 H2 Hlt. induction H1 as [|x l1 H1 IH HF]; simpl; [done|]. constructor.
  - apply IH. intros. apply Hlt; [by right|done].
  - apply Forall_app. split; [done|]. apply Forall_forall. intros y Hy. apply Hlt; [left|done].
Qed.

Lemma usable_frames_sorted mm : map_ok mm → StronglySorted Z.lt (usable_frames mm).
Proof.
  intros [Hok Hs]. unfold usable_frames. induction Hs as [|r mm Hs IH HF]; [constructor|].
  apply Forall_cons in Hok as [Hr Hok]. rewrite filter_cons.
  case_decide; [|by apply IH]. simpl. apply StronglySorted_app_lt.
  - apply StronglySorted_seqZ.
  - by apply IH.
  - intros x y Hx (r' & Hy & Hr')%list_elem_of_bind.
    apply list_elem_of_filter in Hr' as [_ Hr'].
    rewrite Forall_forall in HF. specialize (HF r' Hr').
    rewrite elem_of_frame_range in Hx, Hy. lia.
Qed.

(** On an ordered list, skipping the small elements is filtering them out. *)
Lemma skip_while_sorted l c : StronglySorted Z.lt l →
  skip_while (λ r, r <? c) l = filter (λ i, c ≤ i) l.
Proof.
  induction 1 as [|x l H IH HF]; simpl; [done|].
  rewrite filter_cons. destruct (Z.ltb_spec x c).
  - by rewrite decide_False by lia.
  - rewrite decide_True by done. f_equal. symmetry.
    apply filter_all. eapply Forall_impl; [exact HF|]. intros; simpl in *; lia.
Qed.
End usable.

(** ** Allocation and deallocation refine the pool *)

Section allocation.
Context `{Addresses} `{!AddressesLaws}.
Implicit Types (a : GlobalFrameAllocator) (i : Z).

Lemma find_unused_spec a l : (∀ i, i ∈ l → covered a i) →
  find_unused a l = Ret (head (filter (λ i, i ∉ used_set a) l)).
Proof.
  induction l as [|i l IH]; intros Hc; simpl; [done|].
  rewrite is_used_spec by (apply Hc; left). simpl.
  assert (i ∈ used_set a ↔ frame_used a i = true) as Hu.
  { rewrite elem_of_used_set. destruct (Hc i) as [??]; [left|naive_solver]. }
  rewrite filter_cons. destruct (frame_used a i); simpl.
  - rewrite decide_False by naive_solver. apply IH. intros. apply Hc. by right.
  - by rewrite decide_True by naive_solver.
Qed.

Lemma recalculate_run a : wf a →
  recalculate_next_usable a =
    match pool_next (pool_of a) with
    | Some i => Ret (true, set_next_usable i a)
    | None => Ret (false, a)
    end.
Proof.
  intros Hwf. unfold recalculate_next_usable. erewrite run_bind by done.
  rewrite skip_while_sorted by (apply usable_frames_sorted, Hwf).
  rewrite find_unused_spec.
  2: { intros i [_ Hi]%list_elem_of_filter. by apply Hwf. }
  unfold pool_next, pool_of. simpl.
  rewrite list_filter_filter.
  erewrite (list_filter_iff _ (λ i, next_usable a ≤ i ∧ i ∉ used_set a)) by naive_solver.
  by destruct (head _).
Qed.

Lemma pool_next_usable a i : pool_next (pool_of a) = Some i →
  i ∈ usable_frames (memory_map a) ∧ next_usable a ≤ i ∧ i ∉ used_set a.
Proof.
  unfold pool_next. intros Hh.
  assert (i ∈ filter (λ i, next_usable a ≤ i ∧ i ∉ used_set a) (usable_frames (memory_map a))) as Hi.
  { destruct (filter _ _) in Hh |- *; [done|]. injection Hh as ->. left. }
  apply list_elem_of_filter in Hi. naive_solver.
Qed.

Lemma allocate_run a : wf a →
  ∃ a', allocate_frame a = Ret ((λ i, i * 4096) <$> (pool_alloc (pool_of a)).1, a') ∧
    pool_of a' = (pool_alloc (pool_of a)).2 ∧ wf a' ∧ memory_map a' = memory_map a ∧
    capacity a' = capacity a.
Proof.
  intros Hwf. unfold allocate_frame, pool_alloc. pose proof (recalculate_run a Hwf) as Hrec.
  destruct (pool_next (pool_of a)) as [i|] eqn:En; erewrite run_bind by done; simpl.
  2: { by exists a. }
  apply pool_next_usable in En as (Hi & Hc & Hu).
  assert (covered a i) as Hcov by (by apply Hwf).
  destruct (mark_used_run (set_next_usable i a) i Hcov) as (a' & Hrun & Hf).
  erewrite run_bind by done. erewrite run_bind by done.
  assert (0 ≤ i < 2 ^ 40) as Hb by (eapply usable_frames_bound; [apply Hwf|done]).
  exists a'. unfold mul_w. simpl. rewrite checked_ok by (unfold fits; lia).
  erewrite run_bind by done. rewrite PhysAddr_new_ok by lia.
  erewrite run_bind by done. split; [done|].
  assert (wf (set_next_usable i a)) as Hwf1 by (destruct Hwf; by split).
  split_and!.
  - unfold pool_of. rewrite (flips_used_set _ _ _ _ Hf Hcov).
    rewrite (flips_map _ _ _ _ Hf), (flips_cursor _ _ _ _ Hf). done.
  - by eapply flips_wf.
  - apply (flips_map _ _ _ _ Hf).
  - by rewrite (flips_capacity _ _ _ _ Hf).
Qed.

Lemma deallocate_run a i : wf a → covered a i →
  ∃ a', deallocate_frame (i * 4096) a = Ret (tt, a') ∧
    pool_of a' = pool_free i (pool_of a) ∧ wf a' ∧ memory_map a' = memory_map a ∧
    capacity a' = capacity a.
Proof.
  intros Hwf Hcov. destruct (mark_unused_run a i Hcov) as (a' & Hrun & Hf).
  exists a'. unfold deallocate_frame. rewrite Z.div_mul by lia. split; [done|].
  split_and!.
  - unfold pool_of, pool_free. simpl. rewrite (flips_used_set _ _ _ _ Hf Hcov).
    by rewrite (flips_map _ _ _ _ Hf), (flips_cursor _ _ _ _ Hf).
  - by eapply flips_wf.
  - apply (flips_map _ _ _ _ Hf).
  - by rewrite (flips_capacity _ _ _ _ Hf).
Qed.
End allocation.

(** ** Runs of requests *)

(** A request names a frame by its number. *)
Inductive request : Type :=
  | Allocate
  | Deallocate (i : Z).

Definition serve `{Addresses} (q : request) : M GlobalFrameAllocator (option Z) :=
  match q with
  | Allocate => allocate_frame
  | Deallocate i => deallocate_frame (i * 4096) ≫= λ _, mret None
  end.

Fixpoint serve_all `{Addresses} (qs : list request) : M GlobalFrameAllocator (list (option Z)) :=
  match qs with
  | [] => mret []
  | q :: qs' => r ← serve q; rs ← serve_all qs'; mret (r :: rs)
  end.

Definition pool_serve (q : request) (p : Pool) : option Z * Pool :=
  match q with
  | Allocate => let '(r, p') := pool_alloc p in ((λ i, i * 4096) <$> r, p')
  | Deallocate i => (None, pool_free i p)
  end.

Fixpoint pool_serve_all (qs : list request) (p : Pool) : list (option Z) * Pool :=
  match qs with
  | [] => ([], p)
  | q :: qs' =>
      let '(r, p') := pool_serve q p in
      let '(rs, p'') := pool_serve_all qs' p' in (r :: rs, p'')
  end.

(** The frames a deallocation may name. *)
Definition request_ok (cap : Z) (q : request) : Prop :=
  match q with Allocate => True | Deallocate i => 0 ≤ i < cap ∧ u64 i end.

(** The allocator with the set of frames its clients own: a client frees only
    frames it owns. *)
Inductive owner_step `{Addresses} :
    GlobalFrameAllocator * gset Z → GlobalFrameAllocator * gset Z → Prop :=
  | own_alloc a own f a' :
      allocate_frame a = Ret (Some f, a') → owner_step (a, own) (a', {[f]} ∪ own)
  | own_fail a own a' :
      allocate_frame a = Ret (None, a') → owner_step (a, own) (a', own)
  | own_free a own f a' :
      f ∈ own → deallocate_frame f a = Ret (tt, a') → owner_step (a, own) (a', own ∖ {[f]}).

(** What holds of [a] and [own] once [a0] has served its clients. *)
Record owned_by (a0 a : GlobalFrameAllocator) (own : gset Z) : Prop := {
  ob_wf : wf a;
  ob_map : memory_map a = memory_map a0;
  ob_used i : i ∈ used_set a ↔ i ∈ used_set a0 ∨ i * 4096 ∈ own;
  ob_own f : f ∈ own →
    ∃ i, f = i * 4096 ∧ i ∈ usable_frames (memory_map a0) ∧ i ∉ used_set a0;
}.

Section runs.
Context `{Addresses} `{!AddressesLaws}.

Lemma serve_run a q : wf a → request_ok (capacity a) q →
  ∃ a', serve q a = Ret ((pool_serve q (pool_of a)).1, a') ∧
    pool_of a' = (pool_serve q (pool_of a)).2 ∧ wf a' ∧ capacity a' = capacity a.
Proof.
  intros Hwf Hq. destruct q as [|i]; simpl.
  - destruct (allocate_run a Hwf) as (a' & Hr & Hp & Hwf' & _ & Hc). exists a'.
    by destruct (pool_alloc (pool_of a)).
  - destruct (deallocate_run a i Hwf Hq) as (a' & Hr & Hp & Hwf' & _ & Hc). exists a'.
    by erewrite run_bind.
Qed.

(** Any frame handed out is usable and was not in use. *)
Lemma allocate_Some a f a' : wf a → allocate_frame a = Ret (Some f, a') →
  ∃ i, f = i * 4096 ∧ i ∈ usable_frames (memory_map a) ∧ next_usable a ≤ i ∧
    i ∉ used_set a ∧ used_set a' = {[i]} ∪ used_set a ∧ next_usable a' = i ∧
    wf a' ∧ memory_map a' = memory_map a.
Proof.
  intros Hwf Hr. destruct (allocate_run a Hwf) as (a1 & Hr1 & Hp & Hwf' & Hm & _).
  rewrite Hr in Hr1. unfold pool_alloc in Hr1, Hp.
  destruct (pool_next (pool_of a)) as [i|] eqn:En; simpl in *; [|by simplify_option_eq].
  injection Hr1 as -> <-. injection Hp as _ Hc Hu.
  apply pool_next_usable in En. naive_solver.
Qed.

Lemma allocate_None a a' : wf a → allocate_frame a = Ret (None, a') →
  a' = a ∧ ∀ i, i ∈ usable_frames (memory_map a) → next_usable a ≤ i → i ∈ used_set a.
Proof.
  intros Hwf Hr. unfold allocate_frame in Hr. pose proof (recalculate_run a Hwf) as Hrec.
  destruct (pool_next (pool_of a)) as [i|] eqn:En.
  - erewrite run_bind in Hr by done. simpl in Hr. inv_run.
  - erewrite run_bind in Hr by done. simpl in Hr. inv_run. split; [done|]. intros i Hi Hle.
    destruct (decide (i ∈ used_set a)) as [|Hn]; [done|exfalso].
    assert (i ∈ filter (λ i, next_usable a ≤ i ∧ i ∉ used_set a)
      (usable_frames (memory_map a))) as Hf by (by apply list_elem_of_filter).
    unfold pool_next in En. simpl in En. apply head_None in En. rewrite En in Hf. set_solver.
Qed.

Lemma deallocate_Ret a i a' : wf a → covered a i →
  deallocate_frame (i * 4096) a = Ret (tt, a') →
  used_set a' = used_set a ∖ {[i]} ∧ next_usable a' = next_usable a ∧ wf a' ∧
  memory_map a' = memory_map a.
Proof.
  intros Hwf Hc Hr. destruct (deallocate_run a i Hwf Hc) as (a1 & Hr1 & Hp & Hwf' & Hm & _).
  rewrite Hr in Hr1. injection Hr1 as <-. injection Hp as _ Hcur Hu. done.
Qed.

Lemma owned_by_step a0 a own a' own' :
  owned_by a0 a own → owner_step (a, own) (a', own') → owned_by a0 a' own'.
Proof.
  intros [Hwf Hm Hu Ho] Hs. inversion Hs as [? ? f ? Hr|? ? ? Hr|? ? f ? Hf Hr]; subst.
  - apply allocate_Some in Hr as (i & -> & Hi & Hle & Hn & Hu' & Hc & Hwf' & Hm'); [|done].
    rewrite Hm in Hi. split; [done|congruence| |].
    + intros j. rewrite Hu', elem_of_union, elem_of_singleton, Hu, elem_of_union,
        elem_of_singleton. split; [naive_solver|].
      intros [?|[?|?]]; [naive_solver| |naive_solver]. left. lia.
    + intros f Hf. apply elem_of_union in Hf as [->%elem_of_singleton|Hf]; [|by apply Ho].
      exists i. rewrite Hu in Hn. naive_solver.
  - by apply allocate_None in Hr as [-> _].
  - destruct (Ho f Hf) as (i & -> & Hi & Hn).
    assert (covered a i) as Hcov by (apply Hwf; congruence).
    apply deallocate_Ret in Hr as (Hu' & Hc & Hwf' & Hm'); [|done|done].
    split; [done|congruence| |].
    + intros j. rewrite Hu', elem_of_difference, elem_of_singleton, Hu, elem_of_difference,
        elem_of_singleton. split.
      * intros [[?|?] ?]; [by left|right; split; [done|lia]].
      * intros [?|[? ?]]; [split; [by left|by intros ->]|split; [by right|]]. by intros ->.
    + intros f [Hf' _]%elem_of_difference. by apply Ho.
Qed.

(** Ownership is kept, and the cursor never moves back. *)
Lemma owned_by_reachable a0 a own s :
  owned_by a0 a own → rtc owner_step (a, own) s →
  owned_by a0 s.1 s.2 ∧ next_usable a ≤ next_usable s.1.
Proof.
  intros Hstart.
  apply (rtc_ind_r (λ s, owned_by a0 s.1 s.2 ∧ next_usable a ≤ next_usable s.1) (a, own));
    [done|].
  intros [a1 own1] [a2 own2] _ Hs [Hob Hle]. split; [by eapply owned_by_step|]. simpl in *.
  destruct Hob as [Hwf1 Hm1 _ Ho1].
  inversion Hs as [? ? g ? Hg|? ? ? Hg|? ? g ? Hin Hg]; subst.
  - apply allocate_Some in Hg; naive_solver lia.
  - by apply allocate_None in Hg as [-> _].
  - destruct (Ho1 g Hin) as (k & -> & Hk & _).
    apply deallocate_Ret in Hg; [naive_solver lia|done|]. apply Hwf1. by rewrite Hm1.
Qed.

Lemma owned_by_start a0 : wf a0 → owned_by a0 a0 ∅.
Proof. split; [done|done|set_solver|set_solver]. Qed.
End runs.

(** ** Properties *)

Section properties.
Context `{Addresses} `{!AddressesLaws}.

(** C1. Refinement: from a well-formed state, any sequence of allocations and
    deallocations runs without panicking, gives exactly the answers of the
    abstract pool of frames (first free usable frame at or after the cursor),
    and ends in a well-formed state that represents the pool's final state. *)
Theorem allocator_refines_pool a qs :
  wf a → Forall (request_ok (capacity a)) qs →
  ∃ a', serve_all qs a = Ret ((pool_serve_all qs (pool_of a)).1, a') ∧
    pool_of a' = (pool_serve_all qs (pool_of a)).2 ∧ wf a'.
Proof.
  intros Hwf Hqs. revert a Hwf Hqs. induction qs as [|q qs IH]; intros a Hwf Hqs; simpl.
  { by exists a. }
  apply Forall_cons in Hqs as [Hq Hqs].
  destruct (serve_run a q Hwf Hq) as (a1 & Hr & Hp & Hwf1 & Hc).
  rewrite <-Hc in Hqs. destruct (IH a1 Hwf1 Hqs) as (a2 & Hr2 & Hp2 & Hwf2).
  exists a2. erewrite run_bind by done. erewrite run_bind by done.
  destruct (pool_serve q (pool_of a)) as [r p1]. simpl in *. subst p1.
  by destruct (pool_serve_all qs (pool_of a1)).
Qed.

(** C4. Exclusive ownership: whatever the clients do, as long as they free only
    frames they own, the frames marked in use are exactly those in use at the
    start and those owned now; every owned frame is usable and was free at the
    start; and the next frame handed out is owned by nobody. *)
Theorem ownership_exclusive a0 a own :
  wf a0 → rtc owner_step (a0, ∅) (a, own) →
  (∀ i, i ∈ used_set a ↔ i ∈ used_set a0 ∨ i * 4096 ∈ own) ∧
  (∀ f, f ∈ own → ∃ i, f = i * 4096 ∧
     i ∈ usable_frames (memory_map a0) ∧ i ∉ used_set a0) ∧
  (∀ f a', allocate_frame a = Ret (Some f, a') → f ∉ own).
Proof.
  intros Hwf Hr.
  apply (owned_by_reachable _ _ _ _ (owned_by_start a0 Hwf)) in Hr as [[Hwf' Hm Hu Ho] _].
  simpl in *.
  split_and!; [done|done|]. intros f a' Hal Hf.
  apply allocate_Some in Hal as (i & -> & _ & _ & Hn & _); [|done].
  apply Hn, Hu. by right.
Qed.

(** Exhaustion: [allocate_frame] answers [None], and changes nothing,
    exactly when every usable frame at or after the cursor is in use. *)
Theorem allocate_none_iff a :
  wf a →
  allocate_frame a = Ret (None, a) ↔
  (∀ i, i ∈ usable_frames (memory_map a) → next_usable a ≤ i → i ∈ used_set a).
Proof.
  intros Hwf. split; [by intros [_ Hr]%allocate_None|]. intros Hall.
  destruct (allocate_run a Hwf) as (a' & Hr & _).
  assert (pool_next (pool_of a) = None) as En.
  { unfold pool_next. simpl. rewrite filter_none; [done|].
    apply Forall_forall. naive_solver. }
  unfold pool_alloc in Hr. rewrite En in Hr. simpl in Hr.
  by pose proof (allocate_None a a' Hwf Hr) as [-> _].
Qed.

(** The cursor never moves back: once the cursor has passed frame [i], no
    later state of the allocator hands [i] out, even if [i] is freed. *)
Theorem frames_behind_cursor_are_lost a0 a1 own1 a own i f a' :
  wf a0 → rtc owner_step (a0, ∅) (a1, own1) → i < next_usable a1 →
  rtc owner_step (a1, own1) (a, own) → allocate_frame a = Ret (Some f, a') →
  f ≠ i * 4096.
Proof.
  intros Hwf Hr1 Hi Hr Hal.
  apply (owned_by_reachable _ _ _ _ (owned_by_start a0 Hwf)) in Hr1 as [Hob1 _].
  apply (owned_by_reachable _ _ _ _ Hob1) in Hr as [[Hwf' _ _ _] Hle]. simpl in *.
  apply allocate_Some in Hal as (k & -> & _ & Hk & _); [|done]. lia.
Qed.

(** Bitmap laws: marking and unmarking frame [i] change what [is_used] says
    of [i] and of no other frame, and keep every other part of the state. *)
Theorem bitmap_get_set a i j :
  covered a i → covered a j →
  ∃ a1 a2, mark_used i a = Ret (tt, a1) ∧ mark_unused i a = Ret (tt, a2) ∧
    is_used a1 j = Ret (if decide (j = i) then true else frame_used a j) ∧
    is_used a2 j = Ret (if decide (j = i) then false else frame_used a j) ∧
    is_used a j = Ret (frame_used a j) ∧
    next_usable a1 = next_usable a ∧ next_usable a2 = next_usable a ∧
    capacity a1 = capacity a ∧ capacity a2 = capacity a.
Proof.
  intros Hi Hj. destruct (mark_used_run a i Hi) as (a1 & Hr1 & Hf1).
  destruct (mark_unused_run a i Hi) as (a2 & Hr2 & Hf2). exists a1, a2.
  pose proof (flips_capacity _ _ _ _ Hf1) as C1. pose proof (flips_capacity _ _ _ _ Hf2) as C2.
  assert (covered a1 j ∧ covered a2 j) as [Hj1 Hj2] by (unfold covered in *; naive_solver congruence).
  rewrite !is_used_spec by done. destruct Hj as [[Hj0 _] _].
  rewrite (flips_bits _ _ _ _ Hf1), (flips_bits _ _ _ _ Hf2) by done.
  by destruct Hf1, Hf2.
Qed.

(** Bounds: a frame number beyond the bitmap makes every bitmap operation
    panic with an index error; nothing is read or written out of bounds. *)
Theorem bitmap_out_of_bounds a i :
  u64 i → capacity a ≤ i →
  is_used a i = Panic IndexOutOfBounds ∧ mark_used i a = Panic IndexOutOfBounds ∧
  mark_unused i a = Panic IndexOutOfBounds ∧
  deallocate_frame (i * 4096) a = Panic IndexOutOfBounds.
Proof.
  intros Hu Hi. pose proof (is_used_out a i Hu Hi). pose proof (mark_used_out a i Hu Hi).
  unfold deallocate_frame. rewrite Z.div_mul by lia. naive_solver.
Qed.
End properties.

Lemma regions_before mm1 r mm2 : map_ok (mm1 ++ r :: mm2) →
  Forall region_ok (mm1 ++ r :: mm2) ∧
  Forall (λ v, end_frame_number (range v) ≤ start_frame_number (range r)) mm1 ∧
  Forall (λ v, end_frame_number (range r) ≤ start_frame_number (range v)) mm2.
Proof.
  intros [Hok Hs]. split; [done|]. clear Hok.
  induction mm1 as [|v mm1 IH]; simpl in Hs; inversion Hs as [|? ? Hs' HF]; subst.
  - by split.
  - destruct (IH Hs') as [H1 H2]. split; [|done]. constructor; [|done].
    rewrite Forall_forall in HF. apply HF. set_solver.
Qed.

Lemma find_app_skip {A} (f : A → bool) l1 l2 :
  Forall (λ x, f x = false) l1 → find f (l1 ++ l2) = find f l2.
Proof. induction 1 as [|x l Hx _ IH]; simpl; [done|]. by rewrite Hx. Qed.

Section region_lookup.
Context `{BootInfo} `{!BootInfoLaws}.

(** The test of the region lookup, on frame numbers. *)
Lemma region_test r i : region_ok r →
  (i * 4096 <=? start_addr (range r)) && (i * 4096 <? end_addr (range r)) = true ↔
  i ≤ start_frame_number (range r) ∧ i < end_frame_number (range r).
Proof.
  intros (? & ? & ?). rewrite start_addr_spec, end_addr_spec by lia.
  rewrite andb_true_iff, Z.leb_le, Z.ltb_lt. lia.
Qed.

(** Region lookup at a region's start: for the first frame of a non-empty
    region, [get_frame_ty] answers that region's type. *)
Theorem get_frame_ty_start a r :
  map_ok (memory_map a) → r ∈ memory_map a →
  start_frame_number (range r) < end_frame_number (range r) →
  get_frame_ty a (start_frame_number (range r) * 4096) = Some (region_type r).
Proof.
  intros Hok (mm1 & mm2 & E)%list_elem_of_split Hne. unfold get_frame_ty.
  rewrite E in Hok |- *. pose proof (regions_before _ _ _ Hok) as (Hr & Hb & _).
  apply Forall_app in Hr as [Hr1 [Hr2 _]%Forall_cons].
  rewrite find_app_skip; simpl.
  - by rewrite (proj2 (region_test r (start_frame_number (range r)) Hr2) ltac:(lia)).
  - rewrite Forall_forall in Hr1, Hb |- *. intros v Hv.
    apply not_true_iff_false. rewrite region_test by auto.
    specialize (Hr1 v Hv) as (? & ? & ?). specialize (Hb v Hv). simpl in Hb. lia.
Qed.

(** C12. Region lookup for a frame [i] of a region [r]: only the first frame of [r]
    is reported with the type of [r].  For every other frame the answer is the type
    of the region that follows [r] in the memory map, and [None] exactly when [r] is
    the last one. *)
Theorem get_frame_ty_interior a mm1 r mm2 i :
  map_ok (memory_map a) → memory_map a = mm1 ++ r :: mm2 →
  start_frame_number (range r) ≤ i < end_frame_number (range r) →
  get_frame_ty a (i * 4096) =
    if bool_decide (i = start_frame_number (range r)) then Some (region_type r)
    else region_type <$> head mm2.
Proof.
  intros Hok E Hi. unfold get_frame_ty.
  rewrite E in Hok |- *. pose proof (regions_before _ _ _ Hok) as (Hr & Hb & Ha).
  apply Forall_app in Hr as [Hr1 [Hr2 Hr3]%Forall_cons].
  rewrite find_app_skip; simpl.
  - case_bool_decide as Hs.
    + by rewrite (proj2 (region_test r i Hr2) ltac:(lia)).
    + destruct (_ && _) eqn:Et; [apply region_test in Et; [lia|done]|].
      destruct mm2 as [|v mm2]; [done|]. simpl.
      apply Forall_cons in Ha as [Ha _], Hr3 as [Hv _].
      rewrite (proj2 (region_test v i Hv)); [done|]. destruct Hv as (? & ? & ?). lia.
  - rewrite Forall_forall in Hr1, Hb |- *. intros v Hv.
    apply not_true_iff_false. rewrite region_test by auto.
    specialize (Hr1 v Hv) as (? & ? & ?). specialize (Hb v Hv). simpl in Hb. lia.
Qed.
End region_lookup.

(** ** Witnesses *)

Module AllocatorWitness.
Import Reference.

(** A machine with three usable frames, numbers 1 to 3. *)
Definition demo_map : list MemoryRegion :=
  [mkRegion (mkRange 0 1) FrameZero; mkRegion (mkRange 1 4) Usable;
   mkRegion (mkRange 4 8) Reserved; mkRegion (mkRange 8 9) KernelStack].
Definition demo : GlobalFrameAllocator := mkAllocator demo_map 0 [0].

(** The allocator after the first [n] allocations. *)
Definition demo_after (n : nat) : GlobalFrameAllocator :=
  match serve_all (replicate n Allocate) demo with Ret (_, a) => a | Panic _ => demo end.

Lemma demo_map_ok : map_ok demo_map.
Proof. split; repeat constructor; simpl; lia. Qed.

Lemma demo_wf_at c w : u32 w → wf (mkAllocator demo_map c [w]).
Proof.
  intros Hw. split; simpl; [apply Forall_singleton, Hw|apply demo_map_ok|].
  intros i Hi. change (usable_frames demo_map) with [1; 2; 3] in Hi.
  unfold covered, capacity, u64, fits. simpl. set_unfold in Hi. lia.
Qed.

Lemma demo_wf : wf demo.
Proof. apply demo_wf_at. split; lia. Qed.

Lemma demo_own1 : rtc owner_step (demo, ∅) (demo_after 1, {[4096]} ∪ ∅).
Proof.
  eapply rtc_l; [|apply rtc_refl]. apply (own_alloc demo ∅ 4096 (demo_after 1)). by vm_compute.
Qed.

(** The frames owned after two allocations. *)
Definition own2 : gset Z := {[8192]} ∪ ({[4096]} ∪ ∅).

Lemma demo_own2 : rtc owner_step (demo, ∅) (demo_after 2, own2).
Proof.
  eapply rtc_r; [exact demo_own1|]. apply own_alloc. by vm_compute.
Qed.

Lemma allocator_refines_pool_witness :
  ∃ a', serve_all [Allocate; Allocate; Deallocate 2; Allocate; Allocate; Allocate] demo =
    Ret ([Some 4096; Some 8192; None; Some 8192; Some 12288; None], a').
Proof.
  destruct (allocator_refines_pool demo
    [Allocate; Allocate; Deallocate 2; Allocate; Allocate; Allocate] demo_wf) as (a' & Hr & _).
  - repeat constructor; simpl; unfold capacity, u64, fits; simpl; lia.
  - exists a'. rewrite Hr. by vm_compute.
Defined.

Lemma ownership_exclusive_witness : 12288 ∉ own2.
Proof.
  apply (ownership_exclusive demo (demo_after 2) own2 demo_wf demo_own2)
    with (a' := demo_after 3).
  by vm_compute.
Defined.

Lemma allocate_none_iff_witness :
  allocate_frame (mkAllocator demo_map 0 [14]) = Ret (None, mkAllocator demo_map 0 [14]).
Proof.
  apply (allocate_none_iff (mkAllocator demo_map 0 [14])).
  - apply demo_wf_at. split; lia.
  - intros i Hi _. simpl in Hi. change (usable_frames demo_map) with [1; 2; 3] in Hi.
    set_unfold in Hi.
    destruct_or?; subst i; by vm_compute.
Defined.

(** Frame 1 was allocated and freed, the pool is otherwise exhausted: the frame
    is usable and free, but the allocator answers that there is none. *)
Lemma frames_behind_cursor_witness :
  (∀ f a', allocate_frame (demo_after 2) = Ret (Some f, a') → f ≠ 1 * 4096) ∧
  serve_all [Allocate; Allocate; Allocate; Deallocate 1; Allocate] demo =
    Ret ([Some 4096; Some 8192; Some 12288; None; None], mkAllocator demo_map 3 [12]).
Proof.
  split; [|by vm_compute]. intros f a' Hf.
  apply (frames_behind_cursor_are_lost demo (demo_after 2) own2
    (demo_after 2) own2 1 f a' demo_wf demo_own2); [by vm_compute|apply rtc_refl|done].
Defined.

Lemma bitmap_get_set_witness :
  ∃ a1 a2, mark_used 5 (mkAllocator [] 0 [34; 7]) = Ret (tt, a1) ∧
    mark_unused 5 (mkAllocator [] 0 [34; 7]) = Ret (tt, a2) ∧
    is_used a1 33 = Ret true ∧ is_used a2 33 = Ret true.
Proof.
  destruct (bitmap_get_set (mkAllocator [] 0 [34; 7]) 5 33)
    as (a1 & a2 & H1 & H2 & H3 & H4 & _);
    [by repeat split|by repeat split|].
  exists a1, a2. by vm_compute in H3, H4.
Defined.

Lemma bitmap_out_of_bounds_witness : is_used demo 32 = Panic IndexOutOfBounds.
Proof. by apply (bitmap_out_of_bounds demo 32); [by split|by vm_compute]. Defined.

Lemma get_frame_ty_start_witness : get_frame_ty demo (4 * 4096) = Some Reserved.
Proof.
  apply (get_frame_ty_start demo (mkRegion (mkRange 4 8) Reserved) demo_map_ok);
    [set_solver|simpl; lia].
Defined.

(** Frame 5 is reserved, but is reported as part of the kernel's stack. *)
Lemma get_frame_ty_interior_witness : get_frame_ty demo (5 * 4096) = Some KernelStack.
Proof.
  rewrite (get_frame_ty_interior demo (take 2 demo_map) (mkRegion (mkRange 4 8) Reserved)
    (drop 3 demo_map) 5 demo_map_ok eq_refl ltac:(simpl; lia)).
  by vm_compute.
Defined.
End AllocatorWitness.
