(* ===== verification/Bootstrap.v ===== *)
(** * The bootstrap allocator (src/memory/frame_allocator/bootstrap.rs)

    Before the bitmap exists, [BootStrapAllocator] hands out the usable frames in
    the order of the memory map and counts, per region, how many it gave away.
    The names are those of the source with the prefix [bs_] where the global
    allocator has the same name. *)

From S2P Require Import Prelude Platform FrameAllocator.
Local Open Scope Z_scope.

(** ** The code *)

Record BootStrapAllocator : Type := mkBoot {
  bs_memory_map : list MemoryRegion;
  bs_next : Z;
  bs_used : list Z;
}.

(** [(s..e).step_by(k)] *)
Definition step_by_range (s e k : Z) : list Z :=
  (λ j, s + k * j) <$> seqZ 0 ((e - s + k - 1) / k).

Definition enumerate {A} (l : list A) : list (nat * A) := zip (seq 0 (length l)) l.

(** [Iterator::nth] on an iterator whose elements are computed when they are
    reached: an element that panics stops the search. *)
Fixpoint iter_nth {A} (l : list (outcome A)) (n : nat) : outcome (option A) :=
  match l with
  | [] => mret None
  | x :: l' =>
      a ← x;
      match n with O => mret (Some a) | S n' => iter_nth l' n' end
  end.

Section code.
Context `{BootInfo} `{Addresses}.

Definition bs_usable_frames (s : BootStrapAllocator) : list (outcome (Z * nat)) :=
  let usable_regions :=
    filter (λ p, region_type p.2 = Usable) (enumerate (bs_memory_map s)) in
  let addr_ranges :=
    (λ p, (p.1, (start_addr (range p.2), end_addr (range p.2)))) <$> usable_regions in
  let frame_addresses :=
    addr_ranges ≫= λ p, (λ addr, (addr, p.1)) <$> step_by_range p.2.1 p.2.2 4096 in
  (λ q, a ← PhysAddr_new q.1; mret (frame_containing_address a, q.2)) <$> frame_addresses.

Definition bs_allocate_frame : M BootStrapAllocator (option Z) :=
  s ← get;
  o ← lift (iter_nth (bs_usable_frames s) (Z.to_nat (bs_next s)));
  match o with
  | None => mret None
  | Some (frame, block) =>
      next ← lift (add_w 64 (bs_next s) 1);
      count ← lift (index (bs_used s) (Z.of_nat block));
      count' ← lift (add_w 64 count 1);
      put (mkBoot (bs_memory_map s) next (<[block := count']> (bs_used s))) ≫= λ _,
      mret (Some frame)
  end.

Definition allocate_bitmap_frame {T} `{Mapper T} (addr : Z) : M (T * BootStrapAllocator) unit :=
  o ← on_snd bs_allocate_frame;
  frame ← lift (expect o "Failed to allocate frame");
  page ← lift (VirtAddr_new addr);
  r ← map_to bs_allocate_frame page frame (mkFlags true true false false);
  lift (expect_ok r "Failed to map").
End code.

(** ** The frames, numbered, with the region they come from *)

Fixpoint boot_frames_from (k : nat) (mm : list MemoryRegion) : list (Z * nat) :=
  match mm with
  | [] => []
  | r :: mm' =>
      (if decide (region_type r = Usable) then (λ i, (i, k)) <$> frame_range r else []) ++
      boot_frames_from (S k) mm'
  end.
Definition boot_frames (mm : list MemoryRegion) : list (Z * nat) := boot_frames_from 0 mm.

(** How many of the frames [l] come from region [b]. *)
Definition from_region (b : nat) (l : list (Z * nat)) : list (Z * nat) :=
  filter (λ p, p.2 = b) l.

(** The state after the first [bs_next] frames have been handed out. *)
Record boot_inv (mm : list MemoryRegion) (s : BootStrapAllocator) : Prop := {
  bi_map : bs_memory_map s = mm;
  bi_next : 0 ≤ bs_next s ≤ Z.of_nat (length (boot_frames mm));
  bi_length : length (bs_used s) = 64%nat;
  bi_used b : (b < 64)%nat →
    bs_used s !! b =
      Some (Z.of_nat (length (from_region b (take (Z.to_nat (bs_next s)) (boot_frames mm)))));
}.

Definition boot_init (mm : list MemoryRegion) : BootStrapAllocator :=
  mkBoot mm 0 (replicate 64 0).

Section boot_frames_facts.
Implicit Types (mm : list MemoryRegion).

Lemma boot_frames_fst k mm : (boot_frames_from k mm).*1 = usable_frames mm.
Proof.
  revert k. induction mm as [|r mm IH]; intros k; [done|]. unfold usable_frames. simpl.
  rewrite fmap_app, IH, filter_cons. case_decide; simpl; [|done].
  rewrite <-list_fmap_compose. by rewrite list_fmap_id.
Qed.

Lemma boot_frames_from_ge k mm i b : (i, b) ∈ boot_frames_from k mm → (k ≤ b < k + length mm)%nat.
Proof.
  revert k. induction mm as [|r mm IH]; intros k; simpl; [set_solver|].
  rewrite elem_of_app. intros [Hi|Hi].
  - case_decide; [|set_solver]. apply list_elem_of_fmap in Hi as (? & [= -> ->] & _). lia.
  - apply IH in Hi. lia.
Qed.

(** The frames of one region, in order. *)
Lemma from_region_all k mm b r : mm !! b = Some r →
  from_region (k + b) (boot_frames_from k mm) =
    if decide (region_type r = Usable) then (λ i, (i, (k + b)%nat)) <$> frame_range r else [].
Proof.
  revert k b. induction mm as [|r' mm IH]; intros k b; [done|]. simpl.
  unfold from_region. rewrite filter_app. destruct b as [|b]; simpl.
  - intros [= ->]. rewrite (filter_none _ (boot_frames_from _ _)).
    2: { apply Forall_forall. intros [i b] Hi%boot_frames_from_ge. simpl. lia. }
    rewrite app_nil_r, Nat.add_0_r. case_decide; [|done].
    apply filter_all, Forall_fmap, Forall_forall. done.
  - intros Hb. specialize (IH (S k) b Hb). unfold from_region in IH.
    replace (k + S b)%nat with (S k + b)%nat by lia. rewrite IH.
    rewrite filter_none; [done|].
    destruct (decide (region_type r' = Usable)); [|constructor].
    apply Forall_fmap, Forall_forall. intros i _. simpl. lia.
Qed.

Lemma filter_take_prefix {A} (P : A → Prop) `{!∀ x, Decision (P x)} n (l : list A) :
  filter P (take n l) = take (length (filter P (take n l))) (filter P l).
Proof.
  revert n. induction l as [|x l IH]; intros [|n]; simpl; try done.
  rewrite !filter_cons. case_decide; simpl; [by f_equal|done].
Qed.

(** The frames of region [b] among the first [n]: a prefix of the region. *)
Lemma from_region_prefix mm b r n : mm !! b = Some r → region_type r = Usable →
  let k := length (from_region b (take n (boot_frames mm))) in
  (from_region b (take n (boot_frames mm))).*1 = take k (frame_range r).
Proof.
  intros Hb Hu. pose proof (from_region_all 0 mm b r Hb) as E. rewrite decide_True in E by done.
  unfold from_region in *. simpl in *. unfold boot_frames.
  rewrite filter_take_prefix at 1. rewrite E, fmap_take, <-list_fmap_compose.
  by rewrite list_fmap_id.
Qed.

Lemma from_region_not_usable mm b r n : mm !! b = Some r → region_type r ≠ Usable →
  from_region b (take n (boot_frames mm)) = [].
Proof.
  intros Hb Hu. pose proof (from_region_all 0 mm b r Hb) as E. rewrite decide_False in E by done.
  unfold from_region in *. simpl in *. unfold boot_frames. rewrite filter_take_prefix, E.
  by rewrite take_nil.
Qed.

Lemma boot_frames_length k mm : Forall region_ok mm →
  Z.of_nat (length (boot_frames_from k mm)) ≤ Z.of_nat (length mm) * 2 ^ 40.
Proof.
  intros HF. revert k. induction HF as [|r mm (? & ? & ?) HF IH]; intros k; simpl; [lia|].
  specialize (IH (S k)). rewrite length_app. case_decide.
  - rewrite length_fmap. unfold frame_range. rewrite length_seqZ. lia.
  - simpl. lia.
Qed.

Lemma take_range s n k : 0 ≤ n → (k ≤ Z.to_nat n)%nat →
  take k (seqZ s n) = seqZ s (Z.of_nat k).
Proof.
  intros Hn Hk. replace n with (Z.of_nat k + (n - Z.of_nat k)) by lia.
  rewrite seqZ_app by lia. rewrite take_app_le by (rewrite length_seqZ; lia).
  apply take_ge. rewrite length_seqZ. lia.
Qed.
End boot_frames_facts.

(** ** The code hands out these frames, in order *)

Section bootstrap_facts.
Context `{BootInfo} `{!BootInfoLaws} `{Addresses} `{!AddressesLaws}.
Implicit Types (mm : list MemoryRegion) (s : BootStrapAllocator).

Lemma step_by_frames a b : 0 ≤ a ≤ b →
  step_by_range (a * 4096) (b * 4096) 4096 = (λ i, i * 4096) <$> seqZ a (b - a).
Proof.
  intros Hab. unfold step_by_range.
  replace ((b * 4096 - a * 4096 + 4096 - 1) / 4096) with (b - a) by lia.
  replace (seqZ a (b - a)) with (seqZ (a + 0) (b - a)) by (f_equal; lia).
  rewrite <-fmap_add_seqZ, <-list_fmap_compose.
  apply list_fmap_ext. intros j x _. simpl. lia.
Qed.

(** The element of the iterator for a numbered frame. *)
Definition boot_elem (p : Z * nat) : outcome (Z * nat) := Ret (p.1 * 4096, p.2).

Lemma bs_usable_frames_spec s : Forall region_ok (bs_memory_map s) →
  bs_usable_frames s = boot_elem <$> boot_frames (bs_memory_map s).
Proof.
  unfold bs_usable_frames, enumerate, boot_frames. generalize 0%nat as k, (bs_memory_map s) as mm.
  intros k mm HF. revert k. induction HF as [|r mm (? & ? & ?) HF IH]; intros k; [done|].
  simpl. rewrite filter_cons. simpl. specialize (IH (S k)).
  destruct (decide (region_type r = Usable)); simpl; [|done].
  rewrite !fmap_app. f_equal; [|exact IH].
  rewrite start_addr_spec, end_addr_spec, step_by_frames by lia.
  rewrite <-!list_fmap_compose. unfold frame_range.
  apply list_fmap_ext. intros j i Hi. simpl. apply list_elem_of_lookup_2, elem_of_seqZ in Hi.
  rewrite PhysAddr_new_ok by lia. unfold mbind, outcome_bind, boot_elem. simpl.
  rewrite frame_containing_spec, align_down_id by auto. done.
Qed.

Lemma iter_nth_Ret {A} (l : list A) n : iter_nth (Ret <$> l) n = Ret (l !! n).
Proof. revert n. induction l as [|x l IH]; intros [|n]; simpl; done || apply IH. Qed.

Lemma boot_init_inv mm : boot_inv mm (boot_init mm).
Proof.
  split; [done|simpl; lia|done|]. intros b Hb. cbn [boot_init bs_used bs_next].
  by rewrite lookup_replicate_2 by lia.
Qed.

Lemma from_region_snoc b (l : list (Z * nat)) p :
  from_region b (l ++ [p]) = from_region b l ++ if decide (p.2 = b) then [p] else [].
Proof. unfold from_region. by rewrite filter_app, filter_cons, filter_nil. Qed.

Lemma bs_allocate_run mm s : Forall region_ok mm → (length mm ≤ 64)%nat → boot_inv mm s →
  match boot_frames mm !! Z.to_nat (bs_next s) with
  | None => bs_allocate_frame s = Ret (None, s)
  | Some (i, b) => ∃ s', bs_allocate_frame s = Ret (Some (i * 4096), s') ∧
      boot_inv mm s' ∧ bs_next s' = bs_next s + 1
  end.
Proof.
  intros Hok Hlen [Hm Hn Hl Hu].
  assert (iter_nth (bs_usable_frames s) (Z.to_nat (bs_next s)) =
    Ret ((λ p, (p.1 * 4096, p.2)) <$> boot_frames mm !! Z.to_nat (bs_next s))) as Hit.
  { rewrite bs_usable_frames_spec, Hm by (by rewrite Hm).
    change boot_elem with (Ret ∘ λ p : Z * nat, (p.1 * 4096, p.2)).
    rewrite list_fmap_compose, iter_nth_Ret. by rewrite list_lookup_fmap. }
  unfold bs_allocate_frame. erewrite run_bind by done. rewrite Hit.
  destruct (boot_frames mm !! Z.to_nat (bs_next s)) as [[i b]|] eqn:E; [|done].
  erewrite run_bind by done. cbn -[Z.mul].
  pose proof (boot_frames_length 0 mm Hok) as Hbound. fold (boot_frames mm) in Hbound.
  pose proof (lookup_lt_Some _ _ _ E) as Hlt.
  assert (b < 64)%nat as Hb.
  { apply list_elem_of_lookup_2, boot_frames_from_ge in E. lia. }
  set (cnt := length (from_region b (take (Z.to_nat (bs_next s)) (boot_frames mm)))).
  assert (cnt ≤ Z.to_nat (bs_next s))%nat as Hcnt.
  { unfold cnt, from_region. etrans; [apply length_filter|]. rewrite length_take. lia. }
  eexists. unfold add_w. rewrite checked_ok by (unfold fits; lia).
  rewrite (index_ok _ _ (Z.of_nat cnt)) by (rewrite Nat2Z.id; by apply Hu).
  erewrite run_bind by done. erewrite run_bind by done.
  rewrite checked_ok by (unfold fits; lia). split; [done|]. split; [|done].
  split; simpl; [done|lia|by rewrite length_insert|].
  intros b' Hb'. replace (Z.to_nat (bs_next s + 1)) with (S (Z.to_nat (bs_next s))) by lia.
  rewrite (take_S_r _ _ _ E), from_region_snoc, length_app. simpl.
  destruct (decide (b = b')) as [->|Hne].
  - rewrite list_lookup_insert_eq by lia. simpl. f_equal. unfold cnt. lia.
  - rewrite list_lookup_insert_ne by done. rewrite Hu by done. simpl. f_equal. lia.
Qed.
End bootstrap_facts.

(** ** The counters describe the frames handed out *)

Section counters.
Implicit Types (mm : list MemoryRegion) (s : BootStrapAllocator).

Lemma elem_of_from_region b (l : list (Z * nat)) i :
  i ∈ (from_region b l).*1 ↔ (i, b) ∈ l.
Proof.
  unfold from_region. rewrite list_elem_of_fmap. setoid_rewrite list_elem_of_filter.
  split; [by intros ([? ?] & -> & <- & ?)|]. intros Hi. by exists (i, b).
Qed.

Lemma counted_frames mm s b r : boot_inv mm s → mm !! b = Some r → (b < 64)%nat →
  region_ok r →
  ∃ c, bs_used s !! b = Some c ∧ 0 ≤ c ∧
    start_frame_number (range r) + c ≤ end_frame_number (range r) ∧
    ∀ i, start_frame_number (range r) ≤ i < start_frame_number (range r) + c ↔
      (i, b) ∈ take (Z.to_nat (bs_next s)) (boot_frames mm).
Proof.
  intros [Hm Hn Hl Hu] Hb Hlt (H1 & H2 & H3). eexists. split; [by apply Hu|].
  set (l := take (Z.to_nat (bs_next s)) (boot_frames mm)).
  split; [lia|]. destruct (decide (region_type r = Usable)) as [Hus|Hus].
  - pose proof (from_region_prefix mm b r (Z.to_nat (bs_next s)) Hb Hus) as Hp. simpl in Hp.
    fold l in Hp. pose proof (f_equal length Hp) as Hpl.
    rewrite length_fmap, length_take in Hpl. unfold frame_range in Hpl, Hp.
    rewrite length_seqZ in Hpl. rewrite take_range in Hp by lia.
    split; [lia|]. intros i. rewrite <-elem_of_from_region, Hp, elem_of_seqZ. lia.
  - assert (from_region b l = []) as E by (by eapply from_region_not_usable).
    rewrite E. simpl. split; [lia|]. intros i. rewrite <-elem_of_from_region, E.
    split; [lia|set_solver].
Qed.

Lemma elem_of_take_usable mm n i :
  i ∈ take n (usable_frames mm) ↔ ∃ b, (i, b) ∈ take n (boot_frames mm).
Proof.
  unfold boot_frames. rewrite <-(boot_frames_fst 0 mm), <-fmap_take, list_elem_of_fmap.
  split; [intros ([? b] & -> & ?); by exists b|]. intros [b Hb]. by exists (i, b).
Qed.

Lemma take_boot_region mm n i b : Forall region_ok mm → (i, b) ∈ take n (boot_frames mm) →
  ∃ r, mm !! b = Some r ∧ i ∈ frame_range r.
Proof.
  intros Hok Hi. pose proof Hi as Hi0. apply elem_of_take in Hi0 as (j & Hj & _).
  apply list_elem_of_lookup_2 in Hj. pose proof (boot_frames_from_ge _ _ _ _ Hj) as [_ Hlt].
  destruct (lookup_lt_is_Some_2 mm b Hlt) as [r Hr]. exists r. split; [done|].
  pose proof (from_region_all 0 mm b r Hr) as E. simpl in E.
  assert (i ∈ (from_region b (boot_frames mm)).*1) as Hin by (by apply elem_of_from_region).
  unfold boot_frames in Hin. rewrite E in Hin. case_decide; [|set_solver].
  rewrite <-list_fmap_compose in Hin. by rewrite list_fmap_id in Hin.
Qed.
End counters.

(** [n] calls of [allocate_frame]. *)
Fixpoint bs_allocate_n `{BootInfo} `{Addresses} (n : nat) : M BootStrapAllocator (list (option Z)) :=
  match n with
  | O => mret []
  | S n' => r ← bs_allocate_frame; rs ← bs_allocate_n n'; mret (r :: rs)
  end.

Section bootstrap_properties.
Context `{BootInfo} `{!BootInfoLaws} `{Addresses} `{!AddressesLaws}.

Lemma lookups_past_end {A B} (g : A → B) (l : list A) k m : (length l ≤ k)%nat →
  (λ j, g <$> l !! j) <$> seq k m = replicate m None.
Proof.
  revert k. induction m as [|m IH]; intros k Hk; simpl; [done|].
  rewrite lookup_ge_None_2 by done. simpl. f_equal. apply IH. lia.
Qed.

Lemma bs_allocate_n_run mm n s : Forall region_ok mm → (length mm ≤ 64)%nat → boot_inv mm s →
  ∃ s', bs_allocate_n n s =
    Ret ((λ k, (λ p : Z * nat, p.1 * 4096) <$> boot_frames mm !! k) <$>
           seq (Z.to_nat (bs_next s)) n, s') ∧
    boot_inv mm s' ∧
    bs_next s' = bs_next s `max` ((bs_next s + Z.of_nat n) `min` Z.of_nat (length (boot_frames mm))).
Proof.
  intros Hok Hlen. revert s. induction n as [|n IH]; intros s Hs; simpl.
  { exists s. split_and!; [done|done|]. destruct Hs. lia. }
  pose proof (bs_allocate_run mm s Hok Hlen Hs) as Hr.
  destruct (boot_frames mm !! Z.to_nat (bs_next s)) as [[i b]|] eqn:E.
  - destruct Hr as (s1 & Hr & Hs1 & Hn1). destruct (IH s1 Hs1) as (s2 & Hr2 & Hs2 & Hn2).
    exists s2. erewrite run_bind by done. erewrite run_bind by done.
    rewrite Hn1 in *. destruct Hs. replace (Z.to_nat (bs_next s + 1)) with
      (S (Z.to_nat (bs_next s))) by lia.
    split_and!; [done|done|]. apply lookup_lt_Some in E. lia.
  - destruct (IH s Hs) as (s2 & Hr2 & Hs2 & Hn2).
    exists s2. erewrite run_bind by done. erewrite run_bind by done.
    apply lookup_ge_None in E. destruct Hs. split_and!; [|done|lia].
    by rewrite !lookups_past_end by lia.
Qed.

(** C11. The bootstrap allocator hands out the usable frames in the order of the
    memory map, then answers [None]; and its per-region counters describe exactly
    the frames given away: those of region [b] are the first [used[b]] frames of
    the region. *)
Theorem bootstrap_in_order mm n :
  Forall region_ok mm → (length mm ≤ 64)%nat →
  ∃ s', bs_allocate_n n (boot_init mm) =
      Ret ((λ k, (λ i, i * 4096) <$> usable_frames mm !! k) <$> seq 0 n, s') ∧
    ∀ b r, mm !! b = Some r → ∃ c, bs_used s' !! b = Some c ∧
      ∀ i, start_frame_number (range r) ≤ i < start_frame_number (range r) + c ↔
        (i, b) ∈ take n (boot_frames mm).
Proof.
  intros Hok Hlen.
  destruct (bs_allocate_n_run mm n _ Hok Hlen (boot_init_inv mm)) as (s' & Hr & Hs & Hn).
  exists s'. split.
  - rewrite Hr. simpl. do 2 f_equal. rewrite <-(boot_frames_fst 0 mm).
    apply list_fmap_ext. intros j k _. simpl. rewrite list_lookup_fmap. unfold boot_frames.
    by destruct (_ !! k).
  - intros b r Hb. pose proof (lookup_lt_Some _ _ _ Hb).
    rewrite Forall_lookup in Hok.
    destruct (counted_frames mm s' b r Hs Hb) as (c & Hc & _ & _ & Hi); [lia|by eapply Hok|].
    exists c. split; [done|]. intros i. rewrite Hi, Hn. simpl.
    destruct (Nat.le_gt_cases n (length (boot_frames mm))).
    + by replace (Z.to_nat _) with n by lia.
    + by rewrite !take_ge by lia.
Qed.
End bootstrap_properties.

Module BootstrapWitness.
Import Reference AllocatorWitness.

Lemma bootstrap_in_order_witness :
  ∃ s', bs_allocate_n 5 (boot_init demo_map) =
    Ret ([Some 4096; Some 8192; Some 12288; None; None], s').
Proof.
  destruct (bootstrap_in_order demo_map 5) as (s' & Hr & _).
  - repeat constructor; simpl; lia.
  - simpl; lia.
  - exists s'. rewrite Hr. by vm_compute.
Defined.
End BootstrapWitness.
