(* ===== verification/FrameInit.v ===== *)
(** * Initialisation of the frame allocator
      (src/memory/frame_allocator/mod.rs, [GlobalFrameAllocator::init])

    [init] maps enough frames for the bitmap with the bootstrap allocator, then
    marks in the bitmap the frames the bootstrap allocator gave away and the
    frames of regions that must not be used. *)

From S2P Require Import Prelude Platform FrameAllocator Bootstrap.
Local Open Scope Z_scope.

(** ** The code *)

Definition BITMAP_START : Z := 0x666666660000.
Definition BITS_PER_FRAME : Z := 0x1000 * 8.

(** The region types whose frames [init] leaves unmarked. *)
Definition left_unmarked (ty : MemoryRegionType) : bool :=
  match ty with
  | Usable | Reserved | AcpiReclaimable | FrameZero => true
  | _ => false
  end.

Definition mark_range (s e : Z) : M GlobalFrameAllocator unit :=
  mfor (seqZ s (e - s)) mark_used.

Definition mark_bootstrap (mm : list MemoryRegion) (used : list Z) : M GlobalFrameAllocator unit :=
  mfor (filter (λ p, p.2 ≠ 0) (enumerate used)) (λ p,
    r ← lift (index mm (Z.of_nat p.1));
    let start := start_frame_number (range r) in
    e ← lift (add_w 64 start p.2);
    mark_range start e).

Definition mark_reserved (mm : list MemoryRegion) : M GlobalFrameAllocator unit :=
  mfor mm (λ region,
    if left_unmarked (region_type region) then mret tt
    else mark_range (start_frame_number (range region)) (end_frame_number (range region))).

(** [raw i] is the content of the [i]-th word of the memory at [BITMAP_START]
    once it is mapped: [init] does not clear it. *)
Definition init {T} `{BootInfo} `{Addresses} `{Mapper T} (raw : nat → Z)
    (mm : list MemoryRegion) : M T GlobalFrameAllocator :=
  region ← lift (unwrap (last mm));
  let end_frame := end_frame_number (range region) in
  sum ← lift (add_w 64 end_frame BITS_PER_FRAME);
  num ← lift (sub_w 64 sum 1);
  let bitmap_frames := num / BITS_PER_FRAME in
  bootstrap ← with_local (mkBoot mm 0 (replicate 64 0))
    (mfor (seqZ 0 bitmap_frames) (λ i,
       off ← lift (mul_w 64 i 0x1000);
       addr ← lift (add_w 64 BITMAP_START off);
       allocate_bitmap_frame addr));
  len ← lift (add_w 64 (as_usize end_frame) 1);
  let this := mkAllocator mm 0 (raw <$> seq 0 (Z.to_nat len)) in
  marked ← lift ((mark_bootstrap mm (bs_used bootstrap.2) ≫= λ _,
                  mark_reserved (bs_memory_map bootstrap.2)) this);
  mret marked.2.

(** ** Marking sets of frames *)

Record marks (X : gset Z) (a a' : GlobalFrameAllocator) : Prop := {
  marks_map : memory_map a' = memory_map a;
  marks_cursor : next_usable a' = next_usable a;
  marks_length : length (bitmap a') = length (bitmap a);
  marks_words : Forall u32 (bitmap a) → Forall u32 (bitmap a');
  marks_used : used_set a' = X ∪ used_set a;
}.

Section marking.
Implicit Types (a : GlobalFrameAllocator).

Lemma marks_refl a : marks ∅ a a.
Proof. split; try done. set_solver. Qed.

Lemma marks_trans X Y a1 a2 a3 : marks X a1 a2 → marks Y a2 a3 → marks (X ∪ Y) a1 a3.
Proof.
  intros [] []. split; [congruence|congruence|congruence|auto|].
  rewrite marks_used1, marks_used0, (assoc_L (∪)). by rewrite (comm_L (∪) Y).
Qed.

Lemma marks_covered X a a' i : marks X a a' → covered a i → covered a' i.
Proof. intros []. unfold covered, capacity. by rewrite marks_length0. Qed.

Lemma mark_used_marks a i : covered a i → wp (mark_used i) (λ _ a', marks {[i]} a a') a.
Proof.
  intros Hc. destruct (mark_used_run a i Hc) as (a' & Hr & Hf). eapply wp_intro; [done|].
  pose proof (flips_used_set _ _ _ _ Hf Hc). by destruct Hf.
Qed.

(** A loop of marking steps marks the union. *)
Lemma wp_mfor_marks {X} (l : list X) (f : X → M GlobalFrameAllocator unit) (F : X → gset Z) a :
  (∀ x a1 Y, x ∈ l → marks Y a a1 → wp (f x) (λ _ a2, marks (F x) a1 a2) a1) →
  wp (mfor l f) (λ _ a', marks (⋃ (F <$> l)) a a') a.
Proof.
  intros Hf. apply (wp_mfor _ _ (λ pre a', marks (⋃ (F <$> pre)) a a')).
  { apply marks_refl. }
  intros pre x post a1 E Hm. eapply wp_mono; [eapply Hf; [set_solver|done]|].
  intros ? a2 Hm2. replace (⋃ (F <$> pre ++ [x])) with (⋃ (F <$> pre) ∪ F x).
  - by eapply marks_trans.
  - rewrite fmap_app, union_list_app_L. simpl. set_solver.
Qed.

Lemma union_singletons (l : list Z) : ⋃ ((λ i, {[i]} : gset Z) <$> l) = list_to_set l.
Proof.
  induction l as [|x l IH]; [done|].
  by rewrite fmap_cons, union_list_cons, list_to_set_cons, IH.
Qed.

Lemma mark_range_marks a s e n : n = e - s → (∀ i, s ≤ i < e → covered a i) →
  wp (mark_range s e) (λ _ a', marks (list_to_set (seqZ s n)) a a') a.
Proof.
  intros -> Hc. eapply wp_mono.
  - apply (wp_mfor_marks _ _ (λ i, {[i]})). intros i a1 Y Hi%elem_of_seqZ Hm.
    apply mark_used_marks. eapply marks_covered; [done|]. apply Hc. lia.
  - intros ? a' Hm.
    by rewrite union_singletons in Hm.
Qed.
End marking.

(** ** The regions of the memory map *)

(** The frames that must not be handed out: those of every region but the usable
    ones, the reserved and ACPI ones (left to the devices and the tables there) and
    frame zero. *)
Definition may_stay_free : list MemoryRegionType := [Usable; Reserved; AcpiReclaimable; FrameZero].

Definition reserved_frames (mm : list MemoryRegion) : gset Z :=
  list_to_set (filter (λ r, region_type r ∉ may_stay_free) mm ≫= frame_range).

Lemma elem_of_reserved_frames mm i :
  i ∈ reserved_frames mm ↔
  ∃ r, r ∈ mm ∧ region_type r ∉ may_stay_free ∧ i ∈ frame_range r.
Proof.
  unfold reserved_frames. rewrite elem_of_list_to_set, list_elem_of_bind.
  setoid_rewrite list_elem_of_filter. naive_solver.
Qed.

Lemma left_unmarked_spec ty : left_unmarked ty = bool_decide (ty ∈ may_stay_free).
Proof. by destruct ty. Qed.

(** The set the marking loop over the regions adds up. *)
Lemma reserved_frames_union mm :
  reserved_frames mm =
  ⋃ ((λ r, if left_unmarked (region_type r) then ∅ else list_to_set (frame_range r)) <$> mm).
Proof.
  apply set_eq. intros i. rewrite elem_of_reserved_frames, elem_of_union_list. split.
  - intros (r & Hr & Hl & Hi). exists (list_to_set (frame_range r)). split.
    + apply list_elem_of_fmap. exists r. by rewrite left_unmarked_spec, bool_decide_false.
    + by apply elem_of_list_to_set.
  - intros (X & HX & Hi). apply list_elem_of_fmap in HX as (r & -> & Hr). exists r.
    rewrite left_unmarked_spec in Hi. case_bool_decide; [by apply not_elem_of_empty in Hi|].
    by apply elem_of_list_to_set in Hi.
Qed.

Lemma regions_disjoint mm r1 r2 i : map_sorted mm → r1 ∈ mm → r2 ∈ mm →
  i ∈ frame_range r1 → i ∈ frame_range r2 → r1 = r2.
Proof.
  intros Hs. induction Hs as [|r mm Hs IH HF]; [by intros ?%not_elem_of_nil|].
  rewrite List.Forall_forall in HF. rewrite !elem_of_frame_range in *.
  intros [->|H1]%elem_of_cons [->|H2]%elem_of_cons; auto.
  - intros. specialize (HF r2 ltac:(by apply list_elem_of_In)). simpl in HF. lia.
  - intros. specialize (HF r1 ltac:(by apply list_elem_of_In)). simpl in HF. lia.
Qed.

Lemma NoDup_usable_frames mm : map_ok mm → NoDup (usable_frames mm).
Proof.
  intros Hs%usable_frames_sorted. induction Hs as [|x l Hs IH HF]; constructor; [|done].
  rewrite List.Forall_forall in HF. intros Hx%list_elem_of_In%HF. lia.
Qed.

Lemma region_end_le_last mm r v : map_ok mm → last mm = Some r → v ∈ mm →
  end_frame_number (range v) ≤ end_frame_number (range r).
Proof.
  intros Hok Hl Hv. apply last_Some in Hl as [mm1 ->].
  pose proof (regions_before _ _ _ Hok) as (Hr & Hb & _).
  apply elem_of_app in Hv as [Hv|Hv].
  - rewrite Forall_forall in Hb. specialize (Hb v Hv). simpl in Hb.
    apply Forall_app in Hr as [_ [(? & ? & ?) _]%Forall_cons]. lia.
  - set_unfold in Hv. destruct Hv; [by subst|done].
Qed.

Section marking_regions.
Implicit Types (mm : list MemoryRegion) (a : GlobalFrameAllocator).

Lemma mark_reserved_marks mm a : (∀ r i, r ∈ mm → i ∈ frame_range r → covered a i) →
  wp (mark_reserved mm) (λ _ a', marks (reserved_frames mm) a a') a.
Proof.
  intros Hc. rewrite reserved_frames_union. apply wp_mfor_marks. intros r a1 Y Hr Hm.
  destruct (left_unmarked (region_type r)); [apply wp_ret, marks_refl|].
  apply mark_range_marks; [done|]. intros i Hi. eapply marks_covered; [done|].
  apply (Hc r); [done|]. by apply elem_of_frame_range.
Qed.

Lemma elem_of_enumerate {A} (l : list A) k x : (k, x) ∈ enumerate l ↔ l !! k = Some x.
Proof.
  unfold enumerate. rewrite list_elem_of_lookup. setoid_rewrite lookup_zip_Some. split.
  - intros (j & [-> Hj]%lookup_seq & Hx). done.
  - intros Hx. exists k. split; [|done]. apply lookup_seq. split; [done|].
    by eapply lookup_lt_Some.
Qed.

(** The region a non-zero counter belongs to. *)
Lemma counter_region mm s b c : Forall region_ok mm → (length mm ≤ 64)%nat → boot_inv mm s →
  bs_used s !! b = Some c → c ≠ 0 →
  ∃ r, mm !! b = Some r ∧ region_ok r ∧ 0 ≤ c ∧
    start_frame_number (range r) + c ≤ end_frame_number (range r) ∧
    ∀ i, start_frame_number (range r) ≤ i < start_frame_number (range r) + c ↔
      (i, b) ∈ take (Z.to_nat (bs_next s)) (boot_frames mm).
Proof.
  intros Hok Hlen Hs Hb Hc. pose proof (lookup_lt_Some _ _ _ Hb) as Hlt.
  rewrite (bi_length _ _ Hs) in Hlt. pose proof (bi_used _ _ Hs b Hlt) as E.
  destruct (from_region b _) as [|[i b'] l] eqn:Ef; [rewrite Hb in E; injection E; simpl; lia|].
  assert ((i, b) ∈ take (Z.to_nat (bs_next s)) (boot_frames mm)) as Hi.
  { apply elem_of_from_region. rewrite Ef. left. }
  destruct (take_boot_region _ _ _ _ Hok Hi) as (r & Hr & _).
  assert (region_ok r) as Hrok by (by eapply Forall_lookup_1 in Hr).
  destruct (counted_frames mm s b r Hs Hr Hlt Hrok) as (c' & Hc' & ?). naive_solver.
Qed.

Lemma mark_bootstrap_marks mm s a : Forall region_ok mm → (length mm ≤ 64)%nat → boot_inv mm s →
  (∀ r i, r ∈ mm → i ∈ frame_range r → covered a i) →
  wp (mark_bootstrap mm (bs_used s))
    (λ _ a', marks (list_to_set (take (Z.to_nat (bs_next s)) (usable_frames mm))) a a') a.
Proof.
  intros Hok Hlen Hs Hc.
  set (F := λ p : nat * Z, match mm !! p.1 with
    | Some r => list_to_set (seqZ (start_frame_number (range r)) p.2) : gset Z | None => ∅ end).
  eapply wp_mono; [apply (wp_mfor_marks _ _ F)|].
  - intros [b c] a1 Y [Hc0 Hb%elem_of_enumerate]%list_elem_of_filter Hm. simpl in *.
    destruct (counter_region mm s b c) as (r & Hr & (? & ? & ?) & ? & ? & _); [done..|].
    apply wp_bind. eapply wp_lift; [by apply index_ok; rewrite Nat2Z.id|].
    apply wp_bind. eapply wp_lift; [apply checked_ok; unfold fits; lia|].
    unfold F. simpl. rewrite Hr.
    apply mark_range_marks; [lia|]. intros i Hi. eapply marks_covered; [done|].
    apply (Hc r); [by eapply list_elem_of_lookup_2|]. apply elem_of_frame_range. lia.
  - intros ? a' Hm. replace (list_to_set _) with (⋃ (F <$> filter (λ p, p.2 ≠ 0) (enumerate (bs_used s))));
      [done|]. apply set_eq. intros i. rewrite elem_of_union_list, elem_of_list_to_set.
    rewrite elem_of_take_usable. split.
    + intros (X & HX & Hi). apply list_elem_of_fmap in HX as ([b c] & -> & Hp).
      apply list_elem_of_filter in Hp as [Hc0 Hb%elem_of_enumerate]. simpl in *.
      destruct (counter_region mm s b c) as (r & Hr & _ & ? & ? & Hiff); [done..|].
      unfold F in Hi. simpl in Hi. rewrite Hr, elem_of_list_to_set, elem_of_seqZ in Hi.
      exists b. apply Hiff. lia.
    + intros [b Hi]. destruct (take_boot_region _ _ _ _ Hok Hi) as (r & Hr & _).
      assert (region_ok r) as Hrok by (by eapply Forall_lookup_1 in Hr).
      pose proof (lookup_lt_Some _ _ _ Hr).
      destruct (counted_frames mm s b r Hs Hr ltac:(lia) Hrok) as (c & Hcb & ? & ? & Hiff).
      apply Hiff in Hi. exists (F (b, c)). split.
      * apply list_elem_of_fmap. exists (b, c). split; [done|].
        apply list_elem_of_filter. split; [simpl; lia|by apply elem_of_enumerate].
      * unfold F. simpl. rewrite Hr, elem_of_list_to_set, elem_of_seqZ. lia.
Qed.
End marking_regions.

(** ** Mapping the bitmap *)

Section bitmap_loop.
Context `{BootInfo} `{!BootInfoLaws} `{Addresses} `{!AddressesLaws}.
Context {T : Type} `{Mapper T} `{!MapperLaws T}.
Context (mm : list MemoryRegion) (Hok : map_ok mm) (Hlen : (length mm ≤ 64)%nat).

(** The flags of a bitmap page. *)
Definition rw : PageTableFlags := mkFlags true true false false.

Lemma bs_allocate_safe k s : boot_inv mm s ∧ k ≤ bs_next s →
  wp bs_allocate_frame (λ _ s', boot_inv mm s' ∧ k ≤ bs_next s') s.
Proof.
  intros [Hs Hk]. pose proof (bs_allocate_run mm s (proj1 Hok) Hlen Hs) as Hr.
  destruct (_ !! _) as [[i b]|].
  - destruct Hr as (s' & Hr & Hs' & Hn). eapply wp_intro; [done|]. split; [done|lia].
  - by eapply wp_intro.
Qed.

(** The frames given away so far, split into those that back the bitmap's pages and
    those that became page tables. *)
Record given (t0 : T) (n : Z) (bk tb : list Z) (X : gset Z) : Prop := {
  gv_taken : bk ++ tb ≡ₚ take (Z.to_nat n) (usable_frames mm);
  gv_tables : X = list_to_set ((λ f, f * 4096) <$> tb) ∪ table_frames t0;
}.

Lemma take_more {A} (l : list A) (n : Z) x : 0 ≤ n → l !! Z.to_nat n = Some x →
  take (Z.to_nat (n + 1)) l = take (Z.to_nat n) l ++ [x].
Proof. intros Hn Hx. rewrite Z2Nat.inj_add, Nat.add_1_r by lia. by apply take_S_r. Qed.

Lemma boot_frame_usable k i b : boot_frames mm !! k = Some (i, b) → usable_frames mm !! k = Some i.
Proof.
  intros E. rewrite <-(boot_frames_fst 0 mm), list_lookup_fmap. unfold boot_frames in E. by rewrite E.
Qed.

(** Every frame the mapper gets while a bitmap page is mapped becomes a table. *)
Lemma bs_allocate_given t0 bk X s : boot_inv mm s ∧ (∃ tb, given t0 (bs_next s) bk tb X) →
  wp bs_allocate_frame
    (λ r s', boot_inv mm s' ∧ ∃ tb, given t0 (bs_next s') bk tb (option_to_set r ∪ X)) s.
Proof.
  intros [Hs [tb [Hp HX]]]. pose proof (bs_allocate_run mm s (proj1 Hok) Hlen Hs) as Hr.
  destruct (_ !! _) as [[i b]|] eqn:E.
  - destruct Hr as (s' & Hr & Hs' & Hn). eapply wp_intro; [done|]. split; [done|].
    exists (tb ++ [i]). rewrite Hn. split.
    + erewrite take_more; [|apply Hs|by eapply boot_frame_usable]. by rewrite (assoc_L (++)), Hp.
    + rewrite fmap_app, list_to_set_app_L, HX. simpl. set_solver.
  - eapply wp_intro; [done|]. split; [done|]. exists tb. split; [done|]. simpl. set_solver.
Qed.

Lemma bs_allocate_budget (budget : Z) (n : nat) s : budget ≤ Z.of_nat (length (boot_frames mm)) →
  boot_inv mm s ∧ bs_next s + Z.of_nat (S n) ≤ budget →
  ∃ i, usable_frames mm !! Z.to_nat (bs_next s) = Some i ∧
  wp bs_allocate_frame (λ r s', r = Some (i * 4096) ∧ bs_next s' = bs_next s + 1 ∧
    boot_inv mm s' ∧ bs_next s' + Z.of_nat n ≤ budget) s.
Proof.
  intros Hbud [Hs Hk]. pose proof (bs_allocate_run mm s (proj1 Hok) Hlen Hs) as Hr.
  destruct (lookup_lt_is_Some_2 (boot_frames mm) (Z.to_nat (bs_next s))) as [[i b] E].
  { destruct Hs. lia. }
  rewrite E in Hr. destruct Hr as (s' & Hr & Hs' & Hn). exists i. split.
  - by eapply boot_frame_usable.
  - eapply wp_intro; [done|]. rewrite Hn. split_and!; [done|done|done|lia].
Qed.

Context (t0 : T) (bf : Z) (Hbf : 0 ≤ bf ≤ 2 ^ 25).
Context (Hfree : ∀ i, 0 ≤ i < bf →
  pages t0 !! (BITMAP_START + i * 4096) = None ∧ huge t0 (BITMAP_START + i * 4096) = false).
Context (Hmem : 4 * bf ≤ Z.of_nat (length (boot_frames mm))).

(** The pages of the bitmap, backed by the frames [bk] in order. *)
Definition backed (bk : list Z) (t : T) : Prop :=
  ∀ k f, bk !! k = Some f → pages t !! (BITMAP_START + Z.of_nat k * 4096) = Some (f * 4096, rw).

(** After [j] iterations. *)
Record bitmap_inv (j : Z) (ts : T * BootStrapAllocator) : Prop := {
  bm_boot : boot_inv mm ts.2;
  bm_budget : bs_next ts.2 ≤ 4 * j;
  bm_huge : huge ts.1 = huge t0;
  bm_given : ∃ bk tb, length bk = Z.to_nat j ∧ backed bk ts.1 ∧
    given t0 (bs_next ts.2) bk tb (table_frames ts.1);
  bm_others p : (∀ i, 0 ≤ i < j → p ≠ BITMAP_START + i * 4096) →
    pages ts.1 !! p = pages t0 !! p;
}.

Lemma given_more n bk tb X f : 0 ≤ n → usable_frames mm !! Z.to_nat n = Some f →
  given t0 n bk tb X → given t0 (n + 1) (bk ++ [f]) tb X.
Proof.
  intros Hn Hf [Hp HX]. split; [|done]. erewrite take_more by done.
  rewrite <-Hp, <-!(assoc_L (++)). apply Permutation_app_head, Permutation_cons_append.
Qed.

Lemma backed_more bk f t t' j : length bk = Z.to_nat j → 0 ≤ j →
  pages t' = <[BITMAP_START + j * 4096 := (f * 4096, rw)]> (pages t) →
  backed bk t → backed (bk ++ [f]) t'.
Proof.
  intros Hl Hj Hp Hb k g Hk. rewrite Hp. apply lookup_app_Some in Hk as [Hk|[Hk1 Hk2]].
  - pose proof (lookup_lt_Some _ _ _ Hk). rewrite lookup_insert_ne by lia. by apply Hb.
  - apply list_lookup_singleton_Some in Hk2 as [Hk2 <-].
    replace (Z.of_nat k) with j by lia. apply lookup_insert_eq.
Qed.

(** Mapping one page of the bitmap to the frame [f] the allocator just gave. *)
Lemma bitmap_map j t s bk f :
  boot_inv mm s → bs_next s + 3 ≤ 4 * j + 4 → 0 ≤ j < bf →
  pages t !! (BITMAP_START + j * 4096) = None → huge t = huge t0 →
  (∃ tb, given t0 (bs_next s) bk tb (table_frames t)) →
  wp (map_to bs_allocate_frame (BITMAP_START + j * 4096) f rw) (λ r '(t', s'), r = Ok tt ∧
    boot_inv mm s' ∧ bs_next s' ≤ 4 * j + 4 ∧ huge t' = huge t0 ∧
    pages t' = <[BITMAP_START + j * 4096 := (f, rw)]> (pages t) ∧
    ∃ tb, given t0 (bs_next s') bk tb (table_frames t')) (t, s).
Proof.
  intros Hs Hb Hj Hnone Hh Hg. eapply wp_mono.
  - apply wp_conj; [|apply wp_conj].
    + apply (map_to_safe _ (boot_inv mm)); [|done]. intros s2 Hs2.
      eapply wp_mono; [apply (bs_allocate_safe 0); split; [done|apply Hs2]|]. naive_solver.
    + apply (map_to_total _ (λ n s, boot_inv mm s ∧ bs_next s + Z.of_nat n ≤ 4 * j + 4) _ _ _ _ _ 0).
      * intros n s2 Hs2. destruct (bs_allocate_budget (4 * j + 4) n s2) as (f2 & _ & Hw2); [lia|done|].
        eapply wp_mono; [exact Hw2|]. naive_solver.
      * split; [done|lia].
      * done.
      * rewrite Hh. by apply Hfree.
    + apply (map_to_tables _ (λ X s, boot_inv mm s ∧ ∃ tb, given t0 (bs_next s) bk tb X)); [|done].
      intros X s2. apply bs_allocate_given.
  - intros r [t' s'] [(Hs' & Hh' & Hp) [(-> & k & _ & _ & Hb') (_ & Hg')]].
    destruct Hp as [_ Hp]. split_and!; [done|done|lia|congruence|done|done].
Qed.

Lemma bitmap_step j ts : 0 ≤ j < bf → bitmap_inv j ts →
  wp (allocate_bitmap_frame (BITMAP_START + j * 4096)) (λ _ ts', bitmap_inv (j + 1) ts') ts.
Proof.
  intros Hj [Hs Hb Hh (bk & tb & Hl & Hbk & Hg) Ho]. destruct ts as [t s]. simpl in *.
  unfold allocate_bitmap_frame. wp_step. apply wp_on_snd.
  destruct (bs_allocate_budget (4 * j + 4) 3 s) as (f & Hf & Hw); [lia|split; [done|lia]|].
  eapply wp_mono; [exact Hw|]. intros ? s1 (-> & Hn1 & Hs1 & Hb1).
  wp_step. eapply wp_lift; [done|]. wp_step. eapply wp_lift.
  { apply VirtAddr_new_ok. unfold BITMAP_START. lia. }
  wp_step. eapply wp_mono; [apply (bitmap_map j t s1 (bk ++ [f]) (f * 4096)); try done|].
  - rewrite Ho by (intros; lia). by apply Hfree.
  - exists tb. rewrite Hn1. apply given_more; [apply Hs|done|done].
  - intros r [t2 s2] (-> & Hs2 & Hb2 & Hh2 & Hp2 & tb2 & Hg2). eapply wp_lift; [done|].
    split; simpl in *; [done|lia|done| |].
    + exists (bk ++ [f]), tb2. split_and!; [rewrite length_app; simpl; lia| |done].
      by eapply (backed_more bk f t t2 j); [|lia|..].
    + intros p Hp. rewrite Hp2, lookup_insert_ne by (apply not_eq_sym, Hp; lia).
      apply Ho. intros i Hi. apply Hp. lia.
Qed.

Lemma bitmap_loop_run :
  wp (mfor (seqZ 0 bf) (λ i,
        off ← lift (mul_w 64 i 0x1000);
        addr ← lift (add_w 64 BITMAP_START off);
        allocate_bitmap_frame addr))
    (λ _ ts, bitmap_inv bf ts) (t0, mkBoot mm 0 (replicate 64 0)).
Proof.
  apply (wp_mfor_range 0 bf _ bitmap_inv).
  - lia.
  - pose proof (boot_init_inv mm). split; simpl; try done; try lia.
    exists [], []. split_and!; [done|by intros ? ?|]. split; [done|]. simpl. set_solver.
  - intros i ts Hi Hinv. wp_step. eapply wp_lift; [apply checked_ok; unfold fits; lia|].
    wp_step. eapply wp_lift; [apply checked_ok; unfold fits, BITMAP_START; lia|].
    by apply bitmap_step.
Qed.
End bitmap_loop.

(** ** The state after [init] *)

(** The number of frames [init] maps for the bitmap. *)
Definition bitmap_frames (end_frame : Z) : Z := (end_frame + BITS_PER_FRAME - 1) / BITS_PER_FRAME.

(** The allocator before the marking loops: the bitmap is the memory as found. *)
Definition raw_allocator (raw : nat → Z) (mm : list MemoryRegion) (end_frame : Z) :
    GlobalFrameAllocator :=
  mkAllocator mm 0 (raw <$> seq 0 (Z.to_nat (end_frame + 1))).

(** What [init] needs: a well-formed map with at most 64 regions (the capacity
    of the boot loader's map) whose last region is [r], four usable frames per
    bitmap page (one for the page, at most three for page tables), and free
    virtual memory where the bitmap goes. *)
Record init_pre `{MapperLaws T} (mm : list MemoryRegion) (r : MemoryRegion) (t : T) : Prop := {
  ip_map : map_ok mm;
  ip_last : last mm = Some r;
  ip_length : (length mm ≤ 64)%nat;
  ip_memory : 4 * bitmap_frames (end_frame_number (range r)) ≤
    Z.of_nat (length (usable_frames mm));
  ip_free i : 0 ≤ i < bitmap_frames (end_frame_number (range r)) →
    pages t !! (BITMAP_START + i * 4096) = None ∧ huge t (BITMAP_START + i * 4096) = false;
}.

(** What [init] establishes: [bk] are the frames that back the pages of the bitmap
    and [tb] those that became page tables; together they are the frames the
    bootstrap allocator gave away, the first usable ones. *)
Record init_post `{MapperLaws T} (raw : nat → Z) (mm : list MemoryRegion) (r : MemoryRegion)
    (t : T) (a : GlobalFrameAllocator) (t' : T) (bk tb : list Z) : Prop := {
  io_wf : wf a;
  io_map : memory_map a = mm;
  io_cursor : next_usable a = 0;
  io_length : length (bitmap a) = Z.to_nat (end_frame_number (range r) + 1);
  io_used : used_set a =
    list_to_set (bk ++ tb) ∪ reserved_frames mm ∪
    used_set (raw_allocator raw mm (end_frame_number (range r)));
  io_first : bk ++ tb ≡ₚ take (length (bk ++ tb)) (usable_frames mm);
  io_backing : length bk = Z.to_nat (bitmap_frames (end_frame_number (range r)));
  io_bitmap : backed bk t';
  io_tables : table_frames t' = list_to_set ((λ f, f * 4096) <$> tb) ∪ table_frames t;
  io_taken : Z.of_nat (length (bk ++ tb)) ≤ 4 * bitmap_frames (end_frame_number (range r));
  io_huge : huge t' = huge t;
  io_others p : (∀ i, 0 ≤ i < bitmap_frames (end_frame_number (range r)) →
      p ≠ BITMAP_START + i * 4096) → pages t' !! p = pages t !! p;
}.

Section init_facts.
Context `{BootInfo} `{!BootInfoLaws} `{Addresses} `{!AddressesLaws}.
Context {T : Type} `{Mapper T} `{!MapperLaws T}.
Implicit Types (mm : list MemoryRegion) (t : T).

Lemma end_frame_bound mm r : map_ok mm → last mm = Some r →
  0 ≤ end_frame_number (range r) ≤ 2 ^ 40.
Proof.
  intros [Hok _] Hl. rewrite Forall_forall in Hok.
  destruct (Hok r) as (? & ? & ?); [by apply last_Some_elem_of|lia].
Qed.

Lemma raw_covered raw mm r : map_ok mm → last mm = Some r →
  ∀ v i, v ∈ mm → i ∈ frame_range v →
  covered (raw_allocator raw mm (end_frame_number (range r))) i.
Proof.
  intros Hok Hl v i Hv Hi%elem_of_frame_range.
  pose proof (end_frame_bound _ _ Hok Hl). pose proof (region_end_le_last _ _ _ Hok Hl Hv).
  destruct Hok as [Hr _]. rewrite Forall_forall in Hr. destruct (Hr v Hv) as (? & ? & ?).
  unfold covered, capacity, raw_allocator. simpl. rewrite length_fmap, length_seq.
  unfold u64, fits. lia.
Qed.

Lemma init_run raw mm r t : init_pre mm r t → (∀ k, u32 (raw k)) →
  wp (init raw mm) (λ a t', ∃ bk tb, init_post raw mm r t a t' bk tb) t.
Proof.
  intros [Hok Hl Hlen Hmem Hfree] Hraw. pose proof (end_frame_bound _ _ Hok Hl) as Hend.
  unfold init. wp_step. eapply wp_lift; [by rewrite Hl|].
  wp_step. eapply wp_lift; [apply checked_ok; unfold fits, BITS_PER_FRAME; lia|].
  wp_step. eapply wp_lift; [apply checked_ok; unfold fits, BITS_PER_FRAME; lia|].
  fold (bitmap_frames (end_frame_number (range r))).
  wp_step. apply wp_with_local. eapply wp_mono.
  { apply bitmap_loop_run; [done|done| |exact Hfree|].
    - unfold bitmap_frames, BITS_PER_FRAME. lia.
    - by rewrite <-(boot_frames_fst 0 mm), length_fmap in Hmem. }
  intros ? [t1 s1] [Hs Htk Hhg (bk & tb & Hbl & Hbk & [Hgt Hgx]) Ho]. simpl in *.
  wp_step. rewrite cast_id by (unfold fits; lia).
  eapply wp_lift; [apply checked_ok; unfold fits; lia|].
  fold (raw_allocator raw mm (end_frame_number (range r))).
  set (a0 := raw_allocator raw mm (end_frame_number (range r))).
  pose proof (raw_covered raw mm r Hok Hl) as Hc. fold a0 in Hc.
  assert (wp (mark_bootstrap mm (bs_used s1) ≫= λ _, mark_reserved (bs_memory_map s1))
    (λ _ a, marks (list_to_set (take (Z.to_nat (bs_next s1)) (usable_frames mm)) ∪
      reserved_frames mm) a0 a) a0) as (u & af & Hrun & Hmarks)%wp_elim.
  { wp_step. eapply wp_mono; [apply mark_bootstrap_marks; [apply Hok|done..]|].
    intros ? a1 Hm1. rewrite (bi_map _ _ Hs). eapply wp_mono.
    - apply mark_reserved_marks. intros v i Hv Hi. eapply marks_covered; [exact Hm1|by eapply Hc].
    - intros ? am Hm2. eapply marks_trans; [exact Hm1|exact Hm2]. }
  wp_step. eapply wp_lift; [exact Hrun|]. apply wp_ret. simpl.
  exists bk, tb. destruct Hmarks as [Hma Hcu Hle Hwo Hus].
  assert (length (bk ++ tb) ≤ Z.to_nat (bs_next s1))%nat as Hlen2
    by (rewrite Hgt, length_take; lia).
  split; try done.
  - split.
    + apply Hwo. apply Forall_fmap, Forall_forall. intros k _. apply Hraw.
    + by rewrite Hma.
    + rewrite Hma. intros i (v & Hv & _ & Hi)%elem_of_usable_frames.
      unfold covered, capacity. rewrite Hle. by eapply Hc.
  - rewrite Hle. simpl. by rewrite length_fmap, length_seq.
  - rewrite Hus. by rewrite (list_to_set_perm_L _ _ Hgt).
  - rewrite Hgt at 2. rewrite length_take. rewrite Hgt.
    destruct (Nat.min_spec (Z.to_nat (bs_next s1)) (length (usable_frames mm))) as [[_ ->]|[Hge ->]];
      [done|]. by rewrite !take_ge.
  - destruct Hs. lia.
Qed.

Lemma init_result raw mm r t a t' : init_pre mm r t → (∀ k, u32 (raw k)) →
  init raw mm t = Ret (a, t') → ∃ bk tb, init_post raw mm r t a t' bk tb.
Proof.
  intros Hpre Hraw Hrun. pose proof (init_run raw mm r t Hpre Hraw) as Hw.
  unfold wp in Hw. by rewrite Hrun in Hw.
Qed.

(** The pages of the bitmap region are mapped exactly up to the last bitmap frame. *)
Lemma init_bitmap_pages raw mm r t a t' bk tb p : init_post raw mm r t a t' bk tb →
  aligned p → BITMAP_START ≤ p → pages t !! p = None →
  is_Some (pages t' !! p) ↔ p < BITMAP_START + bitmap_frames (end_frame_number (range r)) * 4096.
Proof.
  intros Hpost Hal Hle Hnone.
  assert (∃ k, 0 ≤ k ∧ p = BITMAP_START + k * 4096) as (k & Hk & ->).
  { exists ((p - BITMAP_START) / 4096). unfold aligned, BITMAP_START in *. lia. }
  split.
  - intros [x Hx]. destruct (decide (k < bitmap_frames (end_frame_number (range r)))); [lia|].
    rewrite (io_others _ _ _ _ _ _ _ _ Hpost) in Hx by (intros; lia). congruence.
  - intros Hlt. destruct (lookup_lt_is_Some_2 bk (Z.to_nat k)) as [g Hg].
    { rewrite (io_backing _ _ _ _ _ _ _ _ Hpost). lia. }
    pose proof (io_bitmap _ _ _ _ _ _ _ _ Hpost _ _ Hg) as E.
    rewrite Z2Nat.id in E by lia. rewrite E. eauto.
Qed.
End init_facts.

(** ** Properties *)

Section init_properties.
Context `{BootInfo} `{!BootInfoLaws} `{Addresses} `{!AddressesLaws}.
Context {T : Type} `{Mapper T} `{!MapperLaws T}.

(** C5. Initialisation is correct: given enough usable memory, [init] does not
    panic; it maps every bitmap page read-write to a frame of its own, changes no
    other mapping, and adds to the page tables only frames it took for them; the
    frames it took for pages ([bk]) and for tables ([tb]) are all distinct and are
    the first usable ones; and it yields a well-formed allocator whose used frames
    are exactly those, those of the regions whose type is none of [Usable],
    [Reserved], [AcpiReclaimable] and [FrameZero], and those whose bit was already
    set in memory. *)
Theorem init_correct raw mm r (t : T) :
  init_pre mm r t → (∀ k, u32 (raw k)) →
  wp (init raw mm) (λ a t', ∃ bk tb, NoDup (bk ++ tb) ∧ init_post raw mm r t a t' bk tb) t.
Proof.
  intros Hpre Hraw. eapply wp_mono; [by apply init_run|].
  intros a t' (bk & tb & Hpost). exists bk, tb. split; [|done].
  rewrite (io_first _ _ _ _ _ _ _ _ Hpost).
  eapply sublist_NoDup; [apply NoDup_usable_frames, Hpre|apply sublist_take].
Qed.

(** C6. End to end: when the boot loader put no page table in a usable frame, then
    whatever the clients of the initialised allocator do, no frame they own holds a
    page table, backs a page of the bitmap, or lies in a region that is not usable. *)
Theorem init_reserves_frames raw mm r (t : T) a t' own a2 :
  init_pre mm r t → (∀ k, u32 (raw k)) →
  (∀ i, i ∈ usable_frames mm → i * 4096 ∉ table_frames t) →
  init raw mm t = Ret (a, t') → rtc owner_step (a, ∅) (a2, own) →
  ∀ f, f ∈ own →
    f ∉ table_frames t' ∧
    (∀ k, 0 ≤ k < bitmap_frames (end_frame_number (range r)) →
       ∃ g, pages t' !! (BITMAP_START + k * 4096) = Some (g, rw) ∧ g ≠ f) ∧
    ∃ i, f = i * 4096 ∧ ∀ v, v ∈ mm → i ∈ frame_range v → region_type v = Usable.
Proof.
  intros Hpre Hraw Htb Hrun Hr f Hf.
  destruct (init_result raw mm r t a t' Hpre Hraw Hrun) as (bk & tb & Hpost).
  apply (owned_by_reachable _ _ _ _ (owned_by_start a (io_wf _ _ _ _ _ _ _ _ Hpost)))
    in Hr as [[_ _ _ Ho] _]. simpl in Ho.
  destruct (Ho _ Hf) as (i & -> & Hu & Hn). rewrite (io_map _ _ _ _ _ _ _ _ Hpost) in Hu.
  rewrite (io_used _ _ _ _ _ _ _ _ Hpost) in Hn.
  assert (i ∉ bk ∧ i ∉ tb) as [Hbk Htb2] by set_solver. split_and!.
  - rewrite (io_tables _ _ _ _ _ _ _ _ Hpost), not_elem_of_union. split; [|by apply Htb].
    rewrite elem_of_list_to_set, list_elem_of_fmap. intros (j & E & Hj).
    by replace i with j in Htb2 by lia.
  - intros k Hk. destruct (lookup_lt_is_Some_2 bk (Z.to_nat k)) as [g Hg].
    { rewrite (io_backing _ _ _ _ _ _ _ _ Hpost). lia. }
    pose proof (io_bitmap _ _ _ _ _ _ _ _ Hpost _ _ Hg) as E. rewrite Z2Nat.id in E by lia.
    exists (g * 4096). split; [done|]. intros Eg. replace g with i in Hg by lia.
    by apply Hbk, (list_elem_of_lookup_2 _ (Z.to_nat k)).
  - exists i. split; [done|]. intros v Hv Hi. apply elem_of_usable_frames in Hu as (u & Hu & Ht & Hi2).
    by rewrite (regions_disjoint mm v u i (proj2 (ip_map _ _ _ Hpre)) Hv Hu Hi Hi2).
Qed.

(** The memory of the bitmap is used as found: if its words happen to be all
    ones, the allocator [init] returns has no frame to give although usable frames
    are free. *)
Theorem init_keeps_garbage mm r (t : T) a t' :
  init_pre mm r t → init (λ _, 2 ^ 32 - 1) mm t = Ret (a, t') →
  allocate_frame a = Ret (None, a).
Proof.
  intros Hpre Hrun.
  destruct (init_result (λ _, 2 ^ 32 - 1) mm r t a t' Hpre ltac:(by split) Hrun) as (bk & tb & Hpost).
  pose proof (io_wf _ _ _ _ _ _ _ _ Hpost) as Hwf.
  destruct (allocate_run a Hwf) as (a' & Ha & _).
  destruct ((pool_alloc (pool_of a)).1) as [i|] eqn:E; simpl in Ha.
  - apply allocate_Some in Ha as (j & _ & Hj & _ & Hn & _); [|done]. exfalso. apply Hn.
    rewrite (io_used _ _ _ _ _ _ _ _ Hpost). apply elem_of_union_r, elem_of_used_set.
    rewrite (io_map _ _ _ _ _ _ _ _ Hpost) in Hj.
    destruct Hpre as [Hok Hl _ _ _]. apply elem_of_usable_frames in Hj as (v & Hv & _ & Hjv).
    pose proof (raw_covered (λ _, 2 ^ 32 - 1) mm r Hok Hl v j Hv Hjv) as Hcov.
    split; [apply Hcov|]. destruct (covered_word _ _ Hcov) as [w Hw].
    unfold frame_used. rewrite Hw. simpl in *.
    apply list_lookup_fmap_Some_1 in Hw as (k & -> & _).
    apply (Z.ones_spec_low 32). destruct Hcov. lia.
  - by pose proof (allocate_None a a' Hwf Ha) as [-> _].
Qed.

(** Every bit [init] and the allocator touch for a frame below the last
    region's end lies in a word inside the mapped bitmap pages. *)
Theorem bitmap_words_mapped end_frame i :
  0 ≤ i < end_frame → end_frame ≤ 2 ^ 40 →
  0 ≤ (frame_idx_to_parts i).1 ∧
  4 * ((frame_idx_to_parts i).1 + 1) ≤ 0x1000 * bitmap_frames end_frame.
Proof.
  intros Hi He. rewrite parts_eq by (unfold u64, fits; lia). simpl.
  unfold bitmap_frames, BITS_PER_FRAME. lia.
Qed.

(** C13. The slice [init] builds over the bitmap counts one 32-bit word per frame
    instead of one bit.  On any machine with at least 1057 frames, where nothing
    was mapped at the addresses the slice covers, its words are on mapped pages
    exactly up to some [m] that is smaller than its length: from the [m]-th word on
    it reaches unmapped memory. *)
Theorem bitmap_slice_too_long raw mm r (t : T) a t' :
  init_pre mm r t → (∀ k, u32 (raw k)) → init raw mm t = Ret (a, t') →
  1057 ≤ end_frame_number (range r) →
  (∀ p, BITMAP_START ≤ p < BITMAP_START + 4 * Z.of_nat (length (bitmap a)) → pages t !! p = None) →
  ∃ m, (m < length (bitmap a))%nat ∧ ∀ k, (k < length (bitmap a))%nat →
    is_Some (pages t' !! align_down (BITMAP_START + 4 * Z.of_nat k)) ↔ (k < m)%nat.
Proof.
  intros Hpre Hraw Hrun He Hfree.
  destruct (init_result raw mm r t a t' Hpre Hraw Hrun) as (bk & tb & Hpost).
  rewrite (io_length _ _ _ _ _ _ _ _ Hpost) in *. set (e := end_frame_number (range r)) in *.
  exists (Z.to_nat (1024 * bitmap_frames e)).
  assert (0 ≤ bitmap_frames e ∧ 1024 * bitmap_frames e < e + 1) as [Hb1 Hb2]
    by (unfold bitmap_frames, BITS_PER_FRAME; lia).
  split; [lia|]. intros k Hk.
  pose proof (align_down_le (BITMAP_START + 4 * Z.of_nat k)).
  assert (BITMAP_START ≤ align_down (BITMAP_START + 4 * Z.of_nat k))
    by (unfold align_down, BITMAP_START; lia).
  rewrite (init_bitmap_pages _ _ _ _ _ _ _ _ _ Hpost); [|done|done|apply Hfree; lia].
  fold e. unfold align_down, BITMAP_START. lia.
Qed.
End init_properties.

(** ** Witnesses *)

Module InitWitness.
Import Reference.

(** A machine with nine frames in use by the kernel and 1100 frames in all. *)
Definition boot_map : list MemoryRegion :=
  [mkRegion (mkRange 0 1) FrameZero; mkRegion (mkRange 1 9) Usable;
   mkRegion (mkRange 9 1100) (OtherRegion 1)].
Definition boot_last : MemoryRegion := mkRegion (mkRange 9 1100) (OtherRegion 1).
Definition empty_tables : tables := mkTables ∅ ∅.
Definition zeroed (k : nat) : Z := 0.

(** The result of [init] on that machine. *)
Definition booted (raw : nat → Z) : GlobalFrameAllocator * tables :=
  match init raw boot_map empty_tables with
  | Ret p => p
  | Panic _ => (mkAllocator [] 0 [], empty_tables)
  end.

Lemma boot_pre : init_pre boot_map boot_last empty_tables.
Proof.
  split; [|done|simpl; lia|vm_compute; done|done].
  split; repeat constructor; simpl; lia.
Qed.

Lemma booted_run raw : (raw = zeroed ∨ raw = λ _, 2 ^ 32 - 1) →
  init raw boot_map empty_tables = Ret ((booted raw).1, (booted raw).2).
Proof. by intros [->| ->]; vm_compute. Qed.

Lemma init_correct_witness :
  ∃ a t' bk tb, init zeroed boot_map empty_tables = Ret (a, t') ∧
    NoDup (bk ++ tb) ∧ init_post zeroed boot_map boot_last empty_tables a t' bk tb.
Proof.
  pose proof (init_correct zeroed boot_map boot_last empty_tables boot_pre
    ltac:(by split)) as (a & t' & Hr & bk & tb & Hp)%wp_elim.
  exists a, t', bk, tb. exact (conj Hr Hp).
Defined.

Lemma no_tables i : i ∈ usable_frames boot_map → i * 4096 ∉ table_frames empty_tables.
Proof. intros _. by vm_compute. Qed.

(** Frames 1 and 2 hold the bitmap page and its table: the first client gets frame 3. *)
Lemma init_reserves_frames_witness :
  3 * 4096 ∉ table_frames (booted zeroed).2 ∧
  ∃ g, pages (booted zeroed).2 !! BITMAP_START = Some (g, rw) ∧ g ≠ 3 * 4096.
Proof.
  destruct (init_reserves_frames zeroed boot_map boot_last empty_tables
    (booted zeroed).1 (booted zeroed).2 ({[3 * 4096]} ∪ ∅)
    (match allocate_frame (booted zeroed).1 with Ret (_, a) => a | Panic _ => (booted zeroed).1 end)
    boot_pre ltac:(by split) no_tables (booted_run zeroed ltac:(by left))) with (3 * 4096)
    as (H1 & H2 & _).
  - eapply rtc_l; [|apply rtc_refl]. apply own_alloc. by vm_compute.
  - set_solver.
  - split; [exact H1|]. apply (H2 0). vm_compute. done.
Defined.

Lemma init_keeps_garbage_witness :
  allocate_frame (booted (λ _, 2 ^ 32 - 1)).1 = Ret (None, (booted (λ _, 2 ^ 32 - 1)).1).
Proof.
  apply (init_keeps_garbage boot_map boot_last empty_tables _ _ boot_pre
    (booted_run (λ _, 2 ^ 32 - 1) ltac:(by right))).
Defined.

Lemma bitmap_words_mapped_witness :
  4 * ((frame_idx_to_parts 40000).1 + 1) ≤ 0x1000 * bitmap_frames 40001.
Proof. apply (bitmap_words_mapped 40001 40000); lia. Defined.

Lemma bitmap_slice_too_long_witness :
  ∃ m, (m < length (bitmap (booted zeroed).1))%nat ∧
    ∀ k, (k < length (bitmap (booted zeroed).1))%nat →
      is_Some (pages (booted zeroed).2 !! align_down (BITMAP_START + 4 * Z.of_nat k)) ↔ (k < m)%nat.
Proof.
  apply (bitmap_slice_too_long zeroed boot_map boot_last empty_tables
    (booted zeroed).1 (booted zeroed).2 boot_pre ltac:(by split)
    (booted_run zeroed ltac:(by left))).
  - simpl. lia.
  - intros p _. apply lookup_empty.
Defined.
End InitWitness.
