(* ===== verification/Memory.v ===== *)
(** * Paging (src/memory/mod.rs)

    The global paging context is the page-table mapper and the frame allocator;
    it is created once by [memory_init] and then used, under its lock, by
    [mmap_dev], [unmap] and [map_range].  Every operation takes the lock once and
    releases it on return, so a call is a state transformer on the context. *)

From S2P Require Import Prelude Platform FrameAllocator Bootstrap FrameInit.
From stdpp Require Import sorting.
Local Open Scope Z_scope.

(** ** The code *)

(** [PagingContext { mapper, allocator }] *)
Definition PagingContext (T : Type) : Type := T * GlobalFrameAllocator.

(** [PAGING_CTX : Once<Mutex<PagingContext>>]: [None] until it is initialised. *)
Definition PagingState (T : Type) : Type := option (PagingContext T).

(** [PAGING_CTX.get().unwrap().lock()] *)
Definition with_ctx {T A} (m : M (PagingContext T) A) : M (PagingState T) A := λ s,
  match s with
  | None => Panic UnwrapNone
  | Some c =>
      match m c with
      | Ret (a, c') => Ret (a, Some c')
      | Panic p => Panic p
      end
  end.

Record UnmapGuard : Type := mkGuard {
  guard_page : Z;
  unmap_frame : bool;
}.

(** The extra page-table flags a device frame of the given type gets: whether it
    is writable. *)
Definition device_writable (ty : MemoryRegionType) (acpi : bool) : outcome bool :=
  match ty with
  | Reserved | FrameZero => Ret true
  | KernelStack => if acpi then Ret false else Panic (Explicit "Tried to mmap a device")
  | _ => Panic (Explicit "Tried to mmap a device")
  end.

Section code.
Context `{BootInfo} `{Addresses} {T : Type} `{Mapper T}.

Definition mmap_dev (frame : Z) (acpi : bool) : M (PagingState T) (Result UnmapGuard MapToError) :=
  with_ctx (
    ctx ← get;
    match get_frame_ty ctx.2 frame with
    | None => mret (Err FrameAllocationFailed)
    | Some ty =>
        writable ← lift (device_writable ty acpi);
        va ← lift (VirtAddr_new frame);
        let page := page_containing_address va in
        r ← identity_map allocate_frame frame (mkFlags true writable true true);
        match r with
        | Err e => mret (Err e)
        | Ok _ =>
            ctx' ← get;
            used ← lift (frame_in_use ctx'.2 frame);
            mret (Ok (mkGuard page (negb used)))
        end
    end).

Definition unmap (guard : UnmapGuard) : M (PagingState T) (Result unit UnmapError) :=
  with_ctx (
    r ← on_fst (mapper_unmap (guard_page guard));
    match r with
    | Err e => mret (Err e)
    | Ok frame =>
        (if unmap_frame guard then on_snd (deallocate_frame frame) else mret tt) ≫= λ _,
        mret (Ok tt)
    end).

Fixpoint map_pages (range : list Z) (flags : PageTableFlags) :
    M (PagingContext T) (Result unit MapToError) :=
  match range with
  | [] => mret (Ok tt)
  | page :: range' =>
      o ← on_snd allocate_frame;
      match o with
      | None => mret (Err FrameAllocationFailed)
      | Some frame =>
          r ← map_to allocate_frame page frame flags;
          match r with
          | Err e => mret (Err e)
          | Ok _ => map_pages range' flags
          end
      end
  end.

Definition map_range (range : list Z) (flags : PageTableFlags) :
    M (PagingState T) (Result unit MapToError) :=
  with_ctx (map_pages range flags).

(** [cr3] is the start address of the active level 4 table's frame, and
    [OffsetPageTable_new] the constructor of the [x86_64] crate. *)
Definition active_level_4_table (cr3 physical_memory_offset : Z) : outcome Z :=
  VirtAddr_add physical_memory_offset cr3.

Definition memory_init (OffsetPageTable_new : Z → Z → T) (raw : nat → Z)
    (cr3 physical_memory_offset : Z) (mm : list MemoryRegion) : M (PagingState T) unit := λ s,
  level_4_table ← active_level_4_table cr3 physical_memory_offset;
  let mapper := OffsetPageTable_new level_4_table physical_memory_offset in
  p ← init raw mm mapper;
  (** [call_once] *)
  match s with
  | None => Ret (tt, Some (p.2, p.1))
  | Some c => Ret (tt, Some c)
  end.
End code.

(** ** Well-formed contexts *)

(** The bitmap has a bit for every frame of the memory map. *)
Record ctx_ok {T} (c : PagingContext T) : Prop := {
  co_wf : wf c.2;
  co_covers r : r ∈ memory_map c.2 → end_frame_number (range r) ≤ capacity c.2;
}.

(** ** The frames the allocator can still hand out *)

Definition available (a : GlobalFrameAllocator) : list Z :=
  filter (λ i, next_usable a ≤ i ∧ i ∉ used_set a) (usable_frames (memory_map a)).

Lemma filter_ext_in (P Q : Z → Prop) `{!∀ x, Decision (P x), !∀ x, Decision (Q x)} (l : list Z) :
  (∀ x, x ∈ l → P x ↔ Q x) → filter P l = filter Q l.
Proof.
  induction l as [|x l IH]; intros HPQ; [done|]. rewrite !filter_cons.
  rewrite IH by (intros y Hy; apply HPQ; by right).
  assert (P x ↔ Q x) as Hx by (apply HPQ; by left).
  destruct (decide (P x)), (decide (Q x)); tauto.
Qed.

(** Taking the first element of a sorted list out of a filter. *)
Lemma filter_sorted_tail (P Q : Z → Prop) `{!∀ x, Decision (P x), !∀ x, Decision (Q x)}
    (l : list Z) i rest :
  StronglySorted Z.lt l → filter P l = i :: rest → (∀ j, Q j ↔ P j ∧ i < j) → filter Q l = rest.
Proof.
  intros Hs Hf HQ. revert Hf. induction Hs as [|x l Hs IH HF]; [done|].
  rewrite !filter_cons. destruct (decide (P x)) as [Hp|Hp].
  - intros [= -> <-]. rewrite decide_False by (rewrite HQ; lia). apply filter_ext_in.
    intros j Hj. rewrite HQ. rewrite List.Forall_forall in HF. apply list_elem_of_In in Hj.
    specialize (HF j Hj). naive_solver.
  - intros Hf. rewrite decide_False by (rewrite HQ; naive_solver). by apply IH.
Qed.

(** [a] is reached from [a0] by allocations. *)
Record grown (a0 a : GlobalFrameAllocator) : Prop := {
  gr_wf : wf a;
  gr_map : memory_map a = memory_map a0;
  gr_capacity : capacity a = capacity a0;
  gr_used : used_set a0 ⊆ used_set a;
}.

Lemma grown_refl a : wf a → grown a a.
Proof. by split. Qed.

Lemma grown_trans a1 a2 a3 : grown a1 a2 → grown a2 a3 → grown a1 a3.
Proof. intros [] []. split; [done|congruence|congruence|set_solver]. Qed.

Lemma grown_ctx_ok {T} (t t' : T) a a' : grown a a' → ctx_ok (t, a) → ctx_ok (t', a').
Proof.
  intros [] [Hwf Hc]. split; [done|]. simpl in *. rewrite gr_map0, gr_capacity0. apply Hc.
Qed.

(** From [c] to [c'] the allocator gave away exactly the frames [tb], which were
    free usable frames, and every one of them became a page table. *)
Record tables_drawn {T} `{MapperLaws T} (c c' : PagingContext T) (tb : gset Z) : Prop := {
  td_used : used_set c'.2 = tb ∪ used_set c.2;
  td_free i : i ∈ tb → i ∈ usable_frames (memory_map c.2) ∧ i ∉ used_set c.2;
  td_tables : table_frames c'.1 = set_map (λ i, i * 4096) tb ∪ table_frames c.1;
  td_huge : huge c'.1 = huge c.1;
}.

Section facts.
Context `{BootInfo} `{!BootInfoLaws} `{Addresses} `{!AddressesLaws}.
Context {T : Type} `{Mapper T} `{!MapperLaws T}.

Lemma allocate_draws a : wf a →
  wp allocate_frame (λ r a', grown a a' ∧
    match r with
    | Some f => ∃ i, f = i * 4096 ∧ i ∈ usable_frames (memory_map a) ∧ i ∉ used_set a ∧
        used_set a' = {[i]} ∪ used_set a
    | None => a' = a
    end) a.
Proof.
  intros Hwf. destruct (allocate_run a Hwf) as (a' & Hr & Hp & Hwf' & Hm & Hc).
  eapply wp_intro; [done|]. destruct (pool_alloc (pool_of a)).1 as [i|] eqn:E; simpl in Hr.
  - apply allocate_Some in Hr as (j & Hj & Hu & _ & Hn & Hus & _); [|done]. split.
    + split; [done|done|done|]. rewrite Hus. set_solver.
    + simpl. exists j. by rewrite Hus.
  - apply allocate_None in Hr as [-> _]; [|done]. split; [by apply grown_refl|done].
Qed.

Lemma allocate_grows a : wf a →
  wp allocate_frame (λ r a', grown a a' ∧
    ∀ f, r = Some f → ∃ i, f = i * 4096 ∧ i ∈ usable_frames (memory_map a) ∧
      i ∉ used_set a ∧ i ∈ used_set a') a.
Proof.
  intros Hwf. eapply wp_mono; [by apply allocate_draws|]. intros r a' [Hg Hr]. split; [done|].
  intros f ->. destruct Hr as (i & -> & Hi & Hn & ->). exists i. set_solver.
Qed.

(** As long as a frame is available, an allocation succeeds and uses up one. *)
Lemma allocate_available a n : wf a → (S n ≤ length (available a))%nat →
  wp allocate_frame (λ r a', is_Some r ∧ wf a' ∧ (n ≤ length (available a'))%nat) a.
Proof.
  intros Hwf Hn. destruct (available a) as [|i rest] eqn:Ea; [simpl in Hn; lia|].
  destruct (allocate_run a Hwf) as (a' & Hr & Hp & Hwf' & Hm & _).
  assert (pool_next (pool_of a) = Some i) as En.
  { unfold pool_next. unfold available in Ea. simpl. by rewrite Ea. }
  unfold pool_alloc in Hr, Hp. rewrite En in Hr, Hp. simpl in Hr, Hp.
  eapply wp_intro; [done|]. split_and!; [done|done|].
  injection Hp as _ Hcur Hus. unfold available. rewrite Hm.
  erewrite (filter_sorted_tail _ (λ j, next_usable a' ≤ j ∧ j ∉ used_set a'));
    [|apply usable_frames_sorted, Hwf|exact Ea|].
  - simpl in Hn. lia.
  - intros j. rewrite Hcur, Hus. assert (i ∈ available a) as Hi by (rewrite Ea; by left).
    unfold available in Hi. apply list_elem_of_filter in Hi as [[Hi1 Hi2] _].
    rewrite not_elem_of_union, not_elem_of_singleton. split; [|naive_solver lia].
    intros (? & ? & ?). split_and!; [lia|done|lia].
Qed.

Definition roomy (n : nat) a : Prop := wf a ∧ (n ≤ length (available a))%nat.

Lemma roomy_alloc n a : roomy (S n) a → wp allocate_frame (λ r a', is_Some r ∧ roomy n a') a.
Proof. intros [Hwf Hn]. by apply allocate_available. Qed.

Lemma allocate_grown_inv a0 a : grown a0 a → wp allocate_frame (λ _ a', grown a0 a') a.
Proof.
  intros Hg. eapply wp_mono; [apply allocate_grows, Hg|].
  intros ? ? [? _]. by eapply grown_trans.
Qed.

(** Mapping a page with the global allocator: the allocator only grows, and at
    most the one mapping changes. *)
Lemma map_to_grows page frame flags t a : wf a →
  wp (map_to allocate_frame page frame flags) (λ r c', grown a c'.2 ∧
    match r with
    | Ok _ => pages t !! page = None ∧ pages c'.1 = <[page := (frame, flags)]> (pages t)
    | Err _ => pages c'.1 = pages t
    end) (t, a).
Proof.
  intros Hwf. eapply wp_mono.
  - apply (map_to_safe _ (grown a)); [apply allocate_grown_inv|by apply grown_refl].
  - intros r [t' a'] (Hg & _ & Hp). done.
Qed.

(** The frames the mapper draws from the global allocator become page tables. *)
Lemma map_to_draws page frame flags t a : wf a →
  wp (map_to allocate_frame page frame flags) (λ _ c', ∃ tb, tables_drawn (t, a) c' tb) (t, a).
Proof.
  intros Hwf. eapply wp_mono.
  - apply wp_conj; [apply (map_to_safe _ (grown a)); [apply allocate_grown_inv|by apply grown_refl]|].
    apply (map_to_tables _ (λ X a', grown a a' ∧ ∃ tb : gset Z, used_set a' = tb ∪ used_set a ∧
      (∀ i, i ∈ tb → i ∈ usable_frames (memory_map a) ∧ i ∉ used_set a) ∧
      X = set_map (λ i, i * 4096) tb ∪ table_frames t)).
    + intros X a1 [Hg1 (tb & Hu1 & Hf1 & ->)]. eapply wp_mono; [apply allocate_draws, Hg1|].
      intros [f|] a2 [Hg2 Hr]; (split; [by eapply grown_trans|]).
      * destruct Hr as (i & -> & Hi & Hn & Hu2). exists ({[i]} ∪ tb).
        rewrite (gr_map _ _ Hg1) in Hi. split_and!; [set_solver|set_solver|].
        simpl. rewrite set_map_union_L, set_map_singleton_L. set_solver.
      * subst a2. exists tb. split_and!; [done|done|]. simpl. set_solver.
    + split; [by apply grown_refl|]. exists ∅. rewrite set_map_empty. set_solver.
  - intros r [t' a'] [(_ & Hh & _) [_ (tb & Hu & Hf & Ht)]]. by exists tb.
Qed.

Lemma wp_with_ctx {A} (m : M (PagingContext T) A) Q c :
  wp m (λ a c', Q a (Some c')) c → wp (with_ctx m) Q (Some c).
Proof. unfold wp, with_ctx. by destruct (m c) as [[a c']|]. Qed.

(** The frame of a reported region type is covered by the bitmap. *)
Lemma frame_ty_covered (c : PagingContext T) i ty : ctx_ok c → 0 ≤ i →
  get_frame_ty c.2 (i * 4096) = Some ty → covered c.2 i ∧ i < 2 ^ 40.
Proof.
  intros [Hwf Hc] Hi Hty. unfold get_frame_ty in Hty.
  destruct (find _ _) as [v|] eqn:E; [|done]. apply find_some in E as [Hv Ht].
  apply list_elem_of_In in Hv. assert (region_ok v) as Hok.
  { destruct (wf_map _ Hwf) as [HF _]. rewrite Forall_forall in HF. auto. }
  apply region_test in Ht; [|done]. specialize (Hc v Hv). destruct Hok as (? & ? & ?).
  unfold covered, u64, fits. lia.
Qed.
End facts.

(** ** Runs of the operations *)

Section runs.
Context `{BootInfo} `{!BootInfoLaws} `{Addresses} `{!AddressesLaws}.
Context {T : Type} `{Mapper T} `{!MapperLaws T}.
Implicit Types (c : PagingContext T).

(** The mapping a device frame gets. *)
Definition dev_flags (w : bool) : PageTableFlags := mkFlags true w true true.

(** [mmap_dev] on a frame of an accepted type is the identity mapping of it. *)
Lemma mmap_dev_wp c i acpi ty w Q : ctx_ok c → 0 ≤ i → i * 4096 < 2 ^ 47 →
  get_frame_ty c.2 (i * 4096) = Some ty → device_writable ty acpi = Ret w →
  wp (map_to allocate_frame (i * 4096) (i * 4096) (dev_flags w)) (λ r c', grown c.2 c'.2 ∧
    Q (match r with
       | Ok _ => Ok (mkGuard (i * 4096) (negb (frame_used c'.2 i)))
       | Err e => Err e
       end) (Some c')) c →
  wp (mmap_dev (i * 4096) acpi) Q (Some c).
Proof.
  intros Hc Hi Hlt Hty Hw HQ. pose proof (frame_ty_covered c i ty Hc Hi Hty) as [Hcov _].
  unfold mmap_dev. apply wp_with_ctx. wp_step. apply wp_get. rewrite Hty.
  wp_step. eapply wp_lift; [done|]. wp_step. eapply wp_lift; [apply VirtAddr_new_ok; lia|].
  rewrite page_containing_spec, align_down_id by auto. wp_step.
  unfold wp at 1. rewrite identity_map_spec by lia.
  eapply wp_mono; [exact HQ|]. intros r [t' a'] [Hg Hr]. destruct r as [u|e].
  - wp_step. apply wp_get. wp_step. simpl in *.
    assert (covered a' i) as Hcov' by (unfold covered in *; by rewrite (gr_capacity _ _ Hg)).
    eapply wp_lift; [unfold frame_in_use; rewrite Z.div_mul by lia; by apply is_used_spec|].
    by apply wp_ret.
  - by apply wp_ret.
Qed.

Lemma mmap_dev_run c i acpi ty w : ctx_ok c → 0 ≤ i → i * 4096 < 2 ^ 47 →
  get_frame_ty c.2 (i * 4096) = Some ty → device_writable ty acpi = Ret w →
  wp (mmap_dev (i * 4096) acpi) (λ r s', ∃ c' tb, s' = Some c' ∧ grown c.2 c'.2 ∧ ctx_ok c' ∧
    tables_drawn c c' tb ∧
    match r with
    | Ok g => g = mkGuard (i * 4096) (negb (frame_used c'.2 i)) ∧
        pages c.1 !! (i * 4096) = None ∧
        pages c'.1 = <[i * 4096 := (i * 4096, dev_flags w)]> (pages c.1)
    | Err _ => pages c'.1 = pages c.1
    end) (Some c).
Proof.
  intros Hc Hi Hlt Hty Hw. eapply mmap_dev_wp; [done..|]. destruct c as [t a].
  eapply wp_mono; [apply wp_conj; [apply map_to_grows, Hc|apply map_to_draws, Hc]|].
  intros r c' [[Hg Hp] [tb Htb]]. split; [done|]. exists c', tb.
  destruct c' as [t' a']. pose proof (grown_ctx_ok t t' a a' Hg Hc). by destruct r.
Qed.

(** A successful [mmap_dev] had a frame of an accepted type. *)
Lemma mmap_dev_accepted c i acpi g s1 :
  mmap_dev (i * 4096) acpi (Some c) = Ret (Ok g, s1) →
  ∃ ty w, get_frame_ty c.2 (i * 4096) = Some ty ∧ device_writable ty acpi = Ret w.
Proof.
  intros Hr. unfold mmap_dev, with_ctx in Hr. erewrite run_bind in Hr by done.
  destruct (get_frame_ty c.2 (i * 4096)) as [ty|] eqn:Hty; [|done].
  destruct (device_writable ty acpi) as [w|p] eqn:Hw; [by exists ty, w|].
  erewrite run_bind_panic in Hr; [done|]. done.
Qed.

(** A successful [mmap_dev], inverted. *)
Lemma mmap_dev_Ok c i acpi g s1 : ctx_ok c → 0 ≤ i → i * 4096 < 2 ^ 47 →
  mmap_dev (i * 4096) acpi (Some c) = Ret (Ok g, s1) →
  ∃ c1 w, s1 = Some c1 ∧ grown c.2 c1.2 ∧ ctx_ok c1 ∧ covered c.2 i ∧
    g = mkGuard (i * 4096) (negb (frame_used c1.2 i)) ∧ pages c.1 !! (i * 4096) = None ∧
    pages c1.1 = <[i * 4096 := (i * 4096, dev_flags w)]> (pages c.1).
Proof.
  intros Hc Hi Hlt Hr. destruct (mmap_dev_accepted _ _ _ _ _ Hr) as (ty & w & Hty & Hw).
  pose proof (mmap_dev_run c i acpi ty w Hc Hi Hlt Hty Hw) as Hrun. unfold wp in Hrun.
  rewrite Hr in Hrun. destruct Hrun as (c1 & tb & -> & Hg & Hc1 & _ & -> & Hn & Hp).
  pose proof (frame_ty_covered c i ty Hc Hi Hty) as [Hcov _]. by exists c1, w.
Qed.

Lemma mmap_dev_Ok_tables c i acpi g c1 : ctx_ok c → 0 ≤ i → i * 4096 < 2 ^ 47 →
  mmap_dev (i * 4096) acpi (Some c) = Ret (Ok g, Some c1) → ∃ tb, tables_drawn c c1 tb.
Proof.
  intros Hc Hi Hlt Hr. destruct (mmap_dev_accepted _ _ _ _ _ Hr) as (ty & w & Hty & Hw).
  pose proof (mmap_dev_run c i acpi ty w Hc Hi Hlt Hty Hw) as Hrun. unfold wp in Hrun.
  rewrite Hr in Hrun. destruct Hrun as (c' & tb & [= <-] & _ & _ & Htb & _). by exists tb.
Qed.

Lemma deallocate_wp a j : wf a → covered a j →
  wp (deallocate_frame (j * 4096)) (λ _ a', wf a' ∧ memory_map a' = memory_map a ∧
    capacity a' = capacity a ∧ used_set a' = used_set a ∖ {[j]}) a.
Proof.
  intros Hwf Hc. destruct (deallocate_run a j Hwf Hc) as (a' & Hr & Hp & Hwf' & Hm & Hcap).
  eapply wp_intro; [done|]. injection Hp as _ _ Hu. done.
Qed.

Lemma unmap_run c p b j fl : ctx_ok c → pages c.1 !! p = Some (j * 4096, fl) →
  covered c.2 j →
  wp (unmap (mkGuard p b)) (λ r s', r = Ok tt ∧ ∃ c', s' = Some c' ∧ ctx_ok c' ∧
    pages c'.1 = delete p (pages c.1) ∧ memory_map c'.2 = memory_map c.2 ∧
    capacity c'.2 = capacity c.2 ∧
    (used_set c'.2 = if b then used_set c.2 ∖ {[j]} else used_set c.2) ∧
    table_frames c'.1 = table_frames c.1 ∧ huge c'.1 = huge c.1) (Some c).
Proof.
  intros [Hwf Hcc] Hp Hc. destruct c as [t a]. simpl in *.
  unfold unmap. apply wp_with_ctx. wp_step. apply wp_on_fst. simpl.
  eapply wp_mono; [by eapply unmap_mapped|]. intros ? t' (-> & Hp' & Hh' & Ht'). wp_step.
  destruct b.
  - apply wp_on_snd. eapply wp_mono; [by apply deallocate_wp|].
    intros ? a' (Hwf' & Hm & Hcap & Hu). apply wp_ret. split; [done|].
    exists (t', a'). split_and!; try done. split; [done|]. simpl. rewrite Hm, Hcap. apply Hcc.
  - apply wp_ret. apply wp_ret. split; [done|]. by exists (t', a).
Qed.

Lemma unmap_missing c p b : pages c.1 !! p = None →
  ∃ e, unmap (mkGuard p b) (Some c) = Ret (Err e, Some c).
Proof.
  intros Hp. destruct c as [t a]. pose proof (unmap_not_mapped p t Hp) as Hw.
  apply wp_elim in Hw as (r & t' & Hr & [e ->] & ->). exists e.
  unfold unmap, with_ctx. erewrite run_bind by (unfold on_fst; simpl; by rewrite Hr). done.
Qed.

(** The mappings of the pages [ps] to the frames numbered [fs]. *)
Definition map_each (flags : PageTableFlags) (ps fs : list Z) (m : gmap Z (Z * PageTableFlags)) :
    gmap Z (Z * PageTableFlags) :=
  foldl (λ m' pf, <[pf.1 := (pf.2 * 4096, flags)]> m') m (zip ps fs).

Lemma map_pages_run ps flags c : ctx_ok c →
  wp (map_pages ps flags) (λ r c', grown c.2 c'.2 ∧ ∃ fs,
    pages c'.1 = map_each flags ps fs (pages c.1) ∧ NoDup fs ∧
    (∀ f, f ∈ fs → f ∈ usable_frames (memory_map c.2) ∧ f ∉ used_set c.2 ∧ f ∈ used_set c'.2) ∧
    (length fs ≤ length ps)%nat ∧ (r = Ok tt → length fs = length ps)) c.
Proof.
  revert c. induction ps as [|p ps IH]; intros [t a] Hc; simpl.
  { apply wp_ret. split; [apply grown_refl, Hc|]. exists [].
    split_and!; [done|constructor|by intros ? ?%not_elem_of_nil|done|done]. }
  wp_step. apply wp_on_snd. eapply wp_mono; [apply allocate_grows, Hc|].
  intros o a1 [Hg1 Ho]. destruct o as [frame|].
  2: { apply wp_ret. split; [done|]. exists [].
       split_and!; [done|constructor|by intros ? ?%not_elem_of_nil|simpl; lia|done]. }
  destruct (Ho frame eq_refl) as (f & -> & Hf1 & Hf2 & Hf3).
  wp_step. eapply wp_mono; [apply map_to_grows, Hg1|].
  intros r [t2 a2] [Hg2 Hp]. simpl in *. pose proof (grown_trans _ _ _ Hg1 Hg2) as Hg12.
  destruct r as [u|e].
  2: { apply wp_ret. split; [done|]. exists []. simpl. rewrite Hp.
       split_and!; [done|constructor|by intros ? ?%not_elem_of_nil|simpl; lia|done]. }
  destruct Hp as [_ Hp].
  eapply wp_mono; [apply IH, (grown_ctx_ok t t2 a a2 Hg12 Hc)|].
  intros r' [t3 a3] (Hg3 & fs & Hp3 & Hnd & Hfs & Hle & Hok). simpl in *.
  split; [by eapply grown_trans|]. exists (f :: fs).
  destruct Hg1 as [_ Hm1 _ Hu1], Hg2 as [_ Hm2 _ Hu2], Hg3 as [_ _ _ Hu3].
  split_and!.
  - rewrite Hp3, Hp. done.
  - constructor; [|done]. intros (_ & Hn & _)%Hfs. by apply Hn, Hu2.
  - intros g [->|(Hg & Hn & Hin)%Hfs]%elem_of_cons; split_and!; try done.
    + by apply Hu3, Hu2.
    + by rewrite Hm2, Hm1 in Hg.
    + intros Hbad. by apply Hn, Hu2, Hu1.
  - simpl. lia.
  - intros E. simpl. by rewrite Hok.
Qed.
End runs.

(** ** Mapping a device frame *)

Section mapping_devices.
Context `{BootInfo} `{!BootInfoLaws} `{Addresses} `{!AddressesLaws}.
Context {T : Type} `{Mapper T} `{!MapperLaws T}.
Implicit Types (c : PagingContext T).

(** [mmap_dev] maps the frame [i], writable when [w]: it returns; the frames it takes
    become page tables; it changes no other mapping; it succeeds when the address
    is free and three frames are left; and otherwise says why not. *)
Record maps_device c (i : Z) (acpi w : bool) : Prop := {
  md_returns : wp (mmap_dev (i * 4096) acpi) (λ r s', ∃ c' tb, s' = Some c' ∧ ctx_ok c' ∧
    tables_drawn c c' tb ∧
    match r with
    | Ok g => g = mkGuard (i * 4096) (negb (frame_used c'.2 i)) ∧
        pages c.1 !! (i * 4096) = None ∧
        pages c'.1 = <[i * 4096 := (i * 4096, mkFlags true w true true)]> (pages c.1)
    | Err _ => pages c'.1 = pages c.1
    end) (Some c);
  md_succeeds : pages c.1 !! (i * 4096) = None → huge c.1 (i * 4096) = false →
    (3 ≤ length (available c.2))%nat →
    wp (mmap_dev (i * 4096) acpi) (λ r _, ∃ g, r = Ok g) (Some c);
  md_mapped f fl : pages c.1 !! (i * 4096) = Some (f, fl) →
    wp (mmap_dev (i * 4096) acpi)
      (λ r s', r = Err (PageAlreadyMapped f) ∧ ∃ t', s' = Some (t', c.2)) (Some c);
  md_huge : huge c.1 (i * 4096) = true →
    wp (mmap_dev (i * 4096) acpi)
      (λ r s', r = Err ParentEntryHugePage ∧ ∃ t', s' = Some (t', c.2)) (Some c);
}.

Lemma mmap_dev_maps c i acpi ty w : ctx_ok c → 0 ≤ i → i * 4096 < 2 ^ 47 →
  get_frame_ty c.2 (i * 4096) = Some ty → device_writable ty acpi = Ret w →
  maps_device c i acpi w.
Proof.
  intros Hc Hi Hlt Hty Hw. destruct c as [t a].
  pose proof (grown_refl a (co_wf _ Hc)) as Hgr. split.
  - eapply wp_mono; [by apply (mmap_dev_run (t, a) i acpi ty w)|]. naive_solver.
  - intros Hp Hh Hav. eapply (mmap_dev_wp (t, a)); [done..|]. eapply wp_mono.
    + apply wp_conj; [apply map_to_grows, Hc|].
      apply (map_to_total _ roomy _ _ _ _ _ 0 roomy_alloc); [by split; [apply Hc|]|done|done].
    + intros r [t' a'] [[Hg _] [-> _]]. eauto.
  - intros f fl Hp. eapply (mmap_dev_wp (t, a)); [done..|].
    eapply wp_mono; [by eapply map_to_mapped|]. intros r [t' a'] [-> ->]. eauto.
  - intros Hh. eapply (mmap_dev_wp (t, a)); [done..|].
    eapply wp_mono; [by eapply map_to_huge|]. intros r [t' a'] [-> ->]. eauto.
Qed.

Lemma mmap_dev_refused c i acpi ty p :
  get_frame_ty c.2 (i * 4096) = Some ty → device_writable ty acpi = Panic p →
  mmap_dev (i * 4096) acpi (Some c) = Panic p.
Proof.
  intros Hty Hw. unfold mmap_dev, with_ctx. erewrite run_bind by done. rewrite Hty.
  erewrite run_bind_panic; [done|]. by rewrite Hw.
Qed.
End mapping_devices.

(** ** Properties *)

Section memory_properties.
Context `{BootInfo} `{!BootInfoLaws} `{Addresses} `{!AddressesLaws}.
Context {T : Type} `{Mapper T} `{!MapperLaws T}.
Implicit Types (c : PagingContext T).

(** C14. [mmap_dev] on every branch.  A frame of no region is refused with an error
    and a frame of a type devices may not use makes it panic: only [Reserved] and
    [FrameZero] frames (mapped writable) and, for ACPI, [KernelStack] frames (mapped
    read-only) are accepted.  The frame is then mapped uncached at its own address
    whenever the address is not mapped and three frames are left for page tables; a
    mapped address and one on a huge page are reported as such and take no frame. *)
Theorem mmap_dev_spec c i acpi :
  ctx_ok c → 0 ≤ i → i * 4096 < 2 ^ 47 →
  match get_frame_ty c.2 (i * 4096) with
  | None => mmap_dev (i * 4096) acpi (Some c) = Ret (Err FrameAllocationFailed, Some c)
  | Some (Reserved | FrameZero) => maps_device c i acpi true
  | Some KernelStack =>
      if acpi then maps_device c i acpi false
      else mmap_dev (i * 4096) acpi (Some c) = Panic (Explicit "Tried to mmap a device")
  | Some (Usable | AcpiReclaimable | OtherRegion _) =>
      mmap_dev (i * 4096) acpi (Some c) = Panic (Explicit "Tried to mmap a device")
  end.
Proof.
  intros Hc Hi Hlt. destruct (get_frame_ty c.2 (i * 4096)) as [ty|] eqn:Hty.
  2: { unfold mmap_dev, with_ctx. erewrite run_bind by done. by rewrite Hty. }
  pose proof (mmap_dev_refused c i acpi ty) as Hno.
  pose proof (λ w, mmap_dev_maps c i acpi ty w Hc Hi Hlt Hty) as Hyes.
  destruct ty, acpi; auto.
Qed.

(** C15. Round trip: unmapping with the guard [mmap_dev] returned succeeds, puts
    every mapping back as it was before [mmap_dev], and frees nothing.  Compared with
    the state before [mmap_dev], the frames in use are the same plus exactly those
    that were free and became page tables while the device was mapped. *)
Theorem mmap_unmap_roundtrip c i acpi g s1 :
  ctx_ok c → 0 ≤ i → i * 4096 < 2 ^ 47 →
  mmap_dev (i * 4096) acpi (Some c) = Ret (Ok g, s1) →
  ∃ c1 c2 tb, s1 = Some c1 ∧ unmap g s1 = Ret (Ok tt, Some c2) ∧
    pages c2.1 = pages c.1 ∧ used_set c2.2 = used_set c1.2 ∧ tables_drawn c c2 tb ∧ ctx_ok c2.
Proof.
  intros Hc Hi Hlt Hr.
  destruct (mmap_dev_Ok c i acpi g s1 Hc Hi Hlt Hr)
    as (c1 & w & -> & Hg & Hc1 & [Hcov Hu64] & -> & Hn & Hp).
  destruct (mmap_dev_Ok_tables c i acpi _ c1 Hc Hi Hlt Hr) as [tb [Htu Htf Htt Hth]].
  assert (covered c1.2 i) as Hcov1 by (split; [|done]; by rewrite (gr_capacity _ _ Hg)).
  pose proof (unmap_run c1 (i * 4096) (negb (frame_used c1.2 i)) i (dev_flags w) Hc1) as Hun.
  rewrite Hp in Hun at 1.
  specialize (Hun (lookup_insert_eq _ _ _) Hcov1).
  apply wp_elim in Hun as (r & s2 & Hr2 & -> & c2 & -> & Hc2 & Hp2 & _ & _ & Hu2 & Ht2 & Hh2).
  assert (used_set c2.2 = used_set c1.2) as Hu.
  { rewrite Hu2. destruct (frame_used c1.2 i) eqn:E; simpl; [done|].
    assert (i ∉ used_set c1.2); [|set_solver]. rewrite elem_of_used_set. intros [_ Ht]. congruence. }
  exists c1, c2, tb. split_and!; [done|done| |done| |done].
  - by rewrite Hp2, Hp, delete_insert_id.
  - split; [by rewrite Hu|done|by rewrite Ht2|by rewrite Hh2].
Qed.

(** [map_range] never panics; the pages it maps, a prefix of the range (all
    of it when it answers [Ok]), get pairwise distinct usable frames that were
    free before and are in use afterwards; no other mapping changes. *)
Theorem map_range_spec c ps flags :
  ctx_ok c →
  wp (map_range ps flags) (λ r s', ∃ c' fs, s' = Some c' ∧ ctx_ok c' ∧
    pages c'.1 = map_each flags ps fs (pages c.1) ∧ NoDup fs ∧
    (∀ f, f ∈ fs → f ∈ usable_frames (memory_map c.2) ∧ f ∉ used_set c.2 ∧ f ∈ used_set c'.2) ∧
    (length fs ≤ length ps)%nat ∧ (r = Ok tt → length fs = length ps)) (Some c).
Proof.
  intros Hc. unfold map_range. apply wp_with_ctx. eapply wp_mono; [by apply map_pages_run|].
  intros r c' (Hg & fs & Hfs). exists c', fs. split; [done|]. split; [|done].
  destruct c, c'. by eapply grown_ctx_ok.
Qed.

(** Before [memory_init] every paging operation panics; [memory_init] makes
    the context available and a second call leaves it as it is. *)
Theorem paging_initialised_once new raw cr3 off mm (s s' : PagingState T) frame acpi g ps flags :
  mmap_dev frame acpi (@None (PagingContext T)) = Panic UnwrapNone ∧
  unmap g (@None (PagingContext T)) = Panic UnwrapNone ∧
  map_range ps flags (@None (PagingContext T)) = Panic UnwrapNone ∧
  (memory_init new raw cr3 off mm s = Ret (tt, s') →
   is_Some s' ∧ (is_Some s → s' = s)).
Proof.
  split_and!; [done|done|done|]. unfold memory_init.
  intros (l4 & _ & (p & _ & Hs)%bind_outcome_Ret)%bind_outcome_Ret.
  destruct s; injection Hs as <-; split; eauto. by intros [? [=]].
Qed.
End memory_properties.

(** ** Witnesses *)

Module MemoryWitness.
Import Reference AllocatorWitness InitWitness.

Definition demo_ctx : PagingContext tables := (empty_tables, demo).

Lemma demo_ctx_ok : ctx_ok demo_ctx.
Proof.
  split; [apply demo_wf|]. simpl. intros r Hr. unfold capacity. simpl.
  set_unfold in Hr. destruct_or?; subst; simpl; lia.
Qed.

Lemma demo_available : available demo = [1; 2; 3].
Proof. by vm_compute. Qed.

(** Frame 4 is reserved: it is mapped, writable. *)
Lemma mmap_dev_spec_witness :
  maps_device demo_ctx 4 false true ∧
  ∃ g s', mmap_dev (4 * 4096) false (Some demo_ctx) = Ret (Ok g, s').
Proof.
  pose proof (mmap_dev_spec demo_ctx 4 false demo_ctx_ok ltac:(lia) ltac:(lia)) as H.
  assert (get_frame_ty demo_ctx.2 (4 * 4096) = Some Reserved) as E by (by vm_compute).
  rewrite E in H. split; [exact H|].
  destruct (wp_elim _ _ _ (md_succeeds _ _ _ _ H (lookup_empty _) eq_refl
    ltac:(change demo_ctx.2 with demo; rewrite demo_available; simpl; lia)))
    as (r & s' & Hr & g & ->).
  by exists g, s'.
Defined.

Lemma mmap_unmap_roundtrip_witness :
  ∃ g s1 c1 c2 tb, mmap_dev (4 * 4096) false (Some demo_ctx) = Ret (Ok g, s1) ∧ s1 = Some c1 ∧
    unmap g s1 = Ret (Ok tt, Some c2) ∧ pages c2.1 = ∅ ∧ tables_drawn demo_ctx c2 tb.
Proof.
  destruct (mmap_dev (4 * 4096) false (Some demo_ctx)) as [[[g|e] s1]|p] eqn:E;
    [|by vm_compute in E|by vm_compute in E].
  destruct (mmap_unmap_roundtrip demo_ctx 4 false g s1 demo_ctx_ok ltac:(lia) ltac:(lia) E)
    as (c1 & c2 & tb & H1 & H2 & H3 & _ & H4 & _).
  exists g, s1, c1, c2, tb. split; [done|]. exact (conj H1 (conj H2 (conj H3 H4))).
Defined.

Lemma map_range_spec_witness :
  ∃ c' (fs : list Z), map_range [0; 4096] (mkFlags true true false false) (Some demo_ctx) =
      Ret (Ok tt, Some c') ∧
    NoDup fs ∧ length fs = 2%nat.
Proof.
  pose proof (map_range_spec demo_ctx [0; 4096] (mkFlags true true false false) demo_ctx_ok) as Hw.
  apply wp_elim in Hw as (r & s' & Hr & c' & fs & -> & _ & _ & Hnd & _ & _ & Hok).
  assert (r = Ok tt) as ->.
  { assert (∃ s, map_range [0; 4096] (mkFlags true true false false) (Some demo_ctx) = Ret (Ok tt, s))
      as [s Hs] by (eexists; by vm_compute).
    rewrite Hs in Hr. by injection Hr. }
  exists c', fs. split; [exact Hr|]. split; [done|by apply Hok].
Defined.

Lemma paging_initialised_once_witness :
  ∃ s', memory_init (λ _ _, empty_tables) zeroed 0x1000 0x18000000000 boot_map None = Ret (tt, s') ∧
    is_Some s'.
Proof.
  destruct (memory_init (λ _ _, empty_tables) zeroed 0x1000 0x18000000000 boot_map None)
    as [[[] s']|p] eqn:E; [|by vm_compute in E].
  exists s'. split; [done|].
  apply (paging_initialised_once (λ _ _, empty_tables) zeroed 0x1000 0x18000000000 boot_map
    None s' 0 false (mkGuard 0 false) [] (mkFlags true true false false)), E.
Defined.
End MemoryWitness.
