(* ===== verification/AcpiHandler.v ===== *)
(** * The ACPI memory handler (src/acpi.rs, src/acpi/handlers.rs)

    The ACPI and AML interpreters ask the kernel to map and unmap physical
    memory.  [Handler] counts how often each frame has been asked for: the first
    request identity-maps it with [mmap_dev], the last release unmaps it.  A
    [LockedHandler] and its clones share one [Handler] behind a lock, so the
    state is one reference table beside the paging context. *)

From S2P Require Import Prelude Platform Bus FrameAllocator FrameInit Memory.
Local Open Scope Z_scope.

(** ** The code *)

(** [Handler { mapping_refs: BTreeMap<u64, (usize, UnmapGuard)> }] *)
Notation MappingRefs := (gmap Z (Z * UnmapGuard)) (only parsing).

Definition Handler_new : gmap Z (Z * UnmapGuard) := ∅.

(** What [map_physical_region] returns, a [PhysicalMapping] of the [acpi] crate. *)
Record PhysicalMapping : Type := mkMapping {
  physical_start : Z;
  virtual_start : Z;
  region_length : Z;
  mapped_length : Z;
}.

Section code.
Context `{BootInfo} `{Addresses} {T : Type} `{Mapper T}.

(** The state: the reference table, and the paging context [mmap_dev] and
    [unmap] use. *)
Definition HandlerState : Type := gmap Z (Z * UnmapGuard) * PagingState T.

Definition handler_map (frame : Z) : M HandlerState unit :=
  st ← get;
  let key := frame in
  match st.1 !! key with
  | Some (rc, guard) =>
      rc' ← lift (add_w 64 rc 1);
      put (<[key := (rc', guard)]> st.1, st.2)
  | None =>
      r ← on_snd (mmap_dev frame true);
      guard ← lift (expect_ok r "Failed to identity map");
      st' ← get;
      put (<[key := (1, guard)]> st'.1, st'.2)
  end.

Definition handler_unmap (page : Z) : M HandlerState unit :=
  st ← get;
  let key := page in
  entry ← lift (expect (st.1 !! key) "Trying to unmap non mapped frame");
  rc ← lift (sub_w 64 entry.1 1);
  put (<[key := (rc, entry.2)]> st.1, st.2) ≫= λ _,
  if bool_decide (rc = 0) then
    st' ← get;
    removed ← lift (unwrap (st'.1 !! key));
    put (delete key st'.1, st'.2) ≫= λ _,
    r ← on_snd (unmap removed.2);
    lift (expect_ok r "Failed to unmap")
  else mret tt.

(** A memory access of [w] bits at [address] faults unless the processor finds both
    its first and its last byte in the page tables. *)
Definition present `{Translate T} (t : T) (address : Z) : bool :=
  match translate t address with Mapped _ _ => true | _ => false end.

Definition access_memory `{Translate T} (w address : Z) : M HandlerState unit :=
  st ← get;
  match st.2 with
  | None => fail UnwrapNone
  | Some ctx =>
      if present ctx.1 address && present ctx.1 (address + w / 8 - 1) then mret tt
      else fail PageFault
  end.

(** [LockedHandler::read] and [LockedHandler::write] at a width of [w] bits: they
    also reach the device memory behind [H]. *)
Definition handler_read `{Translate T} {H} `{Bus H} (w address : Z) : M (HandlerState * H) Z :=
  a ← on_fst (lift (PhysAddr_new address));
  on_fst (handler_map (frame_containing_address a)) ≫= λ _,
  on_fst (access_memory w address) ≫= λ _,
  on_snd (read_volatile w address).

Definition handler_write `{Translate T} {H} `{Bus H} (w address value : Z) :
    M (HandlerState * H) unit :=
  a ← on_fst (lift (PhysAddr_new address));
  on_fst (handler_map (frame_containing_address a)) ≫= λ _,
  on_fst (access_memory w address) ≫= λ _,
  on_snd (write_volatile w address value).

Definition map_physical_region (physical_address size : Z) : M HandlerState PhysicalMapping :=
  a ← lift (PhysAddr_new physical_address);
  let start := frame_containing_address a in
  top ← lift (add_w 64 physical_address size);
  b ← lift (PhysAddr_new top);
  let fin := frame_containing_address b in
  mfor (frame_range_inclusive start fin) handler_map ≫= λ _,
  past ← lift (add_w 64 fin 0x1000);
  len ← lift (sub_w 64 past start);
  mret (mkMapping start physical_address size len).

Definition unmap_physical_region (region : PhysicalMapping) : M HandlerState unit :=
  a ← lift (VirtAddr_new (physical_start region));
  start ← lift (unwrap (page_from_start_address a));
  top ← lift (add_w 64 (physical_start region) (mapped_length region));
  b ← lift (VirtAddr_new top);
  fin ← lift (unwrap (page_from_start_address b));
  mfor (page_range start fin) handler_unmap.
End code.
Arguments HandlerState : clear implicits.

(** ** The invariant of the reference table *)

Definition frame_ok (k : Z) : Prop := aligned k ∧ 0 ≤ k < 2 ^ 47.

(** Every entry counts at least one request, its guard is for its own page, and
    that page is identity-mapped. *)
Record entry_ok {T} `{MapperLaws T} (c : PagingContext T) (k : Z) (e : Z * UnmapGuard) : Prop := {
  eo_count : 1 ≤ e.1 < 2 ^ 64;
  eo_guard : guard_page e.2 = k;
  eo_frame : frame_ok k ∧ covered c.2 (k / 4096);
  eo_page : ∃ fl, pages c.1 !! k = Some (k, fl);
}.

Record handler_ok {T} `{MapperLaws T} (refs : gmap Z (Z * UnmapGuard)) (c : PagingContext T) :
    Prop := {
  ho_ctx : ctx_ok c;
  ho_entries k e : refs !! k = Some e → entry_ok c k e;
}.

(** What one [handler_map] does to the entry and to the page of its frame. *)
Definition bumped (o o' : option (Z * UnmapGuard)) : Prop :=
  match o with
  | Some (rc, g) => o' = Some (rc + 1, g)
  | None => ∃ g, o' = Some (1, g)
  end.

(** [st'] is [st] after mapping frame [k]. *)
Record map_effect {T} `{MapperLaws T} (k : Z) (refs : gmap Z (Z * UnmapGuard))
    (c : PagingContext T) (refs' : gmap Z (Z * UnmapGuard)) (c' : PagingContext T) : Prop := {
  me_ok : handler_ok refs' c';
  me_entry : bumped (refs !! k) (refs' !! k);
  me_others j : j ≠ k → refs' !! j = refs !! j;
  me_pages j : (j ≠ k ∨ is_Some (refs !! k)) → pages c'.1 !! j = pages c.1 !! j;
  me_fresh : refs !! k = None → pages c.1 !! k = None;
}.

(** [st'] is [st] after unmapping frame [k], whose entry was [(rc, g)]. *)
Record unmap_effect {T} `{MapperLaws T} (k rc : Z) (g : UnmapGuard)
    (refs : gmap Z (Z * UnmapGuard)) (c : PagingContext T)
    (refs' : gmap Z (Z * UnmapGuard)) (c' : PagingContext T) : Prop := {
  ue_ok : handler_ok refs' c';
  ue_entry : refs' !! k = if decide (rc = 1) then None else Some (rc - 1, g);
  ue_others j : j ≠ k → refs' !! j = refs !! j;
  ue_pages j : pages c'.1 !! j =
    if decide (j = k ∧ rc = 1) then None else pages c.1 !! j;
}.

Section handler_facts.
Context `{BootInfo} `{!BootInfoLaws} `{Addresses} `{!AddressesLaws}.
Context {T : Type} `{Mapper T} `{!MapperLaws T}.
Implicit Types (c : PagingContext T) (refs : gmap Z (Z * UnmapGuard)).

Lemma frame_ok_mul k : frame_ok k → k = k / 4096 * 4096 ∧ 0 ≤ k / 4096.
Proof. intros [Ha ?]. unfold aligned in Ha. lia. Qed.

(** Entries survive a change of context that keeps their pages. *)
Lemma entry_ok_context c c' k e : entry_ok c k e → capacity c'.2 = capacity c.2 →
  pages c'.1 !! k = pages c.1 !! k → entry_ok c' k e.
Proof.
  intros [Hc Hg [Hf Hcov] Hpg] Hcap Hp. split; [done|done|split; [done|]|by rewrite Hp].
  unfold covered in *. by rewrite Hcap.
Qed.

Lemma handler_map_Ret k refs c st' : handler_ok refs c → frame_ok k →
  handler_map k (refs, Some c) = Ret (tt, st') →
  ∃ refs' c', st' = (refs', Some c') ∧ map_effect k refs c refs' c'.
Proof.
  intros Hok Hk Hr. unfold handler_map in Hr. erewrite run_bind in Hr by done. simpl in Hr.
  destruct (refs !! k) as [[rc g]|] eqn:E.
  - apply bind_Ret in Hr as (rc' & s1 & [Hl ->]%lift_Ret & Hr). inv_run.
    apply checked_Ret in Hl as [-> Hfit]. eexists _, c. split; [done|].
    destruct (ho_entries _ _ Hok k (rc, g) E) as [Hc Hg Hf Hp]. simpl in *.
    split.
    + split; [apply Hok|]. intros j e. destruct (decide (j = k)) as [->|Hne].
      * rewrite lookup_insert_eq. intros [= <-]. split; simpl; try done. unfold fits in Hfit. lia.
      * rewrite lookup_insert_ne by done. apply Hok.
    + rewrite E, lookup_insert_eq. done.
    + intros j Hne. by rewrite lookup_insert_ne.
    + done.
    + by rewrite E.
  - apply bind_Ret in Hr as (r & s1 & Hm & Hr).
    unfold on_snd in Hm. destruct (mmap_dev k true (Some c)) as [[r1 p1]|] eqn:Em; [|done].
    injection Hm as <- <-. apply bind_Ret in Hr as (guard & s1 & [Hl ->]%lift_Ret & Hr).
    inv_run. simpl in *. destruct r1 as [guard'|]; simpl in Hl; [|done]. injection Hl as ->.
    destruct (frame_ok_mul k Hk) as [Ek Hi]. rewrite Ek in Em.
    destruct (mmap_dev_Ok c (k / 4096) true guard p1 (ho_ctx _ _ Hok) Hi) as
      (c' & w & -> & Hg & Hc' & Hcov & -> & Hn & Hp); [destruct Hk; lia|done|].
    rewrite <-Ek in *.
    eexists _, c'. split; [done|]. split.
    + split; [done|]. intros j e. destruct (decide (j = k)) as [->|Hne].
      * rewrite lookup_insert_eq. intros [= <-]. split; simpl; [lia|done| |].
        -- split; [done|]. unfold covered in *. by rewrite (gr_capacity _ _ Hg).
        -- rewrite Hp, lookup_insert_eq. eauto.
      * rewrite lookup_insert_ne by done. intros He. eapply entry_ok_context; [by apply Hok|apply Hg|].
        by rewrite Hp, lookup_insert_ne.
    + rewrite E, lookup_insert_eq. simpl. eauto.
    + intros j Hne. by rewrite lookup_insert_ne.
    + intros j [Hne|[? Hbad]]; [|congruence]. by rewrite Hp, lookup_insert_ne.
    + done.
Qed.

Lemma handler_map_huge k refs c u refs' c' : handler_ok refs c → frame_ok k →
  handler_map k (refs, Some c) = Ret (u, (refs', Some c')) → huge c'.1 = huge c.1.
Proof.
  intros Hok Hk Hr. unfold handler_map in Hr. erewrite run_bind in Hr by done. simpl in Hr.
  destruct (refs !! k) as [[rc g]|] eqn:E.
  - apply bind_Ret in Hr as (rc' & s1 & [Hl ->]%lift_Ret & Hr). by inv_run.
  - apply bind_Ret in Hr as (r & s1 & Hm & Hr).
    unfold on_snd in Hm. destruct (mmap_dev k true (Some c)) as [[r1 p1]|] eqn:Em; [|done].
    injection Hm as <- <-. apply bind_Ret in Hr as (guard & s1 & [Hl ->]%lift_Ret & Hr).
    inv_run. simpl in *. destruct r1 as [guard'|]; simpl in Hl; [|done].
    destruct (frame_ok_mul k Hk) as [Ek Hi]. rewrite Ek in Em. subst p1.
    destruct (mmap_dev_Ok_tables c (k / 4096) true guard' c' (ho_ctx _ _ Hok) Hi) as [tb Htb];
      [destruct Hk; lia|done|]. apply Htb.
Qed.

Lemma handler_unmap_run k rc g refs c : handler_ok refs c → refs !! k = Some (rc, g) →
  wp (handler_unmap k) (λ _ st', ∃ refs' c', st' = (refs', Some c') ∧
    unmap_effect k rc g refs c refs' c') (refs, Some c).
Proof.
  intros Hok E. destruct (ho_entries _ _ Hok k (rc, g) E) as [Hc Hg [Hf Hcov] [fl Hp]]. simpl in *.
  unfold handler_unmap. wp_step. apply wp_get. simpl. wp_step. eapply wp_lift; [by rewrite E|].
  wp_step. eapply wp_lift; [apply checked_ok; unfold fits; simpl; lia|]. simpl.
  wp_step. apply wp_put. case_bool_decide as Hrc.
  - wp_step. apply wp_get. wp_step. simpl. eapply wp_lift; [by rewrite lookup_insert_eq|].
    wp_step. apply wp_put. wp_step. apply wp_on_snd. simpl.
    destruct (frame_ok_mul k Hf) as [Ek Hk]. destruct g as [gp b]. simpl in Hg. subst gp.
    rewrite Ek in Hp at 2.
    eapply wp_mono; [by eapply (unmap_run c k b (k / 4096) fl (ho_ctx _ _ Hok))|].
    intros ? s' (-> & c' & -> & Hc' & Hp' & Hm' & Hcap' & _).
    eapply wp_lift; [done|]. eexists _, c'. split; [done|].
    rewrite delete_insert_eq. split.
    + split; [done|]. intros j e. destruct (decide (j = k)) as [->|Hne].
      * by rewrite lookup_delete_eq.
      * rewrite lookup_delete_ne by done. intros He.
        eapply entry_ok_context; [by apply Hok|done|]. by rewrite Hp', lookup_delete_ne.
    + rewrite lookup_delete_eq. by rewrite decide_True by lia.
    + intros j Hne. by rewrite lookup_delete_ne.
    + intros j. rewrite Hp'. destruct (decide (j = k)) as [->|Hne].
      * rewrite lookup_delete_eq, decide_True; [done|]. split; [done|lia].
      * rewrite lookup_delete_ne, decide_False; [done|by intros [? _]|done].
  - apply wp_ret. eexists _, c. split; [done|]. split.
    + split; [apply Hok|]. intros j e. destruct (decide (j = k)) as [->|Hne].
      * rewrite lookup_insert_eq. intros [= <-]. split; simpl; try done; [lia|eauto].
      * rewrite lookup_insert_ne by done. apply Hok.
    + rewrite lookup_insert_eq. by rewrite decide_False by lia.
    + intros j Hne. by rewrite lookup_insert_ne.
    + intros j. rewrite decide_False; [done|]. intros [_ ?]. lia.
Qed.

(** ** Loops over frames *)

(** [st'] is [st] after mapping each frame of [L] once. *)
Record maps_effect (L : list Z) refs c refs' c' : Prop := {
  ms_ok : handler_ok refs' c';
  ms_entry k : k ∈ L → bumped (refs !! k) (refs' !! k);
  ms_others k : k ∉ L → refs' !! k = refs !! k;
  ms_pages k : (k ∉ L ∨ is_Some (refs !! k)) → pages c'.1 !! k = pages c.1 !! k;
  ms_fresh k : k ∈ L → refs !! k = None → pages c.1 !! k = None;
}.

Lemma map_loop_Ret L refs c st' : handler_ok refs c → NoDup L → Forall frame_ok L →
  mfor L handler_map (refs, Some c) = Ret (tt, st') →
  ∃ refs' c', st' = (refs', Some c') ∧ maps_effect L refs c refs' c'.
Proof.
  intros Hok Hnd HF. revert refs c Hok. induction L as [|k L IH]; intros refs c Hok Hr; simpl in Hr.
  { inv_run. exists refs, c. split; [done|]. split; try done; set_solver. }
  apply NoDup_cons in Hnd as [Hk Hnd]. apply Forall_cons in HF as [Hfk HF].
  apply bind_Ret in Hr as ([] & s1 & Hr1 & Hr).
  apply handler_map_Ret in Hr1 as (refs1 & c1 & -> & [Hok1 He1 Ho1 Hp1 Hf1]); [|done|done].
  destruct (IH Hnd HF refs1 c1 Hok1 Hr) as (refs2 & c2 & -> & [Hok2 He2 Ho2 Hp2 Hf2]).
  exists refs2, c2. split; [done|]. split; [done| | | |].
  - intros j [->|Hj]%elem_of_cons; [by rewrite Ho2|]. rewrite <-(Ho1 j); [by apply He2|].
    by intros ->.
  - intros j [Hne Hj]%not_elem_of_cons. by rewrite Ho2, Ho1.
  - intros j Hj. destruct (decide (j = k)) as [->|Hne].
    + destruct Hj as [Hj|Hs]; [set_solver|]. rewrite Hp2, Hp1; auto.
    + rewrite Hp2, Hp1; [done|by left|].
      rewrite Ho1 by done. destruct Hj as [Hj|Hs]; [left; set_solver|by right].
  - intros j [->|Hj]%elem_of_cons Hn; [by apply Hf1|].
    assert (j ≠ k) as Hne by (by intros ->). rewrite <-(Hp1 j) by (by left).
    apply Hf2; [done|]. by rewrite Ho1.
Qed.

Lemma unmap_loop_run L refs c : handler_ok refs c → NoDup L →
  (∀ k, k ∈ L → is_Some (refs !! k)) →
  wp (mfor L handler_unmap) (λ _ st', ∃ refs' c', st' = (refs', Some c') ∧
    handler_ok refs' c' ∧
    (∀ k rc g, k ∈ L → refs !! k = Some (rc, g) →
       refs' !! k = (if decide (rc = 1) then None else Some (rc - 1, g)) ∧
       pages c'.1 !! k = if decide (rc = 1) then None else pages c.1 !! k) ∧
    (∀ k, k ∉ L → refs' !! k = refs !! k ∧ pages c'.1 !! k = pages c.1 !! k)) (refs, Some c).
Proof.
  intros Hok Hnd. revert refs c Hok. induction L as [|k L IH]; intros refs c Hok Hall; simpl.
  { apply wp_ret. exists refs, c. split_and!; try done. by intros ? ? ? ?%not_elem_of_nil. }
  apply NoDup_cons in Hnd as [Hk Hnd].
  destruct (Hall k) as [[rc g] Hrc]; [left|].
  wp_step. eapply wp_mono; [by eapply handler_unmap_run|].
  intros ? st1 (refs1 & c1 & -> & [Hok1 He1 Ho1 Hp1]).
  eapply wp_mono; [apply IH; [done|done|]|].
  { intros j Hj. rewrite Ho1; [apply Hall; by right|by intros ->]. }
  intros ? st2 (refs2 & c2 & -> & Hok2 & Hin & Hout). exists refs2, c2.
  split_and!; [done|done| |].
  - intros j rc' g' [->|Hj]%elem_of_cons Hj'.
    + destruct (Hout k Hk) as [Hr2 Hp2]. rewrite Hr2, Hp2, He1, Hp1.
      rewrite Hrc in Hj'. injection Hj' as -> ->. split; [done|].
      destruct (decide (rc' = 1)); [by rewrite decide_True|].
      rewrite decide_False; [done|by intros [_ ?]].
    + assert (j ≠ k) as Hne by (by intros ->).
      destruct (Hin j rc' g') as [Hr2 Hp2]; [done|by rewrite Ho1|]. split; [done|].
      rewrite Hp2, Hp1. rewrite (decide_False (P := j = k ∧ rc = 1)); [done|by intros [? _]].
  - intros j [Hne Hj]%not_elem_of_cons. destruct (Hout j Hj) as [Hr2 Hp2].
    rewrite Hr2, Hp2, Ho1, Hp1 by done. rewrite decide_False; [done|by intros [? _]].
Qed.

(** Unmapping what was mapped, in any order of the same frames. *)
Lemma map_unmap_loop L refs c refs1 c1 : handler_ok refs c → NoDup L →
  maps_effect L refs c refs1 c1 →
  wp (mfor L handler_unmap) (λ _ st', ∃ c', st' = (refs, Some c') ∧
    handler_ok refs c' ∧ pages c'.1 = pages c.1) (refs1, Some c1).
Proof.
  intros Hok Hnd [Hok1 He Ho Hp Hf].
  eapply wp_mono; [apply unmap_loop_run; [done|done|]|].
  { intros k Hk. specialize (He k Hk). unfold bumped in He.
    destruct (refs !! k) as [[rc g]|]; naive_solver. }
  intros ? st' (refs2 & c2 & -> & Hok2 & Hin & Hout).
  assert (∀ k, refs2 !! k = refs !! k ∧ pages c2.1 !! k = pages c.1 !! k) as Heq.
  { intros k. destruct (decide (k ∈ L)) as [Hk|Hk].
    - specialize (He k Hk). unfold bumped in He. destruct (refs !! k) as [[rc g]|] eqn:E.
      + destruct (Hin k _ _ Hk He) as [-> ->].
        destruct (ho_entries _ _ Hok k _ E) as [Hc _ _ _]. simpl in Hc.
        rewrite !decide_False by lia. split; [repeat f_equal; lia|]. apply Hp. right. by rewrite E.
      + destruct He as [g He]. destruct (Hin k _ _ Hk He) as [-> ->].
        rewrite !decide_True by done. split; [done|]. symmetry. by apply Hf.
    - destruct (Hout k Hk) as [-> ->]. rewrite Ho by done. split; [done|]. apply Hp. by left. }
  assert (refs2 = refs) as -> by (apply map_eq; apply Heq).
  exists c2. split_and!; [done|done|]. apply map_eq. apply Heq.
Qed.
End handler_facts.

(** ** Sequences of requests *)

Inductive handler_op : Type :=
  | HMap (k : Z)
  | HUnmap (k : Z).

Definition op_frame (o : handler_op) : Z := match o with HMap k | HUnmap k => k end.

Definition run_op `{BootInfo} `{Addresses} {T} `{Mapper T} (o : handler_op) : M (HandlerState T) unit :=
  match o with HMap k => handler_map k | HUnmap k => handler_unmap k end.

(** The count of frame [k], and the change of it an operation makes. *)
Definition count (refs : gmap Z (Z * UnmapGuard)) (k : Z) : Z :=
  match refs !! k with Some e => e.1 | None => 0 end.
Definition delta (k : Z) (o : handler_op) : Z :=
  match o with
  | HMap j => if decide (j = k) then 1 else 0
  | HUnmap j => if decide (j = k) then -1 else 0
  end.
Fixpoint net (k : Z) (os : list handler_op) : Z :=
  match os with [] => 0 | o :: os' => delta k o + net k os' end.

(** The table against the mappings [m0] that were there before the handler. *)
Record tracks {T} `{MapperLaws T} (m0 : gmap Z (Z * PageTableFlags))
    (refs : gmap Z (Z * UnmapGuard)) (c : PagingContext T) : Prop := {
  tr_ok : handler_ok refs c;
  tr_absent k : refs !! k = None → pages c.1 !! k = m0 !! k;
  tr_present k : is_Some (refs !! k) → m0 !! k = None;
}.

Section sequences.
Context `{BootInfo} `{!BootInfoLaws} `{Addresses} `{!AddressesLaws}.
Context {T : Type} `{Mapper T} `{!MapperLaws T}.
Implicit Types (c : PagingContext T) (refs : gmap Z (Z * UnmapGuard)).

Lemma handler_unmap_absent k refs (s : PagingState T) : refs !! k = None →
  handler_unmap k (refs, s) = Panic (Explicit "Trying to unmap non mapped frame").
Proof.
  intros E. unfold handler_unmap. erewrite run_bind by done. apply run_bind_panic.
  simpl. by rewrite E.
Qed.

Lemma run_op_tracks m0 o refs c st' : tracks m0 refs c → frame_ok (op_frame o) →
  run_op o (refs, Some c) = Ret (tt, st') →
  ∃ refs' c', st' = (refs', Some c') ∧ tracks m0 refs' c' ∧
    ∀ k, count refs' k = count refs k + delta k o.
Proof.
  intros [Hok Ha Hp] Hf Hr. destruct o as [j|j]; simpl in *.
  - apply handler_map_Ret in Hr as (refs' & c' & -> & [Hok' He Ho Hpg Hfr]); [|done|done].
    exists refs', c'. split; [done|]. unfold bumped in He. split; [split; [done| |]|].
    + intros k Hk. destruct (decide (k = j)) as [->|Hne].
      * destruct (refs !! j) as [[rc g]|]; [congruence|]. destruct He as [g He]. congruence.
      * rewrite Hpg by (by left). apply Ha. by rewrite <-Ho.
    + intros k Hk. destruct (decide (k = j)) as [->|Hne].
      * destruct (refs !! j) eqn:E; [apply Hp; by rewrite E|]. rewrite <-Ha by done. by apply Hfr.
      * apply Hp. by rewrite <-Ho.
    + intros k. unfold count, delta. destruct (decide (j = k)) as [<-|Hjk].
      * destruct (refs !! j) as [[rc g]|]; [by rewrite He|]. destruct He as [g ->]. done.
      * rewrite Ho by done. lia.
  - destruct (refs !! j) as [[rc g]|] eqn:E; [|by rewrite handler_unmap_absent in Hr].
    pose proof (handler_unmap_run j rc g refs c Hok E) as Hw. unfold wp in Hw. rewrite Hr in Hw.
    destruct Hw as (refs' & c' & -> & [Hok' He Ho Hpg]). exists refs', c'. split; [done|].
    pose proof (Hp j ltac:(by rewrite E)) as Hj0. split; [split; [done| |]|].
    + intros k Hk. rewrite Hpg. destruct (decide (k = j)) as [->|Hne].
      * rewrite He in Hk. destruct (decide (rc = 1)); [|done]. by rewrite decide_True.
      * rewrite decide_False by (by intros [? _]). apply Ha. by rewrite <-Ho.
    + intros k Hk. destruct (decide (k = j)) as [->|Hne]; [done|]. apply Hp. by rewrite <-Ho.
    + intros k. unfold count, delta. destruct (decide (j = k)) as [<-|Hjk].
      * rewrite E, He. simpl. case_decide; simpl; lia.
      * rewrite Ho by done. lia.
Qed.

Lemma run_ops_tracks m0 os refs c st' : tracks m0 refs c → Forall (λ o, frame_ok (op_frame o)) os →
  mfor os run_op (refs, Some c) = Ret (tt, st') →
  ∃ refs' c', st' = (refs', Some c') ∧ tracks m0 refs' c' ∧
    ∀ k, count refs' k = count refs k + net k os.
Proof.
  revert refs c. induction os as [|o os IH]; intros refs c Ht HF Hr; simpl in Hr.
  { inv_run. exists refs, c. split_and!; [done|done|]. intros k. simpl. lia. }
  apply Forall_cons in HF as [Ho HF]. apply bind_Ret in Hr as ([] & s1 & Hr1 & Hr).
  destruct (run_op_tracks m0 o refs c s1 Ht Ho Hr1) as (refs1 & c1 & -> & Ht1 & Hc1).
  destruct (IH refs1 c1 Ht1 HF Hr) as (refs2 & c2 & -> & Ht2 & Hc2).
  exists refs2, c2. split_and!; [done|done|]. intros k. rewrite Hc2, Hc1. simpl. lia.
Qed.

(** The frames of a region: from the frame of its first byte to the frame of the
    byte after its last. *)
Definition region_frames (physical_address size : Z) : list Z :=
  frames_from (align_down physical_address)
    ((align_down (physical_address + size) - align_down physical_address) / 4096 + 1).

Lemma region_frames_ok pa size : 0 ≤ pa → 0 ≤ size → pa + size < 2 ^ 47 - 4096 →
  NoDup (region_frames pa size) ∧ Forall frame_ok (region_frames pa size).
Proof.
  intros Hpa Hs Hlt. split; [apply NoDup_frames_from|]. apply Forall_forall.
  intros x (i & Hi & ->)%elem_of_frames_from. split; [auto|]. unfold align_down in *. lia.
Qed.

Lemma map_region_Ret pa size refs c region st' : handler_ok refs c →
  0 ≤ pa → 0 ≤ size → pa + size < 2 ^ 47 - 4096 →
  map_physical_region pa size (refs, Some c) = Ret (region, st') →
  region = mkMapping (align_down pa) pa size
    (align_down (pa + size) + 4096 - align_down pa) ∧
  ∃ refs' c', st' = (refs', Some c') ∧ maps_effect (region_frames pa size) refs c refs' c'.
Proof.
  intros Hok Hpa Hs Hlt Hr. unfold map_physical_region in Hr.
  rewrite PhysAddr_new_ok in Hr by lia. erewrite run_bind in Hr by done.
  apply bind_Ret in Hr as (top & s0 & [Ht ->]%lift_Ret & Hr).
  apply checked_Ret in Ht as [-> _].
  rewrite PhysAddr_new_ok in Hr by lia. erewrite run_bind in Hr by done.
  rewrite !frame_containing_spec, frame_range_inclusive_spec in Hr by auto.
  apply bind_Ret in Hr as ([] & s1 & Hl & Hr).
  apply bind_Ret in Hr as (past & s2 & [Hp ->]%lift_Ret & Hr).
  apply checked_Ret in Hp as [-> _].
  apply bind_Ret in Hr as (len & s3 & [Hn ->]%lift_Ret & Hr).
  apply checked_Ret in Hn as [-> _]. apply ret_Ret in Hr as [<- ->]. split; [done|].
  destruct (region_frames_ok pa size Hpa Hs Hlt) as [Hnd HF]. by apply map_loop_Ret.
Qed.
End sequences.

(** ** Properties *)

Section handler_properties.
Context `{BootInfo} `{!BootInfoLaws} `{Addresses} `{!AddressesLaws}.
Context {T : Type} `{Mapper T} `{!MapperLaws T}.
Implicit Types (c : PagingContext T) (refs : gmap Z (Z * UnmapGuard)).

(** C9. Round trip: unmapping a region that [map_physical_region] mapped never
    panics and restores the reference table and every page mapping exactly, also
    when other users hold some of its frames. *)
Theorem physical_region_roundtrip refs c pa size region st1 :
  handler_ok refs c → 0 ≤ pa → 0 ≤ size → pa + size < 2 ^ 47 - 4096 →
  map_physical_region pa size (refs, Some c) = Ret (region, st1) →
  ∃ c2, unmap_physical_region region st1 = Ret (tt, (refs, Some c2)) ∧
    handler_ok refs c2 ∧ pages c2.1 = pages c.1.
Proof.
  intros Hok Hpa Hs Hlt Hr.
  apply map_region_Ret in Hr as (-> & refs1 & c1 & -> & Hms); [|done..].
  destruct (region_frames_ok pa size Hpa Hs Hlt) as [Hnd _].
  pose proof (map_unmap_loop _ _ _ _ _ Hok Hnd Hms) as Hw.
  apply wp_elim in Hw as ([] & st2 & Hr2 & c2 & -> & Hok2 & Hp2).
  exists c2. split; [|done]. unfold unmap_physical_region. simpl.
  pose proof (align_down_le pa). pose proof (align_down_le (pa + size)).
  pose proof (align_down_aligned pa) as Ha. pose proof (align_down_aligned (pa + size)) as Hb.
  assert (0 ≤ align_down pa) by (unfold align_down; lia).
  rewrite VirtAddr_new_ok by lia. erewrite run_bind by done.
  rewrite page_from_start_spec, bool_decide_true by done. erewrite run_bind by done.
  unfold add_w. rewrite checked_ok by (unfold fits; lia). erewrite run_bind by done.
  replace (align_down pa + (align_down (pa + size) + 4096 - align_down pa))
    with (align_down (pa + size) + 1 * 4096) by lia.
  assert (aligned (align_down (pa + size) + 1 * 4096)) as Hc by auto.
  rewrite VirtAddr_new_ok by lia. erewrite run_bind by done.
  rewrite page_from_start_spec, bool_decide_true by done. erewrite run_bind by done.
  rewrite page_range_spec by done. unfold region_frames in Hr2.
  by replace ((align_down (pa + size) + 1 * 4096 - align_down pa) / 4096)
    with ((align_down (pa + size) - align_down pa) / 4096 + 1) by lia.
Qed.

(** Accessibility: once a region is mapped, every byte of it lies on a page
    that is mapped to the frame of the same address and is held by the table. *)
Theorem physical_region_accessible refs c pa size region st1 x :
  handler_ok refs c → 0 ≤ pa → 0 ≤ size → pa + size < 2 ^ 47 - 4096 →
  map_physical_region pa size (refs, Some c) = Ret (region, st1) →
  pa ≤ x ≤ pa + size →
  physical_start region ≤ x < physical_start region + mapped_length region ∧
  ∃ refs1 c1 fl, st1 = (refs1, Some c1) ∧ is_Some (refs1 !! align_down x) ∧
    pages c1.1 !! align_down x = Some (align_down x, fl).
Proof.
  intros Hok Hpa Hs Hlt Hr Hx.
  apply map_region_Ret in Hr as (-> & refs1 & c1 & -> & [Hok1 He _ _ _]); [|done..].
  split; [simpl; unfold align_down; lia|].
  assert (align_down x ∈ region_frames pa size) as Hin.
  { apply elem_of_frames_from. exists ((align_down x - align_down pa) / 4096).
    unfold align_down. lia. }
  specialize (He _ Hin). unfold bumped in He.
  assert (is_Some (refs1 !! align_down x)) as [e Hs1].
  { destruct (refs !! align_down x) as [[rc g]|]; [by rewrite He|]. destruct He as [g ->]. done. }
  destruct (ho_entries _ _ Hok1 _ _ Hs1) as [_ _ _ [fl Hp]].
  exists refs1, c1, fl. by rewrite Hs1.
Qed.

(** C10. Reference counting: after any run of map and unmap requests that did not
    panic, started with an empty table, the count of each frame is the number of
    maps minus the number of unmaps, an absent entry means none is outstanding,
    and the pages of frames that are not held are mapped as they were before. *)
Theorem handler_counts os c st' :
  ctx_ok c → Forall (λ o, frame_ok (op_frame o)) os →
  mfor os run_op (Handler_new, Some c) = Ret (tt, st') →
  ∃ refs c', st' = (refs, Some c') ∧ handler_ok refs c' ∧
    ∀ k, net k os = count refs k ∧ (net k os = 0 ↔ refs !! k = None) ∧
      (net k os = 0 → pages c'.1 !! k = pages c.1 !! k).
Proof.
  intros Hc HF Hr. unfold Handler_new in Hr.
  destruct (run_ops_tracks (pages c.1) os ∅ c st') as (refs & c' & -> & [Hok Ha Hp] & Hcnt);
    [|done|done|].
  { split; [split; [done|]| |]; intros k; [intros e|done|]; rewrite lookup_empty; [done|by intros []]. }
  exists refs, c'. split_and!; [done|done|]. intros k. specialize (Hcnt k).
  unfold count in *. rewrite lookup_empty in Hcnt.
  assert (net k os = 0 ↔ refs !! k = None) as Hiff.
  { destruct (refs !! k) as [e|] eqn:E; [|split; [done|lia]].
    destruct (ho_entries _ _ Hok k e E) as [Hc1 _ _ _]. split; [lia|done]. }
  split_and!; [lia|done|]. intros Hz. by apply Ha, Hiff.
Qed.

(** Unmapping on every branch: a frame that is not held makes it panic; a
    frame held more than once loses one reference and nothing else happens; the
    last release removes the entry and the page mapping. *)
Theorem handler_unmap_spec refs c k :
  handler_ok refs c →
  match refs !! k with
  | None => handler_unmap k (refs, Some c) =
      Panic (Explicit "Trying to unmap non mapped frame")
  | Some (rc, g) => ∃ refs' c', handler_unmap k (refs, Some c) = Ret (tt, (refs', Some c')) ∧
      handler_ok refs' c' ∧
      refs' = (if decide (rc = 1) then delete k refs else <[k := (rc - 1, g)]> refs) ∧
      pages c'.1 = if decide (rc = 1) then delete k (pages c.1) else pages c.1
  end.
Proof.
  intros Hok. destruct (refs !! k) as [[rc g]|] eqn:E; [|by apply handler_unmap_absent].
  pose proof (handler_unmap_run k rc g refs c Hok E) as Hw.
  apply wp_elim in Hw as ([] & st' & Hr & refs' & c' & -> & [Hok' He Ho Hp]).
  exists refs', c'. split_and!; [done|done| |]; apply map_eq; intros j.
  - destruct (decide (j = k)) as [->|Hne].
    + rewrite He. case_decide; [by rewrite lookup_delete_eq|by rewrite lookup_insert_eq].
    + rewrite Ho by done. case_decide; [by rewrite lookup_delete_ne|by rewrite lookup_insert_ne].
  - rewrite Hp. destruct (decide (rc = 1)) as [Hrc|Hrc]; destruct (decide (j = k)) as [->|Hne].
    + by rewrite decide_True, lookup_delete_eq.
    + rewrite decide_False by (by intros [? _]). by rewrite lookup_delete_ne.
    + rewrite decide_False by (by intros [_ ?]). done.
    + rewrite decide_False by (by intros [? _]). done.
Qed.

(** [st'] is [st] with one more reference to frame [k], and nothing else. *)
Definition raises_only (k : Z) refs c (st' : HandlerState T) : Prop :=
  ∃ refs' c', st' = (refs', Some c') ∧ handler_ok refs' c' ∧
    count refs' k = count refs k + 1 ∧
    ∀ j, j ≠ k → refs' !! j = refs !! j ∧ pages c'.1 !! j = pages c.1 !! j.

Lemma handler_map_raises refs c k st' : handler_ok refs c → frame_ok k →
  handler_map k (refs, Some c) = Ret (tt, st') → raises_only k refs c st'.
Proof.
  intros Hok Hk Hm. apply handler_map_Ret in Hm as (refs' & c' & -> & [Hok' He Ho Hp _]); [|done..].
  exists refs', c'. split_and!; [done|done| |].
  - unfold count, bumped in *. destruct (refs !! _) as [[rc g]|]; [by rewrite He|].
    by destruct He as [g ->].
  - intros j Hj. split; [by apply Ho|]. apply Hp. by left.
Qed.

(** An access, once the frame of its first byte is mapped. *)
Lemma handler_access_run `{!Translate T} {D A} (access : M D A) refs c (d : D) w address :
  0 ≤ address < 2 ^ 47 →
  (a ← on_fst (lift (PhysAddr_new address));
   on_fst (handler_map (frame_containing_address a)) ≫= λ _,
   on_fst (access_memory w address) ≫= λ _, on_snd access) ((refs, Some c), d) =
  match handler_map (align_down address) (refs, Some c) with
  | Panic p => Panic p
  | Ret (_, st') =>
      match access_memory w address st' with
      | Panic p => Panic p
      | Ret (_, st2) =>
          match access d with Ret (v, d') => Ret (v, (st2, d')) | Panic p => Panic p end
      end
  end.
Proof.
  intros Ha. rewrite PhysAddr_new_ok by lia. erewrite run_bind by done.
  rewrite frame_containing_spec. unfold mbind, M_bind, on_fst.
  destruct (handler_map _ _) as [[[] st1]|]; [|done].
  destruct (access_memory w address st1) as [[[] st2]|]; [|done]. done.
Qed.

(** Checking the page tables changes nothing. *)
Lemma access_memory_Ret `{!Translate T} w address (st st' : HandlerState T) u :
  access_memory w address st = Ret (u, st') → st' = st.
Proof.
  unfold access_memory. intros Hr. erewrite run_bind in Hr by done.
  destruct st as [refs [ctx|]]; [|done]. simpl in Hr. destruct (_ && _); [|done]. by injection Hr.
Qed.

(** After the first frame is mapped, the access goes through exactly when the page of
    its last byte is that frame's or was mapped before. *)
Lemma access_memory_mapped `{!Translate T} `{!TranslateLaws T} w address refs c st' :
  handler_ok refs c → 0 ≤ address < 2 ^ 47 →
  handler_map (align_down address) (refs, Some c) = Ret (tt, st') →
  let last := align_down (address + w / 8 - 1) in
  (last = align_down address ∨ is_Some (pages c.1 !! last) →
     access_memory w address st' = Ret (tt, st')) ∧
  (last ≠ align_down address → pages c.1 !! last = None → huge c.1 last = false →
     access_memory w address st' = Panic PageFault).
Proof.
  intros Hok Ha Hm last.
  assert (frame_ok (align_down address)) as Hf by (split; [auto|unfold align_down; lia]).
  pose proof (handler_map_raises _ _ _ _ Hok Hf Hm) as (refs' & c' & -> & Hok' & Hcnt & Ho).
  apply handler_map_huge in Hm as Hh; [|done..].
  assert (is_Some (pages c'.1 !! align_down address)) as Hfirst.
  { unfold count in Hcnt. destruct (refs' !! align_down address) as [e|] eqn:E.
    - destruct (eo_page _ _ _ (ho_entries _ _ Hok' _ _ E)) as [fl ->]. eauto.
    - destruct (refs !! align_down address) as [e|] eqn:E2; [|lia].
      pose proof (eo_count _ _ _ (ho_entries _ _ Hok _ _ E2)). lia. }
  assert (∀ a, is_Some (pages c'.1 !! align_down a) → present c'.1 a = true) as Hpres.
  { intros a [[f fl] Hp]. unfold present.
    rewrite translate_spec by (by eapply pages_not_huge). by rewrite Hp. }
  unfold access_memory. erewrite run_bind by done. simpl. rewrite (Hpres address Hfirst). simpl.
  split.
  - intros Hl. rewrite Hpres; [done|]. destruct (decide (last = align_down address)) as [E|Hne].
    + fold last. by rewrite E.
    + destruct Hl as [|Hl]; [done|]. fold last. by rewrite (proj2 (Ho last Hne)).
  - intros Hne Hnone Hhu. unfold present. rewrite translate_spec by (by fold last; rewrite Hh).
    fold last. by rewrite (proj2 (Ho last Hne)), Hnone.
Qed.

(** An access that returns, inverted. *)
Lemma handler_read_Ret `{!Translate T} {D} `{Bus D} refs c (d : D) w address v st' d' :
  handler_ok refs c → 0 ≤ address < 2 ^ 47 →
  handler_read w address ((refs, Some c), d) = Ret (v, (st', d')) →
  mem_in w address d = (v, d') ∧ raises_only (align_down address) refs c st'.
Proof.
  intros Hok Ha Hr. assert (frame_ok (align_down address)) as Hf.
  { split; [auto|unfold align_down; lia]. }
  unfold handler_read in Hr. rewrite handler_access_run in Hr by done.
  destruct (handler_map _ _) as [[[] st1]|] eqn:Em; [|done].
  destruct (access_memory _ _ _) as [[[] st2]|] eqn:Eb; [|done]. apply access_memory_Ret in Eb as ->.
  unfold read_volatile in Hr. destruct (mem_in w address d) as [v1 d1]. injection Hr as -> -> ->.
  split; [done|]. by apply handler_map_raises.
Qed.

Lemma handler_write_Ret `{!Translate T} {D} `{Bus D} refs c (d : D) w address x v st' d' :
  handler_ok refs c → 0 ≤ address < 2 ^ 47 →
  handler_write w address x ((refs, Some c), d) = Ret (v, (st', d')) →
  d' = mem_out w address x d ∧ raises_only (align_down address) refs c st'.
Proof.
  intros Hok Ha Hr. assert (frame_ok (align_down address)) as Hf.
  { split; [auto|unfold align_down; lia]. }
  unfold handler_write in Hr. rewrite handler_access_run in Hr by done.
  destruct (handler_map _ _) as [[[] st1]|] eqn:Em; [|done].
  destruct (access_memory _ _ _) as [[[] st2]|] eqn:Eb; [|done]. apply access_memory_Ret in Eb as ->.
  unfold write_volatile in Hr. injection Hr as _ -> <-.
  split; [done|]. by apply handler_map_raises.
Qed.

End handler_properties.

(** ** Witnesses *)

Module HandlerWitness.
Import Reference AllocatorWitness InitWitness MemoryWitness.

Lemma empty_handler_ok : handler_ok Handler_new demo_ctx.
Proof. split; [apply demo_ctx_ok|]. intros k e. unfold Handler_new. by rewrite lookup_empty. Qed.

(** 5000 bytes from 16400 on: frames 4 and 5. *)
Definition demo_mapped : outcome (PhysicalMapping * HandlerState tables) :=
  map_physical_region 16400 5000 (Handler_new, Some demo_ctx).

Lemma demo_mapped_run : ∃ region st1, demo_mapped = Ret (region, st1).
Proof. eexists _, _. by vm_compute. Qed.

Lemma physical_region_roundtrip_witness :
  ∃ region st1 c2, demo_mapped = Ret (region, st1) ∧
    unmap_physical_region region st1 = Ret (tt, (Handler_new, Some c2)) ∧ pages c2.1 = ∅.
Proof.
  destruct demo_mapped_run as (region & st1 & Hr).
  destruct (physical_region_roundtrip Handler_new demo_ctx 16400 5000 region st1
    empty_handler_ok ltac:(lia) ltac:(lia) ltac:(lia) Hr) as (c2 & H1 & _ & H2).
  exists region, st1, c2. exact (conj Hr (conj H1 H2)).
Defined.

Lemma physical_region_accessible_witness :
  ∃ region refs1 c1 fl, demo_mapped = Ret (region, (refs1, Some c1)) ∧
    pages c1.1 !! 20480 = Some (20480, fl).
Proof.
  destruct demo_mapped_run as (region & st1 & Hr).
  destruct (physical_region_accessible Handler_new demo_ctx 16400 5000 region st1 21000
    empty_handler_ok ltac:(lia) ltac:(lia) ltac:(lia) Hr ltac:(lia))
    as (_ & refs1 & c1 & fl & H1 & _ & H2).
  exists region, refs1, c1, fl. rewrite H1 in Hr. exact (conj Hr H2).
Defined.

Lemma handler_counts_witness :
  ∃ refs c', mfor [HMap 16384; HMap 16384; HMap 0; HUnmap 16384; HUnmap 0] run_op
      (Handler_new, Some demo_ctx) = Ret (tt, (refs, Some c')) ∧
    count refs 16384 = 1 ∧ refs !! 0 = None.
Proof.
  destruct (mfor [HMap 16384; HMap 16384; HMap 0; HUnmap 16384; HUnmap 0] run_op
    (Handler_new, Some demo_ctx)) as [[[] st']|p] eqn:E; [|by vm_compute in E].
  destruct (handler_counts [HMap 16384; HMap 16384; HMap 0; HUnmap 16384; HUnmap 0] demo_ctx st')
    as (refs & c' & -> & _ & Hk).
  - apply demo_ctx_ok.
  - repeat constructor; simpl; lia.
  - exact E.
  - exists refs, c'. split; [done|].
    exact (conj (eq_sym (proj1 (Hk 16384))) (proj1 (proj1 (proj2 (Hk 0))) eq_refl)).
Defined.

Lemma handler_unmap_spec_witness :
  handler_unmap 16384 (Handler_new, Some demo_ctx) =
    Panic (Explicit "Trying to unmap non mapped frame").
Proof. apply (handler_unmap_spec Handler_new demo_ctx 16384 empty_handler_ok). Defined.

(** A memory that answers zero and keeps nothing. *)
#[local] Instance null_bus : Bus unit := {|
  port_in _ _ h := (0, h); port_out _ _ _ h := h;
  mem_in _ _ h := (0, h); mem_out _ _ _ h := h; halt h := h |}.

End HandlerWitness.
