(* ===== verification/Pci.v ===== *)
(** * PCI configuration space (src/pci.rs, and the PCI accesses of
    src/acpi/handlers.rs)

    Configuration mechanism 1: the address of a register is written to port
    0xCF8 and the register is read or written through port 0xCFC.  On top of it
    the kernel probes every function of every bus, and serves the PCI accesses of
    the AML interpreter. *)

From S2P Require Import Prelude Bus.
Local Open Scope Z_scope.

(** ** The [pci_types] crate *)

Class PciTypes (PciAddress PciHeader : Type) : Type := {
  PciAddress_new (segment bus device function : Z) : outcome PciAddress;
  bus : PciAddress → Z;
  device : PciAddress → Z;
  function : PciAddress → Z;
  PciHeader_new : PciAddress → PciHeader;
}.

(** Bus, device and function numbers have 8, 5 and 3 bits. *)
Class PciTypesLaws (PciAddress PciHeader : Type) `{PciTypes PciAddress PciHeader} : Prop := {
  PciAddress_fields a : fits 8 (bus a) ∧ fits 5 (device a) ∧ fits 3 (function a);
  PciAddress_new_ok s b d f : fits 16 s → fits 8 b → fits 5 d → fits 3 f →
    ∃ a, PciAddress_new s b d f = Ret a ∧ bus a = b ∧ device a = d ∧ function a = f;
}.

(** ** The code *)

Definition CONFIG_ADDRESS : Z := 0xCF8.
Definition CONFIG_DATA : Z := 0xCFC.

Section code.
Context {PciAddress PciHeader : Type} `{PciTypes PciAddress PciHeader}.
Context {D : Type} `{Bus D}.

Definition ConfigAddress_from (address : PciAddress) : Z :=
  let result := 0 in
  let result := Z.lor result (as_u32 (Z.shiftl (function address) 8)) in
  let result := Z.lor result (as_u32 (Z.shiftl (device address) 11)) in
  let result := Z.lor result (as_u32 (Z.shiftl (bus address) 16)) in
  let result := Z.lor result (Z.shiftl 1 31) in
  result.

Definition pci_read (address : PciAddress) (offset : Z) : M D Z :=
  if negb (Z.land offset 3 =? 0) then fail (Explicit "Try to read pci with unaligned offset")
  else
    let config_address := ConfigAddress_from address in
    write_to_port 32 CONFIG_ADDRESS (Z.lor config_address (Z.land (as_u32 offset) 0xff)) ≫= λ _,
    read_from_port 32 CONFIG_DATA.

Definition pci_write (address : PciAddress) (offset value : Z) : M D unit :=
  if negb (Z.land offset 3 =? 0) then fail (Explicit "Try to write pci with unaligned offset")
  else
    let config_address := ConfigAddress_from address in
    write_to_port 32 CONFIG_ADDRESS (Z.lor config_address (Z.land (as_u32 offset) 0xff)) ≫= λ _,
    write_to_port 32 CONFIG_DATA value.

(** [ConfigSpaceMechanism1::function_exists] *)
Definition function_exists (address : PciAddress) : M D bool :=
  r ← pci_read address 0;
  let vendor := Z.land r 0xFFFF in
  mret (negb (vendor =? 0xFFFF)).

(** The argument [exists_] is the [function_exists] of the access the caller
    passes. *)
Definition brute_force_find (exists_ : PciAddress → M D bool) :
    M D (list (PciAddress * PciHeader)) :=
  r ← with_local [] (
    mfor (seqZ 0 256) (λ b,
      mfor (seqZ 0 32) (λ d,
        mfor (seqZ 0 8) (λ f,
          address ← lift (PciAddress_new 0 b d f);
          found ← on_fst (exists_ address);
          if found : bool then
            st ← get;
            put (st.1, st.2 ++ [(address, PciHeader_new address)])
          else mret tt))));
  mret r.2.

(** The PCI accesses of [AmlHandler for LockedHandler]. *)
Definition read_pci_u8 (segment b d f offset : Z) : M D Z :=
  address ← lift (PciAddress_new segment b d f);
  r ← pci_read address (Z.land offset 0xFFFC);
  mret (as_u8 (Z.shiftr r (offset mod 4 * 8))).

Definition read_pci_u16 (segment b d f offset : Z) : M D Z :=
  address ← lift (PciAddress_new segment b d f);
  r ← pci_read address (Z.land offset 0xFFFC);
  mret (as_u16 (Z.shiftr r (offset mod 2 * 16))).

Definition read_pci_u32 (segment b d f offset : Z) : M D Z :=
  address ← lift (PciAddress_new segment b d f);
  pci_read address offset.

Definition write_pci_u8 (segment b d f offset value : Z) : M D unit :=
  address ← lift (PciAddress_new segment b d f);
  pci_write address (Z.land offset 0xFFFC) (as_u32 (Z.shiftl (as_u32 value) (offset mod 4 * 8))).

Definition write_pci_u16 (segment b d f offset value : Z) : M D unit :=
  address ← lift (PciAddress_new segment b d f);
  pci_write address (Z.land offset 0xFFFC) (as_u32 (Z.shiftl (as_u32 value) (offset mod 2 * 16))).

Definition write_pci_u32 (segment b d f offset value : Z) : M D unit :=
  address ← lift (PciAddress_new segment b d f);
  pci_write address offset value.
End code.

(** ** The device: configuration mechanism 1 *)

(** A register is named by its bus, device, function and byte offset. *)
Notation reg_name := (Z * Z * Z * Z)%type (only parsing).

(** The register an address selects: bits 23:16 are the bus, 15:11 the device,
    10:8 the function and 7:2 the register. *)
Definition selected (addr : Z) : reg_name :=
  (addr / 2 ^ 16 mod 256, addr / 2 ^ 11 mod 32, addr / 2 ^ 8 mod 8, addr mod 256 / 4 * 4).

Class ConfigSpace (H : Type) : Type := {
  (** The value last written to port 0xCF8, and the registers. *)
  cfg_addr : H → Z;
  cfg : H → reg_name → Z;
  (** What a register holds after a write: bits may be read-only. *)
  cfg_merge : reg_name → Z → Z → Z;
}.

Class ConfigSpaceLaws (H : Type) `{Bus H, ConfigSpace H} : Prop := {
  cfg_fits h k : fits 32 (cfg h k);
  cfg_select v h : cfg_addr (port_out 32 0xCF8 v h) = v;
  cfg_select_cfg v h k : cfg (port_out 32 0xCF8 v h) k = cfg h k;
  (** With the enable bit set, port 0xCFC is the selected register. *)
  cfg_read h : Z.testbit (cfg_addr h) 31 = true →
    (port_in 32 0xCFC h).1 = cfg h (selected (cfg_addr h));
  cfg_read_cfg h k : cfg (port_in 32 0xCFC h).2 k = cfg h k;
  cfg_write v h k : Z.testbit (cfg_addr h) 31 = true → fits 32 v →
    cfg (port_out 32 0xCFC v h) k =
      if decide (k = selected (cfg_addr h)) then cfg_merge k (cfg h k) v else cfg h k;
}.

(** Every register is as before. *)
Definition same_config {H} `{ConfigSpace H} (h h' : H) : Prop := ∀ k, cfg h' k = cfg h k.

#[export] Instance same_config_equiv {H} `{ConfigSpace H} : Equivalence same_config.
Proof.
  split; [done| |].
  - intros h h' E k. by rewrite E.
  - intros h h' h'' E1 E2 k. by rewrite E2.
Qed.

(** ** Lemmas *)

Lemma land_3 x : 0 ≤ x → Z.land x 3 = x mod 4.
Proof. intros. change 3 with (Z.ones 2). by rewrite Z.land_ones. Qed.

Lemma land_ff x : 0 ≤ x → Z.land x 0xff = x mod 256.
Proof. intros. change 0xff with (Z.ones 8). by rewrite Z.land_ones. Qed.

Lemma land_fffc x : fits 16 x → Z.land x 0xFFFC = x / 4 * 4.
Proof.
  intros [? ?]. change 0xFFFC with (Z.land (Z.ones 16) (Z.lnot (Z.ones 2))).
  rewrite Z.land_assoc, Z.land_ones by lia. rewrite Z.mod_small by lia.
  rewrite <-Z.ldiff_land, Z.ldiff_ones_r by lia.
  by rewrite Z.shiftl_mul_pow2, Z.shiftr_div_pow2.
Qed.

Section pci_facts.
Context {PciAddress PciHeader : Type} `{PciTypesLaws PciAddress PciHeader}.
Context {D : Type} `{ConfigSpaceLaws D}.
Implicit Types (a : PciAddress) (h : D).

Definition reg_of a (offset : Z) : reg_name := (bus a, device a, function a, offset mod 256).

Lemma ConfigAddress_value a : ConfigAddress_from a =
  function a * 2 ^ 8 + device a * 2 ^ 11 + bus a * 2 ^ 16 + 2 ^ 31.
Proof.
  destruct (PciAddress_fields a) as ([? ?] & [? ?] & [? ?]). unfold ConfigAddress_from.
  rewrite !cast_id by (unfold fits; rewrite Z.shiftl_mul_pow2; lia).
  rewrite Z.lor_0_l, (Z.shiftl_mul_pow2 (function a)) by lia.
  rewrite (lor_shiftl_add _ (device a)) by (unfold fits; lia).
  rewrite (lor_shiftl_add _ (bus a)) by (unfold fits; lia).
  rewrite lor_shiftl_add by (unfold fits; lia). lia.
Qed.

Lemma address_word a offset : fits 16 offset →
  Z.lor (ConfigAddress_from a) (Z.land (as_u32 offset) 0xff) = ConfigAddress_from a + offset mod 256.
Proof.
  intros [? ?]. rewrite cast_id by (unfold fits; lia). rewrite land_ff by done.
  destruct (PciAddress_fields a) as ([? ?] & [? ?] & [? ?]).
  assert (ConfigAddress_from a =
    Z.shiftl (function a + device a * 2 ^ 3 + bus a * 2 ^ 8 + 2 ^ 23) 8) as ->.
  { rewrite ConfigAddress_value, Z.shiftl_mul_pow2; lia. }
  rewrite Z.lor_comm, lor_shiftl_add by (unfold fits; lia). rewrite Z.shiftl_mul_pow2; lia.
Qed.

Lemma selected_word a offset : offset mod 4 = 0 →
  selected (ConfigAddress_from a + offset mod 256) = reg_of a offset.
Proof.
  intros. destruct (PciAddress_fields a) as ([? ?] & [? ?] & [? ?]).
  rewrite ConfigAddress_value. unfold selected, reg_of. repeat f_equal; lia.
Qed.

Lemma enabled_word a offset : 0 ≤ offset → Z.testbit (ConfigAddress_from a + offset mod 256) 31 = true.
Proof.
  intros. destruct (PciAddress_fields a) as ([? ?] & [? ?] & [? ?]).
  rewrite ConfigAddress_value. apply Z.testbit_true; lia.
Qed.

Lemma wp_pci_read a offset h : fits 16 offset → offset mod 4 = 0 →
  wp (pci_read a offset) (λ v h', v = cfg h (reg_of a offset) ∧ same_config h h') h.
Proof.
  intros Hf Hm. unfold pci_read. destruct Hf as [Hf1 Hf2].
  rewrite land_3, Hm by done. simpl. wp_bus. unfold CONFIG_ADDRESS, CONFIG_DATA.
  rewrite address_word by done. split.
  - rewrite cfg_read; rewrite cfg_select; [|by apply enabled_word].
    by rewrite selected_word, cfg_select_cfg by done.
  - intros k. by rewrite cfg_read_cfg, cfg_select_cfg.
Qed.

Lemma traffic_word a offset : fits 16 offset →
  Z.lor (ConfigAddress_from a) (Z.land (as_u32 offset) 0xff) =
  2 ^ 31 + bus a * 2 ^ 16 + device a * 2 ^ 11 + function a * 2 ^ 8 + offset mod 256.
Proof. intros Hf. rewrite address_word by done. rewrite ConfigAddress_value. lia. Qed.

(** The port accesses of an aligned read and of an aligned write. *)
Lemma pci_read_traffic a offset h : fits 16 offset → offset mod 4 = 0 →
  wp (pci_read a offset) (λ _ h', h' = (port_in 32 0xCFC (port_out 32 0xCF8 (2 ^ 31 +
    bus a * 2 ^ 16 + device a * 2 ^ 11 + function a * 2 ^ 8 + offset mod 256) h)).2) h.
Proof.
  intros Hf Hm. unfold pci_read. rewrite land_3, Hm by apply Hf. simpl.
  rewrite <-traffic_word by done. by wp_bus.
Qed.

Lemma pci_write_traffic a offset v h : fits 16 offset → offset mod 4 = 0 →
  wp (pci_write a offset v) (λ _ h', h' = port_out 32 0xCFC v (port_out 32 0xCF8 (2 ^ 31 +
    bus a * 2 ^ 16 + device a * 2 ^ 11 + function a * 2 ^ 8 + offset mod 256) h)) h.
Proof.
  intros Hf Hm. unfold pci_write. rewrite land_3, Hm by apply Hf. simpl.
  rewrite <-traffic_word by done. by wp_bus.
Qed.

Lemma pci_unaligned a offset v h : fits 16 offset → offset mod 4 ≠ 0 →
  pci_read a offset h = Panic (Explicit "Try to read pci with unaligned offset") ∧
  pci_write a offset v h = Panic (Explicit "Try to write pci with unaligned offset").
Proof.
  intros [Ho1 Ho2] Hm. unfold pci_read, pci_write. rewrite land_3 by done.
  by rewrite (proj2 (Z.eqb_neq _ _) Hm).
Qed.

(** The registers after [v] has been written to register [r]. *)
Definition written h (r : reg_name) (v : Z) (h' : D) : Prop :=
  ∀ k, cfg h' k = if decide (k = r) then cfg_merge k (cfg h k) v else cfg h k.

Lemma wp_pci_write a offset v h : fits 16 offset → offset mod 4 = 0 → fits 32 v →
  wp (pci_write a offset v) (λ _ h', written h (reg_of a offset) v h') h.
Proof.
  intros Hf Hm Hv. unfold pci_write. destruct Hf as [Hf1 Hf2].
  rewrite land_3, Hm by done. simpl. wp_bus. unfold CONFIG_ADDRESS, CONFIG_DATA.
  rewrite address_word by done. intros k.
  rewrite cfg_write, cfg_select; rewrite ?cfg_select; [|by apply enabled_word|done].
  by rewrite selected_word, cfg_select_cfg by done.
Qed.

Lemma wp_function_exists a h :
  wp (function_exists a) (λ b h', b = negb (cfg h (reg_of a 0) mod 2 ^ 16 =? 0xFFFF) ∧
    same_config h h') h.
Proof.
  unfold function_exists. apply wp_bind. eapply wp_mono; [by apply wp_pci_read|].
  intros r h' [-> Hs]. apply wp_ret. split; [|done].
  change 0xFFFF with (Z.ones 16) at 1. by rewrite Z.land_ones.
Qed.

(** Byte [o] of a function's configuration space. *)
Definition cfg_byte h (b d f o : Z) : Z :=
  cfg h (b, d, f, o / 4 * 4) / 2 ^ (o mod 4 * 8) mod 256.

Lemma aligned_offset o : fits 16 o →
  fits 16 (o / 4 * 4) ∧ o / 4 * 4 mod 4 = 0 ∧ o / 4 * 4 mod 256 = o mod 256 / 4 * 4.
Proof. intros [? ?]. unfold fits. lia. Qed.

Lemma cfg_byte_in_word h b d f o i : o mod 4 = 0 → 0 ≤ i < 4 →
  cfg_byte h b d f (o + i) = cfg h (b, d, f, o) / 2 ^ (i * 8) mod 256.
Proof.
  intros. unfold cfg_byte. replace ((o + i) / 4 * 4) with o by lia.
  by replace ((o + i) mod 4) with i by lia.
Qed.

Lemma cfg_byte_first h b d f o : o mod 4 = 0 →
  cfg_byte h b d f o = cfg h (b, d, f, o) / 2 ^ (0 * 8) mod 256.
Proof. intros. rewrite <-cfg_byte_in_word by lia. by rewrite Z.add_0_r. Qed.

Lemma half_bytes w : w mod 2 ^ 16 = w / 2 ^ (0 * 8) mod 256 + 2 ^ 8 * (w / 2 ^ (1 * 8) mod 256).
Proof. change (2 ^ (0 * 8)) with 1. change (2 ^ (1 * 8)) with 256. lia. Qed.

Lemma word_bytes w : fits 32 w → w = w / 2 ^ (0 * 8) mod 256 + 2 ^ 8 * (w / 2 ^ (1 * 8) mod 256) +
  2 ^ 16 * (w / 2 ^ (2 * 8) mod 256) + 2 ^ 24 * (w / 2 ^ (3 * 8) mod 256).
Proof.
  intros [? ?]. change (2 ^ (0 * 8)) with 1. change (2 ^ (1 * 8)) with 256.
  change (2 ^ (2 * 8)) with 65536. change (2 ^ (3 * 8)) with 16777216. lia.
Qed.

(** ** Probing *)

(** All the functions, in the order in which they are probed. *)
Definition all_functions : list (Z * Z * Z) :=
  b ← seqZ 0 256; d ← seqZ 0 32; f ← seqZ 0 8; [(b, d, f)].

Definition present h (k : Z * Z * Z) : bool := negb (cfg h (k, 0) mod 2 ^ 16 =? 0xFFFF).

Lemma elem_of_all_functions b d f :
  (b, d, f) ∈ all_functions ↔ fits 8 b ∧ fits 5 d ∧ fits 3 f.
Proof.
  unfold all_functions, fits. rewrite list_elem_of_bind. split.
  - intros (b' & (d' & (f' & Hin & Hf)%list_elem_of_bind & Hd)%list_elem_of_bind & Hb).
    apply list_elem_of_singleton in Hin as [= -> -> ->]. rewrite !elem_of_seqZ in *. lia.
  - intros (? & ? & ?). exists b. rewrite elem_of_seqZ. split; [|lia].
    apply list_elem_of_bind. exists d. rewrite elem_of_seqZ. split; [|lia].
    apply list_elem_of_bind. exists f. rewrite elem_of_seqZ. split; [|lia]. by left.
Qed.

(** What the probe has collected after the functions [pre]. *)
Definition found_key (r : PciAddress * PciHeader) : Z * Z * Z :=
  (bus r.1, device r.1, function r.1).

Record probed h (pre : list (Z * Z * Z)) (st : D * list (PciAddress * PciHeader)) : Prop := {
  pr_same : same_config h st.1;
  pr_keys : found_key <$> st.2 = filter (present h) pre;
  pr_headers : Forall (λ r, r.2 = PciHeader_new r.1) st.2;
}.

(** The body of the innermost loop. *)
Definition probe (k : Z * Z * Z) : M (D * list (PciAddress * PciHeader)) unit :=
  let '(b, d, f) := k in
  address ← lift (PciAddress_new 0 b d f);
  found ← on_fst (function_exists address);
  if found : bool then
    st ← get;
    put (st.1, st.2 ++ [(address, PciHeader_new address)])
  else mret tt.

Lemma probe_step h pre k st : k ∈ all_functions → probed h pre st →
  wp (probe k) (λ _ st', probed h (pre ++ [k]) st') st.
Proof.
  destruct k as [[b d] f], st as [h0 rs].
  intros (Hb & Hd & Hf)%elem_of_all_functions [Hs Hk Hh]. simpl in *.
  destruct (PciAddress_new_ok 0 b d f) as (a & Ea & Eb & Ed & Ef); [done..|].
  unfold probe. apply wp_bind. eapply wp_lift; [done|]. apply wp_bind, wp_on_fst.
  eapply wp_mono; [by apply wp_function_exists|]. intros found h1 [-> Hs1].
  assert (negb (cfg h0 (reg_of a 0) mod 2 ^ 16 =? 0xFFFF) = present h (b, d, f)) as ->.
  { unfold reg_of, present. rewrite Eb, Ed, Ef, Zmod_0_l. by rewrite Hs. }
  assert (same_config h h1) by (by etrans).
  destruct (present h (b, d, f)) eqn:Ep; wp_bus.
  - unfold wp. simpl. split; simpl; [done| |].
    + rewrite fmap_app, filter_app, Hk. simpl. unfold found_key at 1. simpl.
      rewrite Eb, Ed, Ef, filter_cons, Ep. done.
    + apply Forall_app. split; [done|by repeat constructor].
  - split; simpl; [done| |done].
    rewrite filter_app, Hk, filter_cons, Ep. simpl. by rewrite app_nil_r.
Qed.

Lemma wp_brute_force_find h :
  wp (brute_force_find function_exists) (λ rs h', probed h all_functions (h', rs)) h.
Proof.
  unfold brute_force_find. apply wp_bind, wp_with_local.
  apply (wp_mono _ (λ _ st, probed h all_functions st)).
  2:{ intros [] [h' rs] ?. apply wp_ret. done. }
  assert (wp (mfor all_functions probe) (λ _ st, probed h all_functions st) (h, [])) as Hw.
  { apply wp_mfor; [by split|]. intros pre k post st El Hpr. apply probe_step; [|done].
    rewrite El. apply elem_of_app. right. by left. }
  unfold all_functions in Hw at 1. apply wp_mfor_nested in Hw.
  revert Hw. apply wp_mfor_ext. intros b P st Hw. apply wp_mfor_nested in Hw.
  revert Hw. apply wp_mfor_ext. clear P st. intros d P st Hw. apply wp_mfor_nested in Hw.
  revert Hw. apply wp_mfor_ext. clear P st. intros f P st Hw.
  exact (wp_mfor_one probe (b, d, f) P st Hw).
Qed.
End pci_facts.

(** ** Properties *)

Section pci_properties.
Context {PciAddress PciHeader : Type} `{PciTypesLaws PciAddress PciHeader}.
Context {D : Type} `{ConfigSpaceLaws D}.
Implicit Types (a : PciAddress) (h : D).

(** A read or write of the AML interpreter, once its address is built. *)
Lemma aml_access {A} (m : PciAddress → M D A) (Q : A → D → Prop) s b d f h :
  fits 16 s → fits 8 b → fits 5 d → fits 3 f →
  (∀ a, bus a = b → device a = d → function a = f → wp (m a) Q h) →
  wp (lift (PciAddress_new s b d f) ≫= m) Q h.
Proof.
  intros Hs Hb Hd Hf Hm. destruct (PciAddress_new_ok s b d f) as (a & Ea & ? & ? & ?); [done..|].
  apply wp_bind. eapply wp_lift; [done|]. by apply Hm.
Qed.

Lemma aml_read_word (g : Z → Z) (Q : Z → D → Prop) s b d f offset h :
  fits 16 s → fits 8 b → fits 5 d → fits 3 f → fits 16 offset →
  (∀ h', same_config h h' → Q (g (cfg h (b, d, f, offset mod 256 / 4 * 4))) h') →
  wp (address ← lift (PciAddress_new s b d f);
      r ← pci_read address (Z.land offset 0xFFFC); mret (g r)) Q h.
Proof.
  intros Hs Hb Hd Hf Ho HQ. destruct (aligned_offset offset Ho) as (Ho1 & Ho2 & Ho3).
  apply aml_access; [done..|]. intros a <- <- <-. rewrite land_fffc by done.
  apply wp_bind. eapply wp_mono; [by apply wp_pci_read|]. intros r h' [-> Hsame].
  apply wp_ret. unfold reg_of. rewrite Ho3. by apply HQ.
Qed.

(** The half of a register a 16-bit read extracts, as bytes. *)
Lemma half_read h b d f offset :
  as_u16 (Z.shiftr (cfg h (b, d, f, offset mod 256 / 4 * 4)) (offset mod 2 * 16)) =
  let half := offset mod 256 / 4 * 4 + (if bool_decide (offset mod 2 = 1) then 2 else 0) in
  cfg_byte h b d f half + 2 ^ 8 * cfg_byte h b d f (half + 1).
Proof.
  simpl. set (o := offset mod 256 / 4 * 4). assert (o mod 4 = 0) as Ho by (unfold o; lia).
  rewrite Z.shiftr_div_pow2 by lia. case_bool_decide as Hm.
  - rewrite Hm, <-(Z.add_assoc o 2 1), !cfg_byte_in_word by lia. unfold cast.
    change (2 ^ (1 * 16)) with (2 ^ 16). change (2 ^ ((2 + 1) * 8)) with (2 ^ 16 * 2 ^ 8).
    change (2 ^ (2 * 8)) with (2 ^ 16). rewrite <-Z.div_div by lia.
    generalize (cfg h (b, d, f, o) / 2 ^ 16). intros w. lia.
  - replace (offset mod 2) with 0 by lia. rewrite Z.add_0_r, cfg_byte_in_word, cfg_byte_first by lia.
    change (2 ^ (0 * 16)) with 1. rewrite Z.div_1_r. apply half_bytes.
Qed.

Lemma aml_write_word (v : Z) s b d f offset h :
  fits 16 s → fits 8 b → fits 5 d → fits 3 f → fits 16 offset → fits 32 v →
  wp (address ← lift (PciAddress_new s b d f); pci_write address (Z.land offset 0xFFFC) v)
    (λ _ h', written h (b, d, f, offset mod 256 / 4 * 4) v h') h.
Proof.
  intros Hs Hb Hd Hf Ho Hv. destruct (aligned_offset offset Ho) as (Ho1 & Ho2 & Ho3).
  apply aml_access; [done..|]. intros a <- <- <-. rewrite land_fffc, <-Ho3 by done.
  by apply wp_pci_write.
Qed.

(** C25. Configuration accesses: an aligned read sends the address word to port
    0xCF8 and then reads port 0xCFC, once each and nothing else; it returns the
    register the address and the low byte of the offset name, and no register
    changes.  An aligned write sends the address word to 0xCF8 and the value to
    0xCFC, and changes that register only.  An unaligned access panics. *)
Theorem pci_config_access a offset v h : fits 16 offset → fits 32 v →
  let addressed := port_out 32 0xCF8 (2 ^ 31 + bus a * 2 ^ 16 + device a * 2 ^ 11 +
    function a * 2 ^ 8 + offset mod 256) h in
  (offset mod 4 = 0 →
     wp (pci_read a offset) (λ r h', r = cfg h (bus a, device a, function a, offset mod 256) ∧
       same_config h h' ∧ h' = (port_in 32 0xCFC addressed).2) h ∧
     wp (pci_write a offset v) (λ _ h',
       written h (bus a, device a, function a, offset mod 256) v h' ∧
       h' = port_out 32 0xCFC v addressed) h) ∧
  (offset mod 4 ≠ 0 →
     pci_read a offset h = Panic (Explicit "Try to read pci with unaligned offset") ∧
     pci_write a offset v h = Panic (Explicit "Try to write pci with unaligned offset")).
Proof.
  intros Ho Hv addressed. split; intros Hm.
  - split; (eapply wp_mono; [apply wp_conj|]).
    + by apply wp_pci_read.
    + by apply pci_read_traffic.
    + intros r h' [[-> Hs] ->]. done.
    + by apply wp_pci_write.
    + by apply pci_write_traffic.
    + intros [] h' [Hw ->]. done.
  - by apply pci_unaligned.
Qed.

(** C26. Enumeration: the probe returns, and lists exactly the functions that
    answer with a vendor id, in the order of their bus, device and function
    numbers, each with its header, and no register changes. *)
Theorem brute_force_finds_present h :
  wp (brute_force_find function_exists) (λ rs h',
    found_key <$> rs = filter (present h) all_functions ∧
    Forall (λ r, r.2 = PciHeader_new r.1) rs ∧ same_config h h') h.
Proof. eapply wp_mono; [apply wp_brute_force_find|]. by intros rs h' []. Qed.

(** C27. The AML interpreter's reads, at every offset (which counts modulo 256).  A
    byte read returns the byte at the offset.  A 32-bit read at a multiple of four
    returns the four bytes from there, and panics at any other offset.  A 16-bit
    read takes its half of the register from the offset's lowest bit instead of the
    next one: at an even offset it returns the first two bytes of the register (also
    where the last two were asked for), at an odd one the last two. *)
Theorem aml_pci_reads s b d f offset h :
  fits 16 s → fits 8 b → fits 5 d → fits 3 f → fits 16 offset →
  let byte := cfg_byte h b d f in
  let o := offset mod 256 in
  let half := o / 4 * 4 + (if bool_decide (offset mod 2 = 1) then 2 else 0) in
  wp (read_pci_u8 s b d f offset) (λ v h', v = byte o ∧ same_config h h') h ∧
  wp (read_pci_u16 s b d f offset) (λ v h', v = byte half + 2 ^ 8 * byte (half + 1) ∧
    same_config h h') h ∧
  (offset mod 4 = 0 →
     wp (read_pci_u32 s b d f offset) (λ v h', v = byte o + 2 ^ 8 * byte (o + 1) +
       2 ^ 16 * byte (o + 2) + 2 ^ 24 * byte (o + 3) ∧ same_config h h') h) ∧
  (offset mod 4 ≠ 0 → read_pci_u32 s b d f offset h =
     Panic (Explicit "Try to read pci with unaligned offset")).
Proof.
  intros Hs Hb Hd Hf Ho byte o half. subst byte o half. split_and!.
  - apply (aml_read_word (λ r, as_u8 (Z.shiftr r (offset mod 4 * 8)))); [done..|].
    intros h' Hsame. split; [|done]. rewrite Z.shiftr_div_pow2 by lia. unfold cast, cfg_byte.
    by replace (offset mod 256 mod 4) with (offset mod 4) by lia.
  - apply (aml_read_word (λ r, as_u16 (Z.shiftr r (offset mod 2 * 16)))); [done..|].
    intros h' Hsame. split; [|done]. by apply half_read.
  - intros Hm. rewrite !cfg_byte_in_word, cfg_byte_first by lia.
    apply aml_access; [done..|]. intros a <- <- <-.
    eapply wp_mono; [by apply wp_pci_read|]. intros r h' [-> Hsame]. split; [|done].
    apply word_bytes, cfg_fits.
  - intros Hm. destruct (PciAddress_new_ok s b d f) as (a & Ea & _); [done..|].
    unfold read_pci_u32. erewrite run_bind by (by rewrite Ea). by apply (pci_unaligned a offset 0).
Qed.

(** The bytes of [v] in a register all of whose bits can be written. *)
Lemma written_bytes h h' b d f o v i : o mod 4 = 0 → 0 ≤ i < 4 →
  (∀ old w, cfg_merge (b, d, f, o) old w = w) → written h (b, d, f, o) v h' →
  cfg_byte h' b d f (o + i) = v / 2 ^ (i * 8) mod 256.
Proof.
  intros Ho Hi Hmerge Hw. rewrite cfg_byte_in_word by done. by rewrite Hw, decide_True, Hmerge.
Qed.

Lemma byte_of_shifted v i j : fits 8 v → 0 ≤ i < 4 → 0 ≤ j < 4 →
  Z.shiftl v (j * 8) / 2 ^ (i * 8) mod 256 = if decide (i = j) then v else 0.
Proof.
  intros [? ?] ? ?. rewrite Z.shiftl_mul_pow2 by lia.
  assert (i = 0 ∨ i = 1 ∨ i = 2 ∨ i = 3) as Hi by lia.
  assert (j = 0 ∨ j = 1 ∨ j = 2 ∨ j = 3) as Hj by lia.
  destruct Hi as [->|[->|[->| ->]]], Hj as [->|[->|[->| ->]]]; simpl; lia.
Qed.

Lemma half_of_shifted v i j : fits 16 v → 0 ≤ i < 4 → 0 ≤ j < 2 →
  Z.shiftl v (j * 16) / 2 ^ (i * 8) mod 256 =
    if decide (i / 2 = j) then v / 2 ^ (i mod 2 * 8) mod 256 else 0.
Proof.
  intros [? ?] ? ?. rewrite Z.shiftl_mul_pow2 by lia.
  assert (i = 0 ∨ i = 1 ∨ i = 2 ∨ i = 3) as Hi by lia.
  assert (j = 0 ∨ j = 1) as Hj by lia.
  destruct Hi as [->|[->|[->| ->]]], Hj as [->| ->]; case_decide as Hd; try (exfalso; lia);
    repeat match goal with |- context [2 ^ ?e] =>
      let r := eval vm_compute in (2 ^ e) in change (2 ^ e) with r end; lia.
Qed.

(** C28. The AML interpreter's writes, at every offset, on a register all of whose bits
    can be written.  A byte write stores the byte at its offset and clears the other
    three bytes of the register.  A 16-bit write stores its value in the half that
    the offset's lowest bit names, so at 2 modulo 4 in the wrong half, and clears the
    other half.  A 32-bit write at a multiple of four stores its four bytes, and
    panics at any other offset.  Other registers are unchanged. *)
Theorem aml_pci_writes s b d f offset value h :
  fits 16 s → fits 8 b → fits 5 d → fits 3 f → fits 16 offset →
  let word := offset mod 256 / 4 * 4 in
  let stores (bytes : Z → Z) (h' : D) :=
    (∀ k, k ≠ (b, d, f, word) → cfg h' k = cfg h k) ∧
    (∀ i, 0 ≤ i < 4 → cfg_byte h' b d f (word + i) = bytes i) in
  (∀ old v, cfg_merge (b, d, f, word) old v = v) →
  (fits 8 value → wp (write_pci_u8 s b d f offset value)
     (λ _, stores (λ i, if decide (i = offset mod 4) then value else 0)) h) ∧
  (fits 16 value → wp (write_pci_u16 s b d f offset value)
     (λ _, stores (λ i, if decide (i / 2 = offset mod 2) then value / 2 ^ (i mod 2 * 8) mod 256
                        else 0)) h) ∧
  (fits 32 value → offset mod 4 = 0 → wp (write_pci_u32 s b d f offset value)
     (λ _, stores (λ i, value / 2 ^ (i * 8) mod 256)) h) ∧
  (offset mod 4 ≠ 0 → write_pci_u32 s b d f offset value h =
     Panic (Explicit "Try to write pci with unaligned offset")).
Proof.
  intros Hs Hb Hd Hf Ho word stores Hmerge.
  assert (∀ v h', written h (b, d, f, word) v h' → stores (λ i, v / 2 ^ (i * 8) mod 256) h') as Hst.
  { intros v h' Hw. split; [intros k Hk; by rewrite Hw, decide_False|]. intros i Hi.
    apply (written_bytes h h' b d f word v i); [unfold word; lia|done..]. }
  split_and!.
  - intros [Hv1 Hv2]. eapply wp_mono; [apply aml_write_word; [done..|by apply cast_fits]|].
    intros [] h' Hw%Hst. split; [apply Hw|]. intros i Hi. rewrite (proj2 Hw i Hi).
    rewrite (cast_id 32 value) by (unfold fits; lia).
    rewrite cast_id; [apply byte_of_shifted; unfold fits; lia|].
    apply fits_shiftl; [lia| |lia]. unfold fits. split; [lia|].
    eapply Z.lt_le_trans; [apply Hv2|]. apply Z.pow_le_mono_r; lia.
  - intros [Hv1 Hv2]. eapply wp_mono; [apply aml_write_word; [done..|by apply cast_fits]|].
    intros [] h' Hw%Hst. split; [apply Hw|]. intros i Hi. rewrite (proj2 Hw i Hi).
    rewrite (cast_id 32 value) by (unfold fits; lia).
    rewrite cast_id; [apply half_of_shifted; unfold fits; lia|].
    apply fits_shiftl; [lia| |lia]. unfold fits. split; [lia|].
    eapply Z.lt_le_trans; [apply Hv2|]. apply Z.pow_le_mono_r; lia.
  - intros Hv Hm. apply aml_access; [done..|]. intros a <- <- <-.
    eapply wp_mono; [by apply wp_pci_write|]. intros [] h' Hw. apply Hst.
    unfold reg_of, word in *. by replace (offset mod 256 / 4 * 4) with (offset mod 256) by lia.
  - intros Hm. destruct (PciAddress_new_ok s b d f) as (a & Ea & _); [done..|].
    unfold write_pci_u32. erewrite run_bind by (by rewrite Ea). by apply (pci_unaligned a offset value).
Qed.
End pci_properties.

(** ** Witnesses *)

Module PciWitness.

(** Addresses as tuples; headers as addresses. *)
#[export] Instance ref_PciTypes : PciTypes (Z * Z * Z) (Z * Z * Z) := {|
  PciAddress_new _ b d f := Ret (b, d, f);
  bus a := a.1.1 mod 2 ^ 8;
  device a := a.1.2 mod 2 ^ 5;
  function a := a.2 mod 2 ^ 3;
  PciHeader_new a := a;
|}.

#[export] Instance ref_PciTypesLaws : PciTypesLaws (Z * Z * Z) (Z * Z * Z).
Proof.
  split.
  - intros [[b d] f]. split_and!; by apply cast_fits.
  - intros s b d f _ Hb Hd Hf. exists (b, d, f). split_and!; [done|..]; by apply cast_id.
Qed.

(** The address register and the registers, all ones where no function answers. *)
Definition space : Type := Z * gmap (Z * Z * Z * Z) Z.

Definition space_reg (h : space) (k : Z * Z * Z * Z) : Z :=
  as_u32 (default 0xFFFFFFFF (h.2 !! k)).

#[export] Instance ref_Bus : Bus space := {|
  port_in w port h := (if bool_decide (port = 0xCFC) then cast w (space_reg h (selected h.1)) else 0, h);
  port_out w port v h :=
    if bool_decide (port = 0xCF8) then (v, h.2)
    else if bool_decide (port = 0xCFC) then (h.1, <[selected h.1 := v]> h.2) else h;
  mem_in _ _ h := (0, h);
  mem_out _ _ _ h := h;
  halt h := h;
|}.

#[export] Instance ref_ConfigSpace : ConfigSpace space := {|
  cfg_addr h := h.1;
  cfg := space_reg;
  cfg_merge _ _ v := v;
|}.

#[export] Instance ref_ConfigSpaceLaws : ConfigSpaceLaws space.
Proof.
  split; try done.
  - intros h k. by apply cast_fits.
  - intros h _. apply cast_id. by apply cast_fits.
  - intros v [addr m] k _ Hv. simpl. unfold space_reg. simpl. case_decide as Hk.
    + subst. rewrite lookup_insert_eq. by apply cast_id.
    + by rewrite lookup_insert_ne.
Qed.

(** A machine with one function, at 0:31.2. *)
Definition machine : space :=
  (0, {[ (0, 31, 2, 0) := 0x29228086; (0, 31, 2, 8) := 0x01060102 ]}).

Lemma pci_config_access_witness :
  ∃ h', pci_read (0, 31, 2) 8 machine = Ret (0x01060102, h').
Proof.
  destruct (pci_config_access (0, 31, 2) 8 0 machine ltac:(by split) ltac:(by split)) as [Hok _].
  destruct (wp_elim _ _ _ (proj1 (Hok eq_refl))) as (v & h' & Hr & Hv & _).
  exists h'. rewrite Hr, Hv. reflexivity.
Defined.

(** A 16-bit read of the class code at offset 10 returns the revision and the
    interface, which are at offset 8; one at offset 9 returns the class code. *)
Lemma aml_pci_reads_witness :
  ∃ h1 h2 h3, read_pci_u8 0 0 31 2 11 machine = Ret (0x01, h1) ∧
    read_pci_u16 0 0 31 2 10 machine = Ret (0x0102, h2) ∧
    read_pci_u16 0 0 31 2 9 machine = Ret (0x0106, h3).
Proof.
  destruct (aml_pci_reads 0 0 31 2 11 machine) as (H8 & _); [by split..|].
  destruct (aml_pci_reads 0 0 31 2 10 machine) as (_ & H16 & _); [by split..|].
  destruct (aml_pci_reads 0 0 31 2 9 machine) as (_ & H16' & _); [by split..|].
  destruct (wp_elim _ _ _ H8) as (v1 & h1 & Hr1 & Hv1 & _).
  destruct (wp_elim _ _ _ H16) as (v2 & h2 & Hr2 & Hv2 & _).
  destruct (wp_elim _ _ _ H16') as (v3 & h3 & Hr3 & Hv3 & _).
  exists h1, h2, h3. rewrite Hr1, Hr2, Hr3, Hv1, Hv2, Hv3. split_and!; reflexivity.
Defined.

Lemma aml_pci_writes_witness :
  ∃ h', write_pci_u8 0 0 31 2 9 0x42 machine = Ret (tt, h') ∧
    cfg_byte h' 0 31 2 9 = 0x42 ∧ cfg_byte h' 0 31 2 11 = 0.
Proof.
  destruct (aml_pci_writes 0 0 31 2 9 0x42 machine) as [H8 _]; [by split..|done|].
  destruct (wp_elim _ _ _ (H8 ltac:(by split))) as ([] & h' & Hr & _ & Hb).
  exists h'. exact (conj Hr (conj (Hb 1 ltac:(lia)) (Hb 3 ltac:(lia)))).
Defined.

Lemma machine_function : (0, 31, 2) ∈ filter (present machine) all_functions.
Proof. apply list_elem_of_filter. split; [done|]. by apply elem_of_all_functions. Qed.

Lemma brute_force_finds_present_witness :
  ∃ rs h', brute_force_find function_exists machine = Ret (rs, h') ∧
    (0, 31, 2) ∈ found_key <$> rs.
Proof.
  destruct (wp_elim _ _ _ (brute_force_finds_present machine)) as (rs & h' & Hr & Hk & _).
  exists rs, h'. split; [exact Hr|]. rewrite Hk. exact machine_function.
Defined.
End PciWitness.
