(* ===== verification/Vga.v ===== *)
(** * The VGA text console (src/vga_buffer.rs)

    [Writer] prints on the last row of a 25 by 80 text buffer and scrolls the
    rows up on a new line.  The file models the writer cell by cell, including
    the copying loops, and shows that the screen is always the last 25 rows of an
    unbounded log of the text printed. *)

From S2P Require Import Prelude.
Local Open Scope Z_scope.

(** ** The code *)

Inductive Color : Type :=
  | Black | Blue | Green | Cyan | Red | Magenta | Brown | LightGray
  | DarkGray | LightBlue | LightGreen | LightCyan | LightRed | Pink | Yellow | White.

#[export] Instance Color_eq_dec : EqDecision Color.
Proof. solve_decision. Defined.

Definition Color_as_u8 (c : Color) : Z :=
  match c with
  | Black => 0 | Blue => 1 | Green => 2 | Cyan => 3
  | Red => 4 | Magenta => 5 | Brown => 6 | LightGray => 7
  | DarkGray => 8 | LightBlue => 9 | LightGreen => 10 | LightCyan => 11
  | LightRed => 12 | Pink => 13 | Yellow => 14 | White => 15
  end.

(** [ColorCode::new]; the shift of a [u8] drops the bits above the eighth. *)
Definition ColorCode_new (foreground background : Color) : Z :=
  Z.lor (as_u8 (Z.shiftl (Color_as_u8 background) 4)) (Color_as_u8 foreground).

Record ScreenChar : Type := mkChar {
  ascii_character : Z;
  char_color : Z;
}.

Definition BUFFER_HEIGHT : Z := 25.
Definition BUFFER_WIDTH : Z := 80.

Record Writer : Type := mkWriter {
  column_position : Z;
  color_code : Z;
  buffer : list (list ScreenChar);
}.

(** The initial value of [WRITER], on the screen contents [buf]. *)
Definition WRITER (buf : list (list ScreenChar)) : Writer :=
  mkWriter 0 (ColorCode_new Yellow Black) buf.

(** [get_char_mut(row, col)], followed by a volatile read or write. *)
Definition read_char (row col : Z) : M Writer ScreenChar :=
  w ← get;
  r ← lift (index (buffer w) row);
  lift (index r col).

Definition write_char (row col : Z) (ch : ScreenChar) : M Writer unit :=
  w ← get;
  r ← lift (index (buffer w) row);
  _ ← lift (index r col);
  put (mkWriter (column_position w) (color_code w)
    (<[Z.to_nat row := <[Z.to_nat col := ch]> r]> (buffer w))).

Definition clear_row (row : Z) : M Writer unit :=
  w ← get;
  let blank := mkChar 0x20 (color_code w) in
  mfor (seqZ 0 BUFFER_WIDTH) (λ col, write_char row col blank).

Definition new_line : M Writer unit :=
  mfor (seqZ 1 (BUFFER_HEIGHT - 1)) (λ row,
    mfor (seqZ 0 BUFFER_WIDTH) (λ col,
      character ← read_char row col;
      write_char (row - 1) col character)) ≫= λ _,
  clear_row (BUFFER_HEIGHT - 1) ≫= λ _,
  w ← get;
  put (mkWriter 0 (color_code w) (buffer w)).

Definition write_byte (byte : Z) : M Writer unit :=
  if bool_decide (byte = 0x0a) then new_line
  else
    w ← get;
    (if bool_decide (BUFFER_WIDTH ≤ column_position w) then new_line else mret tt) ≫= λ _,
    w' ← get;
    let row := BUFFER_HEIGHT - 1 in
    let col := column_position w' in
    write_char row col (mkChar byte (color_code w')) ≫= λ _,
    w'' ← get;
    col' ← lift (add_w 64 (column_position w'') 1);
    put (mkWriter col' (color_code w'') (buffer w'')).

(** Printable ASCII and new lines pass; every other byte prints as [0xfe]. *)
Definition printed_byte (byte : Z) : Z :=
  if bool_decide (0x20 ≤ byte ≤ 0x7e ∨ byte = 0x0a) then byte else 0xfe.

Definition write_string (s : list Z) : M Writer unit :=
  mfor s (λ byte, write_byte (printed_byte byte)).

Definition write_str (s : list Z) : M Writer (Result unit unit) :=
  write_string s ≫= λ _, mret (Ok tt).

(** [_print]: the formatter calls [write_str] on each piece of the text. *)
Fixpoint write_fmt (pieces : list (list Z)) : M Writer (Result unit unit) :=
  match pieces with
  | [] => mret (Ok tt)
  | s :: pieces' =>
      r ← write_str s;
      match r with Ok _ => write_fmt pieces' | Err e => mret (Err e) end
  end.

Definition _print (pieces : list (list Z)) : M Writer unit :=
  r ← write_fmt pieces;
  lift (match r with Ok _ => Ret tt | Err _ => Panic UnwrapNone end).

(** ** The screen as the end of a log *)

(** Every row ever printed on, oldest first; the last one is being written. *)
Record Log : Type := mkLog {
  log_rows : list (list ScreenChar);
  log_col : Z;
}.

Definition blank_row (color : Z) : list ScreenChar := replicate 80 (mkChar 0x20 color).

Definition log_newline (color : Z) (l : Log) : Log := mkLog (log_rows l ++ [blank_row color]) 0.

Definition log_put (color : Z) (byte : Z) (l : Log) : Log :=
  let n := (length (log_rows l) - 1)%nat in
  mkLog (alter (λ row, <[Z.to_nat (log_col l) := mkChar byte color]> row) n (log_rows l))
    (log_col l + 1).

Definition log_byte (color byte : Z) (l : Log) : Log :=
  if bool_decide (byte = 0x0a) then log_newline color l
  else log_put color byte (if bool_decide (80 ≤ log_col l) then log_newline color l else l).

Definition log_string (color : Z) (s : list Z) (l : Log) : Log :=
  foldl (λ l' b, log_byte color (printed_byte b) l') l s.

Definition wf_buffer (b : list (list ScreenChar)) : Prop :=
  length b = 25%nat ∧ Forall (λ r, length r = 80%nat) b.

Definition wf_writer (w : Writer) : Prop :=
  wf_buffer (buffer w) ∧ 0 ≤ column_position w ≤ 80.

(** The writer shows the end of the log. *)
Record shows (w : Writer) (l : Log) : Prop := {
  sh_wf : wf_writer w;
  sh_rows : (25 ≤ length (log_rows l))%nat;
  sh_screen : buffer w = drop (length (log_rows l) - 25) (log_rows l);
  sh_col : column_position w = log_col l;
}.

(** ** The copying loops *)

(** One more element of [s] has replaced one of [d]. *)
Lemma merge_step {A} (s d : list A) (k : nat) x : s !! k = Some x → (k < length d)%nat →
  <[k := x]> (take k s ++ drop k d) = take (S k) s ++ drop (S k) d.
Proof.
  intros Hs Hd. pose proof (lookup_lt_Some _ _ _ Hs).
  destruct (drop k d) as [|y d'] eqn:E.
  { apply (f_equal length) in E. rewrite length_drop in E. simpl in E. lia. }
  rewrite insert_app_r_alt by (rewrite length_take; lia).
  rewrite length_take, Nat.min_l, Nat.sub_diag by lia. simpl.
  rewrite (take_S_r _ _ _ Hs), <-app_assoc. simpl. do 2 f_equal.
  replace (S k) with (k + 1)%nat by lia. by rewrite <-drop_drop, E.
Qed.

Section loops.
Implicit Types (w : Writer) (b : list (list ScreenChar)).

Definition set_buffer (b : list (list ScreenChar)) (w : Writer) : Writer :=
  mkWriter (column_position w) (color_code w) b.

Lemma write_char_run w row col r ch : 0 ≤ row → 0 ≤ col →
  buffer w !! Z.to_nat row = Some r → (Z.to_nat col < length r)%nat →
  write_char row col ch w =
    Ret (tt, set_buffer (<[Z.to_nat row := <[Z.to_nat col := ch]> r]> (buffer w)) w).
Proof.
  intros Hr Hc Er Hlt. destruct (lookup_lt_is_Some_2 r _ Hlt) as [x Ex].
  unfold write_char. erewrite run_bind by done. rewrite (index_ok _ _ r) by done.
  erewrite run_bind by done. rewrite (index_ok _ _ x) by done. by erewrite run_bind.
Qed.

Lemma read_char_run w row col r x : buffer w !! Z.to_nat row = Some r →
  r !! Z.to_nat col = Some x → read_char row col w = Ret (x, w).
Proof.
  intros Er Ex. unfold read_char. erewrite run_bind by done.
  rewrite (index_ok _ _ r) by done. erewrite run_bind by done. by rewrite (index_ok _ _ x).
Qed.

(** A loop over the columns that writes the [col]-th element of [src] turns the
    row into [src]. *)
Lemma fill_row_loop w row d src (f : Z → M Writer unit) : 0 ≤ row →
  buffer w !! Z.to_nat row = Some d → length d = 80%nat → length src = 80%nat →
  (∀ (col : Z) (r : list ScreenChar) x, 0 ≤ col < 80 → src !! Z.to_nat col = Some x →
     length r = 80%nat →
     let w1 := set_buffer (<[Z.to_nat row := r]> (buffer w)) w in
     f col w1 = write_char row col x w1) →
  wp (mfor (seqZ 0 BUFFER_WIDTH) f)
    (λ _ w', w' = set_buffer (<[Z.to_nat row := src]> (buffer w)) w) w.
Proof.
  intros Hrow Hd Ld Ls Hf.
  set (mix := λ k : Z, set_buffer
    (<[Z.to_nat row := take (Z.to_nat k) src ++ drop (Z.to_nat k) d]> (buffer w)) w).
  eapply wp_mono; [apply (wp_mfor_range 0 BUFFER_WIDTH f (λ k w', w' = mix k))|].
  - done.
  - unfold mix, set_buffer. simpl. rewrite drop_0, list_insert_id by done. by destruct w.
  - intros k ? Hk ->. unfold BUFFER_WIDTH in Hk.
    destruct (lookup_lt_is_Some_2 src (Z.to_nat k)) as [x Ex]; [lia|].
    assert (length (take (Z.to_nat k) src ++ drop (Z.to_nat k) d) = 80%nat) as Lm.
    { rewrite length_app, length_take, length_drop. lia. }
    pose proof (lookup_lt_Some _ _ _ Hd).
    unfold wp. unfold mix at 1. rewrite (Hf k _ x) by (done || lia).
    erewrite write_char_run; [|lia|lia|simpl; by apply list_lookup_insert_eq|by rewrite Lm; lia].
    unfold mix, set_buffer. simpl. f_equal.
    rewrite list_insert_insert_eq. f_equal.
    replace (Z.to_nat (k + 1)) with (S (Z.to_nat k)) by lia.
    apply merge_step; [done|lia].
  - intros ? w' ->. unfold mix, BUFFER_WIDTH. simpl.
    rewrite take_ge, drop_ge, app_nil_r by lia. done.
Qed.

Lemma wf_buffer_row b k : wf_buffer b → (k < 25)%nat →
  ∃ r, b !! k = Some r ∧ length r = 80%nat.
Proof.
  intros [Hl HF] Hk. destruct (lookup_lt_is_Some_2 b k) as [r Hr]; [lia|].
  exists r. split; [done|]. by eapply Forall_lookup_1 in HF.
Qed.

Lemma clear_row_run w row d : 0 ≤ row → buffer w !! Z.to_nat row = Some d → length d = 80%nat →
  wp (clear_row row)
    (λ _ w', w' = set_buffer (<[Z.to_nat row := blank_row (color_code w)]> (buffer w)) w) w.
Proof.
  intros Hr Hd Ld. unfold clear_row. wp_step. apply wp_get.
  eapply fill_row_loop; [done|done|done|done|].
  intros col r x Hc Hx Lr. unfold blank_row in Hx.
  apply lookup_replicate in Hx as [-> _]. done.
Qed.

Lemma copy_row_run w row src d : 1 ≤ row → buffer w !! Z.to_nat row = Some src →
  buffer w !! Z.to_nat (row - 1) = Some d → length src = 80%nat → length d = 80%nat →
  wp (mfor (seqZ 0 BUFFER_WIDTH) (λ col,
        character ← read_char row col; write_char (row - 1) col character))
    (λ _ w', w' = set_buffer (<[Z.to_nat (row - 1) := src]> (buffer w)) w) w.
Proof.
  intros Hr Hs Hd Ls Ld. apply (fill_row_loop w (row - 1) d src); [lia|done|done|done|].
  intros col r x Hc Hx Lr w1. apply run_bind.
  apply (read_char_run _ _ _ src); [|done].
  unfold w1. simpl. rewrite list_lookup_insert_ne by lia. done.
Qed.

Lemma lookup_merge {A} (s d : list A) (k j : nat) : (k ≤ length s)%nat → (k ≤ j)%nat →
  (take k s ++ drop k d) !! j = d !! j.
Proof.
  intros Hk Hj. rewrite lookup_app_r by (rewrite length_take; lia).
  rewrite length_take, Nat.min_l, lookup_drop by lia. f_equal. lia.
Qed.

(** Scrolling: the rows move up by one, and a blank row comes in below. *)
Lemma new_line_run w : wf_buffer (buffer w) →
  new_line w =
    Ret (tt, mkWriter 0 (color_code w) (tail (buffer w) ++ [blank_row (color_code w)])).
Proof.
  intros Hwf. pose proof Hwf as [Hl _]. set (b := buffer w).
  assert (length (tail b) = 24%nat) as Lt by (fold b in Hl; destruct b; simpl in *; lia).
  assert (∀ k, tail b !! k = b !! S k) as Htl by (intros; by destruct b).
  set (cur := λ row : Z, set_buffer
    (take (Z.to_nat (row - 1)) (tail b) ++ drop (Z.to_nat (row - 1)) b) w).
  assert (wp new_line (λ _ w', w' = mkWriter 0 (color_code w)
    (tail b ++ [blank_row (color_code w)])) w) as (u & w' & Hr & ->)%wp_elim; [|by destruct u].
  unfold new_line. wp_step. eapply wp_mono.
  { apply (wp_mfor_range 1 (BUFFER_HEIGHT - 1) _ (λ row w', w' = cur row)).
    - done.
    - unfold cur. simpl. rewrite drop_0. by destruct w.
    - intros row ? Hrow ->. unfold BUFFER_HEIGHT in Hrow.
      destruct (wf_buffer_row b (Z.to_nat row) Hwf) as (src & Hs & Ls); [lia|].
      destruct (wf_buffer_row b (Z.to_nat (row - 1)) Hwf) as (d & Hd & Ld); [lia|].
      eapply wp_mono; [apply (copy_row_run _ row src d); try done; try lia|].
      + unfold cur. simpl. by rewrite lookup_merge by lia.
      + unfold cur. simpl. by rewrite lookup_merge by lia.
      + intros ? w' ->. unfold cur, set_buffer. simpl. f_equal.
        replace (Z.to_nat (row + 1 - 1)) with (S (Z.to_nat (row - 1))) by lia.
        apply merge_step; [rewrite Htl|fold b in Hl; lia].
        by replace (S (Z.to_nat (row - 1))) with (Z.to_nat row) by lia. }
  intros ? w1 ->. replace (1 + (BUFFER_HEIGHT - 1)) with 25 by done.
  destruct (wf_buffer_row b 24 Hwf) as (d & Hd & Ld); [lia|].
  wp_step. eapply wp_mono; [apply (clear_row_run _ _ d); [done| |done]|].
  { unfold cur, BUFFER_HEIGHT. simpl. by rewrite lookup_merge by lia. }
  intros ? w2 ->. wp_step. apply wp_get. apply wp_put. simpl. f_equal.
  change (Z.to_nat (25 - 1)) with 24%nat. change (Z.to_nat (BUFFER_HEIGHT - 1)) with 24%nat.
  rewrite take_ge by lia. rewrite insert_app_r_alt by lia. f_equal.
  rewrite Lt, Nat.sub_diag. fold b in Hl.
  destruct (drop 24 b) as [|x [|y l]] eqn:E; apply (f_equal length) in E;
    rewrite length_drop, Hl in E; simpl in E; try lia. done.
Qed.
End loops.

(** ** The writer follows the log *)

Section follows.
Implicit Types (w : Writer) (l : Log).

Lemma shows_newline w l : shows w l →
  wp new_line (λ _ w', shows w' (log_newline (color_code w) l) ∧
    color_code w' = color_code w ∧ column_position w' = 0) w.
Proof.
  intros [[Hwf Hcol] Hrows Hscr Hc]. pose proof Hwf as [Hl HF].
  eapply wp_intro; [by apply new_line_run|]. split; [|done].
  assert (buffer w ≠ []) as Hne by (intros E; by rewrite E in Hl).
  split; simpl.
  - split; [split; simpl|simpl; lia].
    + rewrite length_app. destruct (buffer w); simpl in *; lia.
    + apply Forall_app. split; [|by apply Forall_singleton].
      destruct (buffer w); [done|]. by apply Forall_cons in HF as [_ ?].
  - rewrite length_app. lia.
  - rewrite length_app. simpl. rewrite Hscr.
    replace (length (log_rows l) + 1 - 25)%nat with (S (length (log_rows l) - 25)) by lia.
    rewrite drop_app_le by lia. f_equal.
    replace (S (length (log_rows l) - 25)) with (length (log_rows l) - 25 + 1)%nat by lia.
    rewrite <-drop_drop. by destruct (drop _ (log_rows l)).
  - done.
Qed.

Lemma shows_put w l byte : shows w l → column_position w < 80 →
  wp (write_char (BUFFER_HEIGHT - 1) (column_position w) (mkChar byte (color_code w)) ≫= λ _,
      w'' ← get;
      col' ← lift (add_w 64 (column_position w'') 1);
      put (mkWriter col' (color_code w'') (buffer w'')))
    (λ _ w', shows w' (log_put (color_code w) byte l) ∧ color_code w' = color_code w) w.
Proof.
  intros [[Hwf Hcol] Hrows Hscr Hc] Hlt. pose proof Hwf as [Hl HF].
  destruct (wf_buffer_row _ 24 Hwf) as (r & Hr & Lr); [lia|].
  wp_step. eapply wp_intro; [by apply (write_char_run _ _ _ r); (lia || done)|].
  wp_step. apply wp_get. wp_step. simpl.
  eapply wp_lift; [apply checked_ok; unfold fits; lia|]. apply wp_put. split; [|done].
  change (Z.to_nat (BUFFER_HEIGHT - 1)) with 24%nat. split; simpl.
  - split; [split; simpl|simpl; lia].
    + by rewrite length_insert.
    + apply Forall_insert; [done|by rewrite length_insert].
  - by rewrite length_alter.
  - rewrite length_alter. apply list_eq. intros i. rewrite lookup_drop, Hscr.
    destruct (decide (i = 24%nat)) as [->|Hne].
    + replace (length (log_rows l) - 25 + 24)%nat with (length (log_rows l) - 1)%nat by lia.
      rewrite list_lookup_insert_eq by (rewrite length_drop; lia).
      rewrite Hscr, lookup_drop in Hr.
      replace (length (log_rows l) - 25 + 24)%nat with (length (log_rows l) - 1)%nat in Hr by lia.
      rewrite list_lookup_alter_eq, Hr, Hc. done.
    + rewrite list_lookup_insert_ne by done. rewrite list_lookup_alter_ne by lia.
      by rewrite lookup_drop.
  - lia.
Qed.

Lemma write_byte_shows w l byte : shows w l →
  wp (write_byte byte) (λ _ w', shows w' (log_byte (color_code w) byte l) ∧
    color_code w' = color_code w) w.
Proof.
  intros Hs. unfold write_byte, log_byte. case_bool_decide as Hb.
  { eapply wp_mono; [by apply shows_newline|]. naive_solver. }
  wp_step. apply wp_get. wp_step. rewrite <-(sh_col _ _ Hs).
  change (bool_decide (BUFFER_WIDTH ≤ column_position w)) with
    (bool_decide (80 ≤ column_position w)).
  case_bool_decide as Hc.
  - eapply wp_mono; [by apply shows_newline|]. intros ? w1 (Hs1 & Hcol & Hpos).
    wp_step. apply wp_get. rewrite <-Hcol. apply shows_put; [by rewrite Hcol|lia].
  - apply wp_ret. wp_step. apply wp_get. apply shows_put; [done|lia].
Qed.

Lemma write_string_shows w l s : shows w l →
  wp (write_string s) (λ _ w', shows w' (log_string (color_code w) s l) ∧
    color_code w' = color_code w) w.
Proof.
  intros Hs. unfold write_string. eapply wp_mono.
  - apply (wp_mfor _ _ (λ pre w', shows w' (log_string (color_code w) pre l) ∧
      color_code w' = color_code w)); [done|].
    intros pre byte post w1 _ [Hs1 Hc1]. eapply wp_mono; [by apply write_byte_shows|].
    intros ? w2 [Hs2 Hc2]. rewrite Hc1 in Hs2. unfold log_string. rewrite foldl_app. simpl.
    split; [done|congruence].
  - done.
Qed.

Lemma write_fmt_shows w l ps : shows w l →
  wp (write_fmt ps) (λ r w', r = Ok tt ∧ shows w' (log_string (color_code w) (concat ps) l) ∧
    color_code w' = color_code w) w.
Proof.
  revert w l. induction ps as [|s ps IH]; intros w l Hs; simpl; [by apply wp_ret|].
  wp_step. unfold write_str. wp_step. eapply wp_mono; [by apply write_string_shows|].
  intros ? w1 [Hs1 Hc1]. apply wp_ret. eapply wp_mono; [by apply IH|].
  intros r w2 (-> & Hs2 & Hc2). split; [done|].
  rewrite Hc1 in Hs2. unfold log_string in *. rewrite foldl_app. split; [done|congruence].
Qed.

Lemma print_shows w l ps : shows w l →
  wp (_print ps) (λ _ w', shows w' (log_string (color_code w) (concat ps) l)) w.
Proof.
  intros Hs. unfold _print. wp_step. eapply wp_mono; [by apply write_fmt_shows|].
  intros r w' (-> & Hs' & _). by eapply wp_lift.
Qed.

Lemma wf_shows w : wf_writer w → shows w (mkLog (buffer w) (column_position w)).
Proof. intros Hwf. pose proof Hwf as [[Hl _] _]. split; simpl; [done|lia| |done]. by rewrite Hl. Qed.
End follows.

(** ** Text on one row *)

(** [cs] written over [row] from column [k] on. *)
Fixpoint overwrite (k : nat) (cs : list ScreenChar) (row : list ScreenChar) : list ScreenChar :=
  match cs with
  | [] => row
  | c :: cs' => overwrite (S k) cs' (<[k := c]> row)
  end.

Lemma log_string_cons color b s l :
  log_string color (b :: s) l = log_string color s (log_byte color (printed_byte b) l).
Proof. done. Qed.

Lemma log_string_row color s rows row col :
  Forall (λ b, b ≠ 0x0a) s → 0 ≤ col → col + Z.of_nat (length s) ≤ 80 →
  log_string color s (mkLog (rows ++ [row]) col) =
    mkLog (rows ++ [overwrite (Z.to_nat col) ((λ b, mkChar (printed_byte b) color) <$> s) row])
      (col + Z.of_nat (length s)).
Proof.
  intros HF. revert row col. induction HF as [|b s Hb HF IH]; intros row col Hc Hlen.
  { simpl. f_equal. lia. }
  simpl in Hlen. rewrite log_string_cons. unfold log_byte.
  assert (printed_byte b ≠ 0x0a) as Hb'.
  { unfold printed_byte. case_bool_decide; [done|]. discriminate. }
  rewrite bool_decide_false by done. rewrite bool_decide_false by (simpl; lia).
  unfold log_put. simpl. rewrite length_app. simpl.
  replace (length rows + 1 - 1)%nat with (length rows + 0)%nat by lia.
  rewrite alter_app_r. simpl. rewrite IH by lia.
  replace (Z.to_nat (col + 1)) with (S (Z.to_nat col)) by lia. f_equal. lia.
Qed.

(** ** Properties *)

(** C8. Refinement: printing never panics, and after any text the screen is the
    last 25 rows of the log to which the same text was appended; the cursor is the
    log's, and the writer stays well formed. *)
Theorem screen_is_end_of_log w l ps :
  shows w l →
  wp (_print ps) (λ _ w', shows w' (log_string (color_code w) (concat ps) l)) w.
Proof. apply print_shows. Qed.

(** A new line moves every row up by one, puts a blank row of the current
    color at the bottom, and returns the cursor to column 0. *)
Theorem new_line_scrolls w :
  wf_buffer (buffer w) →
  ∃ w', new_line w = Ret (tt, w') ∧ column_position w' = 0 ∧
    (∀ r : nat, (r < 24)%nat → buffer w' !! r = buffer w !! S r) ∧
    buffer w' !! 24%nat = Some (replicate 80 (mkChar 0x20 (color_code w))) ∧
    length (buffer w') = 25%nat.
Proof.
  intros Hwf. eexists. split; [by apply new_line_run|]. destruct Hwf as [Hl _]. simpl.
  destruct (buffer w) as [|r0 b]; [done|]. simpl in *. split_and!; [done| | |].
  - intros r Hr. by rewrite lookup_app_l by lia.
  - rewrite lookup_app_r by lia. by replace (24 - length b)%nat with 0%nat by lia.
  - rewrite length_app. simpl. lia.
Qed.

(** Text without new lines that fits on the current row appears there, from
    the cursor on, in the current color, with unprintable bytes shown as [0xfe],
    and every other row stays as it is. *)
Theorem text_on_current_row w s row :
  wf_writer w → Forall (λ b, b ≠ 0x0a) s →
  column_position w + Z.of_nat (length s) ≤ 80 → last (buffer w) = Some row →
  wp (write_string s) (λ _ w',
    buffer w' = <[24%nat := overwrite (Z.to_nat (column_position w))
      ((λ b, mkChar (printed_byte b) (color_code w)) <$> s) row]> (buffer w) ∧
    column_position w' = column_position w + Z.of_nat (length s)) w.
Proof.
  intros Hwf HF Hlen Hlast. pose proof Hwf as [[Hl _] Hcol].
  pose proof (wf_shows w Hwf) as Hs.
  eapply wp_mono; [by apply write_string_shows|]. intros ? w' [Hs' _].
  apply last_Some in Hlast as [rows Eb].
  rewrite Eb, log_string_row in Hs' by (done || lia).
  destruct Hs' as [_ _ Hscr Hc]. simpl in *. split; [|done].
  assert (length rows = 24%nat) as Lr by (rewrite Eb, length_app in Hl; simpl in Hl; lia).
  rewrite Hscr, length_app, Lr. simpl. rewrite Eb.
  rewrite insert_app_r_alt by lia. by rewrite Lr.
Qed.

(** [ColorCode::new] packs the two colors of a cell so that both can be read
    back, and fits a byte. *)
Theorem color_code_packs f b :
  u8 (ColorCode_new f b) ∧ ColorCode_new f b mod 16 = Color_as_u8 f ∧
  ColorCode_new f b / 16 = Color_as_u8 b.
Proof. by destruct f, b. Qed.

(** ** Witnesses *)

Module VgaWitness.

Definition blank_screen : list (list ScreenChar) := replicate 25 (blank_row 14).
Definition console : Writer := WRITER blank_screen.
Definition boot_log : Log := mkLog blank_screen 0.

Lemma console_wf : wf_writer console.
Proof. split; [split; [done|by repeat constructor]|simpl; lia]. Qed.

Lemma console_shows : shows console boot_log.
Proof. split; [apply console_wf|done|done|done]. Qed.

(** [println!] of a two-letter text. *)
Lemma screen_is_end_of_log_witness :
  ∃ w', _print [[72; 105]; [10]] console = Ret (tt, w') ∧
    shows w' (log_string 14 [72; 105; 10] boot_log) ∧
    (r ← buffer w' !! 23%nat; r !! 1%nat) = Some (mkChar 105 14).
Proof.
  pose proof (screen_is_end_of_log console boot_log [[72; 105]; [10]] console_shows) as Hw.
  apply wp_elim in Hw as ([] & w' & Hr & Hs). exists w'. split; [exact Hr|]. split; [exact Hs|].
  rewrite (sh_screen _ _ Hs). by vm_compute.
Defined.

Lemma new_line_scrolls_witness : ∃ w', new_line console = Ret (tt, w') ∧ column_position w' = 0.
Proof.
  destruct (new_line_scrolls console (proj1 console_wf)) as (w' & Hr & Hc & _).
  exists w'. exact (conj Hr Hc).
Defined.

Lemma text_on_current_row_witness :
  ∃ w', write_string [72; 195; 105] console = Ret (tt, w') ∧
    (r ← buffer w' !! 24%nat; r !! 1%nat) = Some (mkChar 0xfe 14).
Proof.
  pose proof (text_on_current_row console [72; 195; 105] (blank_row 14) console_wf) as Hw.
  specialize (Hw ltac:(by repeat constructor) ltac:(simpl; lia) ltac:(done)).
  apply wp_elim in Hw as ([] & w' & Hr & Hb & _). exists w'. split; [exact Hr|].
  rewrite Hb. by vm_compute.
Defined.
End VgaWitness.
