(* ===== verification/Interrupts.v ===== *)
(** * Interrupt controllers and handlers (src/interrupts/controller.rs,
    src/interrupts/mod.rs)

    The kernel starts on the two chained 8259 PICs and later hands over to the
    local APIC.  The handlers acknowledge the interrupt through the controller in
    use; the keyboard handler also reads the scancode and prints the decoded
    key. *)

From S2P Require Import Prelude Bus Vga.
Local Open Scope Z_scope.

(** ** The code: src/interrupts/controller.rs *)

Definition PIC1_CMD_PORT : Z := 0x20.
Definition PIC1_DATA_PORT : Z := 0x21.
Definition PIC2_CMD_PORT : Z := 0xA0.
Definition PIC2_DATA_PORT : Z := 0xA1.
Definition PICS_8086_MODE : Z := 0x01.
Definition PICS_EOI_CMD : Z := 0x20.
Definition PICS_INIT_CMD : Z := 0x11.

Inductive InterruptController : Type :=
  | Pics (pic1_offset pic2_offset : Z)
  | Apic (base_address : Z).

Definition InterruptController_new (pic1_offset pic2_offset : Z) : InterruptController :=
  Pics pic1_offset pic2_offset.

Section code.
Context {D : Type} `{Bus D}.

Definition read_apic_reg (base_address offset : Z) : M D Z :=
  ptr ← lift (add_w 64 base_address offset);
  read_volatile 32 ptr.

Definition write_apic_reg (base_address offset val : Z) : M D unit :=
  ptr ← lift (add_w 64 base_address offset);
  write_volatile 32 ptr val.

Definition wait : M D unit := write_to_port 8 0x80 0.

Definition init_pics (pic1_offset pic2_offset : Z) : M D unit :=
  pic1_mask ← read_from_port 8 PIC1_DATA_PORT;
  pic2_mask ← read_from_port 8 PIC2_DATA_PORT;
  (* Signal the PICS to start the initialization sequence *)
  write_to_port 8 PIC1_CMD_PORT PICS_INIT_CMD ≫= λ _,
  wait ≫= λ _,
  write_to_port 8 PIC2_CMD_PORT PICS_INIT_CMD ≫= λ _,
  wait ≫= λ _,
  (* Set the offsets *)
  write_to_port 8 PIC1_DATA_PORT pic1_offset ≫= λ _,
  wait ≫= λ _,
  write_to_port 8 PIC2_DATA_PORT pic2_offset ≫= λ _,
  wait ≫= λ _,
  (* Configure the chaining *)
  write_to_port 8 PIC1_DATA_PORT 2 ≫= λ _,
  wait ≫= λ _,
  write_to_port 8 PIC2_DATA_PORT 4 ≫= λ _,
  wait ≫= λ _,
  (* Set the mode *)
  write_to_port 8 PIC1_DATA_PORT PICS_8086_MODE ≫= λ _,
  wait ≫= λ _,
  write_to_port 8 PIC2_DATA_PORT PICS_8086_MODE ≫= λ _,
  wait ≫= λ _,
  (* Restore the mask *)
  write_to_port 8 PIC1_DATA_PORT pic1_mask ≫= λ _,
  write_to_port 8 PIC2_DATA_PORT pic2_mask.

Definition controller_init (self : InterruptController) : M D unit :=
  match self with
  | Pics pic1_offset pic2_offset => init_pics pic1_offset pic2_offset
  | Apic base_address =>
      siv_reg ← read_apic_reg base_address 0xF0;
      write_apic_reg base_address 0xF0 (Z.lor siv_reg 0x100) ≫= λ _,
      write_to_port 8 PIC1_DATA_PORT 0xFF ≫= λ _,
      write_to_port 8 PIC2_DATA_PORT 0xFF
  end.

(** [(offset..(offset + 8)).contains(&id)], in [u8] arithmetic. *)
Definition pic_range_contains (offset id : Z) : outcome bool :=
  top ← add_w 8 offset 8;
  Ret (bool_decide (offset ≤ id < top)).

Definition notify_end_of_interrupt (self : InterruptController) (id : Z) : M D unit :=
  match self with
  | Pics pic1_offset pic2_offset =>
      in2 ← lift (pic_range_contains pic2_offset id);
      if in2 : bool then
        write_to_port 8 PIC2_CMD_PORT PICS_EOI_CMD ≫= λ _,
        write_to_port 8 PIC1_CMD_PORT PICS_EOI_CMD
      else
        in1 ← lift (pic_range_contains pic1_offset id);
        if in1 : bool then write_to_port 8 PIC1_CMD_PORT PICS_EOI_CMD else mret tt
  | Apic base_address => write_apic_reg base_address 0xB0 0
  end.

(** [PICS], the controller behind its lock, beside the hardware. *)
Definition apic_handover (base_address : Z) : M (InterruptController * D) unit :=
  st ← get;
  put (Apic base_address, st.2) ≫= λ _,
  on_snd (controller_init (Apic base_address)).
End code.

(** ** The code: src/interrupts/mod.rs *)

Definition PIC_1_OFFSET : Z := 32.
Definition PIC_2_OFFSET : Z := PIC_1_OFFSET + 8.

Inductive InterruptIndex : Type := Timer | Keyboard.

Definition InterruptIndex_as_u8 (i : InterruptIndex) : Z :=
  match i with Timer => PIC_1_OFFSET | Keyboard => PIC_1_OFFSET + 1 end.

Definition PICS : InterruptController := InterruptController_new PIC_1_OFFSET PIC_2_OFFSET.

(** The [pc_keyboard] crate: the decoder's state, and the keys it yields. *)
Inductive DecodedKey (KeyCode : Type) : Type :=
  | Unicode (character : Z)
  | RawKey (key : KeyCode).
Arguments Unicode {KeyCode} character.
Arguments RawKey {KeyCode} key.

Class KeyboardDecoder (K KeyEvent KeyCode : Type) : Type := {
  add_byte : Z → K → Result (option KeyEvent) unit * K;
  process_keyevent : KeyEvent → K → option (DecodedKey KeyCode) * K;
  (** The pieces of text that [{}] of a character and [{:?}] of a key code
      print. *)
  fmt_char : Z → list (list Z);
  fmt_key : KeyCode → list (list Z);
}.

Section handlers.
Context {D : Type} `{Bus D}.

Definition timer_interrupt_handler : M (InterruptController * D) unit :=
  pics ← get;
  on_snd (notify_end_of_interrupt pics.1 (InterruptIndex_as_u8 Timer)).

Context {K KeyEvent KeyCode : Type} `{KeyboardDecoder K KeyEvent KeyCode}.

(** The screen, the keyboard decoder, and the controller with the hardware. *)
Definition KeyboardState : Type := (Writer * K) * (InterruptController * D).

Definition print_key (key : DecodedKey KeyCode) : M Writer unit :=
  match key with
  | Unicode character => _print (fmt_char character)
  | RawKey key => _print (fmt_key key)
  end.

Definition keyboard_interrupt_handler : M KeyboardState unit :=
  scancode ← on_snd (on_snd (read_from_port 8 0x60));
  r ← on_fst (on_snd (λ k, Ret (add_byte scancode k)));
  match r with
  | Ok (Some key_event) =>
      o ← on_fst (on_snd (λ k, Ret (process_keyevent key_event k)));
      match o with
      | Some key => on_fst (on_fst (print_key key))
      | None => mret tt
      end
  | _ => mret tt
  end ≫= λ _,
  pics ← get;
  on_snd (on_snd (notify_end_of_interrupt pics.2.1 (InterruptIndex_as_u8 Keyboard))).
End handlers.

(** ** The device: two 8259 PICs *)

(** What a PIC expects next on its data port. *)
Inductive PicPhase : Type := Ready | WantIcw2 | WantIcw3 | WantIcw4.

Record Pic : Type := mkPic {
  imr : Z;             (* mask *)
  isr : Z;             (* in-service bits *)
  icw2 : Z;            (* vector offset *)
  icw3 : Z;            (* chaining *)
  icw4 : Z;            (* mode *)
  phase : PicPhase;
}.

(** A write to the data port. *)
Definition data_step (v : Z) (p : Pic) : Pic :=
  match phase p with
  | Ready => mkPic v (isr p) (icw2 p) (icw3 p) (icw4 p) Ready
  | WantIcw2 => mkPic (imr p) (isr p) v (icw3 p) (icw4 p) WantIcw3
  | WantIcw3 => mkPic (imr p) (isr p) (icw2 p) v (icw4 p) WantIcw4
  | WantIcw4 => mkPic (imr p) (isr p) (icw2 p) (icw3 p) v Ready
  end.

(** A non-specific end of interrupt: the highest-priority interrupt in service,
    the one with the lowest number, is finished. *)
Definition clear_first (bits : Z) : Z :=
  match list_find (λ i, Z.testbit bits i) (seqZ 0 8) with
  | Some (_, i) => Z.clearbit bits i
  | None => bits
  end.

Definition eoi_step (p : Pic) : Pic :=
  mkPic (imr p) (clear_first (isr p)) (icw2 p) (icw3 p) (icw4 p) (phase p).

Inductive which : Type := Master | Slave.

#[export] Instance which_eq_dec : EqDecision which.
Proof. solve_decision. Defined.

Definition cmd_port (s : which) : Z := match s with Master => 0x20 | Slave => 0xA0 end.
Definition data_port (s : which) : Z := match s with Master => 0x21 | Slave => 0xA1 end.

(** The local APIC: the spurious-interrupt register, and the vectors in service
    with the one of the highest priority first. *)
Record Lapic : Type := mkLapic {
  siv : Z;
  in_service : list Z;
}.

Class Controllers (D : Type) : Type := {
  pic : which → D → Pic;
  lapic_base : Z;
  lapic : D → Lapic;
}.

Class ControllersLaws (D : Type) `{Bus D, Controllers D} : Prop := {
  pic_icw1 s h : ∃ i, pic s (port_out 8 (cmd_port s) 0x11 h) =
    mkPic 0 i (icw2 (pic s h)) (icw3 (pic s h)) (icw4 (pic s h)) WantIcw2;
  pic_eoi s h : pic s (port_out 8 (cmd_port s) 0x20 h) = eoi_step (pic s h);
  pic_data s v h : pic s (port_out 8 (data_port s) v h) = data_step v (pic s h);
  (** Other ports leave a PIC alone. *)
  pic_other s p v h : p ≠ cmd_port s → p ≠ data_port s → pic s (port_out 8 p v h) = pic s h;
  pic_mask s h : (port_in 8 (data_port s) h).1 = imr (pic s h);
  pic_in s s' h : pic s (port_in 8 (data_port s') h).2 = pic s h;
  pic_keyboard s h : pic s (port_in 8 0x60 h).2 = pic s h;
  (** The local APIC is reached through memory. *)
  lapic_range : 0 ≤ lapic_base ∧ lapic_base + 0x1000 < 2 ^ 64;
  lapic_siv_fits h : fits 32 (siv (lapic h));
  lapic_out p v h : lapic (port_out 8 p v h) = lapic h;
  lapic_in p h : lapic (port_in 8 p h).2 = lapic h;
  lapic_read_siv h : (mem_in 32 (lapic_base + 0xF0) h).1 = siv (lapic h);
  lapic_read h : lapic (mem_in 32 (lapic_base + 0xF0) h).2 = lapic h;
  lapic_write_siv v h : fits 32 v →
    lapic (mem_out 32 (lapic_base + 0xF0) v h) = mkLapic v (in_service (lapic h));
  lapic_eoi h : lapic (mem_out 32 (lapic_base + 0xB0) 0 h) =
    mkLapic (siv (lapic h)) (tail (in_service (lapic h)));
  pic_lapic_read s h : pic s (mem_in 32 (lapic_base + 0xF0) h).2 = pic s h;
  pic_lapic_write s o v h : pic s (mem_out 32 (lapic_base + o) v h) = pic s h;
}.

(** ** Driving the controllers *)

(** The controllers' state, as the drivers see it. *)
Definition at_state {D} `{Controllers D} (m s : Pic) (l : Lapic) (h : D) : Prop :=
  pic Master h = m ∧ pic Slave h = s ∧ lapic h = l.

Definition pic_started (i : Z) (p : Pic) : Pic :=
  mkPic 0 i (icw2 p) (icw3 p) (icw4 p) WantIcw2.

Section driving.
Context {D : Type} `{ControllersLaws D}.
Implicit Types (h : D) (m s : Pic) (l : Lapic).

Lemma wp_master_data m s l v (Q : unit → D → Prop) h : at_state m s l h →
  (∀ h', at_state (data_step v m) s l h' → Q tt h') → wp (write_to_port 8 0x21 v) Q h.
Proof.
  intros (Em & Es & El) HQ. apply wp_write_to_port, HQ. split_and!.
  - by rewrite (pic_data Master), Em.
  - by rewrite pic_other.
  - by rewrite lapic_out.
Qed.

Lemma wp_slave_data m s l v (Q : unit → D → Prop) h : at_state m s l h →
  (∀ h', at_state m (data_step v s) l h' → Q tt h') → wp (write_to_port 8 0xA1 v) Q h.
Proof.
  intros (Em & Es & El) HQ. apply wp_write_to_port, HQ. split_and!.
  - by rewrite pic_other.
  - by rewrite (pic_data Slave), Es.
  - by rewrite lapic_out.
Qed.

Lemma wp_master_start m s l (Q : unit → D → Prop) h : at_state m s l h →
  (∀ i h', at_state (pic_started i m) s l h' → Q tt h') → wp (write_to_port 8 0x20 0x11) Q h.
Proof.
  intros (Em & Es & El) HQ. destruct (pic_icw1 Master h) as [i Ei].
  apply wp_write_to_port, (HQ i). split_and!.
  - rewrite <-Em. exact Ei.
  - by rewrite pic_other.
  - by rewrite lapic_out.
Qed.

Lemma wp_slave_start m s l (Q : unit → D → Prop) h : at_state m s l h →
  (∀ i h', at_state m (pic_started i s) l h' → Q tt h') → wp (write_to_port 8 0xA0 0x11) Q h.
Proof.
  intros (Em & Es & El) HQ. destruct (pic_icw1 Slave h) as [i Ei].
  apply wp_write_to_port, (HQ i). split_and!.
  - by rewrite pic_other.
  - rewrite <-Es. exact Ei.
  - by rewrite lapic_out.
Qed.

Lemma wp_master_eoi m s l (Q : unit → D → Prop) h : at_state m s l h →
  (∀ h', at_state (eoi_step m) s l h' → Q tt h') → wp (write_to_port 8 0x20 0x20) Q h.
Proof.
  intros (Em & Es & El) HQ. apply wp_write_to_port, HQ. split_and!.
  - by rewrite (pic_eoi Master), Em.
  - by rewrite pic_other.
  - by rewrite lapic_out.
Qed.

Lemma wp_slave_eoi m s l (Q : unit → D → Prop) h : at_state m s l h →
  (∀ h', at_state m (eoi_step s) l h' → Q tt h') → wp (write_to_port 8 0xA0 0x20) Q h.
Proof.
  intros (Em & Es & El) HQ. apply wp_write_to_port, HQ. split_and!.
  - by rewrite pic_other.
  - by rewrite (pic_eoi Slave), Es.
  - by rewrite lapic_out.
Qed.

Lemma wp_wait m s l (Q : unit → D → Prop) h : at_state m s l h →
  (∀ h', at_state m s l h' → Q tt h') → wp wait Q h.
Proof.
  intros (Em & Es & El) HQ. apply wp_write_to_port, HQ.
  unfold at_state. by rewrite !pic_other, lapic_out.
Qed.

Lemma wp_read_mask w m s l (Q : Z → D → Prop) h : at_state m s l h →
  (∀ h', at_state m s l h' → Q (imr (match w with Master => m | Slave => s end)) h') →
  wp (read_from_port 8 (data_port w)) Q h.
Proof.
  intros (Em & Es & El) HQ. apply wp_read_from_port. rewrite pic_mask.
  replace (imr (pic w h)) with (imr (match w with Master => m | Slave => s end))
    by (destruct w; congruence).
  apply HQ. unfold at_state. by rewrite !pic_in, lapic_in.
Qed.

Lemma wp_lapic_eoi m s l (Q : unit → D → Prop) h : at_state m s l h →
  (∀ h', at_state m s (mkLapic (siv l) (tail (in_service l))) h' → Q tt h') →
  wp (write_apic_reg lapic_base 0xB0 0) Q h.
Proof.
  intros (Em & Es & El) HQ. unfold write_apic_reg. apply wp_bind. pose proof lapic_range.
  eapply wp_lift; [apply checked_ok; unfold fits; lia|]. apply wp_write_volatile, HQ.
  unfold at_state. by rewrite !pic_lapic_write, lapic_eoi, El.
Qed.
End driving.

(** Step through a sequence of accesses to the PICs. *)
Ltac pic_step :=
  match goal with
  | Hst : at_state _ _ _ ?h |- wp (_ ≫= _) _ ?h => apply wp_bind
  | Hst : at_state _ _ _ ?h |- wp (write_to_port 8 0x21 _) _ ?h => apply (wp_master_data _ _ _ _ _ _ Hst)
  | Hst : at_state _ _ _ ?h |- wp (write_to_port 8 0xA1 _) _ ?h => apply (wp_slave_data _ _ _ _ _ _ Hst)
  | Hst : at_state _ _ _ ?h |- wp (write_to_port 8 0x20 0x11) _ ?h =>
      let i := fresh "i" in apply (wp_master_start _ _ _ _ _ Hst); intros i
  | Hst : at_state _ _ _ ?h |- wp (write_to_port 8 0xA0 0x11) _ ?h =>
      let i := fresh "i" in apply (wp_slave_start _ _ _ _ _ Hst); intros i
  | Hst : at_state _ _ _ ?h |- wp (write_to_port 8 0x20 0x20) _ ?h => apply (wp_master_eoi _ _ _ _ _ Hst)
  | Hst : at_state _ _ _ ?h |- wp (write_to_port 8 0xA0 0x20) _ ?h => apply (wp_slave_eoi _ _ _ _ _ Hst)
  | Hst : at_state _ _ _ ?h |- wp wait _ ?h => apply (wp_wait _ _ _ _ _ Hst)
  | Hst : at_state _ _ _ ?h |- wp (read_from_port 8 0x21) _ ?h =>
      apply (wp_read_mask Master _ _ _ _ _ Hst)
  | Hst : at_state _ _ _ ?h |- wp (read_from_port 8 0xA1) _ ?h =>
      apply (wp_read_mask Slave _ _ _ _ _ Hst)
  | Hst : at_state _ _ _ ?h |- ∀ h', at_state _ _ _ h' → _ =>
      let h1 := fresh "h" in let Hst' := fresh "Hst" in intros h1 Hst'; clear Hst; simpl in Hst'
  end.

(** ** End of interrupt *)

(** Lines of the master in service: [n] has the highest priority among them. *)
Definition highest (bits n : Z) : Prop :=
  0 ≤ n < 8 ∧ Z.testbit bits n = true ∧ ∀ j, 0 ≤ j < n → Z.testbit bits j = false.

Lemma clear_first_highest bits n : highest bits n → clear_first bits = Z.clearbit bits n.
Proof.
  intros (Hn & Hb & Hlow). unfold clear_first.
  assert (list_find (λ i, Z.testbit bits i) (seqZ 0 8) = Some (Z.to_nat n, n)) as ->; [|done].
  apply list_find_Some. split_and!.
  - apply lookup_seqZ. lia.
  - by rewrite Hb.
  - intros j y [-> Hy]%lookup_seqZ Hlt. rewrite Hlow by lia. by intros [].
Qed.

(** The interrupt of [vector] is the one being served. *)
Definition serving {D} `{Controllers D} (c : InterruptController) (vector : Z) (h : D) : Prop :=
  match c with
  | Pics pic1_offset _ => highest (isr (pic Master h)) (vector - pic1_offset)
  | Apic _ => ∃ rest, in_service (lapic h) = vector :: rest
  end.

(** From [h] to [h'], the service of [vector] ended, and nothing else changed in
    the controllers. *)
Definition finished {D} `{Controllers D} (c : InterruptController) (vector : Z) (h h' : D) : Prop :=
  match c with
  | Pics pic1_offset _ =>
      (∀ j, 0 ≤ j → Z.testbit (isr (pic Master h')) j =
        Z.testbit (isr (pic Master h)) j && negb (j =? vector - pic1_offset)) ∧
      imr (pic Master h') = imr (pic Master h) ∧ pic Slave h' = pic Slave h ∧ lapic h' = lapic h
  | Apic _ =>
      in_service (lapic h) = vector :: in_service (lapic h') ∧ siv (lapic h') = siv (lapic h) ∧
      ∀ s, pic s h' = pic s h
  end.

(** The two controllers the kernel uses. *)
Definition kernel_controller {D} `{Controllers D} (c : InterruptController) : Prop :=
  c = PICS ∨ c = Apic lapic_base.

Section acknowledging.
Context {D : Type} `{ControllersLaws D}.
Implicit Types (h : D) (c : InterruptController).

Lemma pic_range_run offset id : 0 ≤ offset → offset + 8 < 256 →
  pic_range_contains offset id = Ret (bool_decide (offset ≤ id < offset + 8)).
Proof. intros. unfold pic_range_contains, add_w. by rewrite checked_ok by (unfold fits; lia). Qed.

Lemma pic_range_overflow offset id : 256 ≤ offset + 8 →
  pic_range_contains offset id = Panic ArithOverflow.
Proof. intros. unfold pic_range_contains, add_w. by rewrite checked_overflow by (unfold fits; lia). Qed.

Lemma notify_finishes c vector h : kernel_controller c → vector = 32 ∨ vector = 33 →
  serving c vector h →
  wp (notify_end_of_interrupt c vector) (λ _ h', finished c vector h h') h.
Proof.
  intros Hc Hv Hs. assert (at_state (pic Master h) (pic Slave h) (lapic h) h) as Hst by done.
  destruct Hc as [->| ->].
  - unfold PICS, InterruptController_new, PIC_2_OFFSET, PIC_1_OFFSET, notify_end_of_interrupt,
      PIC1_CMD_PORT, PICS_EOI_CMD.
    rewrite !pic_range_run by lia. simpl.
    rewrite (bool_decide_false (32 + 8 ≤ _ < _)), bool_decide_true by lia.
    apply wp_bind. eapply wp_lift; [done|]. apply wp_bind. eapply wp_lift; [done|]. simpl.
    repeat pic_step. match goal with Hf : at_state _ _ _ _ |- _ => destruct Hf as (Em & Es & El) end.
    unfold finished. rewrite Em, Es, El. split_and!; [|done..]. intros j Hj. simpl.
    unfold PICS, serving in Hs. simpl in Hs. unfold PIC_1_OFFSET in Hs.
    rewrite (clear_first_highest _ _ Hs). destruct Hs as (? & _).
    rewrite Z.clearbit_eqb by lia. by rewrite (Z.eqb_sym j).
  - unfold notify_end_of_interrupt. apply (wp_lapic_eoi _ _ _ _ _ Hst).
    intros h' (Em & Es & El). destruct Hs as [rest Er]. unfold finished. rewrite El, Er.
    split_and!; [done..|]. by intros [].
Qed.
End acknowledging.

(** Reading the keyboard port is not seen by the controllers. *)
Section keyboard_port.
Context {D : Type} `{ControllersLaws D}.

Lemma serving_keyboard c vector (h : D) :
  serving c vector h → serving c vector (port_in 8 0x60 h).2.
Proof. destruct c; simpl; [by rewrite pic_keyboard|by rewrite lapic_in]. Qed.

Lemma finished_keyboard c vector (h h' : D) :
  finished c vector (port_in 8 0x60 h).2 h' → finished c vector h h'.
Proof.
  destruct c; simpl; rewrite ?pic_keyboard, lapic_in; [done|].
  intros (? & ? & Hp). split_and!; [done..|]. intros s. by rewrite Hp, pic_keyboard.
Qed.
End keyboard_port.

(** ** Decoding a scancode *)

(** The text a scancode prints, and the decoder after it. *)
Definition decode {K KeyEvent KeyCode} `{KeyboardDecoder K KeyEvent KeyCode} (scancode : Z) (k : K) :
    list (list Z) * K :=
  match add_byte scancode k with
  | (Ok (Some key_event), k1) =>
      match process_keyevent key_event k1 with
      | (Some (Unicode character), k2) => (fmt_char character, k2)
      | (Some (RawKey key), k2) => (fmt_key key, k2)
      | (None, k2) => ([], k2)
      end
  | (_, k1) => ([], k1)
  end.

(** ** Properties *)

(** The slave's identity is a line the master knows to carry a slave. *)
Definition chained (m s : Pic) : bool := Z.testbit (icw3 m) (icw3 s).

Section controller_properties.
Context {D : Type} `{ControllersLaws D}.
Implicit Types (h : D).

Lemma init_pics_run pic1_offset pic2_offset h :
  wp (init_pics pic1_offset pic2_offset) (λ _ h', ∃ i1 i2,
    pic Master h' = mkPic (imr (pic Master h)) i1 pic1_offset 2 1 Ready ∧
    pic Slave h' = mkPic (imr (pic Slave h)) i2 pic2_offset 4 1 Ready ∧
    chained (pic Master h') (pic Slave h') = false ∧ lapic h' = lapic h) h.
Proof.
  assert (at_state (pic Master h) (pic Slave h) (lapic h) h) as Hst by done.
  unfold init_pics, PIC1_DATA_PORT, PIC2_DATA_PORT, PIC1_CMD_PORT, PIC2_CMD_PORT, PICS_INIT_CMD,
    PICS_8086_MODE. repeat pic_step.
  match goal with Hf : at_state _ _ _ _ |- _ => destruct Hf as (-> & -> & ->) end.
  by eexists _, _.
Qed.

(** C18. Initialization of the PICs: whatever state they are in, both end ready,
    in 8086 mode, with the given vector offsets and the masks they had before.
    The chaining words are 2 for the master and 4 for the slave, so the slave's
    identity is not a line on which the master expects a slave. *)
Theorem init_pics_programs pic1_offset pic2_offset h :
  wp (init_pics pic1_offset pic2_offset) (λ _ h', ∃ i1 i2,
    pic Master h' = mkPic (imr (pic Master h)) i1 pic1_offset 2 1 Ready ∧
    pic Slave h' = mkPic (imr (pic Slave h)) i2 pic2_offset 4 1 Ready ∧
    chained (pic Master h') (pic Slave h') = false ∧ lapic h' = lapic h) h.
Proof. apply init_pics_run. Qed.

(** Handover to the local APIC: the controller becomes the APIC at the given
    address; its spurious-interrupt register gets the enable bit and keeps its
    other bits; both PICs have every line masked. *)
Theorem apic_handover_masks_pics c h :
  (∀ s, phase (pic s h) = Ready) →
  wp (apic_handover lapic_base) (λ _ st', st'.1 = Apic lapic_base ∧
    siv (lapic st'.2) = Z.setbit (siv (lapic h)) 8 ∧
    in_service (lapic st'.2) = in_service (lapic h) ∧
    ∀ s, imr (pic s st'.2) = 0xFF ∧ isr (pic s st'.2) = isr (pic s h)) (c, h).
Proof.
  intros Hready. unfold apic_handover. apply wp_bind, wp_get, wp_bind, wp_put, wp_on_snd. simpl.
  pose proof lapic_range. unfold controller_init, read_apic_reg, write_apic_reg, PIC1_DATA_PORT,
    PIC2_DATA_PORT.
  apply wp_bind, wp_bind. eapply wp_lift; [apply checked_ok; unfold fits; lia|].
  apply wp_read_volatile, wp_bind, wp_bind.
  eapply wp_lift; [apply checked_ok; unfold fits; lia|]. apply wp_write_volatile.
  rewrite lapic_read_siv. set (h1 := mem_out _ _ _ _).
  assert (at_state (pic Master h) (pic Slave h) (mkLapic (Z.setbit (siv (lapic h)) 8)
    (in_service (lapic h))) h1) as Hst.
  { unfold h1, at_state. rewrite !pic_lapic_write, !pic_lapic_read. split_and!; [done..|].
    rewrite lapic_write_siv, lapic_read; [done|]. apply fits_lor; [lia|apply lapic_siv_fits|].
    by split. }
  clearbody h1. repeat pic_step.
  match goal with Hf : at_state _ _ _ _ |- _ => destruct Hf as (Em & Es & El) end.
  rewrite El. split_and!; [done..|]. unfold data_step in Em, Es. rewrite Hready in Em, Es.
  by intros []; rewrite ?Em, ?Es.
Qed.

(** C19. End of interrupt on every branch: a vector of the slave PIC is acknowledged
    on both PICs, one of the master on the master only, any other on neither; on
    the local APIC every vector ends the interrupt in service.  An offset above
    247 makes the range computation overflow: the slave's always, the master's when
    the vector is not one of the slave's. *)
Theorem notify_end_of_interrupt_spec o1 o2 id h :
  0 ≤ o1 → 0 ≤ o2 →
  let final (m s : Pic) (l : Lapic) := λ (_ : unit) (h' : D), at_state m s l h' in
  let notify_pics := notify_end_of_interrupt (Pics o1 o2) id in
  let '(m, s, l) := (pic Master h, pic Slave h, lapic h) in
  (o2 + 8 < 256 → o2 ≤ id < o2 + 8 → wp notify_pics (final (eoi_step m) (eoi_step s) l) h) ∧
  (o2 + 8 < 256 → o1 + 8 < 256 → ¬ o2 ≤ id < o2 + 8 →
     wp notify_pics (final (if bool_decide (o1 ≤ id < o1 + 8) then eoi_step m else m) s l) h) ∧
  (256 ≤ o2 + 8 → notify_pics h = Panic ArithOverflow) ∧
  (o2 + 8 < 256 → ¬ o2 ≤ id < o2 + 8 → 256 ≤ o1 + 8 → notify_pics h = Panic ArithOverflow) ∧
  wp (notify_end_of_interrupt (Apic lapic_base) id)
    (final m s (mkLapic (siv l) (tail (in_service l)))) h.
Proof.
  intros Ho1 Ho2. simpl. unfold PIC1_CMD_PORT, PIC2_CMD_PORT, PICS_EOI_CMD.
  assert (at_state (pic Master h) (pic Slave h) (lapic h) h) as Hst by done. split_and!.
  - intros Hb2 Hid. rewrite (pic_range_run o2), bool_decide_true by lia.
    apply wp_bind. eapply wp_lift; [done|]. simpl. by repeat pic_step.
  - intros Hb2 Hb1 Hid. rewrite !pic_range_run, (bool_decide_false (o2 ≤ _ < _)) by lia.
    apply wp_bind. eapply wp_lift; [done|]. apply wp_bind. eapply wp_lift; [done|].
    case_bool_decide; [by repeat pic_step|by apply wp_ret].
  - intros Hb2. rewrite (pic_range_overflow o2) by done. done.
  - intros Hb2 Hid Hb1.
    by rewrite (pic_range_run o2), (bool_decide_false (o2 ≤ _ < _)), (pic_range_overflow o1) by lia.
  - by apply (wp_lapic_eoi _ _ _ _ _ Hst).
Qed.

(** The timer handler ends the service of the timer interrupt and changes
    nothing else in the controllers, on the PICs and on the local APIC. *)
Theorem timer_handler_acknowledges c h :
  kernel_controller c → serving c (InterruptIndex_as_u8 Timer) h →
  wp timer_interrupt_handler (λ _ st', st'.1 = c ∧
    finished c (InterruptIndex_as_u8 Timer) h st'.2) (c, h).
Proof.
  intros Hc Hs. unfold timer_interrupt_handler. apply wp_bind, wp_get, wp_on_snd.
  eapply wp_mono; [apply notify_finishes; [done|by left|done]|]. done.
Qed.
End controller_properties.

Section keyboard_properties.
Context {D : Type} `{ControllersLaws D}.
Context {K KeyEvent KeyCode : Type} `{KeyboardDecoder K KeyEvent KeyCode}.
Implicit Types (h : D) (k : K).

(** The handler up to the acknowledgment. *)
Lemma keyboard_prints w l k c h (Q : unit → KeyboardState → Prop) :
  shows w l →
  let '(text, k') := decode (port_in 8 0x60 h).1 k in
  (∀ w', shows w' (log_string (color_code w) (concat text) l) →
    wp (on_snd (on_snd (notify_end_of_interrupt c (InterruptIndex_as_u8 Keyboard)))) Q
      ((w', k'), (c, (port_in 8 0x60 h).2))) →
  wp keyboard_interrupt_handler Q ((w, k), (c, h)).
Proof.
  intros Hs. unfold decode, keyboard_interrupt_handler.
  destruct (add_byte (port_in 8 0x60 h).1 k) as [[[key_event|]|e] k1] eqn:Ea;
    [destruct (process_keyevent key_event k1) as [[[character|key]|] k2] eqn:Ep|..];
    intros HQ; apply wp_bind, wp_on_snd, wp_on_snd, wp_read_from_port, wp_bind, wp_on_fst, wp_on_snd;
    (eapply wp_intro; [by rewrite Ea|]); apply wp_bind.
  - apply wp_bind, wp_on_fst, wp_on_snd. eapply wp_intro; [by rewrite Ep|].
    apply wp_on_fst, wp_on_fst. eapply wp_mono; [by apply print_shows|].
    intros [] w' Hs'. by apply wp_bind, wp_get, HQ.
  - apply wp_bind, wp_on_fst, wp_on_snd. eapply wp_intro; [by rewrite Ep|].
    apply wp_on_fst, wp_on_fst. eapply wp_mono; [by apply print_shows|].
    intros [] w' Hs'. by apply wp_bind, wp_get, HQ.
  - apply wp_bind, wp_on_fst, wp_on_snd. eapply wp_intro; [by rewrite Ep|].
    by apply wp_ret, wp_bind, wp_get, HQ.
  - by apply wp_ret, wp_bind, wp_get, HQ.
  - by apply wp_ret, wp_bind, wp_get, HQ.
Qed.

(** C20. The keyboard handler returns for every scancode: it feeds the byte of port
    0x60 to the decoder, appends exactly the decoded text to the screen's log, and
    ends the service of the keyboard interrupt. *)
Theorem keyboard_handler_spec w l k c h :
  shows w l → kernel_controller c → serving c (InterruptIndex_as_u8 Keyboard) h →
  let '(text, k') := decode (port_in 8 0x60 h).1 k in
  wp keyboard_interrupt_handler (λ _ st',
    shows st'.1.1 (log_string (color_code w) (concat text) l) ∧ st'.1.2 = k' ∧
    st'.2.1 = c ∧ finished c (InterruptIndex_as_u8 Keyboard) h st'.2.2) ((w, k), (c, h)).
Proof.
  intros Hs Hc Hsv.
  pose proof (keyboard_prints w l k c h (λ _ st',
    shows st'.1.1 (log_string (color_code w) (concat (decode (port_in 8 0x60 h).1 k).1) l) ∧
    st'.1.2 = (decode (port_in 8 0x60 h).1 k).2 ∧ st'.2.1 = c ∧
    finished c (InterruptIndex_as_u8 Keyboard) h st'.2.2) Hs) as Hk.
  destruct (decode (port_in 8 0x60 h).1 k) as [text k']. simpl in Hk. apply Hk. clear Hk.
  intros w' Hs'. apply wp_on_snd, wp_on_snd.
  eapply wp_mono; [apply notify_finishes; [done|by right|by apply serving_keyboard]|].
  intros [] h' Hf. split_and!; [done..|]. by apply finished_keyboard.
Qed.
End keyboard_properties.

(** ** Witnesses *)

Module InterruptWitness.

(** Two PICs, a local APIC at 0xFEE00000, and the byte in the keyboard port. *)
Record pc : Type := mkPc {
  pc_master : Pic;
  pc_slave : Pic;
  pc_lapic : Lapic;
  pc_key : Z;
}.

Definition pic_cmd (v : Z) (p : Pic) : Pic :=
  if bool_decide (v = 0x11) then pic_started 0 p
  else if bool_decide (v = 0x20) then eoi_step p else p.

#[export] Instance pc_Bus : Bus pc := {|
  port_in w p h :=
    (if bool_decide (p = 0x21) then imr (pc_master h)
     else if bool_decide (p = 0xA1) then imr (pc_slave h)
     else if bool_decide (p = 0x60) then pc_key h else 0, h);
  port_out w p v h :=
    if bool_decide (p = 0x20) then mkPc (pic_cmd v (pc_master h)) (pc_slave h) (pc_lapic h) (pc_key h)
    else if bool_decide (p = 0x21)
      then mkPc (data_step v (pc_master h)) (pc_slave h) (pc_lapic h) (pc_key h)
    else if bool_decide (p = 0xA0)
      then mkPc (pc_master h) (pic_cmd v (pc_slave h)) (pc_lapic h) (pc_key h)
    else if bool_decide (p = 0xA1)
      then mkPc (pc_master h) (data_step v (pc_slave h)) (pc_lapic h) (pc_key h)
    else h;
  mem_in w a h := (if bool_decide (a = 0xFEE000F0) then as_u32 (siv (pc_lapic h)) else 0, h);
  mem_out w a v h :=
    if bool_decide (a = 0xFEE000F0)
      then mkPc (pc_master h) (pc_slave h) (mkLapic v (in_service (pc_lapic h))) (pc_key h)
    else if bool_decide (a = 0xFEE000B0)
      then mkPc (pc_master h) (pc_slave h)
        (mkLapic (siv (pc_lapic h)) (tail (in_service (pc_lapic h)))) (pc_key h)
    else h;
  halt h := h;
|}.

(** Registers are 32 bits wide. *)
Definition narrow (l : Lapic) : Lapic := mkLapic (as_u32 (siv l)) (in_service l).

#[export] Instance pc_Controllers : Controllers pc := {|
  pic s h := match s with Master => pc_master h | Slave => pc_slave h end;
  lapic_base := 0xFEE00000;
  lapic h := narrow (pc_lapic h);
|}.

#[export] Instance pc_ControllersLaws : ControllersLaws pc.
Proof.
  split; try done.
  - intros [] h; by exists 0.
  - by intros [] h.
  - by intros [] v h.
  - intros [] p v h Hc Hd; simpl in *; repeat case_bool_decide; done.
  - by intros [] h.
  - intros h. by apply cast_fits.
  - intros p v h. simpl. repeat case_bool_decide; done.
  - intros v h Hv. simpl. unfold narrow. simpl. by rewrite cast_id.
  - intros [] o v h; simpl; repeat case_bool_decide; done.
Qed.

(** The firmware's state: interrupt lines 0 and 1 open, and the timer in service
    on the master, or on the local APIC. *)
Definition ready (mask service : Z) : Pic := mkPic mask service 8 4 1 Ready.
Definition machine : pc := mkPc (ready 0xFC 1) (ready 0xFF 0) (mkLapic 0xFF [33; 32]) 0x1E.
Definition key_pressed : pc := mkPc (ready 0xFC 2) (ready 0xFF 0) (mkLapic 0xFF [33]) 0x1E.

Lemma init_pics_programs_witness :
  ∃ h', init_pics 32 40 machine = Ret (tt, h') ∧ icw2 (pic Master h') = 32 ∧
    imr (pic Master h') = 0xFC ∧ chained (pic Master h') (pic Slave h') = false.
Proof.
  destruct (wp_elim _ _ _ (init_pics_programs 32 40 machine))
    as ([] & h' & Hr & i1 & i2 & Hm & Hs & Hc & _).
  exists h'. split; [exact Hr|]. split; [by rewrite Hm|]. split; [by rewrite Hm|exact Hc].
Defined.

Lemma apic_handover_witness :
  ∃ h', apic_handover lapic_base (PICS, machine) = Ret (tt, (Apic 0xFEE00000, h')) ∧
    siv (lapic h') = 0x1FF.
Proof.
  destruct (wp_elim _ _ _ (apic_handover_masks_pics PICS machine ltac:(by intros [])))
    as ([] & [c h'] & Hr & Hc & Hs & _).
  exists h'. rewrite Hr. simpl in Hc, Hs. subst c. exact (conj eq_refl Hs).
Defined.

Lemma notify_end_of_interrupt_witness :
  wp (notify_end_of_interrupt (Pics 32 40) 47)
    (λ _ h', at_state (eoi_step (ready 0xFC 1)) (eoi_step (ready 0xFF 0))
      (mkLapic 0xFF [33; 32]) h') machine.
Proof.
  destruct (notify_end_of_interrupt_spec 32 40 47 machine ltac:(lia) ltac:(lia)) as (Hn & _).
  exact (Hn eq_refl ltac:(lia)).
Defined.

Lemma timer_served : serving PICS (InterruptIndex_as_u8 Timer) machine.
Proof. change (highest 1 0). split_and!; [lia|lia|done|lia]. Qed.

Lemma keyboard_served : serving PICS (InterruptIndex_as_u8 Keyboard) key_pressed.
Proof.
  change (highest 2 1). split_and!; [lia|lia|done|]. intros j Hj. by replace j with 0 by lia.
Qed.

Lemma timer_handler_witness :
  ∃ h', timer_interrupt_handler (PICS, machine) = Ret (tt, (PICS, h')) ∧
    Z.testbit (isr (pic Master h')) 0 = false.
Proof.
  destruct (wp_elim _ _ _ (timer_handler_acknowledges PICS machine ltac:(by left)
    timer_served)) as ([] & [c h'] & Hr & Hc & Hb & _).
  exists h'. rewrite Hr. simpl in Hc. subst c. split; [done|]. exact (Hb 0 ltac:(lia)).
Defined.

(** A decoder that knows one key: scancode 0x1E is the letter a. *)
#[export] Instance one_key : KeyboardDecoder unit Z unit := {|
  add_byte b k := (Ok (if bool_decide (b = 0x1E) then Some b else None), k);
  process_keyevent _ k := (Some (Unicode 97), k);
  fmt_char c := [[c]];
  fmt_key _ := [];
|}.

Lemma keyboard_handler_witness :
  wp keyboard_interrupt_handler (λ _ st',
    shows st'.1.1 (log_string (color_code VgaWitness.console) [97] VgaWitness.boot_log) ∧
    finished PICS 33 key_pressed st'.2.2) ((VgaWitness.console, tt), (PICS, key_pressed)).
Proof.
  pose proof (keyboard_handler_spec VgaWitness.console VgaWitness.boot_log tt PICS key_pressed
    VgaWitness.console_shows (or_introl eq_refl) keyboard_served) as Hk.
  change (decode (port_in 8 0x60 key_pressed).1 tt) with ([[97]], tt) in Hk.
  cbv beta iota in Hk. eapply wp_mono; [exact Hk|].
  intros [] st' (Hsh & _ & _ & Hf). exact (conj Hsh Hf).
Defined.
End InterruptWitness.
