(* ===== verification/Apic.v ===== *)
(** * The IO APIC driver (src/apic.rs)

    An IO APIC has an index register and a data register in device memory; its
    redirection table has a 64-bit entry per interrupt line, which [RedirEntry]
    gives field access to.  [apic_init] moves the kernel from the PICs to the
    local APIC and routes the timer and the keyboard through the IO APICs. *)

From S2P Require Import Prelude Platform Bus FrameAllocator FrameInit Memory Vga Interrupts.
Local Open Scope Z_scope.

(** ** Redirection entries *)

Inductive DeliveryMode : Type :=
  | Normal
  | LowPriority
  | SMInterrupt
  | NMInterrupt
  | Init
  | External
  | ReservedMode.

#[export] Instance DeliveryMode_eq_dec : EqDecision DeliveryMode.
Proof. solve_decision. Defined.

(** [RedirEntry(u64)]: the entry is its word. *)
Definition RedirEntry_new (vector : Z) : Z := as_u64 vector.
Definition vector (e : Z) : Z := as_u8 (Z.land e 0xFF).
Definition set_vector (v : Z) (e : Z) : Z := Z.lor e (as_u64 v).

Definition delivery_mode (e : Z) : DeliveryMode :=
  match Z.land (Z.shiftr e 8) 7 with
  | 0 => Normal
  | 1 => LowPriority
  | 2 => SMInterrupt
  | 4 => NMInterrupt
  | 5 => Init
  | 7 => External
  | _ => ReservedMode
  end.

Definition set_delivery_mode (mode : DeliveryMode) (e : Z) : outcome Z :=
  bits ← match mode with
         | Normal => Ret 0
         | LowPriority => Ret 1
         | SMInterrupt => Ret 2
         | NMInterrupt => Ret 4
         | Init => Ret 5
         | External => Ret 7
         | ReservedMode => Panic (Explicit "Cannot use a reserved mode")
         end;
  let e := Z.lxor e (Z.shiftl 7 8) in
  Ret (Z.lor e (as_u64 (Z.shiftl bits 8))).

(** [(self.0 >> k) & 0b1] and the setters' [^= 0b1 << k] and [|= mode << k]. *)
Definition entry_bit (k e : Z) : Z := Z.land (Z.shiftr e k) 1.
Definition set_entry_bit (k : Z) (mode : bool) (e : Z) : Z :=
  let e := Z.lxor e (Z.shiftl 1 k) in
  Z.lor e (Z.shiftl (Z.b2z mode) k).

Definition logical_mode (e : Z) : bool := negb (entry_bit 11 e =? 0).
Definition set_logical_mode (mode : bool) (e : Z) : Z := set_entry_bit 11 mode e.
Definition is_busy (e : Z) : bool := negb (entry_bit 12 e =? 0).
Definition low_is_active (e : Z) : bool := negb (entry_bit 13 e =? 0).
Definition set_low_is_active (mode : bool) (e : Z) : Z := set_entry_bit 13 mode e.
Definition lapic_responded (e : Z) : bool := entry_bit 14 e =? 0.
Definition level_sensitive (e : Z) : bool := negb (entry_bit 15 e =? 0).
Definition set_level_sensitive (mode : bool) (e : Z) : Z := set_entry_bit 15 mode e.
Definition masked (e : Z) : bool := negb (entry_bit 16 e =? 0).
Definition set_masked (mode : bool) (e : Z) : Z := set_entry_bit 16 mode e.
Definition destination_id (e : Z) : Z := as_u8 (Z.land (Z.shiftr e 56) 0xF).

(** ** IO APICs *)

Record IOApic : Type := mkIOApic {
  base_address : Z;
  base_interrupt : Z;
}.

Section ioapic.
Context {D : Type} `{Bus D}.

Definition read_reg (self : IOApic) (reg : Z) : M D Z :=
  data_reg ← lift (add_w 64 (base_address self) 0x10);
  write_volatile 32 (base_address self) (as_u32 reg) ≫= λ _,
  read_volatile 32 data_reg.

Definition write_reg (self : IOApic) (reg val : Z) : M D unit :=
  data_reg ← lift (add_w 64 (base_address self) 0x10);
  write_volatile 32 (base_address self) (as_u32 reg) ≫= λ _,
  write_volatile 32 data_reg val.

Definition ioapic_id (self : IOApic) : M D Z :=
  res ← read_reg self 0x00;
  mret (as_u8 (Z.land (Z.shiftr res 24) 0xF)).

Definition ioapic_version (self : IOApic) : M D Z :=
  res ← read_reg self 0x01;
  mret (as_u8 (Z.land res 0xff)).

Definition redir_entry_count (self : IOApic) : M D Z :=
  res ← read_reg self 0x01;
  mret (as_u8 (Z.land (Z.shiftr res 16) 0xFF)).

Definition arbitration_priority (self : IOApic) : M D Z :=
  res ← read_reg self 0x02;
  mret (as_u8 (Z.land (Z.shiftr res 24) 0xF)).

(** [first + idx * 2], in [u8] arithmetic. *)
Definition entry_reg (first idx : Z) : outcome Z :=
  twice ← mul_w 8 idx 2;
  add_w 8 first twice.

Definition redir_entry (self : IOApic) (idx : Z) : M D Z :=
  count ← redir_entry_count self;
  if bool_decide (count ≤ idx) then fail (Explicit "Out of bounds")
  else
    r0 ← lift (entry_reg 0x10 idx);
    low ← read_reg self r0;
    r1 ← lift (entry_reg 0x11 idx);
    high ← read_reg self r1;
    mret (Z.lor (as_u64 (Z.shiftl (as_u64 high) 32)) (as_u64 low)).

Definition set_redir_entry (self : IOApic) (idx entry : Z) : M D unit :=
  r0 ← lift (entry_reg 0x10 idx);
  write_reg self r0 (as_u32 entry) ≫= λ _,
  r1 ← lift (entry_reg 0x11 idx);
  write_reg self r1 (as_u32 (Z.shiftr entry 32)).

(** [RedirEntryIter]: the state of the iterator is its index. *)
Definition redir_entry_iter : Z := 0.

Definition redir_entry_next (self : IOApic) : M (Z * D) (option Z) :=
  st ← get;
  count ← on_snd (redir_entry_count self);
  if bool_decide (st.1 = count) then mret None
  else
    res ← on_snd (redir_entry self st.1);
    idx ← lift (add_w 8 st.1 1);
    st' ← get;
    put (idx, st'.2) ≫= λ _,
    mret (Some res).
End ioapic.

(** ** The APIC *)

(** [acpi::platform::Apic] *)
Record IoApicInfo : Type := mkIoApicInfo {
  io_address : Z;
  global_system_interrupt_base : Z;
}.

Record InterruptSourceOverride : Type := mkOverride {
  isa_source : Z;
  global_system_interrupt : Z;
}.

Record ApicInfo : Type := mkApicInfo {
  local_apic_address : Z;
  info_io_apics : list IoApicInfo;
  interrupt_source_overrides : list InterruptSourceOverride;
}.

Record ApicDriver : Type := mkApic {
  info : ApicInfo;
  io_apics : list IOApic;
}.

Fixpoint find_override (l : list InterruptSourceOverride) (vector : Z) : option Z :=
  match l with
  | [] => None
  | v :: l' =>
      if bool_decide (isa_source v = vector) then Some (as_u8 (global_system_interrupt v))
      else find_override l' vector
  end.

Definition get_interrupt_source (self : ApicDriver) (vector : Z) : Z :=
  default vector (find_override (interrupt_source_overrides (info self)) vector).

(** One round of the loop: the index of the best IO APIC so far and its base. *)
Definition consider (vector : Z) (acc : Z * Z) (i : Z) (io_apic : IOApic) : Z * Z :=
  let '(idx, current_base) := acc in
  if bool_decide (vector < base_interrupt io_apic) then acc
  else if bool_decide (current_base < base_interrupt io_apic) then (i, base_interrupt io_apic)
  else acc.

Fixpoint search_ioapic (vector : Z) (acc : Z * Z) (i : Z) (l : list IOApic) : Z * Z :=
  match l with
  | [] => acc
  | a :: l' => search_ioapic vector (consider vector acc i a) (i + 1) l'
  end.

Definition get_interrupt_ioapic (self : ApicDriver) (vector : Z) : outcome Z :=
  first ← index (io_apics self) 0;
  Ret (search_ioapic vector (0, base_interrupt first) 0 (io_apics self)).1.

Section apic.
Context {D : Type} `{Bus D}.

Definition get_entry (self : ApicDriver) (vector : Z) : M D Z :=
  let vector := get_interrupt_source self vector in
  idx ← lift (get_interrupt_ioapic self vector);
  io ← lift (index (io_apics self) idx);
  redir_entry io vector.

Definition set_entry (self : ApicDriver) (vector entry : Z) : M D unit :=
  let vector := get_interrupt_source self vector in
  idx ← lift (get_interrupt_ioapic self vector);
  io ← lift (index (io_apics self) idx);
  set_redir_entry io vector entry.

Context `{BootInfo} `{Addresses} {T : Type} `{Mapper T}.

(** The paging context, the controller in use, and the hardware. *)
Definition ApicState : Type := PagingState T * (InterruptController * D).

Definition map_device (base_address : Z) : M (PagingState T) unit :=
  a ← lift (PhysAddr_new base_address);
  frame ← lift (unwrap (frame_from_start_address a));
  r ← mmap_dev frame false;
  lift (expect_ok r "Failed to identity map") ≫= λ _, mret tt.

Definition lapic_handover (base_address : Z) : M ApicState unit :=
  on_fst (map_device base_address) ≫= λ _,
  on_snd (apic_handover base_address).

(** The loop that maps the IO APICs of the platform and collects them. *)
Fixpoint collect_ioapics (l : list IoApicInfo) (acc : list IOApic) :
    M (PagingState T) (list IOApic) :=
  match l with
  | [] => mret acc
  | io :: l' =>
      let base_address := as_u64 (io_address io) in
      map_device base_address ≫= λ _,
      collect_ioapics l' (acc ++ [mkIOApic base_address (as_u8 (global_system_interrupt_base io))])
  end.

(** Point the entry of an ISA interrupt at a vector and open it. *)
Definition route (this : ApicDriver) (irq v : Z) : M D unit :=
  entry ← get_entry this irq;
  let entry := set_vector v entry in
  let entry := set_masked false entry in
  set_entry this irq entry.

(** [invoke_pic] is the invocation of the [\_PIC] method, whose result is
    ignored. *)
Definition apic_init (invoke_pic : M ApicState unit) (info : ApicInfo) : M ApicState ApicDriver :=
  invoke_pic ≫= λ _,
  lapic_handover (local_apic_address info) ≫= λ _,
  io_apics ← on_fst (collect_ioapics (info_io_apics info) []);
  let this := mkApic info io_apics in
  on_snd (on_snd (route this 0 32)) ≫= λ _,
  on_snd (on_snd (route this 1 33)) ≫= λ _,
  mret this.
End apic.
Arguments ApicState : clear implicits.

(** ** Facts about entries *)

Lemma entry_bit_test k e : 0 ≤ k → entry_bit k e = Z.b2z (Z.testbit e k).
Proof.
  intros. unfold entry_bit. change 1 with (Z.ones 1). rewrite Z.land_ones by lia.
  rewrite Z.testbit_spec' by lia. by rewrite Z.shiftr_div_pow2.
Qed.

Lemma entry_bit_set k e : 0 ≤ k → negb (entry_bit k e =? 0) = Z.testbit e k.
Proof. intros. rewrite entry_bit_test by done. by destruct (Z.testbit e k). Qed.

Lemma testbit_b2z_shiftl k (m : bool) i : 0 ≤ k → 0 ≤ i →
  Z.testbit (Z.shiftl (Z.b2z m) k) i = m && bool_decide (i = k).
Proof.
  intros. destruct m; [by apply (testbit_pow2 k i)|]. simpl. by rewrite Z.shiftl_0_l, Z.bits_0.
Qed.

(** What the bit setters do: the bit is inverted unless it is to be set, and the
    other bits stay. *)
Lemma testbit_set_entry_bit k m e i : 0 ≤ k → 0 ≤ i →
  Z.testbit (set_entry_bit k m e) i =
    if bool_decide (i = k) then m || negb (Z.testbit e k) else Z.testbit e i.
Proof.
  intros. unfold set_entry_bit. rewrite Z.lor_spec, Z.lxor_spec, testbit_pow2, testbit_b2z_shiftl by done.
  case_bool_decide; [subst|]; destruct m; simpl;
    by rewrite ?xorb_true_r, ?xorb_false_r, ?orb_true_r, ?orb_false_r.
Qed.

Lemma testbit_low_byte e i : 0 ≤ i < 8 → Z.testbit (vector e) i = Z.testbit e i.
Proof.
  intros. unfold vector, cast. rewrite Z.mod_pow2_bits_low by lia.
  change 0xFF with (Z.ones 8). rewrite Z.land_spec, Z.ones_spec_low by lia. apply andb_true_r.
Qed.

Lemma vector_mod e : vector e = e mod 256.
Proof.
  unfold vector, cast. change 0xFF with (Z.ones 8). rewrite Z.land_ones by lia.
  by rewrite Zmod_mod.
Qed.

Lemma vector_set_vector v e : u8 v → vector (set_vector v e) = Z.lor (vector e) v.
Proof.
  intros Hv. unfold set_vector. rewrite cast_id by (destruct Hv; unfold fits; lia).
  rewrite !vector_mod. change 256 with (2 ^ 8).
  apply Z.bits_inj'. intros i Hi. rewrite Z.lor_spec.
  destruct (Z.lt_ge_cases i 8).
  - by rewrite !Z.mod_pow2_bits_low, Z.lor_spec by lia.
  - rewrite !Z.mod_pow2_bits_high by lia. by rewrite (fits_testbit 8).
Qed.

(** The delivery mode as a number, and back. *)
Definition mode_bits (e : Z) : Z := Z.land (Z.shiftr e 8) 7.

Lemma mode_bits_range e : 0 ≤ mode_bits e < 8.
Proof. unfold mode_bits. change 7 with (Z.ones 3). rewrite Z.land_ones by lia. lia. Qed.

Lemma testbit_mode_bits e i : 0 ≤ i < 3 → Z.testbit (mode_bits e) i = Z.testbit e (i + 8).
Proof.
  intros. unfold mode_bits. change 7 with (Z.ones 3).
  by rewrite Z.land_spec, Z.shiftr_spec, Z.ones_spec_low, andb_true_r by lia.
Qed.

Lemma complement_7 m : 0 ≤ m < 8 → Z.lxor m 7 = 7 - m.
Proof.
  intros. assert (m ∈ seqZ 0 8) as Hin by (apply elem_of_seqZ; lia). clear H.
  repeat (apply elem_of_cons in Hin as [->|Hin]; [done|]). by apply not_elem_of_nil in Hin.
Qed.

Lemma mode_bits_set e bits : 0 ≤ bits < 8 →
  mode_bits (Z.lor (Z.lxor e (Z.shiftl 7 8)) (as_u64 (Z.shiftl bits 8))) =
    Z.lor (7 - mode_bits e) bits.
Proof.
  intros Hb. rewrite <-complement_7 by apply mode_bits_range.
  rewrite cast_id by (unfold fits; rewrite Z.shiftl_mul_pow2; lia).
  apply Z.bits_inj'. intros i Hi. destruct (Z.lt_ge_cases i 3).
  - rewrite testbit_mode_bits, !Z.lor_spec, !Z.lxor_spec, !Z.shiftl_spec, testbit_mode_bits by lia.
    by replace (i + 8 - 8) with i by lia.
  - rewrite (fits_testbit 3) by (lia || apply mode_bits_range).
    rewrite Z.lor_spec, Z.lxor_spec, !(fits_testbit 3)
      by (lia || apply mode_bits_range || (unfold fits; lia)). done.
Qed.

(** ** The device: IO APICs *)

Class IoApicDevices (D : Type) : Type := {
  (** The base addresses of the IO APICs. *)
  is_ioapic : Z → Prop;
  (** The index register and the registers behind it. *)
  io_index : Z → D → Z;
  io_reg : Z → Z → D → Z;
  (** What a register holds after a write. *)
  io_merge : Z → Z → Z → Z;
}.

Class IoApicLaws (D : Type) `{Bus D, IoApicDevices D} : Prop := {
  ioapic_range b : is_ioapic b → 0 ≤ b ∧ b + 0x20 < 2 ^ 64;
  io_reg_fits b r h : fits 32 (io_reg b r h);
  io_merge_fits r old v : fits 32 old → fits 32 v → fits 32 (io_merge r old v);
  io_select b r h : is_ioapic b → io_index b (mem_out 32 b r h) = r;
  io_select_reg b b' r r' h : is_ioapic b → io_reg b' r' (mem_out 32 b r h) = io_reg b' r' h;
  io_read b h : is_ioapic b → (mem_in 32 (b + 0x10) h).1 = io_reg b (io_index b h) h;
  io_read_reg b b' r h : is_ioapic b → io_reg b' r (mem_in 32 (b + 0x10) h).2 = io_reg b' r h;
  io_write b b' r v h : is_ioapic b → fits 32 v →
    io_reg b' r (mem_out 32 (b + 0x10) v h) =
      if decide (b' = b ∧ r = io_index b h) then io_merge r (io_reg b r h) v else io_reg b' r h;
  (** In a redirection entry, the delivery status (bit 12), the remote IRR (bit
      14) and the reserved bits need not take the written value; the fields do. *)
  io_merge_low r old v i : 0x10 ≤ r → r mod 2 = 0 → (0 ≤ i ≤ 11 ∨ i = 13 ∨ i = 15 ∨ i = 16) →
    Z.testbit (io_merge r old v) i = Z.testbit v i;
  io_merge_high r old v i : 0x10 ≤ r → r mod 2 = 1 → 24 ≤ i < 32 →
    Z.testbit (io_merge r old v) i = Z.testbit v i;
}.

(** Entry [idx] of the table of the IO APIC at [b]. *)
Definition io_entry {D} `{IoApicDevices D} (b idx : Z) (h : D) : Z :=
  Z.lor (Z.shiftl (io_reg b (0x11 + idx * 2) h) 32) (io_reg b (0x10 + idx * 2) h).

(** The field "maximum redirection entry" of the version register: the number of
    entries minus one. *)
Definition max_entry {D} `{IoApicDevices D} (b : Z) (h : D) : Z :=
  io_reg b 1 h / 2 ^ 16 mod 256.

Definition same_registers {D} `{IoApicDevices D} (h h' : D) : Prop :=
  ∀ b r, io_reg b r h' = io_reg b r h.

#[export] Instance same_registers_equiv {D} `{IoApicDevices D} : Equivalence same_registers.
Proof.
  split; [done| |].
  - intros h h' E b r. by rewrite E.
  - intros h h' h'' E1 E2 b r. by rewrite E2.
Qed.

(** The bits of the fields of an entry. *)
Definition field_bit (i : Z) : Prop :=
  0 ≤ i ≤ 11 ∨ i = 13 ∨ i = 15 ∨ i = 16 ∨ 56 ≤ i < 64.

Definition same_fields (e e' : Z) : Prop := ∀ i, field_bit i → Z.testbit e i = Z.testbit e' i.

Section ioapic_facts.
Context {D : Type} `{IoApicLaws D}.
Implicit Types (h : D) (io : IOApic).

Lemma same_registers_entry h h' b idx : same_registers h h' → io_entry b idx h' = io_entry b idx h.
Proof. intros E. unfold io_entry. by rewrite !E. Qed.

Lemma wp_read_reg io r h : is_ioapic (base_address io) → fits 8 r →
  wp (read_reg io r) (λ v h', v = io_reg (base_address io) r h ∧ same_registers h h') h.
Proof.
  intros Hio [? ?]. pose proof (ioapic_range _ Hio). unfold read_reg. apply wp_bind.
  eapply wp_lift; [apply checked_ok; unfold fits; lia|]. wp_bus.
  rewrite cast_id by (unfold fits; lia). split.
  - by rewrite io_read, io_select, io_select_reg.
  - intros b' r'. by rewrite io_read_reg, io_select_reg.
Qed.

(** The registers after [v] was written to register [r] of the IO APIC at [b]. *)
Definition reg_written (b r v : Z) h (h' : D) : Prop :=
  ∀ b' r', io_reg b' r' h' =
    if decide (b' = b ∧ r' = r) then io_merge r' (io_reg b r' h) v else io_reg b' r' h.

Lemma wp_write_reg io r v h : is_ioapic (base_address io) → fits 8 r → fits 32 v →
  wp (write_reg io r v) (λ _ h', reg_written (base_address io) r v h h') h.
Proof.
  intros Hio [? ?] Hv. pose proof (ioapic_range _ Hio). unfold write_reg. apply wp_bind.
  eapply wp_lift; [apply checked_ok; unfold fits; lia|]. wp_bus.
  rewrite cast_id by (unfold fits; lia). intros b' r'.
  by rewrite io_write, io_select, !io_select_reg.
Qed.

Lemma wp_redir_entry_count io h : is_ioapic (base_address io) →
  wp (redir_entry_count io)
    (λ n h', n = max_entry (base_address io) h ∧ same_registers h h') h.
Proof.
  intros Hio. unfold redir_entry_count. apply wp_bind.
  eapply wp_mono; [by apply wp_read_reg|]. intros r h' [-> Hs]. apply wp_ret. split; [|done].
  unfold max_entry. change 0xFF with (Z.ones 8). rewrite Z.land_ones by lia.
  rewrite Z.shiftr_div_pow2 by lia. unfold cast. by rewrite Zmod_mod.
Qed.


Lemma entry_reg_ok first idx : 0 ≤ first → 0 ≤ idx → first + idx * 2 < 256 →
  entry_reg first idx = Ret (first + idx * 2).
Proof.
  intros. unfold entry_reg, mul_w, add_w. rewrite checked_ok by (unfold fits; lia). simpl.
  by rewrite checked_ok by (unfold fits; lia).
Qed.

Lemma entry_reg_overflow first idx : 0 ≤ first → 0 ≤ idx → 256 ≤ first + idx * 2 →
  entry_reg first idx = Panic ArithOverflow.
Proof.
  intros. unfold entry_reg, mul_w, add_w. destruct (decide (idx * 2 < 256)).
  - rewrite checked_ok by (unfold fits; lia). simpl.
    by rewrite checked_overflow by (unfold fits; lia).
  - by rewrite checked_overflow by (unfold fits; lia).
Qed.

Lemma wp_redir_entry io idx h : is_ioapic (base_address io) →
  0 ≤ idx < max_entry (base_address io) h → idx < 120 →
  wp (redir_entry io idx)
    (λ e h', e = io_entry (base_address io) idx h ∧ same_registers h h') h.
Proof.
  intros Hio Hidx Hb. unfold redir_entry. apply wp_bind.
  eapply wp_mono; [by apply wp_redir_entry_count|]. intros n h0 [-> Hs0].
  rewrite bool_decide_false by lia. apply wp_bind.
  eapply wp_lift; [by apply entry_reg_ok; lia|]. apply wp_bind.
  eapply wp_mono; [apply wp_read_reg; [done|unfold fits; lia]|]. intros low h1 [-> Hs1].
  apply wp_bind. eapply wp_lift; [by apply entry_reg_ok; lia|]. apply wp_bind.
  eapply wp_mono; [apply wp_read_reg; [done|unfold fits; lia]|]. intros high h2 [-> Hs2].
  apply wp_ret. split; [|by do 2 (etrans; [|done])].
  unfold io_entry. rewrite Hs1, !Hs0.
  pose proof (io_reg_fits (base_address io) (0x11 + idx * 2) h) as [? ?].
  pose proof (io_reg_fits (base_address io) (0x10 + idx * 2) h) as [? ?].
  rewrite !(cast_id 64 (io_reg _ _ _)) by (unfold fits; lia).
  rewrite cast_id; [done|]. apply fits_shiftl; [lia|unfold fits; lia|lia].
Qed.

Lemma testbit_io_entry b idx h i : 0 ≤ i →
  Z.testbit (io_entry b idx h) i =
    if decide (i < 32) then Z.testbit (io_reg b (0x10 + idx * 2) h) i
    else Z.testbit (io_reg b (0x11 + idx * 2) h) (i - 32).
Proof.
  intros Hi. unfold io_entry. rewrite Z.lor_spec, Z.shiftl_spec by done. case_decide.
  - by rewrite (Z.testbit_neg_r _ (i - 32)) by lia.
  - rewrite (fits_testbit 32 (io_reg b (0x10 + idx * 2) h)); [by rewrite orb_false_r|lia|
      apply io_reg_fits|lia].
Qed.

(** The effect of writing entry [idx] of the IO APIC at [b]. *)
Record entry_written (b idx e : Z) h (h' : D) : Prop := {
  ew_fields : same_fields (io_entry b idx h') e;
  ew_others b' idx' : 0 ≤ idx' → (b', idx') ≠ (b, idx) → io_entry b' idx' h' = io_entry b' idx' h;
  ew_max b' : max_entry b' h' = max_entry b' h;
}.

Lemma wp_set_redir_entry io idx e h : is_ioapic (base_address io) → 0 ≤ idx < 120 → fits 64 e →
  wp (set_redir_entry io idx e) (λ _ h', entry_written (base_address io) idx e h h') h.
Proof.
  intros Hio Hidx He. unfold set_redir_entry. apply wp_bind.
  eapply wp_lift; [by apply entry_reg_ok; lia|]. apply wp_bind.
  eapply wp_mono; [apply wp_write_reg; [done|unfold fits; lia|by apply cast_fits]|].
  intros [] h1 Hw1. apply wp_bind. eapply wp_lift; [by apply entry_reg_ok; lia|].
  eapply wp_mono; [apply wp_write_reg; [done|unfold fits; lia|by apply cast_fits]|].
  intros [] h2 Hw2. set (b := base_address io) in *. split.
  - intros i Hi. assert (0 ≤ i) as Hi0 by (unfold field_bit in Hi; lia).
    rewrite testbit_io_entry by done. rewrite !Hw2, !Hw1.
    rewrite !(decide_False (P := b = b ∧ 16 + idx * 2 = 17 + idx * 2)) by lia.
    rewrite !(decide_True (P := b = b ∧ 17 + idx * 2 = 17 + idx * 2)) by done.
    rewrite !(decide_True (P := b = b ∧ 16 + idx * 2 = 16 + idx * 2)) by done.
    case_decide.
    + rewrite io_merge_low by (unfold field_bit in Hi; lia). unfold cast.
      by rewrite Z.mod_pow2_bits_low by lia.
    + rewrite io_merge_high by (unfold field_bit in Hi; lia). unfold cast.
      rewrite Z.mod_pow2_bits_low, Z.shiftr_spec by (unfold field_bit in Hi; lia). f_equal. lia.
  - intros b' idx' Hpos Hne. unfold io_entry. rewrite !Hw2, !Hw1.
    destruct (decide (b' = b)) as [->|Hb].
    + assert (idx' ≠ idx) by congruence. by rewrite !decide_False by lia.
    + by rewrite !decide_False by (by intros [? _]).
  - intros b'. unfold max_entry. by rewrite Hw2, decide_False, Hw1, decide_False by lia.
Qed.
End ioapic_facts.

(** ** Choosing the IO APIC *)

(** The running choice: the IO APIC at [idx] has base [base], which is at most
    [vector] and the greatest of those seen so far that are. *)
Lemma search_ioapic_best vector l : ∀ all pre idx base,
  all = pre ++ l → 0 ≤ idx →
  (∃ a, all !! Z.to_nat idx = Some a ∧ base_interrupt a = base) → base ≤ vector →
  (∀ a, a ∈ pre → base_interrupt a ≤ vector → base_interrupt a ≤ base) →
  let r := search_ioapic vector (idx, base) (Z.of_nat (length pre)) l in
  0 ≤ r.1 ∧ r.2 ≤ vector ∧ (∃ a, all !! Z.to_nat r.1 = Some a ∧ base_interrupt a = r.2) ∧
  ∀ a, a ∈ all → base_interrupt a ≤ vector → base_interrupt a ≤ r.2.
Proof.
  induction l as [|io l IH]; intros all pre idx base El Hidx Hat Hle Hbest; simpl.
  { rewrite app_nil_r in El. subst. done. }
  assert (all = (pre ++ [io]) ++ l) as El' by (by rewrite <-app_assoc).
  replace (Z.of_nat (length pre) + 1) with (Z.of_nat (length (pre ++ [io])))
    by (rewrite length_app; simpl; lia).
  case_bool_decide as Hv; [|case_bool_decide as Hb].
  - apply IH; [done..|]. intros a [Ha| ->%list_elem_of_singleton]%elem_of_app; [by apply Hbest|lia].
  - apply IH; [done|lia| |lia|].
    + exists io. split; [|done]. rewrite El, Nat2Z.id, lookup_app_r, Nat.sub_diag by done. done.
    + intros a [Ha| ->%list_elem_of_singleton]%elem_of_app ?; [|lia].
      specialize (Hbest a Ha). lia.
  - apply IH; [done..|]. intros a [Ha| ->%list_elem_of_singleton]%elem_of_app; [by apply Hbest|lia].
Qed.

(** ** Properties of entries and IO APICs *)

(** C24. The setters of a redirection entry: setting a flag to true sets it, setting
    it to false inverts it, so an entry that is already unmasked becomes masked;
    the other bits of the entry stay.  [set_vector] only adds bits to the vector,
    and [set_delivery_mode] adds the new mode to the complement of the old one. *)
Theorem redir_entry_setters e v :
  u8 v →
  (∀ k get set, (k, get, set) ∈ [(11, logical_mode, set_logical_mode);
      (13, low_is_active, set_low_is_active); (15, level_sensitive, set_level_sensitive);
      (16, masked, set_masked)] →
    ∀ m, get (set m e) = m || negb (get e) ∧
      ∀ i, 0 ≤ i → i ≠ k → Z.testbit (set m e) i = Z.testbit e i) ∧
  vector (set_vector v e) = Z.lor (vector e) v ∧
  (∀ m e', set_delivery_mode m e = Ret e' →
    ∃ bits, delivery_mode (Z.shiftl bits 8) = m ∧
      mode_bits e' = Z.lor (7 - mode_bits e) bits).
Proof.
  intros Hv. split_and!; [|by apply vector_set_vector|].
  - intros k get set Hin m.
    assert (0 ≤ k ∧ (∀ x, get x = Z.testbit x k) ∧ set = set_entry_bit k) as (Hk & Hg & ->).
    { repeat (apply elem_of_cons in Hin as [[= -> -> ->]|Hin]);
        [split_and!; [lia| |done]..|by apply not_elem_of_nil in Hin];
        intros x; by apply entry_bit_set. }
    rewrite !Hg. split.
    + by rewrite testbit_set_entry_bit, bool_decide_true.
    + intros i Hi Hne. by rewrite testbit_set_entry_bit, bool_decide_false.
  - intros m e' Hm. unfold set_delivery_mode in Hm. apply bind_outcome_Ret in Hm as (bits & Hb & [= <-]).
    exists bits. split; [by destruct m; simplify_eq Hb; intros <-|].
    apply mode_bits_set. destruct m; simplify_eq Hb; intros <-; lia.
Qed.

(** C23. The IO APIC that handles an interrupt: when the first IO APIC's base is at
    most the interrupt, the chosen one has the greatest base that is.  When the
    first IO APIC has the greatest base of all, it is chosen for every interrupt,
    also for those below its base that another IO APIC handles. *)
Theorem get_interrupt_ioapic_spec self first rest v :
  io_apics self = first :: rest →
  (base_interrupt first ≤ v → ∃ idx io, get_interrupt_ioapic self v = Ret idx ∧
     index (io_apics self) idx = Ret io ∧ base_interrupt io ≤ v ∧
     ∀ a, a ∈ io_apics self → base_interrupt a ≤ v → base_interrupt a ≤ base_interrupt io) ∧
  (Forall (λ a, base_interrupt a ≤ base_interrupt first) rest →
     get_interrupt_ioapic self v = Ret 0).
Proof.
  intros E. unfold get_interrupt_ioapic. rewrite (index_ok _ 0 first) by (by rewrite E).
  split.
  - intros Hle.
    destruct (search_ioapic_best v (io_apics self) (io_apics self) [] 0 (base_interrupt first))
      as (H1 & H2 & (io & H3 & H4) & H5); [done|done|exists first; by rewrite E|done|
        by intros ? ?%not_elem_of_nil|].
    eexists _, io. split; [done|]. split; [by apply index_ok|]. rewrite H4. by split.
  - intros HF. simpl. f_equal. rewrite E. simpl.
    assert (∀ l i, Forall (λ a, base_interrupt a ≤ base_interrupt first) l →
      search_ioapic v (0, base_interrupt first) i l = (0, base_interrupt first)) as Hs.
    { intros l. induction l as [|a l IH]; intros i HF'; simpl; [done|].
      apply Forall_cons in HF' as [Ha Hl].
      rewrite (bool_decide_false (base_interrupt first < _)) by lia.
      by case_bool_decide; apply IH. }
    rewrite (bool_decide_false (base_interrupt first < _)) by lia.
    by case_bool_decide; rewrite Hs.
Qed.

Section ioapic_properties.
Context {D : Type} `{IoApicLaws D}.
Implicit Types (h : D) (io : IOApic).

(** C22. The redirection table: an entry that was written reads back with the same
    fields and the other entries are unchanged; the last entry of the table, whose
    index is the "maximum redirection entry" of the version register, cannot be
    read; an index above 119 makes the register number overflow. *)
Theorem redirection_table io idx e h :
  is_ioapic (base_address io) → 0 ≤ idx → fits 64 e →
  let last := max_entry (base_address io) h in
  (idx < last → idx < 120 →
     wp (set_redir_entry io idx e ≫= λ _, redir_entry io idx) (λ e' h', same_fields e' e ∧
       ∀ b' idx', 0 ≤ idx' → (b', idx') ≠ (base_address io, idx) →
         io_entry b' idx' h' = io_entry b' idx' h) h) ∧
  (idx = last → redir_entry io idx h = Panic (Explicit "Out of bounds")) ∧
  (120 ≤ idx → set_redir_entry io idx e h = Panic ArithOverflow).
Proof.
  intros Hio Hidx He last. subst last. split_and!.
  - intros Hlt Hb. apply wp_bind. eapply wp_mono; [apply wp_set_redir_entry; [done|lia|done]|].
    intros [] h1 [Hf Ho Hm]. eapply wp_mono; [apply wp_redir_entry; [done| |done]|].
    + by rewrite Hm.
    + intros e' h2 [-> Hs]. split; [done|]. intros b' idx' Hp Hne.
      rewrite (same_registers_entry h1 h2) by done. by apply Ho.
  - intros ->. pose proof (wp_redir_entry_count io h Hio) as Hw.
    apply wp_elim in Hw as (n & h' & Hr & -> & _). unfold redir_entry.
    erewrite run_bind by done. by rewrite bool_decide_true.
  - intros Hb. unfold set_redir_entry. apply run_bind_panic.
    by rewrite entry_reg_overflow by lia.
Qed.
End ioapic_properties.

(** ** Routing interrupts *)

Lemma same_fields_vector e e' : same_fields e e' → vector e = vector e'.
Proof.
  intros Hs. apply Z.bits_inj'. intros i Hi. destruct (Z.lt_ge_cases i 8).
  - rewrite !testbit_low_byte by lia. apply Hs. left. lia.
  - by rewrite !(fits_testbit 8) by (lia || by apply cast_fits).
Qed.

Lemma same_fields_masked e e' : same_fields e e' → masked e = masked e'.
Proof.
  intros Hs. unfold masked. rewrite !entry_bit_set by lia. apply Hs. unfold field_bit. lia.
Qed.

Lemma set_vector_fits v e : fits 64 e → fits 64 (set_vector v e).
Proof. intros. apply fits_lor; [lia|done|by apply cast_fits]. Qed.

Lemma set_masked_fits m e : fits 64 e → fits 64 (set_masked m e).
Proof.
  intros. apply fits_lor; [lia| |by destruct m]. apply fits_lxor; [lia|done|by split].
Qed.

(** A masked entry with an empty vector field becomes an open one. *)
Lemma routed_entry v e : u8 v → vector e = 0 → masked e = true →
  vector (set_masked false (set_vector v e)) = v ∧
  masked (set_masked false (set_vector v e)) = false.
Proof.
  intros Hv Hz Hm. assert (Z.testbit (as_u64 v) 16 = false) as Hv16.
  { rewrite cast_id by (destruct Hv; unfold fits; lia). by apply (fits_testbit 8). }
  assert (masked (set_vector v e) = true) as Hm'.
  { unfold masked, set_vector in *. rewrite entry_bit_set in * by lia.
    by rewrite Z.lor_spec, Hm. }
  split.
  - transitivity (vector (set_vector v e)).
    + apply Z.bits_inj'. intros i Hi. destruct (Z.lt_ge_cases i 8).
      * rewrite !testbit_low_byte by lia. unfold set_masked.
        rewrite testbit_set_entry_bit by lia. by rewrite bool_decide_false by lia.
      * by rewrite !(fits_testbit 8) by (lia || by apply cast_fits).
    + rewrite vector_set_vector by done. by rewrite Hz, Z.lor_0_l.
  - unfold masked, set_masked in *. rewrite entry_bit_set in * by lia.
    rewrite testbit_set_entry_bit by lia. by rewrite bool_decide_true, Hm'.
Qed.

(** The devices together: the IO APICs do not see the ports nor the local APIC. *)
Class MachineLaws (D : Type) `{Bus D, Controllers D, IoApicDevices D} : Prop := {
  machine_lapic : 0 ≤ lapic_base ∧ lapic_base + 0x1000 < 2 ^ 64;
  io_port_out b r p v h : io_reg b r (port_out 8 p v h) = io_reg b r h;
  io_lapic_in b r h : io_reg b r (mem_in 32 (lapic_base + 0xF0) h).2 = io_reg b r h;
  io_lapic_out b r v h : io_reg b r (mem_out 32 (lapic_base + 0xF0) v h) = io_reg b r h;
}.

Section apic_facts.
Context {D : Type} `{Bus D, Controllers D, IoApicDevices D} `{!IoApicLaws D} `{!MachineLaws D}.
Implicit Types (h : D) (this : ApicDriver).

(** The IO APIC and the entry that [get_entry] and [set_entry] use for [irq]. *)
Definition routes_to this (irq : Z) (io : IOApic) : Prop :=
  ∃ idx, get_interrupt_ioapic this (get_interrupt_source this irq) = Ret idx ∧
    index (io_apics this) idx = Ret io.

Lemma io_entry_fits b idx h : fits 64 (io_entry b idx h).
Proof.
  pose proof (io_reg_fits b (0x11 + idx * 2) h) as [? ?].
  pose proof (io_reg_fits b (0x10 + idx * 2) h) as [? ?]. apply fits_lor; [lia| |].
  - apply fits_shiftl; [lia|by split|lia].
  - unfold fits. lia.
Qed.

Lemma wp_route this irq v io h : routes_to this irq io → is_ioapic (base_address io) →
  let n := get_interrupt_source this irq in
  0 ≤ n < max_entry (base_address io) h → n < 120 →
  wp (route this irq v) (λ _ h', entry_written (base_address io) n
    (set_masked false (set_vector v (io_entry (base_address io) n h))) h h') h.
Proof.
  intros (idx & Hidx & Hio) Hb n Hn Hlt. unfold route, get_entry, set_entry. fold n. fold n in Hidx.
  apply wp_bind, wp_bind. eapply wp_lift; [done|]. apply wp_bind. eapply wp_lift; [done|].
  eapply wp_mono; [by apply wp_redir_entry|]. intros e h1 [-> Hs].
  apply wp_bind. eapply wp_lift; [done|]. apply wp_bind. eapply wp_lift; [done|].
  eapply wp_mono; [apply wp_set_redir_entry; [done|lia|apply set_masked_fits, set_vector_fits, io_entry_fits]|].
  intros [] h2 [Hf Ho Hm]. split; [done| |].
  - intros b' idx' Hp Hne. rewrite Ho by done. by apply same_registers_entry.
  - intros b'. rewrite Hm. unfold max_entry. by rewrite Hs.
Qed.

Lemma handover_keeps_entries c h :
  wp (apic_handover lapic_base) (λ _ st', st'.1 = Apic lapic_base ∧ same_registers h st'.2) (c, h).
Proof.
  unfold apic_handover. apply wp_bind, wp_get, wp_bind, wp_put, wp_on_snd. simpl.
  pose proof machine_lapic. unfold controller_init, read_apic_reg, write_apic_reg.
  apply wp_bind, wp_bind. eapply wp_lift; [apply checked_ok; unfold fits; lia|].
  apply wp_read_volatile, wp_bind, wp_bind.
  eapply wp_lift; [apply checked_ok; unfold fits; lia|]. wp_bus.
  split; [done|]. intros b r. by rewrite !io_port_out, io_lapic_out, io_lapic_in.
Qed.

Context `{BootInfo} `{Addresses} {T : Type} `{Mapper T}.

(** C21. [apic_init] returns when the local APIC's and the IO APICs' frames can be
    mapped: it leaves the local APIC as the controller, collects the IO APICs of
    the platform, and, when the entries of the timer and the keyboard (after
    source overrides) are in their reset state, routes them to the vectors 32 and
    33, unmasked.  The table index used is the interrupt number itself. *)
Theorem apic_init_routes invoke_pic info (st0 : ApicState D T) p p1 p2 c h ios io0 io1 :
  invoke_pic st0 = Ret (tt, (p, (c, h))) →
  local_apic_address info = lapic_base →
  map_device lapic_base p = Ret (tt, p1) →
  collect_ioapics (info_io_apics info) [] p1 = Ret (ios, p2) →
  let this := mkApic info ios in
  let '(n0, n1) := (get_interrupt_source this 0, get_interrupt_source this 1) in
  let '(b0, b1) := (base_address io0, base_address io1) in
  routes_to this 0 io0 → routes_to this 1 io1 → is_ioapic b0 → is_ioapic b1 →
  0 ≤ n0 < max_entry b0 h ∧ n0 < 120 → 0 ≤ n1 < max_entry b1 h ∧ n1 < 120 →
  (b0, n0) ≠ (b1, n1) →
  (vector (io_entry b0 n0 h) = 0 ∧ masked (io_entry b0 n0 h) = true) →
  (vector (io_entry b1 n1 h) = 0 ∧ masked (io_entry b1 n1 h) = true) →
  wp (apic_init invoke_pic info) (λ this' st', this' = this ∧ st'.1 = p2 ∧
    st'.2.1 = Apic lapic_base ∧
    (vector (io_entry b0 n0 st'.2.2) = 32 ∧ masked (io_entry b0 n0 st'.2.2) = false) ∧
    (vector (io_entry b1 n1 st'.2.2) = 33 ∧ masked (io_entry b1 n1 st'.2.2) = false)) st0.
Proof.
  intros Hpic Hla Hmap Hcol this Hr0 Hr1 Hb0 Hb1 [Hn0 Hs0] [Hn1 Hs1] Hne [Hv0 Hm0] [Hv1 Hm1].
  unfold apic_init. apply wp_bind. eapply wp_intro; [done|]. apply wp_bind.
  unfold lapic_handover. rewrite Hla. apply wp_bind, wp_on_fst. eapply wp_intro; [done|].
  apply wp_on_snd. eapply wp_mono; [apply handover_keeps_entries|].
  intros [] [c1 h1] [Hc1 Hsame]. simpl in Hc1, Hsame. subst c1.
  apply wp_bind, wp_on_fst. eapply wp_intro; [done|]. fold this.
  assert (∀ b, max_entry b h1 = max_entry b h) as Emax by (intros; unfold max_entry; by rewrite Hsame).
  apply wp_bind, wp_on_snd, wp_on_snd.
  eapply wp_mono; [apply (wp_route _ _ _ _ _ Hr0 Hb0); [by rewrite Emax|done]|].
  intros [] h2 [Hf2 Ho2 Hmx2]. apply wp_bind, wp_on_snd, wp_on_snd.
  eapply wp_mono; [apply (wp_route _ _ _ _ _ Hr1 Hb1); [by rewrite Hmx2, Emax|done]|].
  intros [] h3 [Hf3 Ho3 _]. apply wp_ret. split_and!; try done; simpl.
  - rewrite (same_registers_entry h h1) in Hf2 by done. rewrite Ho3 by (lia || done).
    rewrite (same_fields_vector _ _ Hf2). by apply routed_entry.
  - rewrite (same_registers_entry h h1) in Hf2 by done. rewrite Ho3 by (lia || done).
    rewrite (same_fields_masked _ _ Hf2). by apply routed_entry.
  - rewrite Ho2, (same_registers_entry h h1) in Hf3 by (done || lia || by apply not_eq_sym).
    rewrite (same_fields_vector _ _ Hf3). by apply routed_entry.
  - rewrite Ho2, (same_registers_entry h h1) in Hf3 by (done || lia || by apply not_eq_sym).
    rewrite (same_fields_masked _ _ Hf3). by apply routed_entry.
Qed.
End apic_facts.

(** ** Witnesses *)

Module ApicWitness.
Import Reference InitWitness.

(** A board with a local APIC at 0x4000 and an IO APIC of 24 entries at 0x5000,
    its index register and the registers written so far. *)
Record board : Type := mkBoard {
  b_index : Z;
  b_regs : gmap Z Z;
}.

(** Entries start masked; the version register holds the index of the last one. *)
Definition reset_value (r : Z) : Z :=
  if bool_decide (r = 1) then 0x170011
  else if bool_decide (0x10 ≤ r ∧ r mod 2 = 0) then 0x10000 else 0.

Definition board_reg (h : board) (r : Z) : Z := as_u32 (default (reset_value r) (b_regs h !! r)).

#[export] Instance board_Bus : Bus board := {|
  port_in _ _ h := (0, h);
  port_out _ _ _ h := h;
  mem_in _ a h := (if bool_decide (a = 0x5010) then board_reg h (b_index h) else 0, h);
  mem_out _ a v h :=
    if bool_decide (a = 0x5000) then mkBoard v (b_regs h)
    else if bool_decide (a = 0x5010) then mkBoard (b_index h) (<[b_index h := v]> (b_regs h)) else h;
  halt h := h;
|}.

#[export] Instance board_Controllers : Controllers board := {|
  pic _ _ := mkPic 0xFF 0 0 0 0 Ready;
  lapic_base := 0x4000;
  lapic _ := mkLapic 0 [];
|}.

#[export] Instance board_IoApic : IoApicDevices board := {|
  is_ioapic b := b = 0x5000;
  io_index _ h := b_index h;
  io_reg b r h := if bool_decide (b = 0x5000) then board_reg h r else 0;
  io_merge _ _ v := v;
|}.

#[export] Instance board_IoApicLaws : IoApicLaws board.
Proof.
  split; try done.
  - intros b Hb. simpl in Hb. subst b. simpl. lia.
  - intros b r h. simpl. case_bool_decide; [by apply cast_fits|by split].
  - intros b r h Hb. simpl in Hb. by subst b.
  - intros b b' r r' h Hb. simpl in Hb. by subst b.
  - intros b h Hb. simpl in Hb. by subst b.
  - intros b b' r v h Hb Hv. simpl in Hb. subst b. simpl. unfold board_reg. simpl.
    destruct (decide (b' = 0x5000)) as [->|Hne].
    + rewrite !bool_decide_true by done. destruct (decide (r = b_index h)) as [->|Hr].
      * rewrite decide_True by done. rewrite lookup_insert_eq. by apply cast_id.
      * rewrite decide_False by (by intros [_ ?]). by rewrite lookup_insert_ne by done.
    + rewrite !(bool_decide_false (b' = _)) by done. by rewrite decide_False by (by intros [? _]).
Qed.

#[export] Instance board_MachineLaws : MachineLaws board.
Proof. by split. Qed.

(** The two APICs lie in reserved regions of their own. *)
Definition board_map : list MemoryRegion :=
  [mkRegion (mkRange 1 4) Usable; mkRegion (mkRange 4 5) Reserved; mkRegion (mkRange 5 6) Reserved].
Definition board_paging : PagingState tables := Some (empty_tables, mkAllocator board_map 0 [0]).

Definition fresh : board := mkBoard 0 ∅.
Definition board_ioapic : IOApic := mkIOApic 0x5000 0.

(** The timer is overridden to interrupt 2. *)
Definition board_info : ApicInfo :=
  mkApicInfo 0x4000 [mkIoApicInfo 0x5000 0] [mkOverride 0 2].

Lemma redir_entry_setters_witness : masked (set_masked false (RedirEntry_new 32)) = true.
Proof.
  destruct (redir_entry_setters (RedirEntry_new 32) 0 ltac:(by split)) as (Hf & _ & _).
  destruct (Hf 16 masked set_masked ltac:(by repeat constructor) false) as [Hm _]. exact Hm.
Defined.

(** Two IO APICs listed with the higher base first: interrupt 1 goes to the wrong
    one. *)
Lemma get_interrupt_ioapic_witness :
  get_interrupt_ioapic (mkApic board_info [mkIOApic 0x6000 24; board_ioapic]) 1 = Ret 0.
Proof.
  apply (get_interrupt_ioapic_spec (mkApic board_info [mkIOApic 0x6000 24; board_ioapic])
    (mkIOApic 0x6000 24) [board_ioapic] 1 eq_refl).
  repeat constructor. simpl. lia.
Defined.

Lemma board_has_ioapic : is_ioapic (D := board) (base_address board_ioapic).
Proof. done. Qed.

Lemma redirection_table_witness :
  ∃ e' h', (set_redir_entry board_ioapic 3 0x10025 ≫= λ _, redir_entry board_ioapic 3) fresh =
      Ret (e', h') ∧ same_fields e' 0x10025 ∧
    redir_entry board_ioapic 23 fresh = Panic (Explicit "Out of bounds").
Proof.
  destruct (redirection_table board_ioapic 3 0x10025 fresh board_has_ioapic ltac:(lia) ltac:(by split))
    as (H1 & _ & _).
  destruct (redirection_table board_ioapic 23 0 fresh board_has_ioapic ltac:(lia) ltac:(by split))
    as (_ & H2 & _).
  destruct (wp_elim _ _ _ (H1 eq_refl eq_refl)) as (e' & h' & Hr & Hs & _).
  exists e', h'. exact (conj Hr (conj Hs (H2 eq_refl))).
Defined.

(** A platform without the [\_PIC] method. *)
Definition no_pic : M (ApicState board tables) unit := mret tt.

Lemma apic_init_routes_witness :
  ∃ this st', apic_init no_pic board_info (board_paging, (PICS, fresh)) = Ret (this, st') ∧
    vector (io_entry 0x5000 2 st'.2.2) = 32 ∧ masked (io_entry 0x5000 2 st'.2.2) = false.
Proof.
  destruct (map_device 0x4000 board_paging) as [[[] p1]|] eqn:E1; [|by vm_compute in E1].
  destruct (collect_ioapics (info_io_apics board_info) [] p1) as [[ios p2]|] eqn:E2;
    [|vm_compute in E1; injection E1 as <-; by vm_compute in E2].
  assert (ios = [board_ioapic]) as ->.
  { vm_compute in E1. injection E1 as <-. vm_compute in E2. by injection E2 as <-. }
  pose proof (apic_init_routes no_pic board_info (board_paging, (PICS, fresh))
    board_paging p1 p2 PICS fresh [board_ioapic] board_ioapic board_ioapic eq_refl) as Hw.
  specialize (Hw eq_refl E1 E2 (ex_intro _ 0 (conj eq_refl eq_refl))
    (ex_intro _ 0 (conj eq_refl eq_refl)) board_has_ioapic board_has_ioapic).
  destruct (wp_elim _ _ _ (Hw ltac:(by split_and!) ltac:(by split_and!) ltac:(discriminate)
    (conj eq_refl eq_refl) (conj eq_refl eq_refl))) as (this & st' & Hr & _ & _ & _ & Ht & _).
  exists this, st'. exact (conj Hr Ht).
Defined.
End ApicWitness.
