(* ===== verification/Heap.v ===== *)
(** * The kernel heap (src/allocator.rs)

    [init_heap] maps the pages of the heap to fresh frames and hands the region
    to the buddy allocator of the [buddy_system_allocator] crate, whose state is
    a parameter here. *)

From S2P Require Import Prelude Platform FrameAllocator FrameInit Memory.
Local Open Scope Z_scope.

(** ** The code *)

Definition HEAP_START : Z := 0x444444440000.
Definition HEAP_SIZE : Z := 500 * 1024.

Class BuddyHeap (B : Type) : Type := {
  buddy_init (start size : Z) : B → B;
}.

Section code.
Context `{BootInfo} `{Addresses} {T : Type} `{Mapper T} {B : Type} `{BuddyHeap B}.

(** The paging context, [ALLOCATOR], and the flag [INITIALIZED]. *)
Definition HeapState : Type := PagingState T * (B * bool).

Definition heap_page_range : outcome (list Z) :=
  heap_start ← VirtAddr_new HEAP_START;
  past ← VirtAddr_add heap_start HEAP_SIZE;
  heap_end ← VirtAddr_sub past 1;
  let heap_start_page := page_containing_address heap_start in
  let heap_end_page := page_containing_address heap_end in
  Ret (page_range_inclusive heap_start_page heap_end_page).

Definition heap_flags : PageTableFlags := mkFlags true true false false.

Definition init_heap : M HeapState (Result unit MapToError) :=
  page_range ← lift heap_page_range;
  r ← on_fst (map_range page_range heap_flags);
  match r with
  | Err e => mret (Err e)
  | Ok _ =>
      st ← get;
      put (st.1, (buddy_init HEAP_START HEAP_SIZE st.2.1, true)) ≫= λ _,
      mret (Ok tt)
  end.

(** [alloc_error_handler] never returns. *)
Definition alloc_error_handler (INITIALIZED : bool) : panic :=
  if INITIALIZED then Explicit "Allocation error" else Explicit "Allocator not initialized".
End code.
Arguments HeapState : clear implicits.

(** ** Mapping the heap *)

Section heap_facts.
Context `{BootInfo} `{!BootInfoLaws} `{Addresses} `{!AddressesLaws}.
Context {T : Type} `{Mapper T} `{!MapperLaws T}.
Implicit Types (a : GlobalFrameAllocator) (c : PagingContext T).

(** With four frames available per page, all the pages are mapped. *)
Lemma map_pages_total ps flags : ∀ c, roomy (4 * length ps) c.2 → NoDup ps →
  (∀ p, p ∈ ps → pages c.1 !! p = None ∧ huge c.1 p = false) →
  wp (map_pages ps flags) (λ r _, r = Ok tt) c.
Proof.
  induction ps as [|p ps IH]; intros [t a] Hroom Hnd Hfree; simpl; [by apply wp_ret|].
  apply NoDup_cons in Hnd as [Hp Hnd]. destruct (Hfree p) as [Hp1 Hp2]; [by left|].
  assert (roomy (S (3 + 4 * length ps)) a) as Hroom0.
  { destruct Hroom as [? Hl]. split; [done|]. simpl length in Hl. simpl in Hl. lia. }
  wp_step. apply wp_on_snd. eapply wp_mono; [by apply roomy_alloc|]. intros o a1 [[f ->] Hroom1]. wp_step.
  eapply wp_mono.
  { apply wp_conj.
    - apply (map_to_total _ roomy p f flags t a1 (4 * length ps) roomy_alloc Hroom1 Hp1 Hp2).
    - apply (map_to_safe _ wf p f flags t a1); [|apply Hroom1].
      intros a0 Hwf. eapply wp_mono; [by apply allocate_grows|]. by intros r a2 [[] _]. }
  intros r [t2 a2] [[-> (j & Hj & Hroom2)] (Hwf2 & Hh & _ & Hpg)].
  apply IH; [|done|].
  - destruct Hroom2 as [? ?]. split; [done|]. simpl. lia.
  - intros q Hq. destruct (Hfree q) as [Hq1 Hq2]; [by right|]. simpl in *. rewrite Hpg, Hh.
    split; [|done]. rewrite lookup_insert_ne; [done|]. by intros ->.
Qed.

Lemma heap_pages_run : heap_page_range = Ret (frames_from HEAP_START 125).
Proof.
  unfold heap_page_range, HEAP_START, HEAP_SIZE. rewrite VirtAddr_new_ok by lia. simpl.
  rewrite VirtAddr_add_ok by lia. simpl. rewrite VirtAddr_sub_ok by lia. simpl.
  rewrite !page_containing_spec, page_range_inclusive_spec by auto. f_equal.
Qed.

(** Every byte of the heap lies on one of its pages. *)
Lemma heap_byte_page x : HEAP_START ≤ x < HEAP_START + HEAP_SIZE →
  align_down x ∈ frames_from HEAP_START 125.
Proof.
  unfold HEAP_START, HEAP_SIZE. intros. apply elem_of_frames_from.
  exists ((x - 0x444444440000) / 4096). unfold align_down. lia.
Qed.

(** Looking up the mappings [map_each] adds. *)
Lemma map_each_other flags ps : ∀ fs m p, p ∉ ps → map_each flags ps fs m !! p = m !! p.
Proof.
  induction ps as [|p0 ps IH]; intros fs m p Hp; [done|]. destruct fs as [|f fs]; [done|].
  apply not_elem_of_cons in Hp as [Hne Hp]. unfold map_each. simpl.
  etrans; [by apply IH|]. by rewrite lookup_insert_ne.
Qed.

Lemma map_each_lookup flags ps : ∀ fs m p, NoDup ps → length fs = length ps → p ∈ ps →
  ∃ k f, ps !! k = Some p ∧ fs !! k = Some f ∧
    map_each flags ps fs m !! p = Some (f * 4096, flags).
Proof.
  induction ps as [|p0 ps IH]; intros fs m p Hnd Hlen Hp; [by apply not_elem_of_nil in Hp|].
  destruct fs as [|f fs]; [done|]. apply NoDup_cons in Hnd as [Hp0 Hnd]. injection Hlen as Hlen.
  apply elem_of_cons in Hp as [->|Hp].
  - exists 0%nat, f. split_and!; [done|done|]. unfold map_each. simpl.
    etrans; [by apply map_each_other|]. by rewrite lookup_insert_eq.
  - destruct (IH fs (<[p0 := (f * 4096, flags)]> m) p Hnd Hlen Hp) as (k & g & Hk & Hg & Hl).
    by exists (S k), g.
Qed.
End heap_facts.

(** ** Properties *)

Section heap_properties.
Context `{BootInfo} `{!BootInfoLaws} `{Addresses} `{!AddressesLaws}.
Context {T : Type} `{Mapper T} `{!MapperLaws T} {B : Type} `{BuddyHeap B}.
Implicit Types (c : PagingContext T).

(** [f] is a frame the heap may use for a byte: mapped present and writable, usable,
    free before and in use now. *)
Definition heap_frame c (c' : PagingContext T) (x f : Z) : Prop :=
  pages c'.1 !! align_down x = Some (f * 4096, heap_flags) ∧
  f ∈ usable_frames (memory_map c.2) ∧ f ∉ used_set c.2 ∧ f ∈ used_set c'.2.

Lemma init_heap_runs c (b : B) flag :
  ctx_ok c → (500 ≤ length (available c.2))%nat →
  (∀ p, p ∈ frames_from HEAP_START 125 → pages c.1 !! p = None ∧ huge c.1 p = false) →
  wp init_heap (λ r _, r = Ok tt) (Some c, (b, flag)).
Proof.
  intros Hc Hav Hfree. unfold init_heap. wp_step. eapply wp_lift; [apply heap_pages_run|].
  wp_step. apply wp_on_fst. unfold map_range. apply wp_with_ctx.
  eapply wp_mono; [apply map_pages_total; [|apply NoDup_frames_from|done]|].
  - split; [apply Hc|]. exact Hav.
  - intros r c' ->. wp_step. apply wp_get. wp_step. apply wp_put. by apply wp_ret.
Qed.

Lemma init_heap_effect c (b : B) flag :
  ctx_ok c →
  wp init_heap (λ r st', match r with
    | Ok _ => st'.2 = (buddy_init HEAP_START HEAP_SIZE b, true) ∧ ∃ c', st'.1 = Some c' ∧ ctx_ok c' ∧
        (∀ x, HEAP_START ≤ x < HEAP_START + HEAP_SIZE → ∃ f, heap_frame c c' x f) ∧
        (∀ x y f, HEAP_START ≤ x < HEAP_START + HEAP_SIZE →
           HEAP_START ≤ y < HEAP_START + HEAP_SIZE →
           heap_frame c c' x f → heap_frame c c' y f → align_down x = align_down y)
    | Err _ => st'.2 = (b, flag)
    end) (Some c, (b, flag)).
Proof.
  intros Hc. unfold init_heap. wp_step. eapply wp_lift; [apply heap_pages_run|].
  wp_step. apply wp_on_fst. unfold map_range. apply wp_with_ctx.
  eapply wp_mono; [by apply map_pages_run|]. intros r c' (Hg & fs & Hp & Hnd & Hfs & Hle & Hok).
  destruct r as [[]|e]; [|by apply wp_ret]. wp_step. apply wp_get. wp_step. apply wp_put.
  apply wp_ret. simpl. split; [done|]. exists c'. split; [done|].
  split; [destruct c, c'; by eapply grown_ctx_ok|]. specialize (Hok eq_refl).
  pose proof (λ x Hx, map_each_lookup heap_flags _ fs (pages c.1) _
    (NoDup_frames_from HEAP_START 125) Hok (heap_byte_page x Hx)) as Hl.
  split.
  - intros x Hx. destruct (Hl x Hx) as (k & f & _ & Hk & Hlk). exists f.
    split; [by rewrite Hp|]. by apply Hfs, (list_elem_of_lookup_2 _ k).
  - intros x y f Hx Hy [Hx1 _] [Hy1 _]. rewrite Hp in Hx1, Hy1.
    destruct (Hl x Hx) as (k & f1 & Hk1 & Hf1 & Hl1).
    destruct (Hl y Hy) as (k' & f2 & Hk2 & Hf2 & Hl2).
    rewrite Hl1 in Hx1. rewrite Hl2 in Hy1. injection Hx1 as E1. injection Hy1 as E2.
    assert (f1 = f2) as <- by lia. pose proof (NoDup_lookup _ _ _ _ Hnd Hf1 Hf2) as ->. congruence.
Qed.

(** C16. [init_heap] never panics once paging is up.  When it answers [Ok], every
    byte of the heap region is backed by a usable frame that was free and that no
    other page of the heap has, and the buddy allocator was given exactly that
    region; when it answers an error, neither the buddy allocator nor the
    initialised flag was touched. *)
Theorem init_heap_spec c (b : B) flag :
  ctx_ok c →
  wp init_heap (λ r st', match r with
    | Ok _ => st'.2 = (buddy_init HEAP_START HEAP_SIZE b, true) ∧ ∃ c', st'.1 = Some c' ∧
        (∀ x, HEAP_START ≤ x < HEAP_START + HEAP_SIZE → ∃ f, heap_frame c c' x f) ∧
        (∀ x y f, HEAP_START ≤ x < HEAP_START + HEAP_SIZE →
           HEAP_START ≤ y < HEAP_START + HEAP_SIZE →
           heap_frame c c' x f → heap_frame c c' y f → align_down x = align_down y)
    | Err _ => st'.2 = (b, flag)
    end) (Some c, (b, flag)).
Proof.
  intros Hc. eapply wp_mono; [by apply init_heap_effect|].
  intros [[]|e] st'; [|done]. intros (Hh & c' & Ec & _ & Hx). eauto.
Qed.

(** [init_heap] succeeds when 500 frames are available (four for each of its
    125 pages: a frame and up to three page tables) and the heap's address range
    is not mapped. *)
Theorem init_heap_succeeds c (b : B) flag :
  ctx_ok c → (500 ≤ length (available c.2))%nat →
  (∀ p, p ∈ frames_from HEAP_START 125 → pages c.1 !! p = None ∧ huge c.1 p = false) →
  wp init_heap (λ r _, r = Ok tt) (Some c, (b, flag)).
Proof. apply init_heap_runs. Qed.
End heap_properties.

(** ** Witnesses *)

Module HeapWitness.
Import Reference InitWitness.

(** A machine with 600 usable frames. *)
Definition big_map : list MemoryRegion := [mkRegion (mkRange 1 601) Usable].
Definition big_allocator : GlobalFrameAllocator := mkAllocator big_map 0 (replicate 20 0).
Definition big_ctx : PagingContext tables := (empty_tables, big_allocator).

#[export] Instance log_heap : BuddyHeap (list (Z * Z)) := {| buddy_init s n b := (s, n) :: b |}.

Lemma big_ctx_ok : ctx_ok big_ctx.
Proof.
  split.
  - split.
    + apply Forall_replicate. by split.
    + split; [repeat constructor; simpl; lia|by repeat constructor].
    + intros i Hi. simpl in Hi. change (usable_frames big_map) with (seqZ 1 600 ++ []) in Hi.
      rewrite app_nil_r in Hi. apply elem_of_seqZ in Hi. unfold covered, capacity, u64, fits.
      simpl. lia.
  - intros r Hr. apply list_elem_of_singleton in Hr as ->. unfold capacity. simpl. lia.
Qed.

Lemma big_available : available big_allocator = seqZ 1 600.
Proof.
  assert (used_set big_allocator = ∅) as Hu by (by vm_compute).
  unfold available. change (usable_frames (memory_map big_allocator)) with (seqZ 1 600 ++ []).
  rewrite app_nil_r. apply filter_all, Forall_forall. intros i Hi%elem_of_seqZ.
  rewrite Hu. split; [simpl; lia|apply not_elem_of_empty].
Qed.

Lemma big_room : (500 ≤ length (available big_ctx.2))%nat.
Proof. change (big_ctx.2) with big_allocator. rewrite big_available, length_seqZ. lia. Qed.

Lemma big_unmapped p : p ∈ frames_from HEAP_START 125 →
  pages big_ctx.1 !! p = None ∧ huge big_ctx.1 p = false.
Proof. intros _. split; [apply lookup_empty|done]. Qed.

Lemma init_heap_succeeds_witness : wp init_heap (λ r _, r = Ok tt) (Some big_ctx, ([], false)).
Proof. exact (init_heap_succeeds big_ctx [] false big_ctx_ok big_room big_unmapped). Defined.

Lemma init_heap_spec_witness :
  ∃ p, init_heap (Some big_ctx, ([], false)) = Ret (Ok tt, p) ∧
    p.2 = ([(HEAP_START, HEAP_SIZE)], true).
Proof.
  pose proof (init_heap_runs big_ctx [] false big_ctx_ok big_room big_unmapped) as Hok.
  destruct (wp_elim _ _ _ (wp_conj _ _ _ _ Hok (init_heap_spec big_ctx [] false big_ctx_ok)))
    as (r & p & Hr & -> & Hb & _).
  exists p. exact (conj Hr Hb).
Defined.
End HeapWitness.
