(* ===== verification/Ahci.v ===== *)
(** * AHCI registers (src/ahci.rs)

    The register block of a SATA controller: the packed structures, the decoders
    of their fields, and the accessors of the ports. *)

From S2P Require Import Prelude.
Local Open Scope Z_scope.

(** ** The code: fields *)

Definition ATA_SIGNATURE : Z := 0x00000101.
Definition ATAPI_SIGNATURE : Z := 0xEB140101.
Definition SEMB_SIGNATURE : Z := 0xC33C0101.
Definition PM_SIGNATURE : Z := 0x96690101.

Inductive InterfaceSpeed : Type := Gen1 | Gen2 | Gen3 | ReservedSpeed.

Definition InterfaceSpeed_from (bits : Z) : InterfaceSpeed :=
  match bits with
  | 0 => ReservedSpeed
  | 1 => Gen1
  | 2 => Gen2
  | 3 => Gen3
  | _ => ReservedSpeed
  end.

Inductive InterfacePowerManagement : Type :=
  | PmNoDevice
  | PmActive
  | PmPartial
  | PmSlumber
  | PmDevSleep
  | PmReserved.

Definition InterfacePowerManagement_from (bits : Z) : InterfacePowerManagement :=
  match bits with
  | 0 => PmNoDevice
  | 1 => PmActive
  | 2 => PmPartial
  | 6 => PmSlumber
  | 8 => PmDevSleep
  | _ => PmReserved
  end.

Inductive DeviceDetection : Type :=
  | NoDevice
  | DeviceNoPhy
  | Device
  | InterfaceDisabled
  | ReservedDetection.

Definition has_device (d : DeviceDetection) : bool :=
  match d with Device | DeviceNoPhy => true | _ => false end.

Definition DeviceDetection_from (bits : Z) : DeviceDetection :=
  match bits with
  | 0 => NoDevice
  | 1 => DeviceNoPhy
  | 3 => Device
  | 4 => InterfaceDisabled
  | _ => ReservedDetection
  end.

(** [HBACapabilities] and [StatusPort] are their words. *)
Definition number_of_ports (cap : Z) : Z := as_u8 (Z.land cap 31).
Definition number_of_cmd_slots (cap : Z) : Z := as_u8 (Z.land (Z.shiftr cap 8) 31).
Definition cap_if_speed (cap : Z) : InterfaceSpeed :=
  InterfaceSpeed_from (Z.land (Z.shiftr cap 20) 15).

Definition status_if_speed (ssts : Z) : InterfaceSpeed :=
  InterfaceSpeed_from (Z.land (Z.shiftr ssts 4) 15).
Definition if_power_management (ssts : Z) : InterfacePowerManagement :=
  InterfacePowerManagement_from (Z.land (Z.shiftr ssts 8) 15).
Definition detection (ssts : Z) : DeviceDetection := DeviceDetection_from (Z.land ssts 15).

(** ** The code: registers *)

Record HBAPortRegisters : Type := mkPort {
  clb : Z; clbu : Z; fb : Z; fbu : Z;
  port_int_status : Z; port_int_enable : Z; cmd : Z;
  port_reserved_0 : Z;
  tfd : Z; sig : Z; ssts : Z; sctl : Z; serr : Z; sact : Z; cmd_issue : Z; sntf : Z; fbs : Z;
  port_reserved_1 : list Z;
  port_vendor : list Z;
}.

Definition cmd_list_addr (p : HBAPortRegisters) : Z :=
  Z.lor (as_u64 (Z.shiftl (as_u64 (clbu p)) 32)) (as_u64 (clb p)).

Definition fis_addr (p : HBAPortRegisters) : Z :=
  Z.lor (as_u64 (Z.shiftl (as_u64 (fbu p)) 32)) (as_u64 (fb p)).

Definition set_cmd_list_addr (addr : Z) : M HBAPortRegisters unit :=
  if negb (Z.land addr 0x3FF =? 0) then fail (Explicit "Address must be 1K aligned")
  else
    p ← get;
    put (mkPort (as_u32 addr) (as_u32 (Z.shiftr addr 32)) (fb p) (fbu p)
      (port_int_status p) (port_int_enable p) (cmd p) (port_reserved_0 p) (tfd p) (sig p) (ssts p)
      (sctl p) (serr p) (sact p) (cmd_issue p) (sntf p) (fbs p) (port_reserved_1 p) (port_vendor p)).

Definition set_fb_list_addr (addr : Z) : M HBAPortRegisters unit :=
  if negb (Z.land addr 0x3FF =? 0) then fail (Explicit "Address must be 1K aligned")
  else
    p ← get;
    put (mkPort (clb p) (clbu p) (as_u32 addr) (as_u32 (Z.shiftr addr 32))
      (port_int_status p) (port_int_enable p) (cmd p) (port_reserved_0 p) (tfd p) (sig p) (ssts p)
      (sctl p) (serr p) (sact p) (cmd_issue p) (sntf p) (fbs p) (port_reserved_1 p) (port_vendor p)).

(** The ports are an array of 32. *)
Record HBAMemoryRegisters : Type := mkHBA {
  cap : Z; ghc : Z; int_status : Z; port_implemented : Z; version : Z;
  ccc_ctl : Z; ccc_ports : Z; em_loc : Z; em_ctl : Z; cap_ext : Z; bohc : Z;
  reserved_0 : list Z;
  vendor : list Z;
  ports : list HBAPortRegisters;
}.

(** [idx] is a [u32]: no number outside [[0, 32)] passes the assertion. *)
Definition get_port (self : HBAMemoryRegisters) (idx : Z) : outcome (option HBAPortRegisters) :=
  if negb (bool_decide (0 ≤ idx < 32)) then Panic (Explicit "There are only 32 ports")
  else
    let bit := Z.shiftr (port_implemented self) idx in
    if Z.land bit 1 =? 1 then p ← index (ports self) idx; Ret (Some p) else Ret None.

Definition set_ports (ps : list HBAPortRegisters) (self : HBAMemoryRegisters) : HBAMemoryRegisters :=
  mkHBA (cap self) (ghc self) (int_status self) (port_implemented self) (version self)
    (ccc_ctl self) (ccc_ports self) (em_loc self) (em_ctl self) (cap_ext self) (bohc self)
    (reserved_0 self) (vendor self) ps.

(** [get_port_mut], with the code [body] that uses the borrowed port. *)
Definition get_port_mut {A} (idx : Z) (body : M HBAPortRegisters A) : M HBAMemoryRegisters (option A) :=
  λ self,
  if negb (bool_decide (0 ≤ idx < 32)) then Panic (Explicit "There are only 32 ports")
  else
    let bit := Z.shiftr (port_implemented self) idx in
    if Z.land bit 1 =? 1 then
      p ← index (ports self) idx;
      '(a, p') ← body p;
      Ret (Some a, set_ports (<[Z.to_nat idx := p']> (ports self)) self)
    else Ret (None, self).

(** [u32::count_ones] *)
Definition count_ones (x : Z) : Z :=
  Z.of_nat (length (filter (λ i, Z.testbit x i) (seqZ 0 32))).

Definition port_count (self : HBAMemoryRegisters) : Z := count_ones (port_implemented self).

(** [&self.ports[..count]] *)
Definition port_slice (self : HBAMemoryRegisters) : outcome (list HBAPortRegisters) :=
  let count := port_count self in
  if bool_decide (count ≤ Z.of_nat (length (ports self)))
  then Ret (take (Z.to_nat count) (ports self)) else Panic IndexOutOfBounds.

(** [port_slice_mut], with the code that uses the borrowed ports one by one. *)
Definition port_slice_mut (body : HBAPortRegisters → outcome HBAPortRegisters) :
    M HBAMemoryRegisters unit := λ self,
  let count := port_count self in
  if bool_decide (count ≤ Z.of_nat (length (ports self))) then
    ps ← with_local [] (mfor (take (Z.to_nat count) (ports self)) (λ p,
      st ← get;
      p' ← lift (body p);
      put (st.1, st.2 ++ [p']))) tt;
    Ret (tt, set_ports (ps.1.2 ++ drop (Z.to_nat count) (ports self)) self)
  else Panic IndexOutOfBounds.

(** ** The layout of the packed structures: field sizes in bytes, in order *)

Definition port_layout : list Z :=
  [4; 4; 4; 4; 4; 4; 4; 4; 4; 4; 4; 4; 4; 4; 4; 4; 4; 11 * 4; 4 * 4].

Definition hba_layout : list Z :=
  [4; 4; 4; 4; 4; 4; 4; 4; 4; 4; 4; 116; 96; 32 * foldr Z.add 0 port_layout].

(** The offset of a field in a packed structure. *)
Definition offset_of (layout : list Z) (field : nat) : Z := foldr Z.add 0 (take field layout).

(** ** Lemmas *)

Lemma lo_hi_word a : fits 64 a →
  Z.lor (as_u64 (Z.shiftl (as_u64 (as_u32 (Z.shiftr a 32))) 32)) (as_u64 (as_u32 a)) = a.
Proof.
  intros Ha. assert (fits 32 (Z.shiftr a 32)) as Hh.
  { destruct Ha. rewrite Z.shiftr_div_pow2 by lia. unfold fits. lia. }
  rewrite (cast_id 32 (Z.shiftr a 32)) by done.
  rewrite (cast_id 64 (Z.shiftr a 32)) by (destruct Hh; unfold fits; lia).
  pose proof (cast_fits 32 a ltac:(lia)) as Hl.
  rewrite (cast_id 64 (cast 32 a)) by (destruct Hl; unfold fits; lia).
  rewrite cast_id by (apply fits_shiftl; [lia|done|lia]).
  rewrite Z.lor_comm, lor_shiftl_add by (done || lia || apply Hh).
  rewrite Z.shiftr_div_pow2 by lia. unfold cast. lia.
Qed.

Lemma bit_1 x i : 0 ≤ i → (Z.land (Z.shiftr x i) 1 =? 1) = Z.testbit x i.
Proof.
  intros. change 1 with (Z.ones 1) at 1. rewrite Z.land_ones by lia.
  change (2 ^ 1) with 2. rewrite Z.testbit_odd, Zmod_odd. by destruct (Z.odd _).
Qed.

(** Either the implemented ports are exactly the first ones, or a hole comes before
    an implemented port beyond the count. *)
Lemma ones_dense_or_hole x : let n := count_ones x in
  0 ≤ n ≤ 32 ∧
  ((∀ i, 0 ≤ i < 32 → Z.testbit x i = true ↔ i < n) ∨
   ∃ i j, 0 ≤ i < n ∧ Z.testbit x i = false ∧ n ≤ j < 32 ∧ Z.testbit x j = true).
Proof.
  intros n. set (P := λ i : Z, Is_true (Z.testbit x i)).
  assert (0 ≤ n ≤ 32) as Hn.
  { unfold n, count_ones. pose proof (length_filter P (seqZ 0 32)) as Hl.
    rewrite length_seqZ in Hl. unfold P in Hl. lia. }
  split; [done|].
  assert (seqZ 0 32 = seqZ 0 n ++ seqZ n (32 - n)) as Hsplit.
  { change (seqZ n (32 - n)) with (seqZ (0 + n) (32 - n)). rewrite <-seqZ_app by lia. f_equal. lia. }
  assert (n = Z.of_nat (length (filter P (seqZ 0 n))) +
    Z.of_nat (length (filter P (seqZ n (32 - n))))) as Hcount.
  { rewrite <-Nat2Z.inj_add, <-length_app, <-filter_app, <-Hsplit. done. }
  destruct (decide (Forall P (seqZ 0 n))) as [Hall|Hhole].
  - left. rewrite (filter_all P) in Hcount by done. rewrite length_seqZ in Hcount.
    destruct (filter P (seqZ n (32 - n))) as [|j l] eqn:E; [|simpl in Hcount; lia].
    intros i Hi. rewrite Forall_forall in Hall. split.
    + intros Hb. destruct (Z.lt_ge_cases i n) as [|Hge]; [done|].
      assert (i ∈ filter P (seqZ n (32 - n))) as Hin.
      { apply list_elem_of_filter. split; [by apply Is_true_true|]. apply elem_of_seqZ. lia. }
      rewrite E in Hin. by apply not_elem_of_nil in Hin.
    + intros Hlt. apply Is_true_true, Hall, elem_of_seqZ. lia.
  - right. apply not_Forall_Exists in Hhole; [|intros ?; apply _].
    apply Exists_exists in Hhole as (i & Hi%elem_of_seqZ & Hb).
    assert (length (filter P (seqZ 0 n)) < Z.to_nat n)%nat as Hlt.
    { rewrite <-(length_seqZ 0 n). apply length_filter_lt with i; [|done]. apply elem_of_seqZ. lia. }
    destruct (filter P (seqZ n (32 - n))) as [|j l] eqn:E; [simpl in Hcount; lia|].
    assert (j ∈ filter P (seqZ n (32 - n))) as [Hj1 Hj2%elem_of_seqZ]%list_elem_of_filter
      by (rewrite E; by left).
    exists i, j. split_and!; try lia; [|by apply Is_true_true].
    apply not_true_is_false. intros Ht. apply Hb. by apply Is_true_true.
Qed.

Lemma take_lookup_lt {A} (l : list A) n i : 0 ≤ i < n → take (Z.to_nat n) l !! Z.to_nat i = l !! Z.to_nat i.
Proof. intros. apply lookup_take_lt. lia. Qed.

Lemma land_3ff a : 0 ≤ a → Z.land a 0x3FF = a mod 1024.
Proof. intros. change 0x3FF with (Z.ones 10). by rewrite Z.land_ones. Qed.

Lemma get_port_lookup self idx : length (ports self) = 32%nat → 0 ≤ idx < 32 →
  get_port self idx =
    Ret (if Z.testbit (port_implemented self) idx then ports self !! Z.to_nat idx else None).
Proof.
  intros Hlen Hidx. unfold get_port. rewrite bool_decide_true by lia. simpl. rewrite bit_1 by lia.
  destruct (Z.testbit _ _); [|done].
  destruct (lookup_lt_is_Some_2 (ports self) (Z.to_nat idx)) as [p Hp]; [lia|].
  by rewrite (index_ok _ _ p), Hp.
Qed.

(** A prefix as long as the run of implemented ports answers like [get_port]. *)
Lemma dense_slice {A} (l : list A) x n idx : 0 ≤ idx → (Z.testbit x idx = true ↔ idx < n) →
  (if Z.testbit x idx then l !! Z.to_nat idx else None) = take (Z.to_nat n) l !! Z.to_nat idx.
Proof.
  intros Hidx Hd. destruct (Z.testbit x idx).
  - rewrite take_lookup_lt; [done|]. naive_solver.
  - rewrite lookup_take_ge; [done|]. assert (¬ idx < n); [|lia]. by intros ?%Hd.
Qed.

(** ** Properties *)

(** The command-list and FIS addresses: a 1 KiB aligned 64-bit address that is
    set reads back, and the other address, the signature, the status and the
    command register stay; an address that is not aligned panics. *)
Theorem ahci_addresses p a :
  fits 64 a →
  (a mod 1024 = 0 →
     wp (set_cmd_list_addr a) (λ _ p', cmd_list_addr p' = a ∧ fis_addr p' = fis_addr p ∧
       sig p' = sig p ∧ ssts p' = ssts p ∧ cmd p' = cmd p) p ∧
     wp (set_fb_list_addr a) (λ _ p', fis_addr p' = a ∧ cmd_list_addr p' = cmd_list_addr p ∧
       sig p' = sig p ∧ ssts p' = ssts p ∧ cmd p' = cmd p) p) ∧
  (a mod 1024 ≠ 0 →
     set_cmd_list_addr a p = Panic (Explicit "Address must be 1K aligned") ∧
     set_fb_list_addr a p = Panic (Explicit "Address must be 1K aligned")).
Proof.
  intros Ha. pose proof Ha as [Ha0 _].
  unfold set_cmd_list_addr, set_fb_list_addr. rewrite land_3ff by done. split; intros Hm.
  - rewrite Hm. simpl. split; wp_step; apply wp_get; apply wp_put; unfold cmd_list_addr, fis_addr;
      simpl; rewrite lo_hi_word by done; done.
  - by rewrite (proj2 (Z.eqb_neq _ _) Hm).
Qed.

(** C29. The ports: [get_port] answers exactly for the implemented ports, and panics
    from 32 on.  [port_slice] always is as many of the first ports as are
    implemented.  It is exactly the implemented ports when these are the first ones;
    when an implemented port comes after one that is not, the slice holds a port
    that is not implemented and misses one that is. *)
Theorem ahci_ports self :
  length (ports self) = 32%nat →
  let implemented := Z.testbit (port_implemented self) in
  (∀ idx, 0 ≤ idx < 32 →
     get_port self idx = Ret (if implemented idx then ports self !! Z.to_nat idx else None)) ∧
  (∀ idx, 32 ≤ idx → get_port self idx = Panic (Explicit "There are only 32 ports")) ∧
  ∃ slice, port_slice self = Ret slice ∧ slice `prefix_of` ports self ∧
    length slice = length (filter (λ i, implemented i) (seqZ 0 32)) ∧
    ((∀ i j, 0 ≤ i < j → j < 32 → implemented j = true → implemented i = true) →
     ∀ idx, 0 ≤ idx < 32 → get_port self idx = Ret (slice !! Z.to_nat idx)) ∧
    (∀ i j, 0 ≤ i < j → j < 32 → implemented j = true → implemented i = false →
     ∃ k l, 0 ≤ k < 32 ∧ 0 ≤ l < 32 ∧
       get_port self k = Ret None ∧ is_Some (slice !! Z.to_nat k) ∧
       (∃ p, get_port self l = Ret (Some p)) ∧ slice !! Z.to_nat l = None).
Proof.
  intros Hlen implemented. pose proof (λ idx, get_port_lookup self idx Hlen) as Hget.
  split_and!; [done|intros idx Hidx; unfold get_port; by rewrite bool_decide_false by lia|].
  destruct (ones_dense_or_hole (port_implemented self)) as [Hn Hcases].
  exists (take (Z.to_nat (port_count self)) (ports self)). unfold port_slice, port_count.
  rewrite bool_decide_true by lia. split_and!; [done|apply prefix_take| |..].
  - rewrite length_take_le by lia. unfold count_ones. by rewrite Nat2Z.id.
  - intros Hfirst. destruct Hcases as [Hdense|(i & j & Hi & Hbi & Hj & Hbj)].
    2: { specialize (Hfirst i j ltac:(lia) ltac:(lia) Hbj). unfold implemented in Hfirst. congruence. }
    intros idx Hidx. rewrite Hget by done. f_equal. apply dense_slice; [lia|by apply Hdense].
  - intros i0 j0 Hi0 Hj0 Hb1 Hb2. destruct Hcases as [Hdense|(i & j & Hi & Hbi & Hj & Hbj)].
    { unfold implemented in *. apply Hdense in Hb1; [|lia].
      assert (Z.testbit (port_implemented self) i0 = true); [|congruence]. apply Hdense; lia. }
    exists i, j. rewrite !Hget by lia. rewrite Hbi, Hbj. split_and!; [lia..|done| | |].
    + rewrite take_lookup_lt by lia. apply lookup_lt_is_Some_2. lia.
    + destruct (lookup_lt_is_Some_2 (ports self) (Z.to_nat j)) as [p Hp]; [lia|].
      exists p. by rewrite Hp.
    + apply lookup_take_ge. lia.
Qed.

(** C39. Writing through [get_port_mut]: on an implemented port the code runs on what
    [get_port] reads, its result is what [get_port] reads afterwards, and every other
    port reads as before; on a port that is not implemented nothing happens. *)
Theorem ahci_port_mut {A} self idx (body : M HBAPortRegisters A) :
  length (ports self) = 32%nat → 0 ≤ idx < 32 →
  match get_port self idx with
  | Ret (Some p) => wp body (λ a p', ∃ self', get_port_mut idx body self = Ret (Some a, self') ∧
      get_port self' idx = Ret (Some p') ∧ length (ports self') = 32%nat ∧
      ∀ j, 0 ≤ j < 32 → j ≠ idx → get_port self' j = get_port self j) p ∨ (∃ e, body p = Panic e ∧
      get_port_mut idx body self = Panic e)
  | Ret None => get_port_mut idx body self = Ret (None, self)
  | Panic _ => False
  end.
Proof.
  intros Hlen Hidx. rewrite get_port_lookup by done. unfold get_port_mut.
  rewrite bool_decide_true by lia. simpl. rewrite bit_1 by lia.
  destruct (Z.testbit (port_implemented self) idx) eqn:Eb; [|done].
  destruct (lookup_lt_is_Some_2 (ports self) (Z.to_nat idx)) as [p Hp]; [lia|].
  rewrite (index_ok _ _ p), Hp by done. simpl. unfold wp.
  destruct (body p) as [[a p']|e]; [left|right; eauto].
  eexists. split; [done|].
  assert (length (<[Z.to_nat idx:=p']> (ports self)) = 32%nat) as Hl by (by rewrite length_insert).
  split_and!; [|done|].
  - rewrite get_port_lookup by done. simpl. rewrite Eb, list_lookup_insert_eq by lia. done.
  - intros j Hj Hne. rewrite !get_port_lookup by done. simpl.
    by rewrite list_lookup_insert_ne by lia.
Qed.

(** The structures put the ports and their registers where the controller has
    them. *)
Lemma hba_offsets :
  offset_of hba_layout 3 = 0x0C ∧ offset_of hba_layout 10 = 0x28 ∧ offset_of hba_layout 12 = 0xA0 ∧
  offset_of hba_layout 13 = 0x100 ∧ foldr Z.add 0 port_layout = 0x80 ∧
  offset_of port_layout 9 = 0x24 ∧ offset_of port_layout 10 = 0x28 ∧ offset_of port_layout 18 = 0x70.
Proof. done. Qed.

(** ** Witnesses *)

Module AhciWitness.

Definition empty_port (s : Z) : HBAPortRegisters :=
  mkPort 0 0 0 0 0 0 0 0 0 s 0 0 0 0 0 0 0 (replicate 11 0) (replicate 4 0).

(** Ports 1 and 5 are implemented. *)
Definition sparse : HBAMemoryRegisters :=
  mkHBA 0 0 0 0x22 0 0 0 0 0 0 0 (replicate 116 0) (replicate 96 0) (empty_port <$> seqZ 0 32).

Lemma ahci_addresses_witness :
  wp (set_cmd_list_addr 0x123456400) (λ _ p', cmd_list_addr p' = 0x123456400 ∧ fis_addr p' = 0)
    (empty_port 0).
Proof.
  destruct (ahci_addresses (empty_port 0) 0x123456400 ltac:(by split)) as [Hok _].
  eapply wp_mono; [exact (proj1 (Hok eq_refl))|]. intros [] p' (Ha & Hf & _). exact (conj Ha Hf).
Defined.

(** The slice of two ports is ports 0 and 1; port 5 is not in it. *)
Lemma ahci_ports_witness :
  ∃ slice, port_slice sparse = Ret slice ∧ sig <$> slice = [0; 1] ∧
    get_port sparse 5 = Ret (Some (empty_port 5)) ∧
    ∃ k, get_port sparse k = Ret None ∧ is_Some (slice !! Z.to_nat k).
Proof.
  destruct (ahci_ports sparse eq_refl) as (Hget & _ & slice & Hs & _ & _ & _ & Hbad).
  exists slice. split; [exact Hs|]. split_and!.
  - vm_compute in Hs. injection Hs as <-. reflexivity.
  - rewrite (Hget 5) by lia. reflexivity.
  - destruct (Hbad 0 1 ltac:(lia) ltac:(lia) eq_refl eq_refl) as (k & _ & _ & _ & Hk1 & Hk2 & _).
    by exists k.
Defined.

Lemma ahci_port_mut_witness : ∃ self',
  get_port_mut 5 (set_cmd_list_addr 0x123456400) sparse = Ret (Some tt, self') ∧
  (∃ p, get_port self' 5 = Ret (Some p) ∧ cmd_list_addr p = 0x123456400) ∧
  get_port self' 1 = Ret (Some (empty_port 1)).
Proof.
  destruct (ahci_port_mut sparse 5 (set_cmd_list_addr 0x123456400) eq_refl ltac:(lia))
    as [(self' & Hr & Hp & _ & Ho)|(e & He & _)]; [|by vm_compute in He].
  exists self'. split; [exact Hr|]. split; [eexists; split; [exact Hp|reflexivity]|].
  rewrite (Ho 1) by lia. reflexivity.
Defined.
End AhciWitness.
