(* ===== verification/Acpi.v ===== *)
(** * Power management through ACPI (src/acpi.rs)

    Taking control from the firmware ([enable], which polls for it) and entering a
    sleep state.  The AML interpreter of the [aml] crate is a parameter. *)

From S2P Require Import Prelude Bus.
Local Open Scope Z_scope.

(** ** The code *)

Definition SLP_EN : Z := Z.shiftl 1 13.

Inductive SleepState : Type := S1 | S2 | S3 | S4 | S5.

Definition as_aml_name (state : SleepState) : string :=
  match state with
  | S1 => "\_S1"
  | S2 => "\_S2"
  | S3 => "\_S3"
  | S4 => "\_S4"
  | S5 => "\_S5"
  end.

(** The fields of [Acpi] that are not objects of the [acpi] and [aml] crates. *)
Record Acpi : Type := mkAcpi {
  smi_cmd_port : Z;
  pm1a_cnt : Z;
  pm1b_cnt : option Z;
  acpi_enable : Z;
}.

(** The values of the [aml] crate: packages, and the rest, which [as_integer] may
    turn into a number. *)
Inductive AmlValue : Type :=
  | Integer (v : Z)
  | Package (items : list AmlValue)
  | OtherValue (tag : Z).

(** The interpreter runs the method on its own state and, through the handler, on the
    whole machine, both in [S]; the handler may panic. *)
Class AmlContext (S : Type) : Type := {
  (** [invoke_method] with default arguments; [None] is an error. *)
  invoke_method : string → M S (option AmlValue);
  as_integer : S → AmlValue → option Z;
}.

Section code.
Context {D : Type} `{Bus D}.

(** [crate::sleep] *)
Definition sleep (miliseconds : Z) : M D unit := mfor (seqZ 0 miliseconds) (λ _, hlt).

(** The condition of the polling loop: the second register is read only when the
    first has the bit. *)
Definition sci_enabled (self : Acpi) : M D bool :=
  a ← read_from_port 16 (pm1a_cnt self);
  if Z.land a 1 =? 1 then
    match pm1b_cnt self with
    | None => mret true
    | Some cnt =>
        b ← read_from_port 16 cnt;
        mret (Z.land b 1 =? 1)
    end
  else mret false.

(** The loop, with the number of rounds that are left. *)
Fixpoint enable_poll (self : Acpi) (rounds : nat) : M D bool :=
  match rounds with
  | O => mret false
  | S rounds' =>
      ok ← sci_enabled self;
      if ok : bool then mret true
      else sleep 10 ≫= λ _, enable_poll self rounds'
  end.

Definition enable (self : Acpi) : M D bool :=
  if (smi_cmd_port self =? 0) || (acpi_enable self =? 0) then mret false
  else
    write_to_port 8 (smi_cmd_port self) (acpi_enable self) ≫= λ _,
    enable_poll self 300.

(** [C] is the state of the interpreter and of the handler. *)
Context {C : Type} `{AmlContext (C * D)}.

Definition get_sleep_state (state : SleepState) : M (C * D) (option (Z * Z)) :=
  r ← invoke_method (as_aml_name state);
  match r with
  | Some (Package items) =>
      s ← get;
      item ← lift (index items 0);
      res ← lift (unwrap (as_integer s item));
      mret (Some (Z.land (as_u16 res) 7, Z.land (as_u16 (Z.shiftr res 8)) 7))
  | _ => mret None
  end.

Definition set_sleep_state (self : Acpi) (state : SleepState) : M (C * D) bool :=
  o ← get_sleep_state state;
  match o with
  | None => mret false
  | Some (slp_typa, slp_typb) =>
      on_snd (write_to_port 16 (pm1a_cnt self) (Z.lor SLP_EN (as_u16 (Z.shiftl slp_typa 10)))) ≫= λ _,
      match pm1b_cnt self with
      | Some cnt => on_snd (write_to_port 16 cnt (Z.lor SLP_EN (as_u16 (Z.shiftl slp_typb 10))))
      | None => mret tt
      end ≫= λ _,
      mret true
  end.
End code.

(** ** The firmware *)

(** After the command, the firmware takes some interrupts' time ([halts_left]) until
    the control registers show the enable bit. *)
Class Firmware (D : Type) : Type := {
  halts_left : D → option nat;
  latency : nat;
}.

Class FirmwareLaws (D : Type) `{Bus D, Firmware D} (acpi : Acpi) : Prop := {
  fw_command h : halts_left (port_out 8 (smi_cmd_port acpi) (acpi_enable acpi) h) = Some latency;
  fw_halt h n : halts_left h = Some n → halts_left (halt h) = Some (n - 1)%nat;
  fw_bit p h : p = pm1a_cnt acpi ∨ pm1b_cnt acpi = Some p →
    Z.testbit (port_in 16 p h).1 0 = bool_decide (halts_left h = Some 0%nat);
  fw_read p h : halts_left (port_in 16 p h).2 = halts_left h;
}.

Section enable_facts.
Context {D : Type} (acpi : Acpi) `{FirmwareLaws D acpi}.
Implicit Types (h : D).

Lemma land_1_testbit x : (Z.land x 1 =? 1) = Z.testbit x 0.
Proof.
  change 1 with (Z.ones 1) at 1. rewrite Z.land_ones by lia. rewrite Z.bit0_odd.
  change (2 ^ 1) with 2. rewrite Zmod_odd. by destruct (Z.odd x).
Qed.

Lemma wp_sci_enabled h n : halts_left h = Some n →
  wp (sci_enabled acpi) (λ r h', r = bool_decide (n = 0%nat) ∧ halts_left h' = Some n) h.
Proof.
  intros Hn. unfold sci_enabled. wp_bus. rewrite land_1_testbit, fw_bit by (by left).
  rewrite Hn. case_bool_decide as E.
  - injection E as ->. destruct (pm1b_cnt acpi) as [cnt|] eqn:Eb; wp_bus.
    + rewrite land_1_testbit, fw_bit by (by right). rewrite !fw_read, Hn.
      split; [by rewrite !bool_decide_true|done].
    + by rewrite fw_read.
  - wp_bus. rewrite fw_read. split; [|done]. rewrite bool_decide_false; [done|congruence].
Qed.

Lemma wp_sleep h n k : 0 ≤ k → halts_left h = Some n →
  wp (sleep k) (λ _ h', halts_left h' = Some (n - Z.to_nat k)%nat) h.
Proof.
  intros Hk Hn. unfold sleep.
  eapply wp_mono; [apply (wp_mfor_range 0 k _ (λ i h', halts_left h' = Some (n - Z.to_nat i)%nat));
    [done|by rewrite Nat.sub_0_r|]|].
  - intros i h' Hi Hh. unfold wp, hlt. rewrite (fw_halt _ _ Hh). f_equal. lia.
  - done.
Qed.

Lemma wp_enable_poll rounds : ∀ h n, halts_left h = Some n →
  wp (enable_poll acpi rounds) (λ r _, r = bool_decide (n + 10 ≤ 10 * rounds)%nat) h.
Proof.
  induction rounds as [|rounds IH]; intros h n Hn; simpl.
  - apply wp_ret. rewrite bool_decide_false; [done|lia].
  - apply wp_bind. eapply wp_mono; [by apply wp_sci_enabled|]. intros r h1 [-> Hn1].
    case_bool_decide as Hz; [apply wp_ret; rewrite bool_decide_true; [done|lia]|].
    apply wp_bind. eapply wp_mono; [by apply wp_sleep|]. intros [] h2 Hn2.
    eapply wp_mono; [by apply IH|]. intros r ? ->. apply bool_decide_ext. lia.
Qed.
End enable_facts.

(** ** Properties *)

(** C30. [enable] always returns.  Without a command port or an enable value it
    answers false and touches nothing; otherwise it sends the command and answers
    true exactly when the firmware sets the enable bits within 2990 halts (300
    polls, ten halts apart). *)
Theorem acpi_enable_bounded {D} `{Bus D, Firmware D} acpi `{!FirmwareLaws D acpi} (h : D) :
  ((smi_cmd_port acpi = 0 ∨ acpi_enable acpi = 0) → enable acpi h = Ret (false, h)) ∧
  (smi_cmd_port acpi ≠ 0 → acpi_enable acpi ≠ 0 →
     wp (enable acpi) (λ r _, r = bool_decide (latency ≤ 2990)%nat) h).
Proof.
  unfold enable. split.
  - intros [->| ->]; [done|]. by rewrite orb_true_r.
  - intros Hp He. rewrite (proj2 (Z.eqb_neq _ _) Hp), (proj2 (Z.eqb_neq _ _) He).
    apply wp_bind, wp_write_to_port. eapply wp_mono; [apply (wp_enable_poll acpi), fw_command|]. intros r ? ->.
    apply bool_decide_ext. lia.
Qed.

(** The value that puts a control register to sleep. *)
Definition sleep_word (slp_typ : Z) : Z := 2 ^ 13 + slp_typ * 2 ^ 10.

Lemma sleep_word_spec t : fits 3 t → Z.lor SLP_EN (as_u16 (Z.shiftl t 10)) = sleep_word t.
Proof.
  intros [? ?]. rewrite cast_id by (unfold fits; rewrite Z.shiftl_mul_pow2; lia).
  unfold SLP_EN, sleep_word. rewrite Z.lor_comm.
  rewrite lor_shiftl_add by (unfold fits; rewrite ?Z.shiftl_mul_pow2; lia).
  rewrite Z.shiftl_mul_pow2 by lia. lia.
Qed.

Lemma land_7_fits x : 0 ≤ x → fits 3 (Z.land x 7).
Proof. intros. change 7 with (Z.ones 3). rewrite Z.land_ones by lia. unfold fits. lia. Qed.

Lemma slp_typ_low res : 0 ≤ res → Z.land (as_u16 res) 7 = res mod 8.
Proof. intros. change 7 with (Z.ones 3). rewrite Z.land_ones by lia. unfold cast. lia. Qed.

Lemma slp_typ_high res : 0 ≤ res → Z.land (as_u16 (Z.shiftr res 8)) 7 = res / 256 mod 8.
Proof.
  intros. rewrite slp_typ_low by (by apply Z.shiftr_nonneg). by rewrite Z.shiftr_div_pow2.
Qed.

Section sleep_properties.
Context {D : Type} `{Bus D} {C : Type} `{AmlContext (C * D)}.

(** C31. Entering a sleep state, on every answer of the AML method, which may itself
    act on the machine: a package whose first item is the number [res] makes both
    sleep types come from that number (its low three bits for the first register,
    bits 8 to 10 for the second), written with the sleep-enable bit after the method
    is done; an empty package and an item that is no number panic, and so does a
    method that panics; any other answer touches nothing more and answers false. *)
Theorem set_sleep_state_spec acpi state (s : C * D) :
  match invoke_method (as_aml_name state) s with
  | Panic p => set_sleep_state acpi state s = Panic p
  | Ret (Some (Package []), _) => set_sleep_state acpi state s = Panic IndexOutOfBounds
  | Ret (Some (Package (item :: _)), (c', h')) =>
      match as_integer (c', h') item with
      | None => set_sleep_state acpi state s = Panic UnwrapNone
      | Some res => 0 ≤ res → set_sleep_state acpi state s = Ret (true, (c',
          let h1 := port_out 16 (pm1a_cnt acpi) (sleep_word (res mod 8)) h' in
          match pm1b_cnt acpi with
          | Some cnt => port_out 16 cnt (sleep_word (res / 256 mod 8)) h1
          | None => h1
          end))
      end
  | Ret (_, s') => set_sleep_state acpi state s = Ret (false, s')
  end.
Proof.
  unfold set_sleep_state, get_sleep_state, mbind, M_bind.
  destruct (invoke_method (as_aml_name state) s) as [[[[v|[|item items]|t]|] [c' h']]|p]; try done.
  change (index (item :: items) 0) with (Ret item). simpl.
  destruct (as_integer (c', h') item) as [res|]; [|done]. intros Hres. simpl.
  unfold on_snd, write_to_port. simpl.
  rewrite (slp_typ_low res), slp_typ_high by done.
  rewrite !sleep_word_spec by (unfold fits; lia). by destruct (pm1b_cnt acpi).
Qed.
End sleep_properties.

(** ** Witnesses *)

Module AcpiWitness.

(** A firmware that needs 35 halts, and the words written to the registers. *)
Record firmware : Type := mkFirmware {
  fw_left : option nat;
  fw_words : list (Z * Z);
}.

Definition demo_acpi : Acpi := mkAcpi 0xB2 0x604 None 2.

#[export] Instance fw_Bus : Bus firmware := {|
  port_in w p h := (if bool_decide (fw_left h = Some 0%nat) then 1 else 0, h);
  port_out w p v h :=
    if bool_decide (p = 0xB2 ∧ v = 2) then mkFirmware (Some 35%nat) (fw_words h)
    else mkFirmware (fw_left h) ((p, v) :: fw_words h);
  mem_in _ _ h := (0, h);
  mem_out _ _ _ h := h;
  halt h := mkFirmware ((λ n, n - 1)%nat <$> fw_left h) (fw_words h);
|}.

#[export] Instance fw_Firmware : Firmware firmware := {| halts_left := fw_left; latency := 35 |}.

#[export] Instance fw_laws : FirmwareLaws firmware demo_acpi.
Proof.
  split; try done.
  - intros h n Hn. simpl in *. by rewrite Hn.
  - intros p h _. simpl. by case_bool_decide.
Qed.

Definition off : firmware := mkFirmware None [].

Lemma acpi_enable_bounded_witness : ∃ h', enable demo_acpi off = Ret (true, h').
Proof.
  destruct (acpi_enable_bounded demo_acpi off) as [_ Hon].
  destruct (wp_elim _ _ _ (Hon ltac:(done) ltac:(done))) as (r & h' & Hr & ->).
  exists h'. exact Hr.
Defined.

(** A platform whose [\_S5] writes a byte to port 0x80 and is a package of two
    numbers: only the first counts. *)
#[export] Instance s5_aml : AmlContext (unit * firmware) := {|
  invoke_method name := if bool_decide (name = "\_S5"%string)
    then on_snd (write_to_port 8 0x80 1) ≫= λ _, mret (Some (Package [Integer 5; Integer 7]))
    else mret None;
  as_integer _ v := match v with Integer n => Some n | _ => None end;
|}.

Lemma set_sleep_state_witness :
  set_sleep_state (mkAcpi 0xB2 0x604 (Some 0x608) 2) S5 (tt, off) =
    Ret (true, (tt, mkFirmware None [(0x608, sleep_word 0); (0x604, sleep_word 5); (0x80, 1)])).
Proof.
  exact (set_sleep_state_spec (mkAcpi 0xB2 0x604 (Some 0x608) 2) S5 (tt, off) ltac:(lia)).
Defined.
End AcpiWitness.
