(* ===== verification/Locks.v ===== *)
(** * Locks and interrupts

    The kernel's shared state sits behind spin locks, and the handlers of the
    timer and the keyboard take some of them.  On the one processor that runs the
    kernel, a handler that spins on a lock held by the code it interrupted spins
    for ever.  This file models the lock operations of the kernel's functions (the
    rest of their work is left out here), the interrupt flag, and the delivery of
    interrupts between any two operations; a checker decides a discipline under
    which no reachable state is a deadlock, and the kernel follows it.

    Exceptions are not held back by the interrupt flag: the page-fault handler
    prints, and its lock operations are studied at the end. *)

From S2P Require Import Prelude.
Local Open Scope Z_scope.

(** ** Locks and code *)

(** The locks: the statics [PICS], [WRITER], [SERIAL1], [PAGING_CTX], [KEYBOARD] and
    [ALLOCATOR], and the one inside [LockedHandler]. *)
Inductive lock : Type :=
  | PICS_lock
  | WRITER_lock
  | SERIAL1_lock
  | PAGING_CTX_lock
  | KEYBOARD_lock
  | ALLOCATOR_lock
  | Handler_lock.

#[export] Instance lock_eq_dec : EqDecision lock.
Proof. solve_decision. Defined.

#[export] Instance lock_countable : Countable lock.
Proof.
  refine (inj_countable'
    (λ l, match l with
          | PICS_lock => 0%nat | WRITER_lock => 1%nat | SERIAL1_lock => 2%nat
          | PAGING_CTX_lock => 3%nat | KEYBOARD_lock => 4%nat | ALLOCATOR_lock => 5%nat
          | Handler_lock => 6%nat
          end)
    (λ n, match n with
          | 0%nat => PICS_lock | 1%nat => WRITER_lock | 2%nat => SERIAL1_lock
          | 3%nat => PAGING_CTX_lock | 4%nat => KEYBOARD_lock | 5%nat => ALLOCATOR_lock
          | _ => Handler_lock
          end) _).
  by intros [].
Defined.

(** What matters of an instruction here. *)
Inductive instr : Type :=
  | Lock (l : lock)                (* [lock()]: spins while the lock is held *)
  | Unlock (l : lock)              (* the guard is dropped *)
  | SaveDisable                    (* entry of [without_interrupts] *)
  | Restore                        (* its exit *)
  | Enable                         (* [interrupts::enable()] *)
  | TryLock (l : lock) (n : nat).  (* [try_lock()]: skips [n] instructions if held *)

Definition locked (l : lock) (body : list instr) : list instr := Lock l :: body ++ [Unlock l].
Definition without_interrupts (body : list instr) : list instr := SaveDisable :: body ++ [Restore].

(** ** The lock operations of the kernel's functions *)

Definition print_locks : list instr := without_interrupts (locked WRITER_lock []).
Definition serial_print_locks : list instr := without_interrupts (locked SERIAL1_lock []).

(** [Logger::log]: the level, the file and the line if the record has them, and the
    message. *)
Definition log_locks (file line : bool) : list instr :=
  serial_print_locks ++
  (if file then serial_print_locks ++ (if line then serial_print_locks else []) ++
     serial_print_locks
   else []) ++
  serial_print_locks.

Definition alloc_locks : list instr := locked ALLOCATOR_lock [].
Definition paging_locks : list instr := locked PAGING_CTX_lock [].

(** [Handler::map] maps a frame and inserts it in the table when it is new;
    [Handler::unmap] removes and unmaps it when it was the last use. *)
Definition handler_map_locks (fresh : bool) : list instr :=
  locked Handler_lock (if fresh then paging_locks ++ alloc_locks else []).
Definition handler_unmap_locks (last : bool) : list instr :=
  locked Handler_lock (if last then alloc_locks ++ paging_locks else []).

Definition timer_locks : list instr := locked PICS_lock [].

(** The keyboard's guard lives to the end of the handler; a key may be printed. *)
Definition keyboard_locks (printed : bool) : list instr :=
  locked KEYBOARD_lock ((if printed then print_locks else []) ++ locked PICS_lock []).

(** Calls that the rest of the kernel and the crates it uses make. *)
Inductive call : Type :=
  | CPrint
  | CLog (file line : bool)
  | CAlloc
  | CPaging
  | CMap (fresh : bool)
  | CUnmap (last : bool).

Definition call_locks (c : call) : list instr :=
  match c with
  | CPrint => print_locks
  | CLog file line => log_locks file line
  | CAlloc => alloc_locks
  | CPaging => paging_locks
  | CMap fresh => handler_map_locks fresh
  | CUnmap last => handler_unmap_locks last
  end.

Definition calls (cs : list call) : list instr := cs ≫= call_locks.

(** [lib::init]: the PICs, the interrupt flag, then paging and the heap. *)
Definition init_locks : list instr :=
  locked PICS_lock [] ++ [Enable] ++ paging_locks ++ alloc_locks.

(** [apic_init]: the calls of the [\_PIC] method and those of mapping the local APIC,
    the handover, and the calls for the IO APICs. *)
Definition apic_init_locks (pic ioapics : list call) : list instr :=
  without_interrupts (calls pic ++ paging_locks ++ locked PICS_lock [] ++ calls ioapics).

(** [kernel_main]: a message, initialisation, the ACPI tables, the handover, and the
    devices and the shutdown. *)
Definition kernel_main_locks (tables pic ioapics devices : list call) : list instr :=
  print_locks ++ init_locks ++ calls tables ++ apic_init_locks pic ioapics ++ calls devices.

(** ** Execution on one processor *)

(** The flag, the flags saved by the running code, the locks that are held, the
    code still to run, and the code and saved flags of what was interrupted. *)
Record cpu : Type := mkCpu {
  flag : bool;
  saved : list bool;
  held : gset lock;
  code : list instr;
  frames : list (list instr * list bool);
}.

Inductive step (handlers : list (list instr)) : cpu → cpu → Prop :=
  | step_lock b sv X l k fs : l ∉ X →
      step handlers (mkCpu b sv X (Lock l :: k) fs) (mkCpu b sv ({[l]} ∪ X) k fs)
  | step_unlock b sv X l k fs :
      step handlers (mkCpu b sv X (Unlock l :: k) fs) (mkCpu b sv (X ∖ {[l]}) k fs)
  | step_save b sv X k fs :
      step handlers (mkCpu b sv X (SaveDisable :: k) fs) (mkCpu false (b :: sv) X k fs)
  | step_restore b b' sv X k fs :
      step handlers (mkCpu b (b' :: sv) X (Restore :: k) fs) (mkCpu b' sv X k fs)
  | step_enable b sv X k fs :
      step handlers (mkCpu b sv X (Enable :: k) fs) (mkCpu true sv X k fs)
  | step_try_free b sv X l n k fs : l ∉ X →
      step handlers (mkCpu b sv X (TryLock l n :: k) fs) (mkCpu b sv ({[l]} ∪ X) k fs)
  | step_try_busy b sv X l n k fs : l ∈ X →
      step handlers (mkCpu b sv X (TryLock l n :: k) fs) (mkCpu b sv X (drop n k) fs)
  (** An interrupt is delivered while the flag is set; the gate clears it. *)
  | step_interrupt sv X k fs h : h ∈ handlers →
      step handlers (mkCpu true sv X k fs) (mkCpu false [] X h ((k, sv) :: fs))
  (** The end of a handler. *)
  | step_return b sv X k sv' fs :
      step handlers (mkCpu b sv X [] ((k, sv') :: fs)) (mkCpu true sv' X k fs).

Definition boot (program : list instr) : cpu := mkCpu false [] ∅ program [].

(** The code spins on a lock that nobody will release. *)
Definition deadlocked (c : cpu) : Prop := ∃ l k, code c = Lock l :: k ∧ l ∈ held c.

(** Nothing is left to run. *)
Definition finished (c : cpu) : Prop := code c = [] ∧ frames c = [].

(** ** The discipline *)

(** [H] is the set of locks that handlers take.  The checker runs code on the flag,
    the saved flags and the set of its own locks: while the flag is set no lock of
    [H] may be held; a handler takes only locks of [H]. *)
Section discipline.
Context (H : gset lock).

Notation abstract := (bool * list bool * gset lock)%type (only parsing).

Definition quiet (b : bool) (X : gset lock) : bool := negb b || bool_decide (X ∩ H = ∅).

Definition check_instr (handler : bool) (i : instr) (st : abstract) : option abstract :=
  let '(b, sv, X) := st in
  match i with
  | Lock l =>
      if bool_decide (l ∉ X) && (negb handler || bool_decide (l ∈ H)) && quiet b {[l]}
      then Some (b, sv, {[l]} ∪ X) else None
  | Unlock l => if bool_decide (l ∈ X) then Some (b, sv, X ∖ {[l]}) else None
  | SaveDisable => Some (false, b :: sv, X)
  | Restore =>
      match sv with
      | b' :: sv' => if quiet b' X then Some (b', sv', X) else None
      | [] => None
      end
  | Enable => if quiet true X then Some (true, sv, X) else None
  | TryLock _ _ => None
  end.

Fixpoint check (handler : bool) (k : list instr) (st : abstract) : option abstract :=
  match k with
  | [] => Some st
  | i :: k' => st' ← check_instr handler i st; check handler k' st'
  end.

(** The code runs to its end and gives back all its locks. *)
Definition typed (handler : bool) (k : list instr) (st : abstract) : Prop :=
  ∃ b, check handler k st = Some (b, [], ∅).

(** What was interrupted: it holds no lock of [H], and can go on with the flag set. *)
Inductive parked : gset lock → list (list instr * list bool) → Prop :=
  | parked_nil : parked ∅ []
  | parked_cons k sv fs X Y :
      X ∩ H = ∅ → typed (negb (bool_decide (fs = []))) k (true, sv, X) →
      (fs ≠ [] → X ⊆ H) → parked Y fs → parked (X ∪ Y) ((k, sv) :: fs).

Definition disciplined (c : cpu) : Prop :=
  ∃ X Y, held c = X ∪ Y ∧ quiet (flag c) X = true ∧
    typed (negb (bool_decide (frames c = []))) (code c) (flag c, saved c, X) ∧
    (frames c ≠ [] → X ⊆ H) ∧ parked Y (frames c).

Lemma parked_quiet Y fs : parked Y fs → Y ∩ H = ∅.
Proof.
  induction 1 as [|k sv fs X Y HX _ _ _ IH]; [set_solver|]. rewrite intersection_union_r_L. set_solver.
Qed.

Lemma quiet_spec b X : quiet b X = true ↔ (b = true → X ∩ H = ∅).
Proof. unfold quiet. destruct b; simpl; [rewrite bool_decide_eq_true|]; naive_solver. Qed.

Lemma typed_cons hd i k st : typed hd (i :: k) st →
  ∃ st', check_instr hd i st = Some st' ∧ typed hd k st'.
Proof.
  intros [b Hb]. simpl in Hb. destruct (check_instr hd i st) as [st'|] eqn:E; [|done].
  exists st'. split; [done|]. by exists b.
Qed.

Lemma check_lock hd l b sv X st : check_instr hd (Lock l) (b, sv, X) = Some st →
  l ∉ X ∧ (hd = true → l ∈ H) ∧ quiet b {[l]} = true ∧ st = (b, sv, {[l]} ∪ X).
Proof.
  simpl. case_bool_decide as Hl; [|done]. destruct (quiet b {[l]}); [|by rewrite andb_false_r].
  destruct hd; simpl; [case_bool_decide as Hin|]; intros [= <-]; naive_solver.
Qed.

Lemma check_unlock hd l b sv X st : check_instr hd (Unlock l) (b, sv, X) = Some st →
  l ∈ X ∧ st = (b, sv, X ∖ {[l]}).
Proof. simpl. case_bool_decide; [by intros [= <-]|done]. Qed.

Lemma check_restore hd b sv X st : check_instr hd Restore (b, sv, X) = Some st →
  ∃ b' sv', sv = b' :: sv' ∧ quiet b' X = true ∧ st = (b', sv', X).
Proof.
  simpl. destruct sv as [|b' sv']; [done|]. destruct (quiet b' X) eqn:E; [|done].
  intros [= <-]. by exists b', sv'.
Qed.

Lemma check_enable hd b sv X st : check_instr hd Enable (b, sv, X) = Some st →
  quiet true X = true ∧ st = (true, sv, X).
Proof.
  unfold check_instr. destruct (quiet true X); [|done]. by intros [= <-].
Qed.

(** A lock that the running code may take is free of the interrupted code. *)
Lemma parked_disjoint Y fs l : parked Y fs → (fs ≠ [] → l ∈ H) → l ∉ Y.
Proof.
  intros Hp Hl HlY. destruct fs as [|f fs].
  - inversion Hp; subst. set_solver.
  - apply parked_quiet in Hp. specialize (Hl ltac:(done)). set_solver.
Qed.

Lemma handler_frame (fs : list (list instr * list bool)) :
  negb (bool_decide (fs = [])) = true ↔ fs ≠ [].
Proof. rewrite negb_true_iff. apply bool_decide_eq_false. Qed.

Lemma disciplined_free c : disciplined c → ¬ deadlocked c.
Proof.
  intros (X & Y & Eh & _ & Ht & HX & Hp) (l & k & Ec & Hl). rewrite Ec in Ht.
  apply typed_cons in Ht as (st & (Hn & Hin & _ & _)%check_lock & _).
  assert (l ∉ Y); [|set_solver]. eapply parked_disjoint; [done|]. intros Hfs.
  by apply Hin, handler_frame.
Qed.

Context (handlers : list (list instr)).
Hypothesis handlers_typed : ∀ h, h ∈ handlers → typed true h (false, [], ∅).

Lemma step_disciplined c c' : step handlers c c' → disciplined c → disciplined c'.
Proof.
  intros Hs (X & Y & Eh & Hq & Ht & HX & Hp).
  destruct Hs as [b sv Z l k fs Hl|b sv Z l k fs|b sv Z k fs|b b' sv Z k fs|b sv Z k fs
    |b sv Z l n k fs Hl|b sv Z l n k fs Hl|sv Z k fs h Hh|b sv Z k sv' fs]; simpl in *; subst Z.
  - apply typed_cons in Ht as (st & (Hn & Hin & Hql & ->)%check_lock & Ht).
    exists ({[l]} ∪ X), Y. split_and!; simpl; [set_solver| |done| |done].
    + rewrite quiet_spec in *. intros Hb. specialize (Hq Hb). specialize (Hql Hb). set_solver.
    + intros Hfs. specialize (HX Hfs). apply handler_frame, Hin in Hfs. set_solver.
  - apply typed_cons in Ht as (st & [Hn ->]%check_unlock & Ht).
    assert (l ∉ Y) by (eapply parked_disjoint; [done|]; intros Hfs; by apply (HX Hfs)).
    exists (X ∖ {[l]}), Y. split_and!; simpl; [set_solver| |done|set_solver|done].
    rewrite quiet_spec in *. intros Hb. specialize (Hq Hb). set_solver.
  - apply typed_cons in Ht as (st & [= <-] & Ht). by exists X, Y.
  - apply typed_cons in Ht as (st & (b1 & sv1 & [= <- <-] & Hq' & ->)%check_restore & Ht).
    by exists X, Y.
  - apply typed_cons in Ht as (st & [Hq' ->]%check_enable & Ht). by exists X, Y.
  - by apply typed_cons in Ht as (st & ? & Ht).
  - by apply typed_cons in Ht as (st & ? & Ht).
  - rewrite quiet_spec in Hq. exists ∅, (X ∪ Y). split_and!; simpl; [set_solver|done| |done|].
    + by apply handlers_typed.
    + constructor; auto.
  - destruct Ht as [b0 [= -> -> ->]]. inversion Hp as [|k1 sv1 fs1 X1 Y1 H1 H2 H3 H4]; subst.
    exists X1, Y1. split_and!; simpl; [set_solver|by apply quiet_spec|done|done|done].
Qed.

Lemma disciplined_progress c : disciplined c → finished c ∨ ∃ c', step handlers c c'.
Proof.
  intros Hd. pose proof (disciplined_free c Hd) as Hfree. destruct Hd as (X & Y & _ & _ & Ht & _ & _).
  destruct c as [b sv Z k fs]. simpl in *. destruct k as [|i k].
  - destruct fs as [|[k sv'] fs]; [by left|right]. eexists. constructor.
  - right. apply typed_cons in Ht as (st & Hc & _). destruct i as [l|l| | | |l n].
    + eexists. constructor. intros Hin. apply Hfree. by exists l, k.
    + eexists. constructor.
    + eexists. constructor.
    + apply check_restore in Hc as (b' & sv' & -> & _ & _). eexists. constructor.
    + eexists. constructor.
    + done.
Qed.

(** Disciplined code never deadlocks, whatever interrupts arrive. *)
Lemma reachable_disciplined c c' : rtc (step handlers) c c' → disciplined c → disciplined c'.
Proof. induction 1; [done|]. intros Hd. eauto using step_disciplined. Qed.

Lemma boot_disciplined program : typed false program (false, [], ∅) → disciplined (boot program).
Proof. intros Ht. exists ∅, ∅. split_and!; simpl; [set_solver|done|done|done|constructor]. Qed.
End discipline.

(** ** The kernel follows the discipline *)

(** The locks that the handlers of the timer and the keyboard take. *)
Definition handler_locks : gset lock := {[PICS_lock; KEYBOARD_lock; WRITER_lock]}.

Definition kernel_handlers : list (list instr) :=
  [timer_locks; keyboard_locks false; keyboard_locks true].

Lemma kernel_handlers_typed h : h ∈ kernel_handlers → typed handler_locks true h (false, [], ∅).
Proof.
  intros Hh. exists false.
  repeat (apply elem_of_cons in Hh as [->|Hh]; [by vm_compute|]). by apply not_elem_of_nil in Hh.
Qed.

(** Closed questions about sets of locks are decided. *)
Ltac decide_locks := apply (bool_decide_unpack _); by vm_compute.

Section neutral_code.
Notation check := (check handler_locks false).
Notation quiet := (quiet handler_locks).

Lemma check_app k1 k2 st : check (k1 ++ k2) st = check k1 st ≫= check k2.
Proof.
  revert st. induction k1 as [|i k1 IH]; intros st; simpl; [done|].
  destruct (check_instr _ _ _ _) as [st'|]; simpl; [apply IH|done].
Qed.

Lemma check_then k1 k2 st st' : check k1 st = Some st' → check (k1 ++ k2) st = check k2 st'.
Proof. rewrite check_app. by intros ->. Qed.

(** Code that only takes locks of [N] and gives them back, run with the flag clear,
    or with any flag. *)
Definition neutral_off (N : gset lock) (k : list instr) : Prop :=
  ∀ sv X, X ## N → check k (false, sv, X) = Some (false, sv, X).
Definition neutral (N : gset lock) (k : list instr) : Prop :=
  ∀ b sv X, X ## N → quiet b X = true → check k (b, sv, X) = Some (b, sv, X).

Lemma neutral_nil N : neutral N [].
Proof. done. Qed.

Lemma neutral_app N k1 k2 : neutral N k1 → neutral N k2 → neutral N (k1 ++ k2).
Proof. intros H1 H2 b sv X HX Hq. rewrite check_app, H1 by done. simpl. by apply H2. Qed.

Lemma neutral_off_app N k1 k2 : neutral_off N k1 → neutral_off N k2 → neutral_off N (k1 ++ k2).
Proof. intros H1 H2 sv X HX. rewrite check_app, H1 by done. simpl. by apply H2. Qed.

Lemma neutral_weaken N N' k : neutral N k → N ⊆ N' → neutral N' k.
Proof. intros Hn HN b sv X HX. apply Hn. set_solver. Qed.

Lemma neutral_is_off N k : neutral N k → neutral_off N k.
Proof. intros Hn sv X HX. by apply Hn. Qed.

Lemma unlock_own (l : lock) (X : gset lock) : l ∉ X → ({[l]} ∪ X) ∖ {[l]} = X.
Proof. set_solver. Qed.

(** A critical section, with the flag clear or for a lock no handler takes. *)
Lemma neutral_off_locked N l k : neutral_off N k → l ∉ N → neutral_off ({[l]} ∪ N) (locked l k).
Proof.
  intros Hk Hl sv X HX. unfold locked. simpl. rewrite bool_decide_true by set_solver. simpl.
  rewrite check_app, Hk by set_solver. simpl. rewrite bool_decide_true by set_solver.
  simpl. by rewrite unlock_own by set_solver.
Qed.

Lemma neutral_locked N l k : neutral N k → l ∉ N → l ∉ handler_locks →
  neutral ({[l]} ∪ N) (locked l k).
Proof.
  intros Hk Hl HlH b sv X HX Hq. unfold locked. simpl. rewrite bool_decide_true by set_solver. simpl.
  assert (quiet b {[l]} = true) as ->.
  { apply quiet_spec. intros _. set_solver. }
  simpl. rewrite check_app, Hk; [|set_solver|].
  - simpl. rewrite bool_decide_true by set_solver. simpl. by rewrite unlock_own by set_solver.
  - rewrite quiet_spec in *. intros Hb. specialize (Hq Hb). set_solver.
Qed.

Lemma neutral_without N k : neutral_off N k → neutral N (without_interrupts k).
Proof.
  intros Hk b sv X HX Hq. unfold without_interrupts. simpl. rewrite check_app, Hk by done.
  simpl. by rewrite Hq.
Qed.

(** All the locks. *)
Definition all_locks : gset lock :=
  {[PICS_lock; WRITER_lock; SERIAL1_lock; PAGING_CTX_lock; KEYBOARD_lock; ALLOCATOR_lock;
    Handler_lock]}.

Lemma neutral_leaf l : l ∉ handler_locks → neutral {[l]} (locked l []).
Proof.
  intros Hl. eapply neutral_weaken; [apply (neutral_locked ∅); [apply neutral_nil|set_solver|done]|].
  set_solver.
Qed.

Lemma neutral_off_leaf l : neutral_off {[l]} (locked l []).
Proof.
  intros sv X HX. apply (neutral_off_locked ∅); [apply neutral_is_off, neutral_nil|set_solver|set_solver].
Qed.

Lemma neutral_print : neutral {[WRITER_lock]} print_locks.
Proof. apply neutral_without, neutral_off_leaf. Qed.

Lemma neutral_serial : neutral {[SERIAL1_lock]} serial_print_locks.
Proof. apply neutral_without, neutral_off_leaf. Qed.

Lemma neutral_log file line : neutral {[SERIAL1_lock]} (log_locks file line).
Proof.
  unfold log_locks. destruct file, line; repeat apply neutral_app;
    apply neutral_serial || apply neutral_nil.
Qed.

Lemma neutral_handler (fresh : bool) k1 k2 :
  (k1 = alloc_locks ∨ k1 = paging_locks) → (k2 = alloc_locks ∨ k2 = paging_locks) →
  neutral all_locks (locked Handler_lock (if fresh then k1 ++ k2 else [])).
Proof.
  assert (∀ k, k = alloc_locks ∨ k = paging_locks →
    neutral {[ALLOCATOR_lock; PAGING_CTX_lock]} k) as Hleaf.
  { intros k [->| ->]; (eapply neutral_weaken; [apply neutral_leaf; decide_locks|decide_locks]). }
  intros H1 H2. eapply neutral_weaken.
  - apply (neutral_locked {[ALLOCATOR_lock; PAGING_CTX_lock]}); [|decide_locks|decide_locks].
    destruct fresh; [apply neutral_app; by apply Hleaf|apply neutral_nil].
  - decide_locks.
Qed.

Lemma neutral_call c : neutral all_locks (call_locks c).
Proof.
  destruct c as [|file line| | |fresh|last]; simpl.
  - eapply neutral_weaken; [apply neutral_print|decide_locks].
  - eapply neutral_weaken; [apply neutral_log|decide_locks].
  - eapply neutral_weaken; [apply neutral_leaf; decide_locks|decide_locks].
  - eapply neutral_weaken; [apply neutral_leaf; decide_locks|decide_locks].
  - apply neutral_handler; auto.
  - apply neutral_handler; auto.
Qed.

Lemma neutral_calls cs : neutral all_locks (calls cs).
Proof.
  unfold calls. induction cs as [|c cs IH]; simpl; [apply neutral_nil|].
  apply neutral_app; [apply neutral_call|done].
Qed.

Lemma neutral_apic_init pic ioapics : neutral all_locks (apic_init_locks pic ioapics).
Proof.
  apply neutral_without, neutral_off_app; [apply neutral_is_off, neutral_calls|].
  apply neutral_off_app.
  - apply neutral_is_off. eapply neutral_weaken; [apply neutral_leaf; decide_locks|decide_locks].
  - apply neutral_off_app; [|apply neutral_is_off, neutral_calls].
    intros sv X HX. apply neutral_off_leaf. set_solver.
Qed.

Lemma kernel_main_typed tables pic ioapics devices :
  typed handler_locks false (kernel_main_locks tables pic ioapics devices) (false, [], ∅).
Proof.
  exists true. unfold kernel_main_locks.
  rewrite (check_then _ _ _ (false, [], ∅)) by (apply neutral_print; [set_solver|done]).
  rewrite (check_then _ _ _ (true, [], ∅)) by (by vm_compute).
  apply (neutral_app all_locks); [apply neutral_calls| |set_solver|done].
  apply neutral_app; [apply neutral_apic_init|apply neutral_calls].
Qed.
End neutral_code.

(** ** The page-fault handler *)

(** Its lock operations: four lines, and, when paging is up and its lock is free,
    the lines of the translation under the lock. *)
Definition prints (n : nat) : list instr := concat (replicate n print_locks).
Definition page_fault_locks (paging_up : bool) (lines : nat) : list instr :=
  prints 4 ++
  (if paging_up then TryLock PAGING_CTX_lock (length (prints lines) + 1) ::
     prints lines ++ [Unlock PAGING_CTX_lock]
   else []).

(** A page fault does not wait for the flag. *)
Definition fault (h : list instr) (c : cpu) : cpu :=
  mkCpu false [] (held c) h ((code c, saved c) :: frames c).

Section page_faults.
Context (handlers : list (list instr)).
Notation steps := (rtc (step handlers)).

Lemma run_print sv X k fs : WRITER_lock ∉ X →
  steps (mkCpu false sv X (print_locks ++ k) fs) (mkCpu false sv X k fs).
Proof.
  intros HW. unfold print_locks, without_interrupts, locked. simpl.
  eapply rtc_l; [constructor|]. eapply rtc_l; [by constructor|]. eapply rtc_l; [constructor|].
  rewrite unlock_own by done. eapply rtc_l; [constructor|]. apply rtc_refl.
Qed.

Lemma run_prints n sv X k fs : WRITER_lock ∉ X →
  steps (mkCpu false sv X (prints n ++ k) fs) (mkCpu false sv X k fs).
Proof.
  intros HW. induction n as [|n IH]; [apply rtc_refl|].
  change (prints (S n)) with (print_locks ++ prints n). rewrite <-app_assoc. etrans; [by apply run_print|done].
Qed.

Lemma run_page_fault paging_up lines sv X fs : WRITER_lock ∉ X →
  steps (mkCpu false sv X (page_fault_locks paging_up lines) fs) (mkCpu false sv X [] fs).
Proof.
  intros HW. unfold page_fault_locks. etrans; [by apply run_prints|].
  destruct paging_up; [|apply rtc_refl].
  destruct (decide (PAGING_CTX_lock ∈ X)) as [Hp|Hp].
  - eapply rtc_l; [by apply step_try_busy|].
    rewrite drop_ge by (rewrite length_app; simpl; lia). apply rtc_refl.
  - eapply rtc_l; [by apply step_try_free|]. etrans; [apply run_prints; set_solver|].
    eapply rtc_l; [constructor|]. rewrite unlock_own by done. apply rtc_refl.
Qed.
End page_faults.

(** ** Properties *)

(** C3. No deadlock: whatever the ACPI tables, the AML code and the devices make the
    kernel call, and whenever timer and keyboard interrupts arrive, no reachable
    state spins on a held lock, and a state that is not the end can make a step. *)
Theorem kernel_never_deadlocks tables pic ioapics devices c :
  rtc (step kernel_handlers) (boot (kernel_main_locks tables pic ioapics devices)) c →
  ¬ deadlocked c ∧ (finished c ∨ ∃ c', step kernel_handlers c c').
Proof.
  intros Hr. assert (disciplined handler_locks c) as Hd.
  { eapply reachable_disciplined; [apply kernel_handlers_typed|exact Hr|].
    apply boot_disciplined, kernel_main_typed. }
  split; [exact (disciplined_free _ c Hd)|exact (disciplined_progress _ _ c Hd)].
Qed.

(** C32. The page-fault report: it runs to its end, leaving the locks as they were,
    exactly when the faulting code does not hold the console's lock, even if it
    holds the paging lock; a fault inside the console's critical section spins for
    ever. *)
Theorem page_fault_report_locks handlers c paging_up lines :
  let h := fault (page_fault_locks paging_up lines) c in
  (WRITER_lock ∉ held c →
     rtc (step handlers) h (mkCpu false [] (held c) [] (frames h))) ∧
  (WRITER_lock ∈ held c → ∃ c', rtc (step handlers) h c' ∧ deadlocked c').
Proof.
  simpl. split.
  - intros HW. by apply run_page_fault.
  - intros HW. eexists. split; [eapply rtc_l; [constructor|apply rtc_refl]|].
    eexists _, _. split; [done|]. exact HW.
Qed.

(** ** Witnesses *)

Module LocksWitness.

Definition busy_machine : list call := [CLog true true; CMap true; CUnmap true; CPrint].

(** An interrupt right after the flag is set. *)
Lemma kernel_never_deadlocks_witness :
  ∃ c, rtc (step kernel_handlers) (boot (kernel_main_locks busy_machine [CMap true] [CPaging] [])) c ∧
    code c = timer_locks ∧ ¬ deadlocked c.
Proof.
  eexists. assert (∀ P Q : Prop, P → (P → Q) → P ∧ Q) as Hand by auto. apply Hand.
  - do 4 (eapply rtc_l; [constructor; decide_locks|]; simpl).
    do 3 (eapply rtc_l; [constructor; decide_locks|]; simpl).
    eapply rtc_l; [apply step_interrupt; by left|]. apply rtc_refl.
  - intros Hr. split; [done|]. exact (proj1 (kernel_never_deadlocks _ _ _ _ _ Hr)).
Defined.

(** A fault while the paging lock is held is reported; one inside a print is not. *)
Lemma page_fault_report_locks_witness :
  (∃ c', rtc (step []) (fault (page_fault_locks true 1) (mkCpu true [] {[PAGING_CTX_lock]} [] [])) c' ∧
     held c' = {[PAGING_CTX_lock]} ∧ code c' = []) ∧
  ∃ c', rtc (step []) (fault (page_fault_locks true 1) (mkCpu false [true] {[WRITER_lock]} [] [])) c' ∧
    deadlocked c'.
Proof.
  split.
  - eexists. split; [exact (proj1 (page_fault_report_locks []
      (mkCpu true [] {[PAGING_CTX_lock]} [] []) true 1)
      ltac:(apply (bool_decide_unpack _); vm_compute; exact I))|]. by split.
  - exact (proj2 (page_fault_report_locks [] (mkCpu false [true] {[WRITER_lock]} [] []) true 1)
      ltac:(apply (bool_decide_unpack _); vm_compute; exact I)).
Defined.
End LocksWitness.
