(* ===== verification/Format.v ===== *)
(** * Formatted text

    What [core::fmt] gives the kernel: a text is a list of bytes, and formatting
    passes it to the sink in pieces, one [write_str] call each.  Only the
    formats the sources use are here: literal text, decimal numbers, and the
    [{:#X}] of addresses and registers. *)

From S2P Require Import Prelude.
From stdpp Require Import pretty.
Local Open Scope Z_scope.

Notation bytes := (list Z) (only parsing).

(** The bytes of a literal. *)
Fixpoint text (s : string) : bytes :=
  match s with
  | EmptyString => []
  | String c s' => Z.of_N (Ascii.N_of_ascii c) :: text s'
  end.

Definition newline : bytes := [10].

(** [{}] of an unsigned number. *)
Definition decimal (n : Z) : bytes := text (pretty (Z.to_N n)).

(** [{:#X}] of a [w]-bit number: [w / 4] digits at most, none of them leading
    zeros except for the number zero. *)
Definition hex_digit (d : Z) : Z := if d <? 10 then 48 + d else 55 + d.

Fixpoint hex_digits (fuel : nat) (n : Z) (acc : bytes) : bytes :=
  match fuel with
  | O => acc
  | S fuel' =>
      let acc' := hex_digit (n mod 16) :: acc in
      if n <? 16 then acc' else hex_digits fuel' (n / 16) acc'
  end.

Definition upper_hex (w n : Z) : bytes := text "0x" ++ hex_digits (Z.to_nat (w / 4)) n [].

(** [write_fmt]: the sink gets the pieces in order until it refuses one. *)
Fixpoint write_pieces {S} (write_str : bytes → M S (Result unit unit)) (pieces : list bytes) :
    M S (Result unit unit) :=
  match pieces with
  | [] => mret (Ok tt)
  | s :: pieces' =>
      r ← write_str s;
      match r with
      | Ok _ => write_pieces write_str pieces'
      | Err e => mret (Err e)
      end
  end.

(** ** Facts *)

(** Reading hexadecimal digits back. *)
Definition digit_value (b : Z) : Z := if b <? 58 then b - 48 else b - 55.
Definition hex_value (ds : bytes) : Z := foldl (λ v b, v * 16 + digit_value b) 0 ds.

Lemma digit_value_hex d : 0 ≤ d < 16 → digit_value (hex_digit d) = d.
Proof.
  intros. unfold digit_value, hex_digit.
  destruct (d <? 10) eqn:E; [apply Z.ltb_lt in E|apply Z.ltb_ge in E].
  - rewrite (proj2 (Z.ltb_lt _ _)); lia.
  - rewrite (proj2 (Z.ltb_ge _ _)); lia.
Qed.

Lemma hex_digits_value fuel n acc : 0 ≤ n < 16 ^ Z.of_nat fuel → fuel ≠ 0%nat →
  foldl (λ v b, v * 16 + digit_value b) 0 (hex_digits fuel n acc) =
  foldl (λ v b, v * 16 + digit_value b) n acc.
Proof.
  revert n acc. induction fuel as [|fuel IH]; intros n acc Hn Hf; [done|]. cbn [hex_digits].
  assert (16 ^ Z.of_nat (S fuel) = 16 * 16 ^ Z.of_nat fuel) as E
    by (rewrite Nat2Z.inj_succ, Z.pow_succ_r; lia).
  destruct (Z.ltb_spec n 16) as [Hlt|Hge].
  - cbn [foldl]. rewrite digit_value_hex by lia. f_equal. lia.
  - assert (fuel ≠ 0%nat) by (intros ->; simpl in E; lia).
    rewrite IH by (try done; lia). cbn [foldl]. rewrite digit_value_hex by lia. f_equal. lia.
Qed.

(** A number of [w] bits is read back from its digits. *)
Lemma upper_hex_value w n : w = 64 ∨ w = 32 ∨ w = 16 → fits w n →
  hex_value (drop 2 (upper_hex w n)) = n.
Proof.
  intros Hw Hn. unfold upper_hex, hex_value. change (drop 2 (text "0x" ++ ?l)) with l.
  rewrite hex_digits_value; [done| |].
  - destruct Hw as [->|[->| ->]]; exact Hn.
  - destruct Hw as [->|[->| ->]]; done.
Qed.

Lemma upper_hex_inj w n n' : w = 64 ∨ w = 32 ∨ w = 16 → fits w n → fits w n' →
  upper_hex w n = upper_hex w n' → n = n'.
Proof.
  intros Hw Hn Hn' E. rewrite <-(upper_hex_value w n), <-(upper_hex_value w n') by done.
  by rewrite E.
Qed.

(** Hexadecimal digits end at any byte that is not one. *)
Definition hex_byte (b : Z) : bool := ((48 <=? b) && (b <? 58)) || ((65 <=? b) && (b <? 71)).

Lemma hex_digit_byte d : 0 ≤ d < 16 → hex_byte (hex_digit d) = true.
Proof.
  intros. unfold hex_byte, hex_digit. destruct (Z.ltb_spec d 10) as [E|E].
  - apply orb_true_iff. left. apply andb_true_iff. rewrite Z.leb_le, Z.ltb_lt. lia.
  - apply orb_true_iff. right. apply andb_true_iff. rewrite Z.leb_le, Z.ltb_lt. lia.
Qed.

Lemma hex_digits_bytes fuel n acc : 0 ≤ n → Forall (λ b, hex_byte b = true) acc →
  Forall (λ b, hex_byte b = true) (hex_digits fuel n acc).
Proof.
  revert n acc. induction fuel as [|fuel IH]; intros n acc Hn Ha; [done|]. cbn [hex_digits].
  assert (Forall (λ b, hex_byte b = true) (hex_digit (n mod 16) :: acc)).
  { constructor; [apply hex_digit_byte; lia|done]. }
  destruct (n <? 16); [done|]. apply IH; [lia|done].
Qed.

Lemma split_at_nonhex (l1 l2 r1 r2 : bytes) b1 b2 :
  Forall (λ b, hex_byte b = true) l1 → Forall (λ b, hex_byte b = true) l2 →
  hex_byte b1 = false → hex_byte b2 = false →
  l1 ++ b1 :: r1 = l2 ++ b2 :: r2 → l1 = l2 ∧ b1 :: r1 = b2 :: r2.
Proof.
  intros H1. revert l2. induction H1 as [|x l1 Hx H1 IH]; intros l2 H2 Hb1 Hb2 E.
  - destruct H2 as [|y l2 Hy H2]; [done|]. injection E as -> _. congruence.
  - destruct H2 as [|y l2 Hy H2]; [injection E as -> _; congruence|].
    injection E as -> E. by destruct (IH l2 H2 Hb1 Hb2 E) as [-> ->].
Qed.

(** A sink that appends what it accepts gets the whole text. *)
Lemma wp_write_pieces {S} (write_str : bytes → M S (Result unit unit)) (ok : bytes → Prop)
    (I : bytes → S → Prop) :
  (∀ s out st, ok s → I out st → wp (write_str s) (λ r st', r = Ok tt ∧ I (out ++ s) st') st) →
  ∀ pieces out st, Forall ok pieces → I out st →
  wp (write_pieces write_str pieces) (λ r st', r = Ok tt ∧ I (out ++ concat pieces) st') st.
Proof.
  intros Hw pieces. induction pieces as [|s pieces IH]; intros out st Hok HI; simpl.
  - apply wp_ret. by rewrite app_nil_r.
  - apply Forall_cons in Hok as [Hs Hok]. wp_step. eapply wp_mono; [by apply Hw|].
    intros r st' [-> HI']. rewrite (app_assoc out). by apply IH.
Qed.
