(* ===== verification/Serial.v ===== *)
(** * The serial port and the logger (src/serial.rs, src/logger.rs)

    [SERIAL1] is created and initialised at its first use; [_print] formats to it,
    and [Logger] prints one line per record.  The driver of the [uart_16550] crate
    and the filter of the [log] crate are parameters. *)

From S2P Require Import Prelude Format.
From stdpp Require Import pretty.
Local Open Scope Z_scope.

(** ** The crates *)

(** [SerialPort] is represented by its base port. *)
Class Uart (D : Type) : Type := {
  uart_init (base : Z) : M D unit;
  uart_write_str (base : Z) (s : bytes) : M D (Result unit unit);
}.

Inductive Level : Type := Error | Warn | Info | Debug | Trace.

#[export] Instance Level_eq_dec : EqDecision Level.
Proof. solve_decision. Defined.

(** [log::Record]: the target and the file are text, the message is the pieces of
    its format. *)
Record Record_ : Type := mkRecord {
  level : Level;
  target : bytes;
  file : option bytes;
  line : option Z;
  args : list bytes;
}.

(** The facade of the [log] crate: its state holds the logger and the level. *)
Class LogCrate (L : Type) : Type := {
  display_level : Level → bytes;
  set_logger : L → Result unit unit * L;
  set_max_level : Level → L → L;
  (** The macros pass a record of this level to the logger. *)
  passes : L → Level → bool;
}.

(** ** The code *)

Section code.
Context {D : Type} `{Uart D} {L : Type} `{LogCrate L}.

(** The static, not there before its first use, and the hardware. *)
Definition SerialState : Type := option Z * D.

Definition SERIAL1 : M SerialState Z :=
  s ← get;
  match s.1 with
  | Some port => mret port
  | None =>
      on_snd (uart_init 0x3F8) ≫= λ _,
      s' ← get;
      put (Some 0x3F8, s'.2) ≫= λ _,
      mret 0x3F8
  end.

Definition _print (pieces : list bytes) : M SerialState unit :=
  port ← SERIAL1;
  r ← write_pieces (λ s, on_snd (uart_write_str port s)) pieces;
  lift (expect_ok r "Printing to serial failed").

(** [serial_println!]: the new line is part of the format. *)
Definition serial_println (pieces : list bytes) : M SerialState unit := _print (pieces ++ [newline]).

Definition enabled (metadata : Level * bytes) : bool := true.

Definition log (record : Record_) : M SerialState unit :=
  if negb (enabled (level record, target record)) then mret tt
  else
    _print [text "["; display_level (level record); text "]["; target record; text "]"] ≫= λ _,
    match file record with
    | Some f =>
        _print [text "["; f] ≫= λ _,
        match line record with
        | Some n => _print [text ":"; decimal n]
        | None => mret tt
        end ≫= λ _,
        _print [text "]"]
    | None => mret tt
    end ≫= λ _,
    serial_println (args record).

Definition flush : M SerialState unit := mret tt.

(** [log::debug!], [log::info!] and the others. *)
Definition log_macro (l : L) (record : Record_) : M SerialState unit :=
  if passes l (level record) then log record else mret tt.
End code.

(** ** What the serial line does *)

(** The bytes sent, and the ports initialised so far.  The driver sends every byte
    as it is, except the two that stand for backspace. *)
Class SerialLine (D : Type) : Type := {
  sent : D → bytes;
  initialised : D → list Z;
}.

Definition plain (s : bytes) : Prop := Forall (λ b, b ≠ 8 ∧ b ≠ 0x7F) s.

#[export] Instance plain_dec s : Decision (plain s).
Proof. apply Forall_dec. intros b. apply _. Defined.

Class UartLaws (D : Type) `{Uart D, SerialLine D} : Prop := {
  uart_init_ok base h :
    wp (uart_init base) (λ _ h', sent h' = sent h ∧ initialised h' = initialised h ++ [base]) h;
  uart_write_ok base s h : base ∈ initialised h → plain s →
    wp (uart_write_str base s)
      (λ r h', r = Ok tt ∧ sent h' = sent h ++ s ∧ initialised h' = initialised h) h;
}.

Class LogCrateLaws (L : Type) `{LogCrate L} : Type := {
  logger_unset : L → Prop;
  set_logger_ok l : logger_unset l → (set_logger l).1 = Ok tt;
  passes_spec m v l : (set_logger l).1 = Ok tt →
    passes (set_max_level m (set_logger l).2) v =
    match v, m with
    | Error, _ => true
    | Warn, Error => false
    | Warn, _ => true
    | Info, (Error | Warn) => false
    | Info, _ => true
    | Debug, (Debug | Trace) => true
    | Debug, _ => false
    | Trace, Trace => true
    | Trace, _ => false
    end;
}.

(** The static is in step with the hardware: created once, on COM1. *)
Definition serial_ok {D} `{SerialLine D} (st : option Z * D) : Prop :=
  match st.1 with
  | None => initialised st.2 = []
  | Some port => port = 0x3F8 ∧ initialised st.2 = [0x3F8]
  end.

(** ** The line of a record *)

Definition location (record : Record_) : bytes :=
  match file record, line record with
  | Some f, Some n => text "[" ++ f ++ text ":" ++ decimal n ++ text "]"
  | Some f, None => text "[" ++ f ++ text "]"
  | None, _ => []
  end.

(** [[LEVEL][target][file:line]message] and a new line. *)
Definition record_line {L} `{LogCrate L} (record : Record_) : bytes :=
  text "[" ++ display_level (level record) ++ text "][" ++ target record ++ text "]" ++
  location record ++ concat (args record) ++ newline.

Lemma plain_app s1 s2 : plain (s1 ++ s2) ↔ plain s1 ∧ plain s2.
Proof. apply Forall_app. Qed.

Lemma plain_concat ps : plain (concat ps) → Forall plain ps.
Proof.
  induction ps as [|p ps IH]; [by constructor|]. cbn [concat]. rewrite plain_app.
  intros [? ?]. constructor; auto.
Qed.

(** Numbers are plain text. *)
Lemma plain_pretty_go x s : plain (text s) → plain (text (pretty_N_go x s)).
Proof.
  revert s. induction (N.lt_wf_0 x) as [x _ IH]; intros s Hs.
  destruct (decide (0 < x)%N) as [Hx|Hx].
  - rewrite pretty_N_go_step by done. apply IH; [apply N.div_lt; lia|].
    cbn [text]. constructor; [|done]. unfold pretty_N_char.
    repeat case_match; vm_compute; split; congruence.
  - replace x with 0%N by lia. by rewrite pretty_N_go_0.
Qed.

Lemma plain_decimal n : plain (decimal n).
Proof.
  unfold decimal. change (pretty (Z.to_N n)) with
    (if decide (Z.to_N n = 0%N) then "0"%string else pretty_N_go (Z.to_N n) "").
  case_decide; [apply (bool_decide_unpack _); by vm_compute|]. by apply plain_pretty_go; constructor.
Qed.

Section serial_facts.
Context {D : Type} `{UartLaws D}.
Implicit Types (st : option Z * D).

(** [st'] has created the port, initialised it once, and sent [out] more than [st]. *)
Definition sends (st : option Z * D) (out : bytes) (st' : option Z * D) : Prop :=
  (st'.1 = Some 0x3F8 ∧ initialised st'.2 = [0x3F8]) ∧ sent st'.2 = sent st.2 ++ out.

Lemma SERIAL1_run st : serial_ok st →
  wp SERIAL1 (λ port st', port = 0x3F8 ∧ sends st [] st') st.
Proof.
  destruct st as [[port|] h]; intros Hok; unfold SERIAL1, sends; rewrite app_nil_r.
  - destruct Hok as [-> Hi]. wp_step. apply wp_get. cbn [fst snd]. by apply wp_ret.
  - wp_step. apply wp_get. cbn [fst snd]. wp_step. apply wp_on_snd. eapply wp_mono; [apply uart_init_ok|].
    intros [] h' [Hs Hi]. wp_step. apply wp_get. wp_step. apply wp_put. apply wp_ret.
    simpl in *. by rewrite Hi, Hok.
Qed.

Lemma wp_serial_print pieces st : serial_ok st → plain (concat pieces) →
  wp (_print pieces) (λ _ st', sends st (concat pieces) st') st.
Proof.
  intros Hok Hp. unfold _print. wp_step. eapply wp_mono; [by apply SERIAL1_run|].
  intros port st1 [-> Hs1]. wp_step. eapply wp_mono.
  { apply (wp_write_pieces _ plain (λ out st2, sends st out st2)) with (out := []).
    - intros s out [o h] Hs [[E Hi] Hs2]. simpl in *. subst o.
      apply wp_on_snd. eapply wp_mono; [apply uart_write_ok; [rewrite Hi; by left|done]|].
      intros r h' (-> & Hs' & Hi'). split; [done|]. unfold sends. simpl.
      by rewrite Hi', Hs', Hs2, (assoc_L (++)).
    - by apply plain_concat.
    - done. }
  intros r st2 [-> Hs2]. by apply wp_lift with (a := tt).
Qed.

Lemma sends_ok st out st' : sends st out st' → serial_ok st'.
Proof. intros [[E Hi] _]. unfold serial_ok. by rewrite E. Qed.
End serial_facts.

(** ** Properties *)

Section logger_properties.
Context {D : Type} `{UartLaws D} {L : Type} `{LogCrate L}.
Implicit Types (st : option Z * D).

Ltac serial_step :=
  try wp_step;
  eapply wp_mono; [apply wp_serial_print; [by eauto using sends_ok|cbn [concat];
    rewrite ?concat_app, ?plain_app; cbn [concat]; rewrite ?plain_app; repeat split;
    (assumption || constructor)]|];
  let st := fresh "st" in let Hs := fresh "Hs" in intros [] st Hs.

(** The texts of a sequence of prints, put together. *)
Ltac serial_done :=
  unfold sends in *; destruct_and?; split; [done|];
  repeat match goal with E : sent _ = _ |- _ => rewrite E; clear E end;
  rewrite ?concat_app; cbn [concat]; rewrite ?app_nil_r, <-?(assoc_L (++)); done.

Lemma wp_log record st : serial_ok st → plain (record_line record) →
  wp (log record) (λ _ st', sends st (record_line record) st') st.
Proof.
  intros Hok. unfold record_line, location, log. rewrite !plain_app. cbn [enabled negb].
  destruct (file record) as [f|]; [destruct (line record) as [n|]|]; rewrite ?plain_app;
    intros Hp; destruct_and!; unfold serial_println.
  - serial_step. wp_step. serial_step. wp_step. serial_step. serial_step. serial_step. serial_done.
  - serial_step. wp_step. serial_step. wp_step. apply wp_ret. serial_step. serial_step. serial_done.
  - serial_step. wp_step. apply wp_ret. serial_step. serial_done.
Qed.

(** C33. The log on the wire: from any state of the port, logging a sequence of
    records returns and sends exactly their lines, in order, each as
    [[LEVEL][target][file:line]message] with the location left out when there is no
    file and the line number when there is none; the port is initialised once, at
    the first record. *)
Theorem log_sends_lines records st : serial_ok st → Forall (λ r, plain (record_line r)) records →
  wp (mfor records log)
    (λ _ st', sent st'.2 = sent st.2 ++ concat (record_line <$> records) ∧
       initialised st'.2 = match records with [] => initialised st.2 | _ => [0x3F8] end) st.
Proof.
  intros Hok Hp. revert st Hok. induction Hp as [|r records Hr Hp IH]; intros st Hok.
  - apply wp_ret. simpl. by rewrite app_nil_r.
  - cbn [mfor]. wp_step. eapply wp_mono; [by apply wp_log|]. intros [] st1 Hs.
    eapply wp_mono; [apply IH; by eapply sends_ok|]. intros [] st2 [E2 I2].
    destruct Hs as [[_ I1] E1]. rewrite E2, E1, fmap_cons. cbn [concat].
    rewrite <-(assoc_L (++)). split; [done|]. rewrite I2. destruct records; [exact I1|done].
Qed.
End logger_properties.

(** ** Witnesses *)

Module SerialWitness.

(** A line that records what it sends, beside the code the machine exits with. *)
Record wire : Type := mkWire {
  w_sent : bytes;
  w_init : list Z;
  w_exit : nat;
}.

#[export] Instance wire_Uart : Uart wire := {|
  uart_init base := λ h, Ret (tt, mkWire (w_sent h) (w_init h ++ [base]) (w_exit h));
  uart_write_str base s := λ h, Ret (Ok tt, mkWire (w_sent h ++ s) (w_init h) (w_exit h));
|}.

#[export] Instance wire_line : SerialLine wire := {| sent := w_sent; initialised := w_init |}.

Lemma wire_laws : @UartLaws wire wire_Uart wire_line.
Proof. by split. Qed.

(** The [log] crate: whether there is a logger, and the level. *)
Definition level_rank (l : Level) : Z :=
  match l with Error => 1 | Warn => 2 | Info => 3 | Debug => 4 | Trace => 5 end.

#[export] Instance demo_log : LogCrate (bool * Z) := {|
  display_level l := text match l with Error => "ERROR" | Warn => "WARN" | Info => "INFO"
    | Debug => "DEBUG" | Trace => "TRACE" end;
  set_logger '(set, m) := if set : bool then (Err tt, (set, m)) else (Ok tt, (true, m));
  set_max_level l '(set, _) := (set, level_rank l);
  passes '(set, m) l := set && bool_decide (level_rank l ≤ m);
|}.

#[export] Instance demo_log_laws : LogCrateLaws (bool * Z).
Proof.
  refine {| logger_unset := λ l, l.1 = false |}.
  - by intros [[] m] [=].
  - by intros [] [] [[] m].
Defined.

Definition demo_records : list Record_ := [
  mkRecord Debug (text "capucho_os::acpi") (Some (text "src/acpi.rs")) (Some 111)
    [text "Reading the acpi tables"];
  mkRecord Info (text "k") None (Some 7) [text "x = "; decimal 42]].

Definition demo_wire : option Z * wire := (None, mkWire [] [] 0).

Lemma log_sends_lines_witness : ∃ st',
  mfor demo_records (@log wire wire_Uart _ demo_log) demo_wire = Ret (tt, st') ∧
  w_sent st'.2 = text "[DEBUG][capucho_os::acpi][src/acpi.rs:111]Reading the acpi tables" ++ newline ++
    text "[INFO][k]x = 42" ++ newline ∧
  w_init st'.2 = [0x3F8].
Proof.
  destruct (wp_elim _ _ _ (@log_sends_lines wire _ _ wire_laws _ demo_log demo_records demo_wire
    eq_refl ltac:(apply (bool_decide_unpack _); vm_compute; exact I)))
    as ([] & st' & Hr & Hs & Hi).
  exists st'. split; [exact Hr|]. split; [etransitivity; [exact Hs|vm_compute; reflexivity]|exact Hi].
Defined.
End SerialWitness.
