(* ===== verification/Exceptions.v ===== *)
(** * Exceptions (src/gdt.rs and the exceptions of src/interrupts/mod.rs)

    The segments and the stack of the double-fault handler, the interrupt
    descriptor table, and the reports that the exception handlers print.  The
    tables of the [x86_64] crate and the processor they are loaded into are
    parameters, and so are the [Debug] formats of its types. *)

From S2P Require Import Prelude Platform FrameAllocator Vga Format Memory Interrupts.
Local Open Scope Z_scope.

(** ** Segments *)

Definition DOUBLE_FAULT_IST_INDEX : Z := 0.
Definition STACK_SIZE : Z := 4096 * 5.

(** A task state segment is its interrupt stack table here. *)
Notation TaskStateSegment := (list Z) (only parsing).

Inductive Descriptor : Type :=
  | KernelCodeSegment
  | TssSegment (tss : TaskStateSegment).

(** Descriptor tables of the [x86_64] crate, and the instructions that load them. *)
Class Segments (G C : Type) : Type := {
  TaskStateSegment_new : TaskStateSegment;
  GlobalDescriptorTable_new : G;
  add_entry : Descriptor → G → outcome (Z * G);
  gdt_load : G → M C unit;
  set_cs : Z → M C unit;
  load_tss : Z → M C unit;
}.

Record Selectors : Type := mkSelectors {
  code_selector : Z;
  tss_selector : Z;
}.

Section segments.
Context `{Addresses} {G C : Type} `{Segments G C}.

(** [STACK] is the address of the static array. *)
Definition TSS (STACK : Z) : outcome TaskStateSegment :=
  let tss := TaskStateSegment_new in
  stack_start ← VirtAddr_new STACK;
  stack_end ← VirtAddr_add stack_start STACK_SIZE;
  _ ← index tss DOUBLE_FAULT_IST_INDEX;
  Ret (<[Z.to_nat DOUBLE_FAULT_IST_INDEX := stack_end]> tss).

Definition GDT (STACK : Z) : outcome (G * Selectors) :=
  let gdt := GlobalDescriptorTable_new in
  '(code, gdt1) ← add_entry KernelCodeSegment gdt;
  tss ← TSS STACK;
  '(tss_sel, gdt2) ← add_entry (TssSegment tss) gdt1;
  Ret (gdt2, mkSelectors code tss_sel).

Definition gdt_init (STACK : Z) : M C unit :=
  '(gdt, selectors) ← lift (GDT STACK);
  gdt_load gdt ≫= λ _,
  set_cs (code_selector selectors) ≫= λ _,
  load_tss (tss_selector selectors).
End segments.

(** ** The interrupt descriptor table *)

Inductive handler : Type :=
  | breakpoint_handler_fn
  | page_fault_handler_fn
  | double_fault_handler_fn
  | timer_interrupt_handler_fn
  | keyboard_interrupt_handler_fn.

Record Entry : Type := mkEntry {
  handler_fn : handler;
  stack_index : option Z;
}.

(** The fields of the table that have a name. *)
Inductive idt_field : Type := breakpoint | page_fault | double_fault.

Class DescriptorTable (I C : Type) : Type := {
  InterruptDescriptorTable_new : I;
  set_field : idt_field → Entry → I → I;
  (** [idt[i]], assigned to. *)
  set_index : Z → Entry → I → outcome I;
  idt_load : I → M C unit;
}.

Section idt.
Context {I C : Type} `{DescriptorTable I C}.

Definition IDT : outcome I :=
  let idt := InterruptDescriptorTable_new in
  let idt := set_field breakpoint (mkEntry breakpoint_handler_fn None) idt in
  let idt := set_field page_fault (mkEntry page_fault_handler_fn None) idt in
  let idt := set_field double_fault
    (mkEntry double_fault_handler_fn (Some DOUBLE_FAULT_IST_INDEX)) idt in
  idt ← set_index (InterruptIndex_as_u8 Timer) (mkEntry timer_interrupt_handler_fn None) idt;
  set_index (InterruptIndex_as_u8 Keyboard) (mkEntry keyboard_interrupt_handler_fn None) idt.

Definition init_idt : M C unit :=
  idt ← lift IDT;
  idt_load idt.
End idt.

(** ** The handlers *)

Record InterruptStackFrame : Type := mkFrame {
  instruction_pointer : Z;
  code_segment : Z;
  cpu_flags : Z;
  stack_pointer : Z;
  stack_segment : Z;
}.

(** The formats of the types of the [x86_64] crate, as pieces of text. *)
Class ReportFormats : Type := {
  debug_frame : InterruptStackFrame → list bytes;
  debug_virt_addr : Z → list bytes;
  debug_error_code : Z → list bytes;
  debug_page_flags : PageTableFlags → list bytes;
  upper_hex_phys_addr : Z → list bytes;
  RFlags_from_bits_truncate : Z → Z;
  debug_rflags : Z → list bytes;
}.

(** A function that does not return ends in [hlt_loop]. *)
Inductive never : Type := hlt_loop.

(** [println!] of the console. *)
Definition println (pieces : list bytes) : M Writer unit := Vga._print (pieces ++ [newline]).

Section handlers.
Context `{ReportFormats} {T : Type} `{Translate T}.

Definition breakpoint_handler (stack_frame : InterruptStackFrame) : M Writer unit :=
  println ([text "EXCEPTION: BREAKPOINT"; newline] ++ debug_frame stack_frame).

Definition stack_frame_display (frame : InterruptStackFrame) : list bytes :=
  [text "IP: "; upper_hex 64 (instruction_pointer frame); newline] ++
  [text "CS: "; upper_hex 64 (code_segment frame); newline] ++
  [text "SP: "; upper_hex 64 (stack_pointer frame); newline] ++
  [text "SS: "; upper_hex 64 (stack_segment frame); newline] ++
  [text "RFLAGS: "] ++ debug_rflags (RFlags_from_bits_truncate (cpu_flags frame)).

(** [PAGING_CTX.get().and_then(|ctx| ctx.try_lock())] *)
Definition try_lock_ctx (lock_free : bool) (ctx : PagingState T) : option (PagingContext T) :=
  if lock_free then ctx else None.

(** [cr2] is the value of the register and [lock_free] says whether nobody holds the
    paging context. *)
Definition page_fault_handler (cr2 : Z) (lock_free : bool) (stack_frame : InterruptStackFrame)
    (error_code : Z) : M (Writer * PagingState T) never :=
  let addr := cr2 in
  on_fst (println [text "EXCEPTION: PAGE FAULT"]) ≫= λ _,
  on_fst (println ([text "Accessed Address: "] ++ debug_virt_addr addr)) ≫= λ _,
  on_fst (println ([text "Error Code: "] ++ debug_error_code error_code)) ≫= λ _,
  on_fst (println (stack_frame_display stack_frame)) ≫= λ _,
  s ← get;
  match try_lock_ctx lock_free s.2 with
  | Some ctx =>
      match translate ctx.1 addr with
      | Mapped frame flags =>
          on_fst (println ([text "FRAME: "] ++ upper_hex_phys_addr frame ++ [text " "])) ≫= λ _,
          on_fst (println ([text "FLAGS: "] ++ debug_page_flags flags ++ [text " "]))
      | NotMapped => on_fst (println [text "NOT MAPPED"])
      | InvalidTable _ => on_fst (println [text "INVALID PAGE TABLE"])
      end
  | None => mret tt
  end ≫= λ _,
  mret hlt_loop.

(** The message of the panic that the double-fault handler is. *)
Definition double_fault_handler (stack_frame : InterruptStackFrame) : list bytes :=
  [text "EXCEPTION: DOUBLE FAULT"; newline] ++ debug_frame stack_frame.
End handlers.

(** ** The processor *)

(** Entries a descriptor takes in the table. *)
Definition slots (d : Descriptor) : Z := match d with KernelCodeSegment => 1 | TssSegment _ => 2 end.

Definition field_vector (f : idt_field) : Z :=
  match f with breakpoint => 3 | double_fault => 8 | page_fault => 14 end.

(** What the tables hold and which of them the processor uses. *)
Class Processor (G I C : Type) : Type := {
  descriptor : G → Z → option Descriptor;
  room : G → Z;
  gate : I → Z → option Entry;
  gdtr : C → option G;
  cs : C → Z;
  tr : C → Z;
  idtr : C → option I;
}.

(** A segment register is loaded with a selector of a descriptor of its kind; the
    vectors below 32 belong to the exceptions. *)
Class ProcessorLaws (G I C : Type) `{Segments G C, DescriptorTable I C, Processor G I C} : Prop := {
  tss_new_stacks : length TaskStateSegment_new = 7%nat;
  gdt_new_room : room GlobalDescriptorTable_new = 7;
  add_entry_ok d g : slots d ≤ room g → ∃ sel g', add_entry d g = Ret (sel, g') ∧
    descriptor g' sel = Some d ∧ room g' = room g - slots d ∧
    (∀ s d', descriptor g s = Some d' → descriptor g' s = Some d');
  gdt_load_ok g c : wp (gdt_load g) (λ _ c', gdtr c' = Some g) c;
  set_cs_ok g sel c : gdtr c = Some g → descriptor g sel = Some KernelCodeSegment →
    wp (set_cs sel) (λ _ c', gdtr c' = Some g ∧ cs c' = sel) c;
  load_tss_ok g sel tss c : gdtr c = Some g → descriptor g sel = Some (TssSegment tss) →
    wp (load_tss sel) (λ _ c', gdtr c' = Some g ∧ cs c' = cs c ∧ tr c' = sel) c;
  gate_new v : gate InterruptDescriptorTable_new v = None;
  gate_field f e i v : gate (set_field f e i) v =
    if bool_decide (v = field_vector f) then Some e else gate i v;
  gate_index n e i : 32 ≤ n < 256 → ∃ i', set_index n e i = Ret i' ∧
    ∀ v, gate i' v = if bool_decide (v = n) then Some e else gate i v;
  idt_load_ok i c : wp (idt_load i)
    (λ _ c', idtr c' = Some i ∧ gdtr c' = gdtr c ∧ cs c' = cs c ∧ tr c' = tr c) c;
}.

(** The entry of a vector, and the stack its handler starts on when it is not the
    one that was interrupted. *)
Definition vector_entry {G I C} `{Processor G I C} (c : C) (v : Z) : option Entry :=
  idt ← idtr c; gate idt v.

Definition task_state {G I C} `{Processor G I C} (c : C) : option TaskStateSegment :=
  gdt ← gdtr c;
  match descriptor gdt (tr c) with Some (TssSegment tss) => Some tss | _ => None end.

Definition vector_stack {G I C} `{Processor G I C} (c : C) (v : Z) : option Z :=
  e ← vector_entry c v;
  i ← stack_index e;
  tss ← task_state c;
  tss !! Z.to_nat i.

(** The table the kernel means to have. *)
Definition kernel_gate (v : Z) : option Entry :=
  if bool_decide (v = 3) then Some (mkEntry breakpoint_handler_fn None)
  else if bool_decide (v = 8) then Some (mkEntry double_fault_handler_fn (Some 0))
  else if bool_decide (v = 14) then Some (mkEntry page_fault_handler_fn None)
  else if bool_decide (v = 32) then Some (mkEntry timer_interrupt_handler_fn None)
  else if bool_decide (v = 33) then Some (mkEntry keyboard_interrupt_handler_fn None)
  else None.

Section processor_facts.
Context `{Addresses} `{!AddressesLaws} {G I C : Type} `{ProcessorLaws G I C}.
Implicit Types (c : C).

Lemma TSS_ok STACK : 0 ≤ STACK → STACK + STACK_SIZE < 2 ^ 47 →
  ∃ tss, TSS (G:=G) (C:=C) STACK = Ret tss ∧ tss !! 0%nat = Some (STACK + STACK_SIZE).
Proof.
  intros Hlo Hhi. unfold TSS. pose proof tss_new_stacks as L. unfold STACK_SIZE in *.
  rewrite VirtAddr_new_ok by lia. simpl. rewrite VirtAddr_add_ok by lia. simpl.
  destruct (lookup_lt_is_Some_2 TaskStateSegment_new 0) as [x Ex]; [rewrite L; lia|].
  rewrite (index_ok _ DOUBLE_FAULT_IST_INDEX x Ex). simpl. eexists. split; [done|].
  apply list_lookup_insert_eq. rewrite L. unfold DOUBLE_FAULT_IST_INDEX. lia.
Qed.

Lemma GDT_ok STACK : 0 ≤ STACK → STACK + STACK_SIZE < 2 ^ 47 →
  ∃ g sels tss, GDT (G:=G) (C:=C) STACK = Ret (g, sels) ∧
    descriptor g (code_selector sels) = Some KernelCodeSegment ∧
    descriptor g (tss_selector sels) = Some (TssSegment tss) ∧
    tss !! 0%nat = Some (STACK + STACK_SIZE).
Proof.
  intros Hlo Hhi. destruct (TSS_ok STACK Hlo Hhi) as (tss & Et & Hst).
  destruct (add_entry_ok KernelCodeSegment GlobalDescriptorTable_new) as (s1 & g1 & E1 & D1 & R1 & _).
  { rewrite gdt_new_room. simpl. lia. }
  destruct (add_entry_ok (TssSegment tss) g1) as (s2 & g2 & E2 & D2 & R2 & K2).
  { rewrite R1, gdt_new_room. simpl. lia. }
  exists g2, (mkSelectors s1 s2), tss. split; [|split_and!; simpl; eauto].
  unfold GDT. rewrite E1. simpl. rewrite Et. simpl. by rewrite E2.
Qed.

Lemma wp_gdt_init STACK c : 0 ≤ STACK → STACK + STACK_SIZE < 2 ^ 47 →
  wp (gdt_init STACK) (λ _ c', ∃ g tss, gdtr c' = Some g ∧
    descriptor g (cs c') = Some KernelCodeSegment ∧
    descriptor g (tr c') = Some (TssSegment tss) ∧ tss !! 0%nat = Some (STACK + STACK_SIZE)) c.
Proof.
  intros Hlo Hhi. destruct (GDT_ok STACK Hlo Hhi) as (g & sels & tss & E & Dc & Dt & Hst).
  unfold gdt_init. wp_step. eapply wp_lift; [exact E|]. cbv beta iota. wp_step.
  eapply wp_mono; [apply gdt_load_ok|]. intros [] c1 E1. wp_step.
  eapply wp_mono; [by apply (set_cs_ok g)|]. intros [] c2 [E2 Ecs].
  eapply wp_mono; [by apply (load_tss_ok g _ tss)|]. intros [] c3 (E3 & Ecs3 & Etr).
  exists g, tss. rewrite Ecs3, Ecs, Etr. done.
Qed.

Lemma IDT_ok : ∃ i, IDT (I:=I) (C:=C) = Ret i ∧ ∀ v, gate i v = kernel_gate v.
Proof.
  unfold IDT. edestruct gate_index as (i1 & E1 & G1); [|rewrite E1]; [done|]. simpl.
  edestruct gate_index as (i2 & E2 & G2); [|rewrite E2]; [done|].
  exists i2. split; [done|]. intros v. rewrite G2, G1, !gate_field, gate_new. unfold kernel_gate.
  change (InterruptIndex_as_u8 Timer) with 32. change (InterruptIndex_as_u8 Keyboard) with 33.
  change (field_vector breakpoint) with 3. change (field_vector page_fault) with 14.
  change (field_vector double_fault) with 8. repeat case_bool_decide; subst; done.
Qed.
End processor_facts.

(** ** The reports *)

Section reports.
Context `{ReportFormats}.

Definition frame_text (frame : InterruptStackFrame) : bytes :=
  text "IP: " ++ upper_hex 64 (instruction_pointer frame) ++ newline ++
  text "CS: " ++ upper_hex 64 (code_segment frame) ++ newline ++
  text "SP: " ++ upper_hex 64 (stack_pointer frame) ++ newline ++
  text "SS: " ++ upper_hex 64 (stack_segment frame) ++ newline ++
  text "RFLAGS: " ++ concat (debug_rflags (RFlags_from_bits_truncate (cpu_flags frame))).

(** The last lines of a page fault's report, for the mapping of the address when it
    could be looked up. *)
Definition mapping_text (m : option (option (Z * PageTableFlags))) : bytes :=
  match m with
  | None => []
  | Some (Some (f, fl)) =>
      (text "FRAME: " ++ concat (upper_hex_phys_addr f) ++ text " " ++ newline) ++
      (text "FLAGS: " ++ concat (debug_page_flags fl) ++ text " " ++ newline)
  | Some None => text "NOT MAPPED" ++ newline
  end.

Definition page_fault_text (cr2 : Z) (frame : InterruptStackFrame) (error_code : Z)
    (m : option (option (Z * PageTableFlags))) : bytes :=
  (text "EXCEPTION: PAGE FAULT" ++ newline) ++
  (text "Accessed Address: " ++ concat (debug_virt_addr cr2) ++ newline) ++
  (text "Error Code: " ++ concat (debug_error_code error_code) ++ newline) ++
  (frame_text frame ++ newline) ++ mapping_text m.

Lemma stack_frame_display_text frame : concat (stack_frame_display frame) = frame_text frame.
Proof.
  unfold stack_frame_display, frame_text. rewrite !concat_app. cbn [concat].
  by rewrite !app_nil_r, <-!(assoc_L (++)).
Qed.

(** The console has printed [s] since [w] showed [l]. *)
Definition printed (w : Writer) (l : Log) (s : bytes) (w' : Writer) : Prop :=
  shows w' (log_string (color_code w) s l) ∧ color_code w' = color_code w.

Lemma printed_nil w l : shows w l → printed w l [] w.
Proof. done. Qed.

Lemma wp_println w l s w1 ps s' : printed w l s w1 → s' = s ++ concat ps ++ newline →
  wp (println ps) (λ _ w2, printed w l s' w2) w1.
Proof.
  intros [Hs Hc] ->. unfold println, Vga._print. wp_step.
  eapply wp_mono; [by apply write_fmt_shows|]. intros r w2 (-> & Hs2 & Hc2).
  eapply wp_lift; [done|]. split; [|congruence].
  rewrite Hc, concat_app in Hs2. cbn [concat] in Hs2. rewrite app_nil_r in Hs2.
  unfold log_string in *. by rewrite foldl_app.
Qed.
End reports.

Section report_facts.
Context `{ReportFormats} {T : Type} `{MapperLaws T} `{Translate T} `{!TranslateLaws T}.

(** What the report can say about the address. *)
Definition looked_up (lock_free : bool) (p : PagingState T) (a : Z) :
    option (option (Z * PageTableFlags)) :=
  if lock_free then (λ ctx : PagingContext T, pages ctx.1 !! align_down a) <$> p else None.

Lemma wp_mapping_report cr2 lock_free (p : PagingState T) w l s w1 :
  (∀ ctx, p = Some ctx → huge ctx.1 (align_down cr2) = false) → printed w l s w1 →
  wp (match try_lock_ctx lock_free p with
      | Some ctx =>
          match translate ctx.1 cr2 with
          | Mapped frame flags =>
              on_fst (println ([text "FRAME: "] ++ upper_hex_phys_addr frame ++ [text " "])) ≫= λ _,
              on_fst (println ([text "FLAGS: "] ++ debug_page_flags flags ++ [text " "]))
          | NotMapped => on_fst (println [text "NOT MAPPED"])
          | InvalidTable _ => on_fst (println [text "INVALID PAGE TABLE"])
          end
      | None => mret tt
      end) (λ _ st, printed w l (s ++ mapping_text (looked_up lock_free p cr2)) st.1 ∧ st.2 = p) (w1, p).
Proof.
  intros Hh Hs. unfold looked_up, try_lock_ctx.
  destruct lock_free; [|apply wp_ret; simpl; by rewrite app_nil_r].
  destruct p as [ctx|]; [|apply wp_ret; simpl; by rewrite app_nil_r].
  rewrite translate_spec by (by apply Hh). cbn [fmap option_fmap option_map].
  destruct (pages ctx.1 !! align_down cr2) as [[f fl]|]; cbn [mapping_text].
  - wp_step. apply wp_on_fst. eapply wp_mono; [by eapply wp_println|]. intros [] w2 Hs2.
    apply wp_on_fst. eapply wp_mono; [eapply wp_println; [exact Hs2|done]|]. intros [] w3 Hs3.
    split; [|done]. rewrite !concat_app in Hs3. cbn [concat] in Hs3.
    by rewrite !app_nil_r, <-!(assoc_L (++)) in Hs3; rewrite <-!(assoc_L (++)).
  - apply wp_on_fst. eapply wp_mono; [by eapply wp_println|]. intros [] w2 Hs2.
    split; [|done]. cbn [concat] in Hs2. by rewrite app_nil_r in Hs2.
Qed.
End report_facts.

(** ** Properties *)

Section exception_properties.
Context `{Addresses} `{!AddressesLaws} {G I C : Type} `{ProcessorLaws G I C}.

Lemma tables_installed STACK (c : C) : 0 ≤ STACK → STACK + STACK_SIZE < 2 ^ 47 →
  wp (gdt_init STACK ≫= λ _, init_idt) (λ _ c',
    (gdtr c' ≫= λ g, descriptor g (cs c')) = Some KernelCodeSegment ∧
    (∀ v, vector_entry c' v = kernel_gate v) ∧
    (∀ v, vector_stack c' v = if bool_decide (v = 8) then Some (STACK + STACK_SIZE) else None)) c.
Proof.
  intros Hlo Hhi. wp_step. eapply wp_mono; [by apply wp_gdt_init|].
  intros [] c1 (g & tss & Eg & Dc & Dt & Hst). unfold init_idt. wp_step.
  destruct IDT_ok as (i & Ei & Hgate). eapply wp_lift; [exact Ei|].
  eapply wp_mono; [apply idt_load_ok|]. intros [] c2 (E2 & Eg2 & Ecs & Etr).
  assert (∀ v, vector_entry c2 v = kernel_gate v) as Hv.
  { intros v. unfold vector_entry. rewrite E2. simpl. apply Hgate. }
  split_and!; [rewrite Eg2, Eg, Ecs; exact Dc|done|].
  intros v. unfold vector_stack, task_state. rewrite Hv, Eg2, Eg, Etr. simpl. rewrite Dt.
  unfold kernel_gate. repeat case_bool_decide; simplify_eq; try done.
Qed.

(** C34. After the tables are loaded, from any state of the processor: code runs in
    the kernel's segment; the vectors 3, 8, 14, 32 and 33 have the handlers of the
    breakpoint, the double fault, the page fault, the timer and the keyboard, and no
    other vector has one; and the double-fault handler alone starts on a stack of
    its own, the top of the 20 KiB of [STACK], whatever the stack of the faulting
    code. *)
Theorem exceptions_installed STACK (c : C) : 0 ≤ STACK → STACK + STACK_SIZE < 2 ^ 47 →
  wp (gdt_init STACK ≫= λ _, init_idt) (λ _ c',
    (gdtr c' ≫= λ g, descriptor g (cs c')) = Some KernelCodeSegment ∧
    (∀ v, vector_entry c' v = kernel_gate v) ∧
    (∀ v, vector_stack c' v = if bool_decide (v = 8) then Some (STACK + STACK_SIZE) else None)) c.
Proof. apply tables_installed. Qed.
End exception_properties.

Section report_properties.
Context `{ReportFormats} {T : Type} `{MapperLaws T} `{Translate T} `{!TranslateLaws T}.

(** C35. The page-fault report: the handler prints the address, the error code and the
    registers, and then, when paging is up and its lock is free, the frame and the
    flags the address is mapped with or that it is not mapped; when the lock is held
    it leaves these lines out instead of waiting.  It then halts, with the paging
    state as it was. *)
Theorem page_fault_report cr2 lock_free frame error_code w l (p : PagingState T) :
  shows w l → (∀ ctx, p = Some ctx → huge ctx.1 (align_down cr2) = false) →
  wp (page_fault_handler cr2 lock_free frame error_code) (λ r st,
    r = hlt_loop ∧ st.2 = p ∧
    shows st.1 (log_string (color_code w)
      (page_fault_text cr2 frame error_code (looked_up lock_free p cr2)) l)) (w, p).
Proof.
  intros Hs Hh. unfold page_fault_handler, page_fault_text. apply printed_nil in Hs.
  wp_step. apply wp_on_fst. eapply wp_mono; [by eapply wp_println|]. intros [] w1 Hp1.
  wp_step. apply wp_on_fst. eapply wp_mono; [by eapply wp_println|]. clear Hp1. intros [] w2 Hp2.
  wp_step. apply wp_on_fst. eapply wp_mono; [by eapply wp_println|]. clear Hp2. intros [] w3 Hp3.
  wp_step. apply wp_on_fst. eapply wp_mono; [by eapply wp_println|]. clear Hp3. intros [] w4 Hp4.
  wp_step. apply wp_get. cbn [snd]. wp_step.
  eapply wp_mono; [by apply wp_mapping_report|].
  intros [] [w5 p5] [[Hp5 _] Ep]. cbn [fst snd] in Hp5, Ep. subst p5.
  apply wp_ret. split_and!; [done|done|]. cbn [fst] in *.
  rewrite stack_frame_display_text, !concat_app in Hp5. cbn [concat] in Hp5.
  rewrite !app_nil_r, <-!(assoc_L (++)) in Hp5. by rewrite <-!(assoc_L (++)).
Qed.

Lemma hex_field_inj (label : bytes) n n' r r' : u64 n → u64 n' →
  label ++ upper_hex 64 n ++ newline ++ r = label ++ upper_hex 64 n' ++ newline ++ r' →
  n = n' ∧ r = r'.
Proof.
  intros Hn Hn' E%(app_inj_1 _ label); [|done]. destruct E as [_ E]. unfold upper_hex in E.
  rewrite <-!(assoc_L (++)) in E. apply app_inj_1 in E as [_ E]; [|done].
  apply split_at_nonhex in E as [E Er]; [|apply hex_digits_bytes; [apply Hn|done]
    |apply hex_digits_bytes; [apply Hn'|done]|done|done].
  split; [|congruence]. apply (upper_hex_inj 64); [by left|done|done|]. unfold upper_hex. by rewrite E.
Qed.

(** The registers of a report can be read back: frames whose displays are the
    same text have the same instruction pointer, segments and stack pointer, and
    flags that print alike. *)
Theorem stack_frame_display_injective f f' :
  Forall u64 [instruction_pointer f; code_segment f; stack_pointer f; stack_segment f] →
  Forall u64 [instruction_pointer f'; code_segment f'; stack_pointer f'; stack_segment f'] →
  concat (stack_frame_display f) = concat (stack_frame_display f') →
  instruction_pointer f = instruction_pointer f' ∧ code_segment f = code_segment f' ∧
  stack_pointer f = stack_pointer f' ∧ stack_segment f = stack_segment f' ∧
  concat (debug_rflags (RFlags_from_bits_truncate (cpu_flags f))) =
  concat (debug_rflags (RFlags_from_bits_truncate (cpu_flags f'))).
Proof.
  rewrite !Forall_cons. intros (U1 & U2 & U3 & U4 & _) (V1 & V2 & V3 & V4 & _).
  rewrite !stack_frame_display_text. unfold frame_text.
  intros (-> & (-> & (-> & (-> & E)%hex_field_inj)%hex_field_inj)%hex_field_inj)%hex_field_inj;
    try done.
  apply app_inj_1 in E as [_ E]; done.
Qed.
End report_properties.

(** ** Witnesses *)

Module ExceptionsWitness.
Import Reference.

(** Descriptors by selector with the next free slot, and the processor's registers. *)
Definition gdt_t : Type := gmap Z Descriptor * Z.
Definition idt_t : Type := gmap Z Entry.
Record regs : Type := mkRegs {
  r_gdt : option gdt_t;
  r_cs : Z;
  r_tr : Z;
  r_idt : option idt_t;
}.

(** A general protection fault, when the selector is not of a descriptor in use. *)
Definition selects (c : regs) (sel : Z) : bool :=
  bool_decide (is_Some (g ← r_gdt c; g.1 !! sel)).

#[export] Instance demo_segments : Segments gdt_t regs := {|
  TaskStateSegment_new := replicate 7 0;
  GlobalDescriptorTable_new := (∅, 1);
  add_entry d g :=
    if bool_decide (slots d ≤ 8 - g.2) then Ret (8 * g.2, (<[8 * g.2 := d]> g.1, g.2 + slots d))
    else Panic (Explicit "GDT full");
  gdt_load g := λ c, Ret (tt, mkRegs (Some g) (r_cs c) (r_tr c) (r_idt c));
  set_cs sel := λ c,
    if selects c sel then Ret (tt, mkRegs (r_gdt c) sel (r_tr c) (r_idt c))
    else Panic (Explicit "general protection fault");
  load_tss sel := λ c,
    if selects c sel then Ret (tt, mkRegs (r_gdt c) (r_cs c) sel (r_idt c))
    else Panic (Explicit "general protection fault");
|}.

#[export] Instance demo_idt : DescriptorTable idt_t regs := {|
  InterruptDescriptorTable_new := ∅;
  set_field f e i := <[field_vector f := e]> i;
  set_index n e i := if bool_decide (32 ≤ n < 256) then Ret (<[n := e]> i) else Panic IndexOutOfBounds;
  idt_load i := λ c, Ret (tt, mkRegs (r_gdt c) (r_cs c) (r_tr c) (Some i));
|}.

(** A descriptor counts below the next free slot. *)
Definition lookup_descriptor (g : gdt_t) (sel : Z) : option Descriptor :=
  if bool_decide (sel < 8 * g.2) then g.1 !! sel else None.

#[export] Instance demo_processor : Processor gdt_t idt_t regs := {|
  descriptor := lookup_descriptor;
  room g := 8 - g.2;
  gate i v := i !! v;
  gdtr := r_gdt;
  cs := r_cs;
  tr := r_tr;
  idtr := r_idt;
|}.

Lemma lookup_descriptor_Some g sel d : lookup_descriptor g sel = Some d →
  sel < 8 * g.2 ∧ g.1 !! sel = Some d.
Proof. unfold lookup_descriptor. by case_bool_decide. Qed.

#[export] Instance demo_processor_laws : ProcessorLaws gdt_t idt_t regs.
Proof.
  split; try done.
  - intros d g Hr. simpl in *. exists (8 * g.2), (<[8 * g.2 := d]> g.1, g.2 + slots d).
    assert (1 ≤ slots d) by (destruct d; simpl; lia).
    rewrite bool_decide_true by lia. split_and!; [done| |simpl; lia|].
    + unfold lookup_descriptor. simpl. rewrite bool_decide_true by lia. by rewrite lookup_insert_eq.
    + intros s d' [Hlt E]%lookup_descriptor_Some. unfold lookup_descriptor. simpl.
      rewrite bool_decide_true by lia. by rewrite lookup_insert_ne by lia.
  - intros g sel c E [_ D]%lookup_descriptor_Some. simpl in E. unfold wp. simpl. unfold selects.
    rewrite E. simpl. rewrite D. by rewrite bool_decide_true by eauto.
  - intros g sel tss c E [_ D]%lookup_descriptor_Some. simpl in E. unfold wp. simpl. unfold selects.
    rewrite E. simpl. rewrite D. by rewrite bool_decide_true by eauto.
  - intros f e i v. simpl. case_bool_decide; subst; [apply lookup_insert_eq|by apply lookup_insert_ne].
  - intros n e i Hn. simpl. rewrite bool_decide_true by done. eexists. split; [done|]. intros v.
    case_bool_decide; subst; [apply lookup_insert_eq|by apply lookup_insert_ne].
Qed.

Definition reset_regs : regs := mkRegs None 0 0 None.

Lemma exceptions_installed_witness : ∃ c',
  (gdt_init (G:=gdt_t) 0x200000 ≫= λ _, init_idt (I:=idt_t)) reset_regs = Ret (tt, c') ∧
  vector_entry c' 8 = Some (mkEntry double_fault_handler_fn (Some 0)) ∧
  vector_stack c' 8 = Some 0x205000 ∧ vector_stack c' 14 = None.
Proof.
  destruct (wp_elim _ _ _ (exceptions_installed (G:=gdt_t) (I:=idt_t) 0x200000 reset_regs
    ltac:(lia) ltac:(unfold STACK_SIZE; lia))) as ([] & c' & Hr & _ & He & Hs).
  exists c'. split; [exact Hr|]. split_and!; [exact (He 8)|exact (Hs 8)|exact (Hs 14)].
Defined.

(** Formats that print a number as it is. *)
#[export] Instance demo_formats : ReportFormats := {|
  debug_frame f := [upper_hex 64 (instruction_pointer f)];
  debug_virt_addr a := [upper_hex 64 a];
  debug_error_code e := [decimal e];
  debug_page_flags fl := [text (if WRITABLE fl then "WRITABLE" else "PRESENT")];
  upper_hex_phys_addr a := [upper_hex 64 a];
  RFlags_from_bits_truncate b := Z.land b 0x3FFFFF;
  debug_rflags b := [decimal b];
|}.

Definition demo_frame : InterruptStackFrame := mkFrame 0x201ABC 8 0x202 0x57ACF8 0.

Definition demo_paging : PagingState tables :=
  Some (mkTables {[0x5000 := (0x7000, mkFlags true true false false)]} ∅, mkAllocator [] 0 []).

Lemma page_fault_report_witness : ∃ w' p',
  page_fault_handler 0x5010 true demo_frame 2 (VgaWitness.console, demo_paging) =
    Ret (hlt_loop, (w', p')) ∧ p' = demo_paging ∧
  shows w' (log_string (color_code VgaWitness.console)
    (page_fault_text 0x5010 demo_frame 2 (Some (Some (0x7000, mkFlags true true false false))))
    VgaWitness.boot_log).
Proof.
  destruct (wp_elim _ _ _ (page_fault_report 0x5010 true demo_frame 2 VgaWitness.console
    VgaWitness.boot_log demo_paging VgaWitness.console_shows ltac:(done)))
    as (r & [w' p'] & Hr & -> & Hp & Hs).
  exists w', p'. split; [exact Hr|]. split; [exact Hp|]. exact Hs.
Defined.

Lemma stack_frame_display_witness :
  concat (stack_frame_display demo_frame) =
    concat (stack_frame_display (mkFrame 0x201ABC 8 0xFFC00202 0x57ACF8 0)) ∧
  stack_pointer demo_frame = 0x57ACF8.
Proof.
  split; [vm_compute; reflexivity|].
  exact (proj1 (proj2 (proj2 (stack_frame_display_injective demo_frame
    (mkFrame 0x201ABC 8 0xFFC00202 0x57ACF8 0)
    ltac:(repeat constructor; vm_compute; congruence)
    ltac:(repeat constructor; vm_compute; congruence) ltac:(vm_compute; reflexivity))))).
Defined.
End ExceptionsWitness.
