(* ===== verification/AcpiTables.v ===== *)
(** * Reading the ACPI tables (src/acpi.rs, [bios_get_acpi])

    The [acpi] crate finds the tables, the kernel maps the memory of the definition
    blocks with its handler, and the [aml] crate parses them.  Both crates call back
    the handler of [AcpiHandler], so they are transformers of its state and of the
    rest of the machine [X]; their law is that they release only what they mapped. *)

From S2P Require Import Prelude Platform FrameAllocator FrameInit Memory AcpiHandler Serial Acpi.
Local Open Scope Z_scope.

(** A definition block, by its physical address and length. *)
Record AmlTable : Type := mkAmlTable {
  table_address : Z;
  table_length : Z;
}.

(** The crates.  [Tables] is [AcpiTables], [FadtMapping] the mapping of the FADT that
    [get_sdt] returns, which is unmapped when it is dropped. *)
Class AcpiCrates (T X Tables FadtMapping PlatformInfo : Type) : Type := {
  search_for_rsdp_bios : M (HandlerState T * X) (Result Tables unit);
  dsdt : Tables → option AmlTable;
  ssdts : Tables → list AmlTable;
  AmlContext_new : M (HandlerState T * X) unit;
  parse_table : Z → Z → M (HandlerState T * X) (Result unit unit);
  initialize_objects : M (HandlerState T * X) (Result unit unit);
  get_fadt : Tables → M (HandlerState T * X) (Result (option FadtMapping) unit);
  drop_fadt : FadtMapping → M (HandlerState T * X) unit;
  (** The addresses of the control blocks, and the fields of the FADT. *)
  pm1a_control_block : FadtMapping → Result Z unit;
  pm1b_control_block : FadtMapping → Result (option Z) unit;
  fadt_acpi_enable : FadtMapping → Z;
  fadt_smi_cmd_port : FadtMapping → Z;
  tables_platform_info : Tables → M (HandlerState T * X) (Result PlatformInfo unit);
  (** The logging macros. *)
  log_at : Level → string → M X unit;
}.

(** ** The code *)

Section code.
Context `{BootInfo} `{Addresses} {T : Type} `{Mapper T}.
Context {X Tables FadtMapping PlatformInfo : Type} `{AcpiCrates T X Tables FadtMapping PlatformInfo}.

(** The frames of a table, mapped one by one. *)
Definition map_table (table : AmlTable) : M (HandlerState T) unit :=
  a ← lift (PhysAddr_new (table_address table));
  let start := frame_containing_address a in
  top ← lift (add_w 64 (table_address table) (table_length table));
  b ← lift (PhysAddr_new top);
  let fin := frame_containing_address b in
  mfor (frame_range_inclusive start fin) handler_map.

Definition read_dsdt (tables : Tables) : M (HandlerState T * X) unit :=
  match dsdt tables with
  | Some table =>
      on_fst (map_table table) ≫= λ _,
      r ← parse_table (table_address table) (table_length table);
      lift (expect_ok r "Failed to parse the dsdt")
  | None => mret tt
  end.

Definition read_ssdt (table : AmlTable) : M (HandlerState T * X) unit :=
  on_snd (log_at Debug "Reading a ssdt") ≫= λ _,
  on_fst (map_table table) ≫= λ _,
  r ← parse_table (table_address table) (table_length table);
  lift (expect_ok r "Failed to parse the dsdt").

(** The fields of [Acpi] from the FADT; the casts drop the bits above the port's. *)
Definition control_ports (fadt : FadtMapping) : outcome Acpi :=
  a ← expect_ok (pm1a_control_block fadt) "Error when parsing pm1a control block";
  b ← expect_ok (pm1b_control_block fadt) "Error when parsing pm1b control block";
  let pm1b := match b with Some cnt => if cnt =? 0 then None else Some (as_u16 cnt) | None => None end in
  Ret (mkAcpi (as_u16 (fadt_smi_cmd_port fadt)) (as_u16 a) pm1b (fadt_acpi_enable fadt)).

Definition inner : M (HandlerState T * X) (Tables * Acpi) :=
  on_snd (log_at Debug "Reading the acpi tables") ≫= λ _,
  found ← search_for_rsdp_bios;
  tables ← lift (match found with Ok t => Ret t | Err _ => Panic UnwrapNone end);
  AmlContext_new ≫= λ _,
  on_snd (log_at Debug "Reading the dsdt") ≫= λ _,
  read_dsdt tables ≫= λ _,
  mfor (ssdts tables) read_ssdt ≫= λ _,
  on_snd (log_at Trace "Starting the aml objects init") ≫= λ _,
  ready ← initialize_objects;
  lift (expect_ok ready "Failed to init the aml objects") ≫= λ _,
  on_snd (log_at Trace "Finished the aml objects init") ≫= λ _,
  r ← get_fadt tables;
  o ← lift (expect_ok r "Error when serching for the FADT");
  fadt ← lift (expect o "Couldn't find the FADT");
  acpi ← lift (control_ports fadt);
  drop_fadt fadt ≫= λ _,
  mret (tables, acpi).

(** The handler starts with an empty table. *)
Definition bios_get_acpi : PagingState T * X → outcome ((Tables * Acpi) * (HandlerState T * X)) :=
  λ '(paging, x), inner ((Handler_new, paging), x).

Definition platform_info (tables : Tables) : M (HandlerState T * X) PlatformInfo :=
  r ← tables_platform_info tables;
  lift (expect_ok r "Failed to get platform info").
End code.

(** ** What the crates promise *)

(** The handler's state is consistent, and it holds [held st k] references to frame [k]. *)
Definition handler_inv {T X} `{MapperLaws T} (st : HandlerState T * X) : Prop :=
  ∃ refs c, st.1 = (refs, Some c) ∧ handler_ok refs c.
Definition held {T X} (st : HandlerState T * X) (k : Z) : Z := count st.1.1 k.

(** [st'] is consistent and holds at least [d k] more references to each frame. *)
Definition gains {T X} `{MapperLaws T} (d : Z → Z) (st st' : HandlerState T * X) : Prop :=
  handler_inv st' ∧ ∀ k, held st k + d k ≤ held st' k.
Notation keeps := (gains (λ _, 0)).

Definition keeping {T X A} `{MapperLaws T} (m : M (HandlerState T * X) A) : Prop :=
  ∀ st a st', handler_inv st → m st = Ret (a, st') → keeps st st'.

(** Every byte of the table lies on a page mapped to the frame of its own address. *)
Definition readable {T X} `{MapperLaws T} (st : HandlerState T * X) (table : AmlTable) : Prop :=
  ∃ refs c, st.1 = (refs, Some c) ∧
    ∀ b, table_address table ≤ b < table_address table + table_length table →
      ∃ fl, pages c.1 !! align_down b = Some (align_down b, fl).

Definition table_ok (table : AmlTable) : Prop :=
  0 ≤ table_address table ∧ 0 ≤ table_length table ∧
  table_address table + table_length table < 2 ^ 47 - 4096.

Definition all_tables {T X Tables F P} `{AcpiCrates T X Tables F P} (tables : Tables) : list AmlTable :=
  match dsdt tables with Some t => [t] | None => [] end ++ ssdts tables.

(** The crates release only the references they took; [fadt_frames] are those of the
    mapping of the FADT.  A table is parsed only when its memory can be read. *)
Class AcpiCratesLaws (T X Tables FadtMapping PlatformInfo : Type) `{MapperLaws T}
    `{AcpiCrates T X Tables FadtMapping PlatformInfo} : Type := {
  search_keeps : keeping search_for_rsdp_bios;
  search_tables st tables st' :
    search_for_rsdp_bios st = Ret (Ok tables, st') → Forall table_ok (all_tables tables);
  AmlContext_new_keeps : keeping AmlContext_new;
  parse_keeps table st r st' : handler_inv st → readable st table →
    parse_table (table_address table) (table_length table) st = Ret (r, st') → keeps st st';
  initialize_keeps : keeping initialize_objects;
  fadt_frames : FadtMapping → Z → Z;
  fadt_frames_nonneg f k : 0 ≤ fadt_frames f k;
  get_fadt_keeps tables st o st' : handler_inv st → get_fadt tables st = Ret (Ok (Some o), st') →
    gains (fadt_frames o) st st';
  drop_fadt_releases f st u st' : handler_inv st → (∀ k, fadt_frames f k ≤ held st k) →
    drop_fadt f st = Ret (u, st') → gains (λ k, - fadt_frames f k) st st';
}.

Section facts.
Context `{BootInfo} `{!BootInfoLaws} `{Addresses} `{!AddressesLaws}.
Context {T : Type} `{Mapper T} `{!MapperLaws T} {X : Type}.
Implicit Types (st : HandlerState T * X).

Lemma keeps_refl st : handler_inv st → keeps st st.
Proof. intros. split; [done|]. intros k. lia. Qed.

Lemma gains_trans d1 d2 d st st1 st2 : gains d1 st st1 → gains d2 st1 st2 →
  (∀ k, d k ≤ d1 k + d2 k) → gains d st st2.
Proof.
  intros [_ G1] [Hi G2] Hd. split; [done|]. intros k. specialize (G1 k). specialize (G2 k).
  specialize (Hd k). lia.
Qed.

Lemma keeping_bind {A B} (m : M (HandlerState T * X) A) (f : A → M (HandlerState T * X) B) :
  keeping m → (∀ a, keeping (f a)) → keeping (m ≫= f).
Proof.
  intros Hm Hf st b st2 Hi (a & st1 & E1 & E2)%bind_Ret. pose proof (Hm _ _ _ Hi E1) as G1.
  eapply gains_trans; [exact G1|by eapply Hf; [apply G1|]|]. intros k. lia.
Qed.

Lemma keeping_lift {A} (o : outcome A) : keeping (lift o : M (HandlerState T * X) A).
Proof. intros st a st' Hi [_ ->]%lift_Ret. by apply keeps_refl. Qed.

Lemma keeping_ret {A} (a : A) : keeping (mret a : M (HandlerState T * X) A).
Proof. intros st b st' Hi [_ ->]%ret_Ret. by apply keeps_refl. Qed.

Lemma keeping_on_snd {A} (m : M X A) : keeping (on_snd m : M (HandlerState T * X) A).
Proof.
  intros [hs x] a st' Hi Hr. unfold on_snd in Hr. destruct (m x) as [[a' x']|]; [|done].
  injection Hr as _ <-. destruct Hi as (refs & c & E & Hok). split.
  - exists refs, c. done.
  - intros k. unfold held. simpl. lia.
Qed.

Lemma bumped_count refs refs' k : bumped (refs !! k) (refs' !! k) → count refs' k = count refs k + 1.
Proof.
  unfold bumped, count. destruct (refs !! k) as [[rc g]|]; [by intros ->|]. by intros [g ->].
Qed.

(** After [map_table] the table's frames have one more reference each. *)
Lemma map_table_gains table st u st' : handler_inv st → table_ok table →
  on_fst (map_table table) st = Ret (u, st') →
  gains (λ k, if bool_decide (k ∈ region_frames (table_address table) (table_length table)) then 1 else 0)
    st st'.
Proof.
  destruct st as [hs x]. intros (refs & c & Eh & Hok) (Ha & Hl & Hlt) Hr. simpl in Eh. subst hs.
  unfold on_fst in Hr. destruct (map_table table (refs, Some c)) as [[[] hs']|] eqn:E; [|done].
  injection Hr as _ <-. unfold map_table in E.
  rewrite PhysAddr_new_ok in E by lia. erewrite run_bind in E by done.
  apply bind_Ret in E as (top & s0 & [Ht ->]%lift_Ret & E). apply checked_Ret in Ht as [-> _].
  rewrite PhysAddr_new_ok in E by lia. erewrite run_bind in E by done.
  rewrite !frame_containing_spec, frame_range_inclusive_spec in E by auto.
  destruct (region_frames_ok _ _ Ha Hl Hlt) as [Hnd HF].
  apply map_loop_Ret in E as (refs' & c' & -> & [Hok' He Ho _ _]); [|done..]. split.
  - by exists refs', c'.
  - intros k. unfold held. cbn [fst]. case_bool_decide as Hk.
    + rewrite (bumped_count refs refs') by (by apply He). lia.
    + unfold count. rewrite Ho by done. lia.
Qed.

(** The frame of a byte of the table is one of the frames [map_table] maps. *)
Lemma table_byte_frame table b : table_ok table →
  table_address table ≤ b < table_address table + table_length table →
  align_down b ∈ region_frames (table_address table) (table_length table).
Proof.
  intros (Ha & Hl & Hlt) Hb. apply elem_of_frames_from.
  exists ((align_down b - align_down (table_address table)) / 4096). unfold align_down. lia.
Qed.

(** A table whose frames are held is readable. *)
Lemma held_readable st table : handler_inv st → table_ok table →
  (∀ k, k ∈ region_frames (table_address table) (table_length table) → 1 ≤ held st k) →
  readable st table.
Proof.
  intros (refs & c & E & Hok) Ht Hh. exists refs, c. split; [done|]. intros b Hb.
  specialize (Hh _ (table_byte_frame table b Ht Hb)). unfold held, count in Hh. rewrite E in Hh. cbn [fst] in Hh.
  destruct (refs !! align_down b) as [e|] eqn:Ee; [|lia].
  apply (eo_page _ _ _ (ho_entries _ _ Hok _ _ Ee)).
Qed.

(** The frames of the tables that were read stay held. *)
Definition holds_tables (ts : list AmlTable) st : Prop :=
  ∀ t k, t ∈ ts → k ∈ region_frames (table_address t) (table_length t) → 1 ≤ held st k.

Lemma holds_tables_keeps ts st st' : holds_tables ts st → keeps st st' → holds_tables ts st'.
Proof. intros Hh [_ G] t k Ht Hk. specialize (Hh t k Ht Hk). specialize (G k). lia. Qed.

Lemma held_nonneg st k : handler_inv st → 0 ≤ held st k.
Proof.
  intros (refs & c & E & Hok). unfold held, count. rewrite E. cbn [fst].
  destruct (refs !! k) as [e|] eqn:Ee; [|lia]. pose proof (eo_count _ _ _ (ho_entries _ _ Hok _ _ Ee)). lia.
Qed.
End facts.

Section reading.
Context `{BootInfo} `{!BootInfoLaws} `{Addresses} `{!AddressesLaws}.
Context {T : Type} `{Mapper T} `{!MapperLaws T} {X Tables FadtMapping PlatformInfo : Type}.
Context `{AcpiCrates T X Tables FadtMapping PlatformInfo}.
Context `{!AcpiCratesLaws T X Tables FadtMapping PlatformInfo}.
Implicit Types (st : HandlerState T * X) (tables : Tables).

(** Mapping and parsing one table. *)
Lemma read_table_holds table msg st u st' : handler_inv st → table_ok table →
  (on_fst (map_table table) ≫= λ _,
   r ← parse_table (table_address table) (table_length table);
   lift (expect_ok r msg)) st = Ret (u, st') →
  keeps st st' ∧ holds_tables [table] st'.
Proof.
  intros Hi Ht Hr. apply bind_Ret in Hr as ([] & st1 & Hm & Hr).
  apply map_table_gains in Hm; [|done|done].
  assert (holds_tables [table] st1) as Hh.
  { intros t k ->%list_elem_of_singleton Hk. destruct Hm as [_ G]. specialize (G k).
    rewrite bool_decide_true in G by done. pose proof (held_nonneg st k Hi). lia. }
  apply bind_Ret in Hr as (r & st2 & Hp & [_ ->]%lift_Ret).
  apply (parse_keeps table) in Hp; [|apply Hm|].
  - split; [|by eapply holds_tables_keeps]. eapply gains_trans; [exact Hm|exact Hp|].
    intros k. simpl. case_bool_decide; lia.
  - apply held_readable; [apply Hm|done|]. intros k. apply (Hh table). by left.
Qed.

Lemma read_dsdt_holds tables st u st' : handler_inv st → Forall table_ok (all_tables tables) →
  read_dsdt tables st = Ret (u, st') →
  keeps st st' ∧ holds_tables (match dsdt tables with Some t => [t] | None => [] end) st'.
Proof.
  intros Hi Ht Hr. unfold read_dsdt, all_tables in *. destruct (dsdt tables) as [t|].
  - apply Forall_cons in Ht as [Ht _]. by eapply read_table_holds.
  - inv_run. split; [by apply keeps_refl|]. by intros t k ?%not_elem_of_nil.
Qed.

Lemma read_ssdts_holds l st u st' : handler_inv st → Forall table_ok l →
  mfor l read_ssdt st = Ret (u, st') → keeps st st' ∧ holds_tables l st'.
Proof.
  intros Hi Hl. revert st Hi. induction Hl as [|t l Ht Hl IH]; intros st Hi Hr; simpl in Hr.
  { inv_run. split; [by apply keeps_refl|]. by intros ? ? ?%not_elem_of_nil. }
  apply bind_Ret in Hr as ([] & st2 & Hr1 & Hr). unfold read_ssdt in Hr1.
  apply bind_Ret in Hr1 as ([] & st1 & Hlog & Hr1). apply keeping_on_snd in Hlog; [|done].
  apply read_table_holds in Hr1 as [G1 Hh1]; [|apply Hlog|done].
  destruct (IH st2 (proj1 G1) Hr) as [G2 Hh2]. split.
  - eapply gains_trans; [exact Hlog| |]; [eapply gains_trans; [exact G1|exact G2|]|]; intros k; simpl;
      [|instantiate (1 := λ _, 0); simpl; lia]; lia.
  - intros t' k [->|Hin]%elem_of_cons Hk; [|by eapply Hh2].
    eapply (holds_tables_keeps _ _ _ Hh1 G2); [by left|done].
Qed.

(** The control ports, field by field. *)
Definition ports_of (fadt : FadtMapping) (acpi : Acpi) : Prop :=
  ∃ a b, pm1a_control_block fadt = Ok a ∧ pm1b_control_block fadt = Ok b ∧
    pm1a_cnt acpi = a mod 2 ^ 16 ∧
    match b with
    | None => pm1b_cnt acpi = None
    | Some cnt => (cnt = 0 ∧ pm1b_cnt acpi = None) ∨
        (cnt ≠ 0 ∧ pm1b_cnt acpi = Some (cnt mod 2 ^ 16))
    end ∧
    smi_cmd_port acpi = fadt_smi_cmd_port fadt mod 2 ^ 16 ∧
    acpi_enable acpi = fadt_acpi_enable fadt.

Lemma control_ports_spec fadt acpi : control_ports fadt = Ret acpi → ports_of fadt acpi.
Proof.
  unfold control_ports, ports_of, expect_ok.
  destruct (pm1a_control_block fadt) as [a|]; [|done].
  destruct (pm1b_control_block fadt) as [b|]; [|done]. intros [= <-]. exists a, b.
  split_and!; [done|done|done| |done|done]. destruct b as [cnt|]; [|done]. cbn [pm1b_cnt].
  destruct (Z.eqb_spec cnt 0); [by left|by right].
Qed.

(** The last part keeps what is held, and reads the ports from the FADT it finds. *)
Lemma finish_keeps tables st r st' : handler_inv st →
  (r ← get_fadt tables;
   o ← lift (expect_ok r "Error when serching for the FADT");
   fadt ← lift (expect o "Couldn't find the FADT");
   acpi ← lift (control_ports fadt);
   drop_fadt fadt ≫= λ _,
   mret (tables, acpi)) st = Ret (r, st') →
  keeps st st' ∧ r.1 = tables ∧ ∃ st1 fadt u, get_fadt tables st = Ret (Ok (Some fadt), st1) ∧
    drop_fadt fadt st1 = Ret (u, st') ∧ ports_of fadt r.2.
Proof.
  intros Hi Hr. apply bind_Ret in Hr as (g & st1 & Hg & Hr).
  apply bind_Ret in Hr as (o & s & [Eg ->]%lift_Ret & Hr).
  destruct g as [o'|]; [|done]. injection Eg as ->.
  apply bind_Ret in Hr as (fadt & s & [Eo ->]%lift_Ret & Hr).
  destruct o as [f|]; [|done]. injection Eo as ->.
  apply bind_Ret in Hr as (acpi & s & [Ea ->]%lift_Ret & Hr).
  apply bind_Ret in Hr as (u & s & Hd & [<- ->]%ret_Ret). apply control_ports_spec in Ea.
  split; [|split; [done|by exists st1, fadt, u]]. apply get_fadt_keeps in Hg; [|done].
  apply drop_fadt_releases in Hd; [|apply Hg|].
  - eapply gains_trans; [exact Hg|exact Hd|]. intros k. simpl. lia.
  - intros k. destruct Hg as [_ Hg]. specialize (Hg k). pose proof (held_nonneg st k Hi). lia.
Qed.
End reading.

(** ** Properties *)

Section table_properties.
Context `{BootInfo} `{!BootInfoLaws} `{Addresses} `{!AddressesLaws}.
Context {T : Type} `{Mapper T} `{!MapperLaws T} {X Tables FadtMapping PlatformInfo : Type}.
Context `{AcpiCrates T X Tables FadtMapping PlatformInfo}.
Context `{!AcpiCratesLaws T X Tables FadtMapping PlatformInfo}.

(** C7. The definition blocks stay in memory: when [bios_get_acpi] returns, the
    handler's table is consistent, and for every byte of the DSDT and of each SSDT
    the handler holds a reference to its frame and the byte is mapped at its own
    address, whatever the interpreter mapped and released on the way.  The control
    ports are the fields of the FADT that [get_fadt] finds at the end: the
    lower 16 bits of the addresses, and no PM1b port when it is absent or zero. *)
Theorem acpi_tables_mapped (c : PagingContext T) (x : X) (tables : Tables) acpi st' :
  ctx_ok c → bios_get_acpi (Some c, x) = Ret ((tables, acpi), st') →
  handler_inv st' ∧
  (∀ t b, t ∈ all_tables tables → table_address t ≤ b < table_address t + table_length t →
     1 ≤ held st' (align_down b)) ∧
  (∀ t, t ∈ all_tables tables → readable st' t) ∧
  ∃ st1 st2 fadt u, get_fadt tables st1 = Ret (Ok (Some fadt), st2) ∧
    drop_fadt fadt st2 = Ret (u, st') ∧ ports_of fadt acpi.
Proof.
  intros Hc Hr. assert (handler_inv ((Handler_new, Some c), x)) as Hi.
  { exists Handler_new, c. split; [done|]. split; [done|]. intros k e. unfold Handler_new.
    by rewrite lookup_empty. }
  unfold bios_get_acpi, inner in Hr.
  apply bind_Ret in Hr as ([] & s1 & E1 & Hr). apply keeping_on_snd in E1 as [Hi1 _]; [|done]. clear Hi.
  apply bind_Ret in Hr as (found & s2 & E2 & Hr). pose proof (search_keeps _ _ _ Hi1 E2) as [Hi2 _].
  apply bind_Ret in Hr as (tb & s & [Et ->]%lift_Ret & Hr).
  destruct found as [tb'|]; [injection Et as ->|done]. apply search_tables in E2 as Hts.
  apply bind_Ret in Hr as ([] & s3 & E3 & Hr). apply AmlContext_new_keeps in E3 as [Hi3 _]; [|done].
  apply bind_Ret in Hr as ([] & s4 & E4 & Hr). apply keeping_on_snd in E4 as [Hi4 _]; [|done].
  apply bind_Ret in Hr as ([] & s5 & [G5 Hd]%read_dsdt_holds & Hr); [|done|done].
  apply bind_Ret in Hr as ([] & s6 & [G6 Hs]%read_ssdts_holds & Hr);
    [|apply G5|by apply Forall_app in Hts as [_ ?]].
  apply (holds_tables_keeps _ _ _ Hd) in G6 as Hd6.
  apply bind_Ret in Hr as ([] & s7 & G7%keeping_on_snd & Hr); [|apply G6].
  apply bind_Ret in Hr as (rd & s8 & G8%initialize_keeps & Hr); [|apply G7].
  apply bind_Ret in Hr as ([] & s & [_ ->]%lift_Ret & Hr).
  apply bind_Ret in Hr as ([] & s9 & G9%keeping_on_snd & Hr); [|apply G8].
  apply finish_keeps in Hr as [G10 ([= <-] & st1 & fadt & u & Ha)]; [|apply G9].
  assert (keeps s6 st') as G by (do 3 (eapply gains_trans; [eassumption|..]; [|intros k;
    instantiate (1 := λ _, 0); simpl; lia]); done).
  assert (holds_tables (all_tables tables) st') as Hall.
  { intros t k [Ht|Ht]%elem_of_app Hk;
      [by eapply (holds_tables_keeps _ _ _ Hd6 G)|by eapply (holds_tables_keeps _ _ _ Hs G)]. }
  rewrite Forall_forall in Hts. split_and!; [apply G10| | |by exists s9, st1, fadt, u].
  - intros t b Ht Hb. by apply (Hall t), table_byte_frame; [|apply Hts|].
  - intros t Ht. apply held_readable; [apply G10|by apply Hts|]. intros k. by apply Hall.
Qed.
End table_properties.

(** ** Witnesses *)

Module TablesWitness.
Import Reference AllocatorWitness InitWitness MemoryWitness HandlerWitness.

(** A machine with a DSDT and an SSDT, whose messages are kept. *)
Definition demo_dsdt : AmlTable := mkAmlTable 16400 100.
Definition demo_ssdt : AmlTable := mkAmlTable 20480 1000.

#[export] Instance demo_crates : AcpiCrates tables (list string) unit unit unit := {|
  search_for_rsdp_bios := mret (Ok tt);
  dsdt _ := Some demo_dsdt;
  ssdts _ := [demo_ssdt];
  AmlContext_new := mret tt;
  parse_table _ _ := mret (Ok tt);
  initialize_objects := mret (Ok tt);
  get_fadt _ := mret (Ok (Some tt));
  drop_fadt _ := mret tt;
  pm1a_control_block _ := Ok 0x604;
  pm1b_control_block _ := Ok (Some 0);
  fadt_acpi_enable _ := 2;
  fadt_smi_cmd_port _ := 0xB2;
  tables_platform_info _ := mret (Ok tt);
  log_at _ msg := λ x, Ret (tt, x ++ [msg]);
|}.

#[export] Instance demo_crates_laws : AcpiCratesLaws tables (list string) unit unit unit.
Proof.
  refine {| fadt_frames := λ _ _, 0 |}; try (intros; apply keeping_ret).
  - intros st tb st' _. repeat constructor; simpl; lia.
  - intros table st r st' Hi _ [_ ->]%ret_Ret. by apply keeps_refl.
  - intros. done.
  - intros tb st o st' Hi [_ ->]%ret_Ret. by apply keeps_refl.
  - intros f st u st' Hi _ [_ ->]%ret_Ret. by apply keeps_refl.
Qed.

Lemma demo_tables_run : ∃ st',
  bios_get_acpi (Some demo_ctx, []) = Ret ((tt, mkAcpi 0xB2 0x604 None 2), st') ∧
  st'.2 = ["Reading the acpi tables"; "Reading the dsdt"; "Reading a ssdt";
    "Starting the aml objects init"; "Finished the aml objects init"]%string.
Proof. eexists. split; [by vm_compute|done]. Qed.

Lemma acpi_tables_mapped_witness : ∃ st',
  bios_get_acpi (Some demo_ctx, []) = Ret ((tt, mkAcpi 0xB2 0x604 None 2), st') ∧
  readable st' demo_dsdt ∧ readable st' demo_ssdt ∧ 1 ≤ held st' 16384.
Proof.
  destruct demo_tables_run as (st' & Hr & _). exists st'. split; [exact Hr|].
  destruct (acpi_tables_mapped demo_ctx [] tt _ st' demo_ctx_ok Hr) as (_ & Hh & Ht & _).
  split_and!; [apply Ht; by left|apply Ht; by right; left|].
  apply (Hh demo_dsdt 16400); [by left|simpl; lia].
Defined.
End TablesWitness.
