(* ===== verification/Kernel.v ===== *)
(** * Kernel initialisation (src/lib.rs)

    [init] puts the parts together: the processor's tables, the PICs, the timer,
    the logger, paging and the heap.  The state of the kernel is the product of the
    states of the parts; each step runs on its own part.  The test runner and the
    ways to end a run under QEMU are here too. *)

From S2P Require Import Prelude Platform Bus FrameAllocator Bootstrap FrameInit Memory Heap Vga.
From S2P Require Import Interrupts Format Serial Exceptions.
From stdpp Require Import sorting.
Local Open Scope Z_scope.

(** ** The timer *)

Definition DIVISOR : Z := 1193.

Definition pit_init {D} `{Bus D} : M D unit :=
  write_to_port 8 0x43 52 ≫= λ _,
  write_to_port 8 0x40 (as_u8 DIVISOR) ≫= λ _,
  write_to_port 8 0x40 (as_u8 (Z.shiftr DIVISOR 8)).

(** ** The kernel's state *)

Record Kernel (C D L T B : Type) : Type := mkKernel {
  k_cpu : C;                      (* descriptor tables and segment registers *)
  k_flag : bool;                  (* the interrupt flag *)
  k_pics : InterruptController;   (* [PICS] *)
  k_dev : D;                      (* the hardware *)
  k_log : L;                      (* the state of the [log] crate *)
  k_paging : PagingState T;       (* [PAGING_CTX] *)
  k_heap : B * bool;              (* [ALLOCATOR] and [INITIALIZED] *)
}.
Arguments mkKernel {C D L T B} _ _ _ _ _ _ _.
Arguments k_cpu {C D L T B} _.
Arguments k_flag {C D L T B} _.
Arguments k_pics {C D L T B} _.
Arguments k_dev {C D L T B} _.
Arguments k_log {C D L T B} _.
Arguments k_paging {C D L T B} _.
Arguments k_heap {C D L T B} _.

(** Run a computation on a part of the state. *)
Definition zoom {K S A} (view : K → S) (update : S → K → K) (m : M S A) : M K A := λ k,
  match m (view k) with
  | Ret (a, s) => Ret (a, update s k)
  | Panic p => Panic p
  end.

Lemma wp_zoom {K S A} (view : K → S) (update : S → K → K) (m : M S A) Q k :
  wp m (λ a s, Q a (update s k)) (view k) → wp (zoom view update m) Q k.
Proof. unfold wp, zoom. by destruct (m (view k)) as [[a s]|]. Qed.

Lemma wp_bind_inv {S A B} (m : M S A) (f : A → M S B) Q s :
  wp (m ≫= f) Q s → wp m (λ a s', wp (f a) Q s') s.
Proof. unfold wp, mbind, M_bind. by destruct (m s) as [[a s']|]. Qed.

(** The boot information of the [bootloader] crate. *)
Record Boot : Type := mkBootInfo {
  physical_memory_offset : Z;
  boot_memory_map : list MemoryRegion;
}.

(** ** The code *)

Section code.
Context `{BootInfo} `{Addresses}.
Context {G I C : Type} `{Segments G C} `{DescriptorTable I C}.
Context {D : Type} `{Bus D} {L : Type} `{LogCrate L} {T : Type} `{Mapper T} {B : Type} `{BuddyHeap B}.

Notation K := (Kernel C D L T B).

Definition on_cpu {A} : M C A → M K A := zoom k_cpu (λ c k,
  mkKernel c (k_flag k) (k_pics k) (k_dev k) (k_log k) (k_paging k) (k_heap k)).
Definition on_dev {A} : M D A → M K A := zoom k_dev (λ d k,
  mkKernel (k_cpu k) (k_flag k) (k_pics k) d (k_log k) (k_paging k) (k_heap k)).
Definition on_log {A} : M L A → M K A := zoom k_log (λ l k,
  mkKernel (k_cpu k) (k_flag k) (k_pics k) (k_dev k) l (k_paging k) (k_heap k)).
Definition on_paging {A} : M (PagingState T) A → M K A := zoom k_paging (λ p k,
  mkKernel (k_cpu k) (k_flag k) (k_pics k) (k_dev k) (k_log k) p (k_heap k)).
Definition on_heap {A} : M (HeapState T B) A → M K A :=
  zoom (λ k, (k_paging k, k_heap k)) (λ s k,
    mkKernel (k_cpu k) (k_flag k) (k_pics k) (k_dev k) (k_log k) s.1 s.2).

(** [x86_64::instructions::interrupts::enable()] *)
Definition enable_interrupts : M K unit := λ k,
  Ret (tt, mkKernel (k_cpu k) true (k_pics k) (k_dev k) (k_log k) (k_paging k) (k_heap k)).

(** The address of the double-fault stack, the register with the active page table,
    the constructor of the mapper, and the memory the bitmap will occupy. *)
Context (STACK cr3 : Z) (OffsetPageTable_new : Z → Z → T) (raw : nat → Z).

Definition init (boot_info : Boot) : M K unit :=
  on_cpu (gdt_init (G:=G) STACK) ≫= λ _,
  on_cpu (init_idt (I:=I)) ≫= λ _,
  k ← get;
  on_dev (controller_init (k_pics k)) ≫= λ _,
  enable_interrupts ≫= λ _,
  on_dev pit_init ≫= λ _,
  r ← on_log (λ l, Ret (set_logger l));
  lift (match r with Ok _ => Ret tt | Err _ => Panic UnwrapNone end) ≫= λ _,
  on_log (λ l, Ret (tt, set_max_level Debug l)) ≫= λ _,
  phys_mem_offset ← lift (VirtAddr_new (physical_memory_offset boot_info));
  on_paging (memory_init OffsetPageTable_new raw cr3 phys_mem_offset (boot_memory_map boot_info))
    ≫= λ _,
  h ← on_heap init_heap;
  lift (expect_ok h "heap initialization failed").
End code.

(** The steps, on a state given by its parts. *)
Section zooms.
Context {C D L T B A : Type}.
Implicit Types (c : C) (f : bool) (i : InterruptController) (d : D) (l : L) (p : PagingState T).

Lemma wp_on_cpu (m : M C A) (Q : A → Kernel C D L T B → Prop) c f i d l p h :
  wp m (λ a c', Q a (mkKernel c' f i d l p h)) c → wp (on_cpu m) Q (mkKernel c f i d l p h).
Proof. intros Hw. by apply wp_zoom. Qed.

Lemma wp_on_dev (m : M D A) (Q : A → Kernel C D L T B → Prop) c f i d l p h :
  wp m (λ a d', Q a (mkKernel c f i d' l p h)) d → wp (on_dev m) Q (mkKernel c f i d l p h).
Proof. intros Hw. by apply wp_zoom. Qed.

Lemma wp_on_log (m : M L A) (Q : A → Kernel C D L T B → Prop) c f i d l p h :
  wp m (λ a l', Q a (mkKernel c f i d l' p h)) l → wp (on_log m) Q (mkKernel c f i d l p h).
Proof. intros Hw. by apply wp_zoom. Qed.

Lemma wp_on_paging (m : M (PagingState T) A) (Q : A → Kernel C D L T B → Prop) c f i d l p h :
  wp m (λ a p', Q a (mkKernel c f i d l p' h)) p → wp (on_paging m) Q (mkKernel c f i d l p h).
Proof. intros Hw. by apply wp_zoom. Qed.

Lemma wp_on_heap (m : M (HeapState T B) A) (Q : A → Kernel C D L T B → Prop) c f i d l p h :
  wp m (λ a s, Q a (mkKernel c f i d l s.1 s.2)) (p, h) → wp (on_heap m) Q (mkKernel c f i d l p h).
Proof. intros Hw. by apply wp_zoom. Qed.

Lemma wp_enable_interrupts (Q : unit → Kernel C D L T B → Prop) c f i d l p h :
  Q tt (mkKernel c true i d l p h) → wp enable_interrupts Q (mkKernel c f i d l p h).
Proof. done. Qed.
End zooms.

(** ** The timer as a device *)

(** What channel 0 expects next. *)
Inductive PitPhase : Type := WantLow | WantHigh (low : Z).

Record Pit : Type := mkPit {
  pit_command : Z;
  pit_reload : Z;
  pit_phase : PitPhase;
}.

Definition pit_data_step (v : Z) (p : Pit) : Pit :=
  match pit_phase p with
  | WantLow => mkPit (pit_command p) (pit_reload p) (WantHigh v)
  | WantHigh low => mkPit (pit_command p) (v * 256 + low) WantLow
  end.

Class Timer8254 (D : Type) : Type := { pit : D → Pit }.

(** A command for channel 0 with both bytes of the reload value to follow. *)
Class TimerLaws (D : Type) `{Bus D, Timer8254 D} : Prop := {
  pit_command_out v h : Z.land v 0xF0 = 0x30 →
    pit (port_out 8 0x43 v h) = mkPit v (pit_reload (pit h)) WantLow;
  pit_data_out v h : pit (port_out 8 0x40 v h) = pit_data_step v (pit h);
}.

(** The oscillator's frequency in Hz. *)
Definition PIT_FREQUENCY : Z := 1193182.

Lemma pit_init_run {D} `{TimerLaws D} (h : D) :
  wp pit_init (λ _ h', pit h' = mkPit 52 DIVISOR WantLow ∧
    ∀ (A : Type) (f : D → A), (∀ p v h0, p = 0x40 ∨ p = 0x43 → f (port_out 8 p v h0) = f h0) →
      f h' = f h) h.
Proof.
  unfold pit_init. wp_bus. split.
  - rewrite !pit_data_out, pit_command_out by done. done.
  - intros A f Hf. by rewrite !Hf by auto.
Qed.

(** The timer ticks every millisecond: [pit_init] leaves channel 0 as a rate
    generator (mode 2) with both bytes of the divisor in place, whatever the device
    was doing, and the rate is between 1000 Hz and 1000.2 Hz. *)
Theorem pit_ticks_every_millisecond {D} `{TimerLaws D} (h : D) :
  wp pit_init (λ _ h', Z.land (pit_command (pit h')) 0xE = 4 ∧ pit_phase (pit h') = WantLow ∧
    1000 * pit_reload (pit h') ≤ PIT_FREQUENCY ∧
    5 * PIT_FREQUENCY < 5001 * pit_reload (pit h')) h.
Proof.
  eapply wp_mono; [apply pit_init_run|]. intros [] h' [-> _]. by vm_compute.
Qed.

(** ** Frames that are left after [FrameInit.init] *)

Lemma usable_not_reserved mm i : map_sorted mm → i ∈ usable_frames mm → i ∉ reserved_frames mm.
Proof.
  intros Hs (r1 & H1 & Hu & Hi1)%elem_of_usable_frames (r2 & H2 & Hl & Hi2)%elem_of_reserved_frames.
  pose proof (regions_disjoint mm r1 r2 i Hs H1 H2 Hi1 Hi2) as ->. rewrite Hu in Hl. set_solver.
Qed.

Lemma sorted_take_drop (l : list Z) n i : StronglySorted Z.lt l → i ∈ drop n l → i ∉ take n l.
Proof.
  intros Hs. revert n. induction Hs as [|x l Hs IH HF]; intros n.
  - rewrite drop_nil. by intros ?%not_elem_of_nil.
  - destruct n as [|n]; simpl; [intros _; apply not_elem_of_nil|]. intros Hi.
    apply not_elem_of_cons. split; [|by apply IH]. rewrite List.Forall_forall in HF.
    assert (i ∈ l) as Hl by (rewrite <-(take_drop n l); apply elem_of_app; by right).
    apply list_elem_of_In in Hl. specialize (HF i Hl). lia.
Qed.

Lemma filter_drop_length (P : Z → Prop) `{!∀ x, Decision (P x)} n (l : list Z) :
  Forall P (drop n l) → (length l - n ≤ length (filter P l))%nat.
Proof.
  intros HF. rewrite <-(take_drop n l) at 2. rewrite filter_app, length_app, (filter_all _ (drop n l)) by done.
  rewrite length_drop. lia.
Qed.

(** Zeroed memory has no frame in use. *)
Lemma raw_zero_unused mm e : used_set (raw_allocator (λ _, 0) mm e) = ∅.
Proof.
  apply set_eq. intros i. split; [|by intros ?%not_elem_of_empty].
  intros [_ Hu]%elem_of_used_set. exfalso. unfold frame_used, raw_allocator in Hu.
  cbn [bitmap] in Hu. rewrite list_lookup_fmap in Hu.
  destruct (seq _ _ !! _); cbn in Hu; by rewrite Z.testbit_0_l in Hu.
Qed.

Section booted.
Context {T : Type} `{MapperLaws T}.

(** On zeroed memory every usable frame that the bootstrap allocator did not take is
    available. *)
Lemma init_available mm r t a t' bk tb : init_pre mm r t →
  init_post (λ _, 0) mm r t a t' bk tb →
  (length (usable_frames mm) - length (bk ++ tb) ≤ length (available a))%nat.
Proof.
  intros Hpre [Hwf Hmap Hcur _ Hus Hfst _ _ _ _ _ _]. unfold available. rewrite Hmap, Hcur, Hus.
  rewrite raw_zero_unused, union_empty_r_L, (list_to_set_perm_L _ _ Hfst).
  generalize (length (bk ++ tb)). intros n.
  apply filter_drop_length, Forall_forall. intros i Hi.
  destruct Hpre as [[Hr Hs] _ _ _ _].
  assert (i ∈ usable_frames mm) as Hin.
  { rewrite <-(take_drop n (usable_frames mm)). apply elem_of_app. by right. }
  split.
  - apply elem_of_usable_frames in Hin as (v & Hv & _ & Hiv%elem_of_frame_range).
    rewrite Forall_forall in Hr. destruct (Hr v Hv) as [? _]. lia.
  - rewrite not_elem_of_union, elem_of_list_to_set. split; [|by apply usable_not_reserved].
    apply sorted_take_drop; [by apply usable_frames_sorted|done].
Qed.

Lemma init_ctx_ok raw mm r t a t' bk tb :
  init_pre mm r t → init_post raw mm r t a t' bk tb → ctx_ok (t', a).
Proof.
  intros Hpre Hpost. split; simpl; [apply Hpost|].
  intros v Hv. rewrite (io_map _ _ _ _ _ _ _ _ Hpost) in Hv. unfold capacity.
  rewrite (io_length _ _ _ _ _ _ _ _ Hpost). destruct Hpre as [Hok Hl _ _ _].
  pose proof (region_end_le_last _ _ _ Hok Hl Hv). destruct Hok as [Hr _].
  rewrite Forall_forall in Hr. destruct (Hr v Hv) as (? & ? & ?). lia.
Qed.
End booted.

(** ** From the boot loader to a running kernel *)

(** What the machine must offer: memory for the bitmap and the heap (four frames per
    page: the page and up to three page tables), zeroed where the bitmap goes, and
    free virtual memory for both. *)
Record boot_requirements {T} `{MapperLaws T} (cr3 : Z) (OffsetPageTable_new : Z → Z → T) (r : MemoryRegion)
    (boot_info : Boot) : Prop := {
  bp_offset : 0 ≤ physical_memory_offset boot_info;
  bp_cr3 : 0 ≤ cr3 ∧ physical_memory_offset boot_info + cr3 < 2 ^ 47;
  bp_init : init_pre (boot_memory_map boot_info) r
    (OffsetPageTable_new (physical_memory_offset boot_info + cr3) (physical_memory_offset boot_info));
  bp_memory : 4 * bitmap_frames (end_frame_number (range r)) + 500 ≤
    Z.of_nat (length (usable_frames (boot_memory_map boot_info)));
  bp_heap p : p ∈ frames_from HEAP_START 125 →
    let t := OffsetPageTable_new (physical_memory_offset boot_info + cr3)
      (physical_memory_offset boot_info) in
    pages t !! p = None ∧ huge t p = false;
}.

Section boot_facts.
Context `{BootInfo} `{!BootInfoLaws} `{Addresses} `{!AddressesLaws}.
Context {T : Type} `{Mapper T} `{!MapperLaws T} {B : Type} `{BuddyHeap B}.
Context (cr3 : Z) (OffsetPageTable_new : Z → Z → T) (r : MemoryRegion) (boot_info : Boot).
Hypothesis Hboot : boot_requirements cr3 OffsetPageTable_new r boot_info.

Notation off := (physical_memory_offset boot_info).
Notation mm := (boot_memory_map boot_info).

(** A context in which the heap can be set up. *)
Definition heap_ready (c : PagingContext T) : Prop :=
  ctx_ok c ∧ memory_map c.2 = mm ∧ (500 ≤ length (available c.2))%nat ∧
  ∀ p, p ∈ frames_from HEAP_START 125 → pages c.1 !! p = None ∧ huge c.1 p = false.

Lemma memory_init_run :
  wp (memory_init OffsetPageTable_new (λ _, 0) cr3 off mm)
    (λ _ s, ∃ c, s = Some c ∧ heap_ready c) None.
Proof.
  destruct Hboot as [Ho [Hc1 Hc2] Hpre Hmem Hheap].
  pose proof (init_run (λ _, 0) mm r _ Hpre ltac:(done)) as (a & t' & Hr & bk & tb & Hpost)%wp_elim.
  unfold wp, memory_init, active_level_4_table. rewrite VirtAddr_add_ok by lia. simpl.
  rewrite Hr. simpl. exists (t', a). split; [done|]. split_and!.
  - by eapply init_ctx_ok.
  - apply Hpost.
  - pose proof (init_available _ _ _ _ _ _ _ Hpre Hpost).
    pose proof (io_taken _ _ _ _ _ _ _ _ Hpost). simpl. lia.
  - intros p Hp. destruct (Hheap p Hp) as [Hp1 Hp2]. simpl.
    rewrite (io_huge _ _ _ _ _ _ _ _ Hpost). split; [|done].
    rewrite (io_others _ _ _ _ _ _ _ _ Hpost); [done|]. intros i Hi.
    apply elem_of_frames_from in Hp as (j & Hj & ->). unfold HEAP_START, BITMAP_START. lia.
Qed.

Lemma heap_init_run c (b : B) flag : heap_ready c →
  wp init_heap (λ res s, res = Ok tt ∧ s.2 = (buddy_init HEAP_START HEAP_SIZE b, true) ∧
    ∃ c', s.1 = Some c' ∧ ctx_ok c' ∧
      ∀ x, HEAP_START ≤ x < HEAP_START + HEAP_SIZE → ∃ f, heap_frame c c' x f) (Some c, (b, flag)).
Proof.
  intros (Hc & _ & Hav & Hfree). eapply wp_mono.
  - apply wp_conj; [by apply init_heap_runs|by apply init_heap_effect].
  - intros res s [-> (Hs & c' & Es & Hc' & Hx & _)]. eauto 6.
Qed.
End boot_facts.

Section boot_properties.
Context `{BootInfo} `{!BootInfoLaws} `{Addresses} `{!AddressesLaws}.
Context {G I C : Type} `{ProcessorLaws G I C}.
Context {D : Type} `{ControllersLaws D} `{Timer8254 D} `{!TimerLaws D}.
Context {L : Type} `{LogCrate L} `{!LogCrateLaws L}.
Context {T : Type} `{Mapper T} `{!MapperLaws T} {B : Type} `{BuddyHeap B}.

(** The devices after [init]: PICs ready with the kernel's vectors and their masks, the
    timer programmed. *)
Definition devices_ready (h h' : D) : Prop :=
  (∃ i, pic Master h' = mkPic (imr (pic Master h)) i PIC_1_OFFSET 2 1 Ready) ∧
  (∃ i, pic Slave h' = mkPic (imr (pic Slave h)) i PIC_2_OFFSET 4 1 Ready) ∧
  pit h' = mkPit 52 DIVISOR WantLow.

Lemma devices_run (h : D) :
  wp (controller_init PICS ≫= λ _, pit_init) (λ _ h', devices_ready h h') h.
Proof.
  wp_step. eapply wp_mono; [apply init_pics_run|]. intros [] h1 (i1 & i2 & E1 & E2 & _ & _).
  eapply wp_mono; [apply pit_init_run|]. intros [] h2 [Ep Hf]. split_and!; [..|done].
  - exists i1. rewrite (Hf _ (pic Master)); [exact E1|].
    intros p v h0 [->| ->]; by apply pic_other.
  - exists i2. rewrite (Hf _ (pic Slave)); [exact E2|].
    intros p v h0 [->| ->]; by apply pic_other.
Qed.

(** The memory management after [init]: paging is up on the boot loader's map, and
    every byte of the heap has a usable frame that was free. *)
Definition memory_ready (boot_info : Boot) (b : B) (k : Kernel C D L T B) : Prop :=
  k_heap k = (buddy_init HEAP_START HEAP_SIZE b, true) ∧
  ∃ c c', k_paging k = Some c' ∧ ctx_ok c' ∧ memory_map c.2 = boot_memory_map boot_info ∧
    ∀ x, HEAP_START ≤ x < HEAP_START + HEAP_SIZE → ∃ f, heap_frame c c' x f.

Lemma memory_and_heap_run cr3 OffsetPageTable_new r boot_info c f i d l b flag :
  boot_requirements cr3 OffsetPageTable_new r boot_info →
  wp (phys_mem_offset ← lift (VirtAddr_new (physical_memory_offset boot_info));
      on_paging (memory_init OffsetPageTable_new (λ _, 0) cr3 phys_mem_offset
        (boot_memory_map boot_info)) ≫= λ _,
      h ← on_heap init_heap;
      lift (expect_ok h "heap initialization failed"))
    (λ _ k', memory_ready boot_info b k' ∧ ∃ p h, k' = mkKernel c f i d l p h)
    (mkKernel c f i d l None (b, flag)).
Proof.
  intros Hb. wp_step. eapply wp_lift.
  { apply VirtAddr_new_ok. destruct Hb as [? [? ?] _ _ _]. lia. }
  wp_step. apply wp_on_paging. eapply wp_mono; [by eapply memory_init_run|].
  intros [] s (c1 & -> & Hr). wp_step. apply wp_on_heap.
  eapply wp_mono; [eapply heap_init_run; exact Hr|].
  intros res [p' h'] (-> & Hh & c' & Hp & Hc' & Hx). eapply wp_lift; [done|]. simpl in *. subst.
  split; [|by eexists _, _]. split; [done|]. exists c1, c'. split_and!; [done|done|apply Hr|done].
Qed.

(** C2. The kernel boots: on a machine with enough usable memory (500 frames for the
    heap and four per page of the bitmap), zeroed where the bitmap goes, [init] does
    not panic; the processor has the kernel's tables, interrupts are on, the PICs
    deliver vectors 32 and 40 on, the timer divides by 1193, records up to the debug
    level reach the logger and trace records do not, paging is up and the whole heap
    is backed by usable frames and handed to the allocator. *)
Theorem kernel_boots STACK cr3 OffsetPageTable_new r boot_info (k : Kernel C D L T B) :
  0 ≤ STACK → STACK + STACK_SIZE < 2 ^ 47 → boot_requirements cr3 OffsetPageTable_new r boot_info →
  k_pics k = PICS → k_paging k = None → logger_unset (k_log k) →
  wp (init (G:=G) (I:=I) STACK cr3 OffsetPageTable_new (λ _, 0) boot_info) (λ _ k',
    (∀ v, vector_entry (k_cpu k') v = kernel_gate v) ∧
    vector_stack (k_cpu k') 8 = Some (STACK + STACK_SIZE) ∧
    k_flag k' = true ∧ k_pics k' = PICS ∧ devices_ready (k_dev k) (k_dev k') ∧
    (∀ v, passes (k_log k') v = negb (bool_decide (v = Trace))) ∧
    memory_ready boot_info (k_heap k).1 k') k.
Proof.
  destruct k as [c f i d l p [b flag]]. cbn. intros Hlo Hhi Hb -> -> Hl. unfold init.
  pose proof (wp_bind_inv _ _ _ _ (tables_installed (G:=G) (I:=I) STACK c Hlo Hhi)) as Hcpu.
  wp_step. apply wp_on_cpu. eapply wp_mono; [exact Hcpu|]. clear Hcpu. intros [] c1 Hcpu.
  wp_step. apply wp_on_cpu. eapply wp_mono; [exact Hcpu|]. clear Hcpu. intros [] c2 (_ & He & Hs).
  wp_step. apply wp_get. cbn [k_pics].
  pose proof (wp_bind_inv _ _ _ _ (devices_run d)) as Hdev.
  wp_step. apply wp_on_dev. eapply wp_mono; [exact Hdev|]. clear Hdev. intros [] h1 Hdev.
  wp_step. apply wp_enable_interrupts.
  wp_step. apply wp_on_dev. eapply wp_mono; [exact Hdev|]. clear Hdev. intros [] h2 Hdev.
  pose proof (set_logger_ok _ Hl) as Hset.
  wp_step. apply wp_on_log. eapply wp_intro; [by rewrite (surjective_pairing (set_logger l))|].
  rewrite Hset. wp_step. eapply wp_lift; [done|].
  wp_step. apply wp_on_log. eapply wp_intro; [done|].
  eapply wp_mono; [by eapply memory_and_heap_run|].
  intros [] k' (Hm & p' & h' & ->).
  split_and!; [exact He|exact (Hs 8)|done|done|exact Hdev| |exact Hm].
  intros v. cbn [k_log]. rewrite passes_spec by done. by destruct v.
Qed.
End boot_properties.

(** ** The test runner *)

Inductive QemuExitCode : Type := Success | Failed.

Definition QemuExitCode_as_u32 (code : QemuExitCode) : Z :=
  match code with Success => 0x10 | Failed => 0x11 end.

Section test_code.
Context {D : Type} `{Bus D} `{Uart D}.

Definition exit_qemu (exit_code : QemuExitCode) : M D unit :=
  write_to_port 32 0xf4 (QemuExitCode_as_u32 exit_code).

(** A test: the name of its type and what calling it does. *)
Record Testable : Type := mkTest {
  type_name : bytes;
  call_test : M (option Z * D) unit;
}.

Definition tab : bytes := [9].

Definition run (self : Testable) : M (option Z * D) unit :=
  Serial._print [type_name self; text "..." ++ tab] ≫= λ _,
  call_test self ≫= λ _,
  serial_println [text "[ok]"].

Definition test_runner (tests : list Testable) : M (option Z * D) unit :=
  serial_println [text "Running "; decimal (Z.of_nat (length tests)); text " tests"] ≫= λ _,
  mfor tests run ≫= λ _,
  on_snd (exit_qemu Success).

Definition test_panic_handler (info : list bytes) : M (option Z * D) never :=
  serial_println [text "[failed]" ++ newline] ≫= λ _,
  serial_println ([text "Error: "] ++ info ++ [newline]) ≫= λ _,
  on_snd (exit_qemu Failed) ≫= λ _,
  mret hlt_loop.
End test_code.
Arguments Testable : clear implicits.

Section test_properties.
Context {D : Type} `{Bus D} `{UartLaws D}.
Implicit Types (st : option Z * D).

(** A test that passes: it returns, with some output of its own. *)
Definition passing (output : bytes) (t : Testable D) : Prop :=
  ∀ st, serial_ok st → wp (call_test t) (λ _ st', serial_ok st' ∧ sent st'.2 = sent st.2 ++ output) st.

Definition test_text (t : Testable D) (output : bytes) : bytes :=
  type_name t ++ text "..." ++ tab ++ output ++ text "[ok]" ++ newline.

Lemma run_sends t output st : serial_ok st → passing output t → plain (type_name t) →
  wp (run t) (λ _ st', sends st (test_text t output) st') st.
Proof.
  intros Hok Ht Hp. unfold run. wp_step.
  eapply wp_mono; [apply wp_serial_print; [done|]|].
  { cbn [concat]. rewrite !plain_app. split; [done|]. apply (bool_decide_unpack _). by vm_compute. }
  intros [] st1 Hs1. wp_step. eapply wp_mono; [apply Ht; by eapply sends_ok|].
  intros [] st2 [Hok2 E2]. eapply wp_mono; [apply wp_serial_print; [done|]|].
  { apply (bool_decide_unpack _). by vm_compute. }
  intros [] st3 [Hok3 E3]. split; [done|]. destruct Hs1 as [_ E1]. rewrite E3, E2, E1.
  unfold test_text. rewrite concat_app. cbn [concat]. by rewrite !app_nil_r, <-!(assoc_L (++)).
Qed.

Lemma runs_send tests outputs st : serial_ok st → Forall2 passing outputs tests →
  Forall (λ t, plain (type_name t)) tests →
  wp (mfor tests run) (λ _ st', serial_ok st' ∧
    sent st'.2 = sent st.2 ++ concat (zip_with test_text tests outputs)) st.
Proof.
  intros Hok HF. revert st Hok. induction HF as [|o t outputs tests Ht HF IH]; intros st Hok Hp.
  - apply wp_ret. simpl. by rewrite app_nil_r.
  - apply Forall_cons in Hp as [Hp Hps]. cbn [mfor]. wp_step.
    eapply wp_mono; [by apply (run_sends t o)|]. intros [] st1 Hs1.
    eapply wp_mono; [apply IH; [by eapply sends_ok|done]|]. intros [] st2 [Hok2 E2].
    split; [done|]. destruct Hs1 as [_ E1]. rewrite E2, E1. cbn [zip_with concat].
    by rewrite <-(assoc_L (++)).
Qed.

(** The test runner: when all tests pass it announces their number, writes one
    line per test in order, each closed with [[ok]] after what the test printed, and
    ends the run with the success code; a panic is reported with the failure code,
    after which the machine halts. *)
Theorem test_runner_reports tests outputs info st :
  serial_ok st → Forall2 passing outputs tests → Forall (λ t, plain (type_name t)) tests →
  plain (concat info) →
  wp (test_runner tests) (λ _ st', ∃ h, st'.2 = port_out 32 0xf4 0x10 h ∧
    sent h = sent st.2 ++ (text "Running " ++ decimal (Z.of_nat (length tests)) ++ text " tests" ++
      newline) ++ concat (zip_with test_text tests outputs)) st ∧
  wp (test_panic_handler info) (λ r st', r = hlt_loop ∧ ∃ h, st'.2 = port_out 32 0xf4 0x11 h ∧
    sent h = sent st.2 ++ text "[failed]" ++ newline ++ newline ++
      text "Error: " ++ concat info ++ newline ++ newline) st.
Proof.
  intros Hok HF Hp Hi. pose proof (plain_decimal (Z.of_nat (length tests))) as Hn. split.
  - unfold test_runner. wp_step. eapply wp_mono; [apply wp_serial_print; [done|]|].
    { cbn [concat app]. rewrite !plain_app. split_and!; try done; apply (bool_decide_unpack _); by vm_compute. }
    intros [] st1 Hs1. wp_step. eapply wp_mono; [eapply runs_send; [by eapply sends_ok|done|done]|].
    intros [] [o h] [_ E2]. apply wp_on_snd, wp_write_to_port. exists h. split; [done|].
    destruct Hs1 as [_ E1]. cbn [fst snd] in *. rewrite E2, E1. cbn [concat app].
    by rewrite app_nil_r, <-!(assoc_L (++)).
  - unfold test_panic_handler. wp_step. eapply wp_mono; [apply wp_serial_print; [done|]|].
    { apply (bool_decide_unpack _). by vm_compute. }
    intros [] st1 Hs1. wp_step. eapply wp_mono; [apply wp_serial_print; [by eapply sends_ok|]|].
    { rewrite !concat_app, !plain_app. split_and!; try done; apply (bool_decide_unpack _); by vm_compute. }
    intros [] [o h] [_ E2]. wp_step. apply wp_on_snd, wp_write_to_port, wp_ret. split; [done|].
    exists h. split; [done|]. destruct Hs1 as [_ E1]. cbn [fst snd] in *. rewrite E2, E1.
    rewrite !concat_app. cbn [concat]. by rewrite !app_nil_r, <-!(assoc_L (++)).
Qed.
End test_properties.

(** ** Witnesses *)

Module KernelWitness.
Import Reference InterruptWitness InitWitness SerialWitness ExceptionsWitness HeapWitness.

(** The PC of [Interrupts] with a timer. *)
Definition pc_timer : Type := pc * Pit.

Definition pit_out (p v : Z) (t : Pit) : Pit :=
  if bool_decide (p = 0x43) then mkPit v (pit_reload t) WantLow
  else if bool_decide (p = 0x40) then pit_data_step v t else t.

#[export] Instance pc_timer_Bus : Bus pc_timer := {|
  port_in w p h := ((port_in w p h.1).1, ((port_in w p h.1).2, h.2));
  port_out w p v h := (port_out w p v h.1, pit_out p v h.2);
  mem_in w a h := ((mem_in w a h.1).1, ((mem_in w a h.1).2, h.2));
  mem_out w a v h := (mem_out w a v h.1, h.2);
  halt h := (halt h.1, h.2);
|}.

#[export] Instance pc_timer_Controllers : Controllers pc_timer := {|
  pic s h := pic s h.1;
  lapic_base := lapic_base (D:=pc);
  lapic h := lapic h.1;
|}.

#[export] Instance pc_timer_laws : ControllersLaws pc_timer.
Proof.
  split; intros; cbn [pic lapic pc_timer_Controllers port_in port_out mem_in mem_out pc_timer_Bus fst snd].
  - apply pic_icw1.
  - apply pic_eoi.
  - apply pic_data.
  - by apply pic_other.
  - apply pic_mask.
  - apply pic_in.
  - apply pic_keyboard.
  - apply (lapic_range (D:=pc)).
  - apply lapic_siv_fits.
  - apply lapic_out.
  - apply lapic_in.
  - apply (lapic_read_siv (D:=pc)).
  - apply (lapic_read (D:=pc)).
  - by apply (lapic_write_siv (D:=pc)).
  - apply (lapic_eoi (D:=pc)).
  - apply (pic_lapic_read (D:=pc)).
  - apply (pic_lapic_write (D:=pc)).
Qed.

#[export] Instance pc_timer_Timer : Timer8254 pc_timer := {| pit := snd |}.

#[export] Instance pc_timer_TimerLaws : TimerLaws pc_timer.
Proof. by split. Qed.

(** 600 usable frames, page tables at the physical address 0x1000. *)
Definition demo_boot : Boot := mkBootInfo 0x100000000000 big_map.
Definition demo_tables (level_4 offset : Z) : tables := empty_tables.

Definition powered_on : Kernel regs pc_timer (bool * Z) tables (list (Z * Z)) :=
  mkKernel reset_regs false PICS (machine, mkPit 0 0 WantLow) (false, 0) None ([], false).

Lemma demo_boot_pre : boot_requirements 0x1000 demo_tables (mkRegion (mkRange 1 601) Usable) demo_boot.
Proof.
  split; [done|split; done| |by vm_compute|done].
  split; [|done|simpl; lia|by vm_compute|done]. split; repeat constructor; simpl; lia.
Qed.

Lemma no_logger : logger_unset (k_log powered_on).
Proof. reflexivity. Qed.

Lemma kernel_boots_witness : ∃ k',
  init (G:=gdt_t) (I:=idt_t) 0x200000 0x1000 demo_tables (λ _, 0) demo_boot powered_on = Ret (tt, k') ∧
  k_flag k' = true ∧ pit_reload (pit (k_dev k')) = 1193 ∧ passes (k_log k') Info = true ∧
  k_heap k' = ([(HEAP_START, HEAP_SIZE)], true).
Proof.
  destruct (wp_elim _ _ _ (kernel_boots (G:=gdt_t) (I:=idt_t) 0x200000 0x1000 demo_tables
    (mkRegion (mkRange 1 601) Usable) demo_boot powered_on ltac:(lia) ltac:(unfold STACK_SIZE; lia)
    demo_boot_pre eq_refl eq_refl no_logger))
    as ([] & k' & Hr & _ & _ & Hf & _ & (_ & _ & Hp) & Hl & Hh & _).
  exists k'. split; [exact Hr|]. split; [exact Hf|]. rewrite Hp. split; [reflexivity|].
  split; [exact (Hl Info)|exact Hh].
Defined.

Lemma pit_ticks_witness : ∃ h', pit_init (machine, mkPit 0 0 (WantHigh 7)) = Ret (tt, h') ∧
  1000 * pit_reload (pit h') ≤ PIT_FREQUENCY.
Proof.
  destruct (wp_elim _ _ _ (pit_ticks_every_millisecond (machine, mkPit 0 0 (WantHigh 7))))
    as ([] & h' & Hr & _ & _ & Hf & _).
  exists h'. exact (conj Hr Hf).
Defined.

(** A serial line whose machine keeps the last code written to the exit port. *)
#[local] Instance wire_Bus : Bus wire := {|
  port_in _ _ h := (0, h);
  port_out _ p v h := if bool_decide (p = 0xf4) then mkWire (w_sent h) (w_init h) (Z.to_nat v) else h;
  mem_in _ _ h := (0, h);
  mem_out _ _ _ h := h;
  halt h := h;
|}.

Definition demo_tests : list (Testable wire) :=
  [mkTest (text "a::first") (mret tt);
   mkTest (text "b::second") (@Serial._print wire wire_Uart [text "hi "])].

Lemma demo_tests_pass :
  Forall2 (passing (D:=wire)) [[]; text "hi "] demo_tests.
Proof.
  constructor; [|constructor; [|constructor]].
  - intros st Hok. apply wp_ret. by rewrite app_nil_r.
  - intros st Hok. eapply wp_mono; [apply (@wp_serial_print wire _ _ wire_laws); [done|]|].
    + apply (bool_decide_unpack _). by vm_compute.
    + intros [] st' Hs. split; [by eapply sends_ok|]. apply Hs.
Qed.

Lemma test_runner_reports_witness : ∃ st',
  @test_runner wire _ wire_Uart demo_tests demo_wire = Ret (tt, st') ∧
  w_exit st'.2 = 16%nat ∧
  w_sent st'.2 = text "Running 2 tests" ++ newline ++ text "a::first..." ++ tab ++ text "[ok]" ++
    newline ++ text "b::second..." ++ tab ++ text "hi [ok]" ++ newline.
Proof.
  destruct (@test_runner_reports wire _ _ _ wire_laws demo_tests [[]; text "hi "] [text "oops"] demo_wire
    eq_refl demo_tests_pass ltac:(apply (bool_decide_unpack _); vm_compute; exact I)
    ltac:(apply (bool_decide_unpack _); vm_compute; exact I)) as [Hrun _].
  destruct (wp_elim _ _ _ Hrun) as ([] & st' & Hr & h & Eh & Hs).
  exists st'. split; [exact Hr|]. rewrite Eh. split; [reflexivity|].
  change (w_sent h = sent demo_wire.2 ++ (text "Running 2 tests" ++ newline) ++
    concat (zip_with test_text demo_tests [[]; text "hi "])) in Hs.
  etransitivity; [exact Hs|vm_compute; reflexivity].
Defined.
End KernelWitness.
