(* ===== verification/Main.v ===== *)
(** * The kernel's entry point (src/main.rs)

    [kernel_main] runs the parts one after another: the console, [lib::init], the
    ACPI tables, the handover to the APICs, the enumeration of the PCI bus, the
    search for a SATA controller, the mapping of its registers and a report on
    them, and the shutdown.  The panic handler reports on both outputs and halts.
    The accessors of the [pci_types] crate and the formats of other crates' types
    are parameters. *)

From S2P Require Import Prelude Platform Bus FrameAllocator FrameInit Memory Heap AcpiHandler Pci Vga.
From S2P Require Import Interrupts Apic Ahci Acpi Format Serial Exceptions AcpiTables Kernel.
Local Open Scope Z_scope.

(** ** The crates *)

Inductive Bar : Type :=
  | Memory32 (address size : Z)
  | Memory64 (address size : Z)
  | Io (port : Z).

(** Accessors of [PciHeader] and [EndpointHeader]; they read the configuration space. *)
Class PciHeaders (PciHeader EndpointHeader D : Type) : Type := {
  revision_and_class : PciHeader → M D (Z * Z * Z * Z);
  header_type : PciHeader → M D Z;
  EndpointHeader_from_header : PciHeader → M D (option EndpointHeader);
  endpoint_bar : EndpointHeader → Z → M D (option Bar);
}.

Class MainFormats (PciAddress : Type) : Type := {
  display_pci_address : PciAddress → list bytes;
  debug_device_type : Z → Z → list bytes;
  debug_bar : Bar → list bytes;
  (** [Debug] of a [bitflags] type, from the names and bits of its flags. *)
  debug_bitflags : list (string * Z) → Z → list bytes;
}.

(** ** The flags of the AHCI registers (src/ahci.rs) *)

Definition HBACapabilities_flags : list (string * Z) :=
  [("SXS_SUPPORT", Z.shiftl 1 5); ("EMS_SUPPORT", Z.shiftl 1 6); ("CCC_SUPPORT", Z.shiftl 1 7);
   ("PS_CAPABLE", Z.shiftl 1 13); ("SS_CAPABLE", Z.shiftl 1 14);
   ("PIO_MULTI_DRQ_SUPPORT", Z.shiftl 1 15); ("FBSS_SUPPORT", Z.shiftl 1 16);
   ("PM_SUPPORT", Z.shiftl 1 17); ("AHCI_ONLY", Z.shiftl 1 18); ("CLO_SUPPORT", Z.shiftl 1 24);
   ("AL_SUPPORT", Z.shiftl 1 25); ("ALP_SUPPORT", Z.shiftl 1 26); ("SS_SUPPORT", Z.shiftl 1 27);
   ("MPS_SUPPORT", Z.shiftl 1 28); ("SNTF_SUPPORT", Z.shiftl 1 29); ("NCQ_SUPPORT", Z.shiftl 1 30);
   ("SUPPORTS_64_ADDRESSES", Z.shiftl 1 31)]%string.

Definition GlobalHBAControl_flags : list (string * Z) :=
  [("HBA_RESET", 1); ("INT_ENABLE", Z.shiftl 1 1); ("MRSM", Z.shiftl 1 2);
   ("AHCI_ENABLE", Z.shiftl 1 31)]%string.

Definition PortInterrupt_flags : list (string * Z) :=
  [("D2H_REG_FIS_INT", 1); ("PIO_SETUP_FIS_INT", Z.shiftl 1 1); ("DMA_SETUP_FIS_INT", Z.shiftl 1 2);
   ("SET_DEV_BITS_FIS_INT", Z.shiftl 1 3); ("UNKNOWN_FIS_INT", Z.shiftl 1 4);
   ("PRD_PROCESSED_INT", Z.shiftl 1 5); ("PORT_CONNECT_CHANGE", Z.shiftl 1 6);
   ("MECHANICAL_PRESENCE", Z.shiftl 1 7); ("PHY_READY_CHANGE", Z.shiftl 1 22);
   ("BAD_PORT_MUL_STATUS", Z.shiftl 1 23); ("OVERFLOW", Z.shiftl 1 24);
   ("IF_NON_FATAL_ERROR", Z.shiftl 1 26); ("IF_FATAL_ERROR", Z.shiftl 1 27);
   ("HOST_DATA_ERROR", Z.shiftl 1 28); ("HOST_FATAL_ERROR", Z.shiftl 1 29);
   ("TASK_FILE_ERROR", Z.shiftl 1 30); ("COLD_PORT_DETECT", Z.shiftl 1 31)]%string.

(** The derived [Debug] of the enumerations, and that of [StatusPort]. *)
Definition debug_speed (s : InterfaceSpeed) : bytes :=
  text match s with Gen1 => "Gen1" | Gen2 => "Gen2" | Gen3 => "Gen3" | ReservedSpeed => "Reserved" end.

Definition debug_power (p : InterfacePowerManagement) : bytes :=
  text match p with
  | PmNoDevice => "NoDevice" | PmActive => "Active" | PmPartial => "Partial" | PmSlumber => "Slumber"
  | PmDevSleep => "DevSleep" | PmReserved => "Reserved"
  end.

Definition debug_detection (d : DeviceDetection) : bytes :=
  text match d with
  | NoDevice => "NoDevice" | DeviceNoPhy => "DeviceNoPhy" | Device => "Device"
  | InterfaceDisabled => "InterfaceDisabled" | ReservedDetection => "Reserved"
  end.

Definition debug_status (ssts : Z) : list bytes :=
  [debug_detection (detection ssts); text " | "; debug_power (if_power_management ssts); text " | ";
   debug_speed (status_if_speed ssts)].

(** ** The SATA controller *)

Section sata.
Context {PciAddress PciHeader EndpointHeader D L : Type}.
Context `{Bus D} `{Uart D} `{LogCrate L} `{PciHeaders PciHeader EndpointHeader D} `{MainFormats PciAddress}.
Context (l : L).

(** The records of this file. *)
Definition main_record (lvl : Level) (ln : Z) (pieces : list bytes) : Record_ :=
  mkRecord lvl (text "capucho_os") (Some (text "src/main.rs")) (Some ln) pieces.

Definition log_info (ln : Z) (pieces : list bytes) : M (option Z * D) unit :=
  log_macro l (main_record Info ln pieces).

(** The arguments of a message are evaluated, and registers read for them, only when
    the level passes. *)
Definition log_reading (ln : Z) (arguments : M (option Z * D) (list bytes)) : M (option Z * D) unit :=
  if passes l Info then
    pieces ← arguments;
    log (main_record Info ln pieces)
  else mret tt.

Definition device_pieces (address : PciAddress) (class subclass interface ht : Z) : list bytes :=
  display_pci_address address ++ [text " "] ++ debug_device_type class subclass ++
  [text " class: "; decimal class; text " subclass: "; decimal subclass;
   text " interface: "; decimal interface; text " header: "; upper_hex 8 ht].

(** The loop over the devices; [acc] is the variable [sata_controller]. *)
Fixpoint find_sata (devices : list (PciAddress * PciHeader)) (acc : option EndpointHeader) :
    M (option Z * D) (option EndpointHeader) :=
  match devices with
  | [] => mret acc
  | (address, header) :: devices' =>
      '(_, class, subclass, interface) ← on_snd (revision_and_class header);
      log_reading 49 (
        ht ← on_snd (header_type header);
        mret (device_pieces address class subclass interface ht)) ≫= λ _,
      if (class =? 0x01) && (subclass =? 0x06) && (interface =? 0x01) then
        e ← on_snd (EndpointHeader_from_header header);
        endpoint ← lift (unwrap e);
        find_sata devices' (Some endpoint)
      else find_sata devices' acc
  end.

Definition abar_range (bar : Bar) : outcome (Z * Z) :=
  match bar with
  | Memory32 address size => Ret (as_u64 address, as_u64 size)
  | Memory64 address size => Ret (address, size)
  | Io _ => Panic (Explicit "ABAR is in port space o_O")
  end.

(** The address and the size of the registers. *)
Definition find_abar (controller : EndpointHeader) : M (option Z * D) (Z * Z) :=
  b ← on_snd (endpoint_bar controller 5);
  bar ← lift (expect b "There's no ABAR -_-");
  log_info 70 (debug_bar bar) ≫= λ _,
  lift (abar_range bar).

(** The reports on the controller and its ports; a field is loaded when it is used. *)
Definition hba_field (abar : Z) (field : nat) : M (option Z * D) Z :=
  on_snd (read_volatile 32 (abar + offset_of hba_layout field)).
Definition port_field (abar i : Z) (field : nat) : M (option Z * D) Z :=
  on_snd (read_volatile 32
    (abar + offset_of hba_layout 13 + i * foldr Z.add 0 port_layout + offset_of port_layout field)).

Definition report_port (abar i : Z) : M (option Z * D) unit :=
  log_reading 102 (sig ← port_field abar i 9; mret [upper_hex 32 sig]) ≫= λ _,
  log_reading 103 (ssts ← port_field abar i 10; mret (debug_status ssts)) ≫= λ _,
  log_reading 104 (
    status ← port_field abar i 4;
    mret (debug_bitflags PortInterrupt_flags status)) ≫= λ _,
  log_reading 105 (
    enable ← port_field abar i 5;
    mret (debug_bitflags PortInterrupt_flags enable ++ [newline])).

Definition report_hba (abar : Z) : M (option Z * D) unit :=
  log_reading 89 (
    c1 ← hba_field abar 0;
    c2 ← hba_field abar 0;
    c3 ← hba_field abar 0;
    c4 ← hba_field abar 0;
    mret (debug_bitflags HBACapabilities_flags c1 ++ [text " "; decimal (number_of_ports c2);
      text " "; decimal (number_of_cmd_slots c3); text " "; debug_speed (cap_if_speed c4)])) ≫= λ _,
  log_reading 97 (g ← hba_field abar 1; mret (debug_bitflags GlobalHBAControl_flags g)) ≫= λ _,
  pi ← hba_field abar 3;
  mfor (seqZ 0 (count_ones pi)) (report_port abar).
End sata.

(** The pages of the registers. *)
Definition map_abar `{BootInfo} `{Addresses} {T} `{Mapper T} (abar_address abar_size : Z) :
    M (PagingState T) unit :=
  a ← lift (PhysAddr_new abar_address);
  let start := frame_containing_address a in
  past ← lift (add_w 64 abar_address abar_size);
  top ← lift (sub_w 64 past 1);
  b ← lift (PhysAddr_new top);
  let fin := frame_containing_address b in
  mfor (frame_range_inclusive start fin) (λ frame,
    r ← mmap_dev frame false;
    lift (expect_ok r "Failed to mmap the sata device") ≫= λ _, mret tt).

(** ** The machine *)

(** [acpi::InterruptModel] *)
Inductive InterruptModel : Type :=
  | UnknownModel
  | ApicModel (apic : ApicInfo)
  | OtherModel.

(** The kernel's state with the console, the serial port's static, the ACPI handler's
    table and the AML interpreter. *)
Record Machine (C D L T B X : Type) : Type := mkMachine {
  m_kernel : Kernel C D L T B;
  m_serial : option Z;
  m_writer : Writer;
  m_refs : gmap Z (Z * UnmapGuard);
  m_aml : X;
}.
Arguments mkMachine {C D L T B X} _ _ _ _ _.
Arguments m_kernel {C D L T B X} _.
Arguments m_serial {C D L T B X} _.
Arguments m_writer {C D L T B X} _.
Arguments m_refs {C D L T B X} _.
Arguments m_aml {C D L T B X} _.

Section views.
Context {C D L T B X A : Type}.
Notation machine := (Machine C D L T B X).

Definition set_paging (p : PagingState T) (k : Kernel C D L T B) : Kernel C D L T B :=
  mkKernel (k_cpu k) (k_flag k) (k_pics k) (k_dev k) (k_log k) p (k_heap k).
Definition set_dev (d : D) (k : Kernel C D L T B) : Kernel C D L T B :=
  mkKernel (k_cpu k) (k_flag k) (k_pics k) d (k_log k) (k_paging k) (k_heap k).
Definition set_pics (i : InterruptController) (k : Kernel C D L T B) : Kernel C D L T B :=
  mkKernel (k_cpu k) (k_flag k) i (k_dev k) (k_log k) (k_paging k) (k_heap k).
Definition set_log (l : L) (k : Kernel C D L T B) : Kernel C D L T B :=
  mkKernel (k_cpu k) (k_flag k) (k_pics k) (k_dev k) l (k_paging k) (k_heap k).
Definition set_kernel (k : Kernel C D L T B) (m : machine) : machine :=
  mkMachine k (m_serial m) (m_writer m) (m_refs m) (m_aml m).

Definition on_writer : M Writer A → M machine A := zoom m_writer (λ w m,
  mkMachine (m_kernel m) (m_serial m) w (m_refs m) (m_aml m)).
Definition on_kernel : M (Kernel C D L T B) A → M machine A := zoom m_kernel set_kernel.
Definition on_hardware : M D A → M machine A :=
  zoom (λ m, k_dev (m_kernel m)) (λ d m, set_kernel (set_dev d (m_kernel m)) m).
Definition on_pages : M (PagingState T) A → M machine A :=
  zoom (λ m, k_paging (m_kernel m)) (λ p m, set_kernel (set_paging p (m_kernel m)) m).
Definition on_serial : M (option Z * D) A → M machine A :=
  zoom (λ m, (m_serial m, k_dev (m_kernel m))) (λ s m,
    mkMachine (set_dev s.2 (m_kernel m)) s.1 (m_writer m) (m_refs m) (m_aml m)).
Definition on_apics : M (ApicState D T) A → M machine A :=
  zoom (λ m, (k_paging (m_kernel m), (k_pics (m_kernel m), k_dev (m_kernel m)))) (λ s m,
    set_kernel (set_dev s.2.2 (set_pics s.2.1 (set_paging s.1 (m_kernel m)))) m).

(** What the ACPI crates reach besides the handler: their own state, the log and the
    devices. *)
Definition acpi_rest : Type := X * (L * (option Z * D)).

Definition set_acpi (s : HandlerState T * acpi_rest) (m : machine) : machine :=
  let '((refs, p), (x, (lg, (serial, d)))) := s in
  mkMachine (set_log lg (set_dev d (set_paging p (m_kernel m)))) serial (m_writer m) refs x.

Definition on_acpi : M (HandlerState T * acpi_rest) A → M machine A :=
  zoom (λ m, ((m_refs m, k_paging (m_kernel m)),
              (m_aml m, (k_log (m_kernel m), (m_serial m, k_dev (m_kernel m)))))) set_acpi.

(** The interpreter with the handler, beside the hardware. *)
Definition on_power : M ((HandlerState T * X) * D) A → M machine A :=
  zoom (λ m, (((m_refs m, k_paging (m_kernel m)), m_aml m), k_dev (m_kernel m))) (λ s m,
    mkMachine (set_dev s.2 (set_paging s.1.1.2 (m_kernel m))) (m_serial m) (m_writer m)
      s.1.1.1 s.1.2).
End views.

(** ** The entry point and the panic handler *)

Section main.
Context `{BootInfo} `{Addresses}.
Context {G I C : Type} `{Segments G C} `{DescriptorTable I C}.
Context {D : Type} `{Bus D} `{Uart D} {L : Type} `{LogCrate L}.
Context {T : Type} `{Mapper T} {B : Type} `{BuddyHeap B} {X : Type}.
Context {PciAddress PciHeader EndpointHeader : Type}.
Context `{PciTypes PciAddress PciHeader} `{PciHeaders PciHeader EndpointHeader D}.
Context `{MainFormats PciAddress}.
Context {Tables FadtMapping : Type}.
Context `{AcpiCrates T (@acpi_rest D L X) Tables FadtMapping InterruptModel}.
Context `{AmlContext ((HandlerState T * X) * D)}.
Context (STACK cr3 : Z) (OffsetPageTable_new : Z → Z → T) (raw : nat → Z).
Context (invoke_pic : M (ApicState D T) unit).

Notation machine := (Machine C D L T B X).

(** Logging needs the state of the [log] crate. *)
Definition log_main (lvl : Level) (ln : Z) (pieces : list bytes) : M machine unit :=
  m ← get;
  on_serial (log_macro (k_log (m_kernel m)) (main_record lvl ln pieces)).

(** The handler is created here, so its table starts empty. *)
Definition get_acpi : M machine (Tables * Acpi) := λ m,
  match bios_get_acpi (k_paging (m_kernel m),
          (m_aml m, (k_log (m_kernel m), (m_serial m, k_dev (m_kernel m))))) with
  | Ret (a, s) => Ret (a, set_acpi s m)
  | Panic p => Panic p
  end.

Definition apic_handover_main (model : InterruptModel) : M machine unit :=
  match model with
  | UnknownModel => fail (Explicit "We need apic")
  | ApicModel apic => on_apics (apic_init invoke_pic apic) ≫= λ _, mret tt
  | OtherModel => fail (Explicit "internal error: entered unreachable code")
  end.

Definition look_at_sata : M machine unit :=
  devices ← on_hardware (brute_force_find function_exists);
  m ← get;
  let lg := k_log (m_kernel m) in
  found ← on_serial (find_sata lg devices None);
  controller ← lift (expect found "There's no sata controller :(");
  '(abar_address, abar_size) ← on_serial (find_abar lg controller);
  on_pages (map_abar abar_address abar_size) ≫= λ _,
  on_serial (report_hba lg abar_address).

Definition kernel_main (boot_info : Boot) : M machine never :=
  on_writer (println [text "Hello World!"]) ≫= λ _,
  on_kernel (init (G:=G) (I:=I) STACK cr3 OffsetPageTable_new raw boot_info) ≫= λ _,
  '(tables, acpi) ← get_acpi;
  model ← on_acpi (platform_info tables);
  ok ← on_hardware (enable acpi);
  if negb ok then fail (Explicit "Failed to init the acpi")
  else
    log_main Debug 30 [text "Apic handover start"] ≫= λ _,
    apic_handover_main model ≫= λ _,
    log_main Debug 38 [text "Apic handover end"] ≫= λ _,
    look_at_sata ≫= λ _,
    log_main Info 112 [text "Now perish"] ≫= λ _,
    off ← on_power (set_sleep_state acpi S5);
    if negb off then fail (Explicit "Failed to shutdown")
    else fail (Explicit "internal error: entered unreachable code").

(** The panic handler; [info] is the text of the panic. *)
Definition panic (info : list bytes) : M machine never :=
  on_writer (println info) ≫= λ _,
  log_main Error 126 info ≫= λ _,
  mret hlt_loop.
End main.

(** ** Facts *)

(** The accessors read registers that do not change, and leave the serial line alone. *)
Class PciHeadersLaws (PciHeader EndpointHeader D : Type)
    `{PciHeaders PciHeader EndpointHeader D, SerialLine D} : Type := {
  class_of : PciHeader → Z * Z * Z * Z;
  endpoint_of : PciHeader → option EndpointHeader;
  revision_and_class_ok h d : wp (revision_and_class h)
    (λ r d', r = class_of h ∧ sent d' = sent d ∧ initialised d' = initialised d) d;
  header_type_ok h d : wp (header_type h)
    (λ r d', fits 8 r ∧ sent d' = sent d ∧ initialised d' = initialised d) d;
  from_header_ok h d : wp (EndpointHeader_from_header h)
    (λ r d', r = endpoint_of h ∧ sent d' = sent d ∧ initialised d' = initialised d) d;
}.

(** A SATA controller with the AHCI interface. *)
Definition is_sata {PciHeader E D} `{PciHeadersLaws PciHeader E D} (h : PciHeader) : bool :=
  let '(_, class, subclass, interface) := class_of h in
  (class =? 1) && (subclass =? 6) && (interface =? 1).

(** The last of the controllers, or [acc] when there is none. *)
Definition last_sata {PciAddress PciHeader E D} `{PciHeadersLaws PciHeader E D}
    (devices : list (PciAddress * PciHeader)) (acc : option E) : option E :=
  match last (filter (λ p, is_sata p.2 = true) devices) with
  | Some p => endpoint_of p.2
  | None => acc
  end.

Section sata_facts.
Context {PciAddress PciHeader EndpointHeader D L : Type}.
Context `{UartLaws D} `{LogCrate L} `{PciHeaders PciHeader EndpointHeader D}.
Context `{!PciHeadersLaws PciHeader EndpointHeader D} `{MainFormats PciAddress}.
Implicit Types (st : option Z * D) (devices : list (PciAddress * PciHeader)).

Lemma last_sata_cons p devices acc :
  last_sata (p :: devices) acc =
  last_sata devices (if is_sata p.2 then endpoint_of p.2 else acc).
Proof.
  unfold last_sata. rewrite filter_cons. destruct (is_sata p.2) eqn:E.
  - rewrite decide_True by done. rewrite last_cons.
    by destruct (last (filter _ devices)).
  - by rewrite decide_False.
Qed.

(** An accessor of the configuration space, seen from the serial port. *)
Lemma wp_config {A} (m : M D A) (P : A → Prop) (Q : A → option Z * D → Prop) st :
  (∀ d, wp m (λ a d', P a ∧ sent d' = sent d ∧ initialised d' = initialised d) d) → serial_ok st →
  (∀ a st', P a → serial_ok st' → sent st'.2 = sent st.2 → Q a st') → wp (on_snd m) Q st.
Proof.
  destruct st as [o d]. intros Hm Hok HQ. apply wp_on_snd. eapply wp_mono; [apply Hm|].
  intros a d' (Ha & Hs & Hi). apply HQ; [done| |done]. unfold serial_ok in *. simpl in *. by rewrite Hi.
Qed.

(** The lines that a device may put on the log. *)
Definition device_plain (p : PciAddress * PciHeader) : Prop := ∀ ht, fits 8 ht →
  let '(_, class, subclass, interface) := class_of p.2 in
  plain (record_line (main_record Info 49 (device_pieces p.1 class subclass interface ht))).

Lemma wp_log_macro (l : L) record st (Q : unit → option Z * D → Prop) : serial_ok st →
  plain (record_line record) →
  (∀ st', serial_ok st' →
     sent st'.2 = sent st.2 ++ (if passes l (level record) then record_line record else []) → Q tt st') →
  wp (log_macro l record) Q st.
Proof.
  intros Hok Hp HQ. unfold log_macro. destruct (passes l (level record)).
  - eapply wp_mono; [by apply wp_log|]. intros [] st' Hs. apply HQ; [by eapply sends_ok|apply Hs].
  - apply wp_ret, HQ; [done|]. by rewrite app_nil_r.
Qed.

Lemma wp_log_reading (l : L) ln arguments st (P : list bytes → Prop) (Q : unit → option Z * D → Prop) :
  serial_ok st →
  (∀ R : list bytes → option Z * D → Prop, (∀ ps st', P ps → serial_ok st' → R ps st') →
     wp arguments R st) →
  (∀ ps, P ps → plain (record_line (main_record Info ln ps))) →
  (∀ st', serial_ok st' → Q tt st') → wp (log_reading l ln arguments) Q st.
Proof.
  intros Hok Ha Hp HQ. unfold log_reading. destruct (passes l Info); [|by apply wp_ret, HQ].
  wp_step. apply Ha. intros ps st' HP Hok'. eapply wp_mono; [apply wp_log; auto|].
  intros [] st2 Hs. eapply HQ, sends_ok, Hs.
Qed.

Lemma find_sata_run (l : L) devices : ∀ acc st, serial_ok st → Forall device_plain devices →
  Forall (λ p, is_sata p.2 = true → is_Some (endpoint_of p.2)) devices →
  wp (find_sata l devices acc) (λ r st', r = last_sata devices acc ∧ serial_ok st') st.
Proof.
  induction devices as [|[address h] devices IH]; intros acc st Hok Hp He; cbn [find_sata].
  { by apply wp_ret. }
  apply Forall_cons in Hp as [Hp Hps]. apply Forall_cons in He as [He Hes].
  rewrite last_sata_cons. cbn [snd] in *. unfold is_sata, device_plain in *. cbn [fst snd] in *.
  wp_step. eapply wp_config; [apply revision_and_class_ok|done|]. intros r st1 -> Hok1 _.
  destruct (class_of h) as [[[rev class] subclass] interface].
  wp_step. apply (wp_log_reading l _ _ _ (λ ps, ∃ ht, fits 8 ht ∧
    ps = device_pieces address class subclass interface ht)); [done| |by intros ? (ht & Hht & ->); apply Hp|].
  { intros Q HQ. wp_step. eapply wp_config; [apply header_type_ok|done|]. intros ht st2 Hht Hok2 Hs2.
    apply wp_ret, HQ; eauto. }
  intros st3 Hok3. destruct ((class =? 1) && (subclass =? 6) && (interface =? 1)); [|by apply IH].
  wp_step. eapply wp_config; [apply from_header_ok|done|]. intros e st4 -> Hok4 _.
  destruct (He eq_refl) as [endpoint Ee]. rewrite Ee. wp_step. eapply wp_lift; [done|]. by apply IH.
Qed.
End sata_facts.

Section abar_facts.
Context `{BootInfo} `{!BootInfoLaws} `{Addresses} `{!AddressesLaws}.
Context {T : Type} `{Mapper T} `{!MapperLaws T}.
Implicit Types (c : PagingContext T).

Definition map_register_page (frame : Z) : M (PagingState T) unit :=
  r ← mmap_dev frame false;
  lift (expect_ok r "Failed to mmap the sata device") ≫= λ _, mret tt.

(** The pages of [L] are new and mapped uncached to their own frames; the others stay. *)
Definition device_pages (L : list Z) c c' : Prop :=
  ctx_ok c' ∧ (∀ k, k ∈ L → ∃ w, pages c'.1 !! k = Some (k, dev_flags w)) ∧
  (∀ k, k ∈ L → pages c.1 !! k = None) ∧ (∀ k, k ∉ L → pages c'.1 !! k = pages c.1 !! k).

Lemma map_register_pages_Ret L c s' : ctx_ok c → NoDup L → Forall frame_ok L →
  mfor L map_register_page (Some c) = Ret (tt, s') → ∃ c', s' = Some c' ∧ device_pages L c c'.
Proof.
  intros Hc Hnd HF. revert c Hc. induction L as [|k L IH]; intros c Hc Hr; simpl in Hr.
  { inv_run. exists c. split; [done|]. split_and!; try done; by intros ? ?%not_elem_of_nil. }
  apply NoDup_cons in Hnd as [Hk Hnd]. apply Forall_cons in HF as [Hf HF].
  destruct (frame_ok_mul k Hf) as [Ek Hi]. apply bind_Ret in Hr as ([] & s1 & Hm & Hr).
  unfold map_register_page in Hm. apply bind_Ret in Hm as (r & s2 & Hm & Hl).
  apply bind_Ret in Hl as (g & s3 & [Hg ->]%lift_Ret & [_ ->]%ret_Ret).
  destruct r as [g'|]; [|done]. rewrite Ek in Hm.
  apply mmap_dev_Ok in Hm as (c1 & w & -> & _ & Hc1 & _ & _ & Hn & Hp); [|done|done|destruct Hf; lia].
  rewrite <-Ek in Hn, Hp. destruct (IH Hnd HF c1 Hc1 Hr) as (c' & -> & Hc' & Hin & Hnew & Hout).
  exists c'. split; [done|]. split_and!; [done| | |].
  - intros j [->|Hj]%elem_of_cons; [|by apply Hin]. exists w.
    by rewrite Hout, Hp, lookup_insert_eq.
  - intros j [->|Hj]%elem_of_cons; [done|]. specialize (Hnew j Hj). rewrite Hp in Hnew.
    by rewrite lookup_insert_ne in Hnew by (by intros ->).
  - intros j [Hne Hj]%not_elem_of_cons. by rewrite Hout, Hp, lookup_insert_ne.
Qed.

(** From the frame of the first byte to the frame of the last. *)
Definition abar_frames (address size : Z) : list Z :=
  frames_from (align_down address) ((align_down (address + size - 1) - align_down address) / 4096 + 1).

Lemma map_abar_run address size (s : PagingState T) : 0 ≤ address → 1 ≤ size → address + size ≤ 2 ^ 47 →
  map_abar address size s = mfor (abar_frames address size) map_register_page s.
Proof.
  intros Ha Hs Hlt. unfold map_abar. rewrite PhysAddr_new_ok by lia. erewrite run_bind by done.
  unfold add_w. rewrite checked_ok by (unfold fits; lia). erewrite run_bind by done.
  unfold sub_w. rewrite checked_ok by (unfold fits; lia). erewrite run_bind by done.
  rewrite PhysAddr_new_ok by lia. erewrite run_bind by done.
  by rewrite !frame_containing_spec, frame_range_inclusive_spec by auto.
Qed.
End abar_facts.

(** ** Properties *)

Section main_properties.
Context {PciAddress PciHeader EndpointHeader D L : Type}.
Context `{UartLaws D} `{LogCrate L} `{PciHeaders PciHeader EndpointHeader D}.
Context `{!PciHeadersLaws PciHeader EndpointHeader D} `{MainFormats PciAddress}.

(** C36. The search for a SATA controller goes through all devices and takes the last
    one whose class, subclass and interface are 1, 6 and 1; it answers none exactly
    when there is no such device. *)
Theorem sata_controller_is_last (l : L) (devices : list (PciAddress * PciHeader)) (st : option Z * D) :
  serial_ok st → Forall device_plain devices →
  Forall (λ p, is_sata p.2 = true → is_Some (endpoint_of p.2)) devices →
  wp (find_sata l devices None) (λ r _, r = last_sata devices None ∧
    (r = None ↔ Forall (λ p, is_sata p.2 = false) devices)) st.
Proof.
  intros Hok Hp He. eapply wp_mono; [by apply find_sata_run|]. intros r st' [-> _]. split; [done|].
  unfold last_sata. destruct (last (filter _ devices)) as [p|] eqn:E.
  - apply last_Some_elem_of, list_elem_of_filter in E as [Hs Hin].
    rewrite Forall_forall in He. destruct (He p Hin Hs) as [e Ee]. rewrite Ee. split; [done|].
    rewrite Forall_forall. intros Hall. by rewrite (Hall p Hin) in Hs.
  - apply last_None in E. split; [|done]. intros _. apply Forall_forall. intros p Hin.
    destruct (is_sata p.2) eqn:Es; [|done]. exfalso.
    assert (p ∈ filter (λ p, is_sata p.2 = true) devices) as Hf by (by apply list_elem_of_filter).
    rewrite E in Hf. by apply not_elem_of_nil in Hf.
Qed.
End main_properties.

Section abar_properties.
Context `{BootInfo} `{!BootInfoLaws} `{Addresses} `{!AddressesLaws}.
Context {T : Type} `{Mapper T} `{!MapperLaws T}.
Implicit Types (c : PagingContext T).

(** C37. The controller's registers: a mapping that succeeds puts every byte of the
    range on an uncached page of its own frame, on pages that were free, and changes
    no other page; a range that touches a frame of no region stops the kernel with
    its message; and the size zero at address zero overflows before anything is
    mapped. *)
Theorem abar_mapped c address size :
  ctx_ok c → 0 ≤ address → 1 ≤ size → address + size ≤ 2 ^ 47 - 4096 →
  (∀ s', map_abar address size (Some c) = Ret (tt, s') → ∃ c', s' = Some c' ∧ ctx_ok c' ∧
     (∀ x, address ≤ x < address + size →
        pages c.1 !! align_down x = None ∧
        ∃ w, pages c'.1 !! align_down x = Some (align_down x, dev_flags w)) ∧
     (∀ k, k ∉ abar_frames address size → pages c'.1 !! k = pages c.1 !! k)) ∧
  (get_frame_ty c.2 (align_down address) = None →
     map_abar address size (Some c) = Panic (Explicit "Failed to mmap the sata device")) ∧
  map_abar 0 0 (Some c) = Panic ArithOverflow.
Proof.
  intros Hc Ha Hs Hlt. rewrite map_abar_run by lia. split_and!.
  - intros s' Hr.
    assert (NoDup (abar_frames address size)) as Hnd by apply NoDup_frames_from.
    assert (Forall frame_ok (abar_frames address size)) as HF.
    { apply Forall_forall. intros x (i & Hi & ->)%elem_of_frames_from.
      split; [auto|]. unfold align_down in *. lia. }
    destruct (map_register_pages_Ret _ _ _ Hc Hnd HF Hr) as (c' & -> & Hc' & Hin & Hnew & Hout).
    exists c'. split_and!; [done|done| |done]. intros x Hx.
    assert (align_down x ∈ abar_frames address size) as Hx'.
    { apply elem_of_frames_from. exists ((align_down x - align_down address) / 4096).
      unfold align_down. lia. }
    auto.
  - intros Hty. assert (∃ rest, abar_frames address size = align_down address :: rest) as [rest ->].
    { unfold abar_frames, frames_from. pose proof (align_down_le address).
      pose proof (align_down_le (address + size - 1)).
      rewrite seqZ_cons by (unfold align_down; lia). rewrite fmap_cons, Z.mul_0_l, Z.add_0_r. eauto. }
    cbn [mfor]. apply run_bind_panic. unfold map_register_page.
    erewrite run_bind; [|unfold mmap_dev, with_ctx; erewrite run_bind by done; by rewrite Hty].
    by apply run_bind_panic.
  - unfold map_abar. rewrite PhysAddr_new_ok by lia. erewrite run_bind by done.
    erewrite run_bind by done. by apply run_bind_panic.
Qed.
End abar_properties.

Section panic_properties.
Context {C D L T B X : Type} `{UartLaws D} `{LogCrate L}.
Implicit Types (m : Machine C D L T B X).

(** C38. A panic is reported on both outputs: its text becomes a line of the screen, and
    an error record on the serial line if the logger is set up (before that the
    screen is the only report); then the machine halts, with its other state as it
    was. *)
Theorem panic_reports info m lg :
  shows (m_writer m) lg → serial_ok (m_serial m, k_dev (m_kernel m)) →
  plain (record_line (main_record Error 126 info)) →
  wp (panic info) (λ r m', r = hlt_loop ∧
    shows (m_writer m') (log_string (color_code (m_writer m)) (concat info ++ newline) lg) ∧
    sent (k_dev (m_kernel m')) = sent (k_dev (m_kernel m)) ++
      (if passes (k_log (m_kernel m)) Error then record_line (main_record Error 126 info) else []) ∧
    k_paging (m_kernel m') = k_paging (m_kernel m) ∧ m_refs m' = m_refs m) m.
Proof.
  intros Hs Hok Hp. unfold panic. wp_step. apply wp_zoom.
  eapply wp_mono; [eapply wp_println; [by apply printed_nil|done]|]. intros [] w' [Hs' _].
  wp_step. unfold log_main. wp_step. apply wp_get. cbn [m_kernel]. apply wp_zoom. cbn [m_serial m_kernel].
  apply wp_log_macro; [done|done|]. intros [o d] _ Hsent. apply wp_ret. cbn. split_and!; done.
Qed.
End panic_properties.

(** ** Witnesses *)

Module MainWitness.
Import Reference FrameAllocator.AllocatorWitness FrameInit.InitWitness Memory.MemoryWitness.
Import SerialWitness ExceptionsWitness VgaWitness.

(** Headers that are numbers: the class code, and themselves as endpoints. *)
#[export] Instance demo_headers : PciHeaders Z Z wire := {|
  revision_and_class h := mret (0, h / 65536 mod 256, h / 256 mod 256, h mod 256);
  header_type h := mret 0;
  EndpointHeader_from_header h := mret (Some h);
  endpoint_bar e n := mret (Some (Memory32 0x5000 0x1100));
|}.

#[export] Instance demo_headers_laws : PciHeadersLaws Z Z wire.
Proof.
  refine {| class_of h := (0, h / 65536 mod 256, h / 256 mod 256, h mod 256);
            endpoint_of h := Some h |}.
  all: intros h d; by apply wp_ret.
Defined.

#[export] Instance demo_main_formats : MainFormats Z := {|
  display_pci_address a := [decimal a];
  debug_device_type _ _ := [text "?"];
  debug_bar _ := [text "BAR"];
  debug_bitflags _ b := [upper_hex 32 b];
|}.

(** A bridge, two SATA controllers and a display. *)
Definition demo_devices : list (Z * Z) :=
  [(0, 0x060000); (1, 0x010601); (2, 0x010601); (3, 0x030000)].

Lemma hex_plain d : 0 ≤ d < 16 → hex_digit d ≠ 8 ∧ hex_digit d ≠ 0x7F.
Proof. intros. unfold hex_digit. destruct (d <? 10); lia. Qed.

Lemma upper_hex_plain w n : 0 ≤ n → plain (upper_hex w n).
Proof.
  intros Hn. apply plain_app. split; [apply (bool_decide_unpack _); by vm_compute|].
  assert (∀ fuel n acc, 0 ≤ n → plain acc → plain (hex_digits fuel n acc)) as Hgen.
  { induction fuel as [|fuel IH]; intros k acc Hk Ha; [done|]. cbn [hex_digits].
    assert (plain (hex_digit (k mod 16) :: acc)) by (constructor; [apply hex_plain; lia|done]).
    destruct (k <? 16); [done|]. apply IH; [lia|done]. }
  apply Hgen; [done|constructor].
Qed.

Lemma demo_devices_plain : Forall (device_plain (L:=bool * Z)) demo_devices.
Proof.
  unfold demo_devices. rewrite !Forall_cons.
  split_and!; [..|by apply Forall_nil]; intros ht Hht; unfold record_line, location; simpl class_of;
    cbn [file line main_record args level target]; unfold device_pieces;
    rewrite ?concat_app; cbn [concat]; rewrite !plain_app; repeat split;
    lazymatch goal with
    | |- plain (upper_hex _ _) => apply upper_hex_plain, Hht
    | |- plain (decimal _) => apply plain_decimal
    | |- _ => apply (bool_decide_unpack _); by vm_compute
    end.
Qed.

#[local] Instance good_wire : Uart wire := wire_Uart.
#[local] Instance good_wire_laws : UartLaws wire := wire_laws.

Lemma demo_wire_ok : serial_ok demo_wire.
Proof. reflexivity. Qed.

Lemma sata_controller_is_last_witness : ∃ st',
  find_sata ((true, 4) : bool * Z) demo_devices None demo_wire = Ret (Some 0x010601, st').
Proof.
  destruct (wp_elim _ _ _ (sata_controller_is_last ((true, 4) : bool * Z) demo_devices demo_wire
    demo_wire_ok demo_devices_plain ltac:(repeat constructor; eauto))) as (r & st' & Hr & -> & _).
  exists st'. exact Hr.
Defined.

(** Registers that cross from one reserved region into the next. *)
Definition abar_map : list MemoryRegion :=
  [mkRegion (mkRange 1 4) Usable; mkRegion (mkRange 4 5) Reserved; mkRegion (mkRange 5 6) Reserved].
Definition abar_ctx : PagingContext tables := (empty_tables, mkAllocator abar_map 0 [0]).

Lemma abar_ctx_ok : ctx_ok abar_ctx.
Proof.
  split; [split|].
  - by apply Forall_singleton.
  - split; repeat constructor; simpl; lia.
  - intros i Hi. change (i ∈ [1; 2; 3]) in Hi.
    unfold covered, capacity, u64, fits. simpl. set_unfold in Hi. lia.
  - intros r Hr. unfold abar_ctx, abar_map in Hr. simpl in Hr. unfold capacity. simpl.
    set_unfold in Hr. destruct_or?; subst; simpl; lia.
Qed.

Lemma abar_mapped_witness : ∃ c' w,
  map_abar 0x4F00 0x200 (Some abar_ctx) = Ret (tt, Some c') ∧
  pages c'.1 !! 0x5000 = Some (0x5000, dev_flags w) ∧ pages c'.1 !! 0x6000 = None.
Proof.
  destruct (map_abar 0x4F00 0x200 (Some abar_ctx)) as [[[] s']|p] eqn:E; [|by vm_compute in E].
  destruct (abar_mapped abar_ctx 0x4F00 0x200 abar_ctx_ok ltac:(lia) ltac:(lia) ltac:(lia)) as (Hm & _).
  destruct (Hm s' E) as (c' & -> & _ & Hx & Ho).
  destruct (proj2 (Hx 0x5010 ltac:(lia))) as [w Hw].
  exists c', w. split; [done|]. split; [exact Hw|]. apply Ho.
  apply (bool_decide_unpack _). by vm_compute.
Defined.

(** The same registers inside one reserved region that a region of another type
    follows: the second page counts as part of that region, and the kernel stops. *)
Lemma abar_inside_region_panics :
  map_abar 0x4F00 0x200 (Some demo_ctx) = Panic (Explicit "Tried to mmap a device").
Proof. by vm_compute. Qed.

Definition demo_machine : Machine unit wire (bool * Z) tables unit unit :=
  mkMachine (mkKernel tt true PICS (mkWire [] [] 0) (true, 4) None (tt, false)) None console ∅ tt.

Lemma panic_reports_witness : ∃ m',
  panic [text "heap initialization failed"] demo_machine = Ret (hlt_loop, m') ∧
  w_sent (k_dev (m_kernel m')) =
    text "[ERROR][capucho_os][src/main.rs:126]heap initialization failed" ++ newline.
Proof.
  destruct (wp_elim _ _ _ (panic_reports [text "heap initialization failed"] demo_machine boot_log
    console_shows demo_wire_ok ltac:(apply (bool_decide_unpack _); by vm_compute)))
    as (r & m' & Hr & -> & _ & Hs & _).
  exists m'. split; [exact Hr|]. etransitivity; [exact Hs|by vm_compute].
Defined.
End MainWitness.
