(* ===== verification/AmlInterface.v ===== *)
(** * What the AML interpreter calls (src/acpi/handlers.rs, [AmlHandler])

    The interpreter of the [aml] crate reaches memory, ports and the PCI
    configuration space only through a handler.  Its interface is the class
    [AmlHandler]; [LockedHandler] implements it with the operations of [AcpiHandler]
    and [Pci].  AML code is then any program over that interface: [aml_prog].  What
    such a program can do to the handler is proved against the laws of the interface
    ([AmlHandlerLaws]), which [LockedHandler] satisfies. *)

From S2P Require Import Prelude Platform Bus FrameAllocator Memory AcpiHandler Pci AcpiTables.
Local Open Scope Z_scope.

(** ** The interface *)

Class AmlHandler (S : Type) : Type := {
  aml_read : Z → Z → M S Z;                          (* width, address *)
  aml_write : Z → Z → Z → M S unit;
  aml_read_io : Z → Z → M S Z;                       (* width, port *)
  aml_write_io : Z → Z → Z → M S unit;
  aml_read_pci : Z → Z → Z → Z → Z → Z → M S Z;      (* width, address, offset *)
  aml_write_pci : Z → Z → Z → Z → Z → Z → Z → M S unit;
}.

(** One call of the interface; writes answer 0. *)
Inductive AmlOp : Type :=
  | OpRead (w address : Z)
  | OpWrite (w address value : Z)
  | OpReadIo (w port : Z)
  | OpWriteIo (w port value : Z)
  | OpReadPci (w segment bus device function offset : Z)
  | OpWritePci (w segment bus device function offset value : Z).

Definition aml_call {S} `{AmlHandler S} (op : AmlOp) : M S Z :=
  match op with
  | OpRead w a => aml_read w a
  | OpWrite w a v => aml_write w a v ≫= λ _, mret 0
  | OpReadIo w p => aml_read_io w p
  | OpWriteIo w p v => aml_write_io w p v ≫= λ _, mret 0
  | OpReadPci w seg b d f o => aml_read_pci w seg b d f o
  | OpWritePci w seg b d f o v => aml_write_pci w seg b d f o v ≫= λ _, mret 0
  end.

(** A program: what it does next depends on the answers. *)
Inductive aml_prog (A : Type) : Type :=
  | Done (a : A)
  | Call (op : AmlOp) (next : Z → aml_prog A).
Arguments Done {A} a.
Arguments Call {A} op next.

(** Its run, with the journal of the calls it made. *)
Fixpoint run_prog {S A} `{AmlHandler S} (prog : aml_prog A) : M (S * list AmlOp) A :=
  match prog with
  | Done a => mret a
  | Call op next =>
      v ← on_fst (aml_call op);
      st ← get;
      put (st.1, st.2 ++ [op]) ≫= λ _,
      run_prog (next v)
  end.

(** How often a call asks for frame [k]: memory accesses ask for the frame of their
    first byte. *)
Definition asks (k : Z) (op : AmlOp) : Z :=
  match op with
  | OpRead _ a | OpWrite _ a _ => if bool_decide (align_down a = k) then 1 else 0
  | _ => 0
  end.

Definition asked (k : Z) (tr : list AmlOp) : Z := foldr Z.add 0 (asks k <$> tr).

(** Memory is accessed in the lower half of the address space. *)
Definition op_ok (op : AmlOp) : Prop :=
  match op with
  | OpRead _ a | OpWrite _ a _ => 0 ≤ a < 2 ^ 47
  | _ => True
  end.

(** What the interface promises: a consistent state stays consistent, a call adds to
    the references of a frame as often as it asks for it, and the mappings of the
    other pages stay. *)
Class AmlHandlerLaws (S : Type) `{AmlHandler S} : Type := {
  aml_inv : S → Prop;
  aml_held : S → Z → Z;
  aml_page : S → Z → option (Z * PageTableFlags);
  aml_call_effect op s v s' : aml_inv s → op_ok op → aml_call op s = Ret (v, s') →
    aml_inv s' ∧ ∀ k, aml_held s' k = aml_held s k + asks k op ∧
      (asks k op = 0 → aml_page s' k = aml_page s k);
}.

(** ** The code *)

Section code.
Context `{BootInfo} `{Addresses} {T : Type} `{Mapper T} `{!Translate T} {D : Type} `{Bus D}.
Context {PciAddress PciHeader : Type} `{PciTypes PciAddress PciHeader}.

Notation S := (HandlerState T * D)%type.

Definition read_u8 (address : Z) : M S Z := handler_read 8 address.
Definition read_u16 (address : Z) : M S Z := handler_read 16 address.
Definition read_u32 (address : Z) : M S Z := handler_read 32 address.
Definition read_u64 (address : Z) : M S Z := handler_read 64 address.

Definition write_u8 (address value : Z) : M S unit := handler_write 8 address value.
Definition write_u16 (address value : Z) : M S unit := handler_write 16 address value.
Definition write_u32 (address value : Z) : M S unit := handler_write 32 address value.
Definition write_u64 (address value : Z) : M S unit := handler_write 64 address value.

Definition read_io_u8 (port : Z) : M D Z := read_from_port 8 port.
Definition read_io_u16 (port : Z) : M D Z := read_from_port 16 port.
Definition read_io_u32 (port : Z) : M D Z := read_from_port 32 port.

Definition write_io_u8 (port value : Z) : M D unit := write_to_port 8 port value.
Definition write_io_u16 (port value : Z) : M D unit := write_to_port 16 port value.
Definition write_io_u32 (port value : Z) : M D unit := write_to_port 32 port value.

(** A width the interface does not have. *)
Definition no_such_width {A} : M S A := fail (Explicit "no such operation").

#[export] Instance LockedHandler_AmlHandler : AmlHandler S := {|
  aml_read w := match w with
    | 8 => read_u8 | 16 => read_u16 | 32 => read_u32 | 64 => read_u64 | _ => λ _, no_such_width end;
  aml_write w := match w with
    | 8 => write_u8 | 16 => write_u16 | 32 => write_u32 | 64 => write_u64
    | _ => λ _ _, no_such_width end;
  aml_read_io w p := match w with
    | 8 => on_snd (read_io_u8 p) | 16 => on_snd (read_io_u16 p) | 32 => on_snd (read_io_u32 p)
    | _ => no_such_width end;
  aml_write_io w p v := match w with
    | 8 => on_snd (write_io_u8 p v) | 16 => on_snd (write_io_u16 p v)
    | 32 => on_snd (write_io_u32 p v) | _ => no_such_width end;
  aml_read_pci w seg b d f o := match w with
    | 8 => on_snd (read_pci_u8 seg b d f o) | 16 => on_snd (read_pci_u16 seg b d f o)
    | 32 => on_snd (read_pci_u32 seg b d f o) | _ => no_such_width end;
  aml_write_pci w seg b d f o v := match w with
    | 8 => on_snd (write_pci_u8 seg b d f o v) | 16 => on_snd (write_pci_u16 seg b d f o v)
    | 32 => on_snd (write_pci_u32 seg b d f o v) | _ => no_such_width end;
|}.
End code.

(** ** Programs over the interface *)

Section programs.
Context {S : Type} `{AmlHandlerLaws S}.

Lemma asks_nonneg k op : 0 ≤ asks k op.
Proof. destruct op; simpl; try case_bool_decide; lia. Qed.

Lemma asked_cons k op tr : asked k (op :: tr) = asks k op + asked k tr.
Proof. done. Qed.

Lemma asked_nonneg k tr : 0 ≤ asked k tr.
Proof.
  induction tr as [|op tr IH]; [done|]. rewrite asked_cons. pose proof (asks_nonneg k op). lia.
Qed.

(** The journal only grows. *)
Lemma run_prog_journal {A} (prog : aml_prog A) : ∀ s tr0 a s' tr,
  run_prog prog (s, tr0) = Ret (a, (s', tr)) → ∃ tr1, tr = tr0 ++ tr1.
Proof.
  induction prog as [a0|op next IH]; intros s tr0 a s' tr Hr.
  - apply ret_Ret in Hr as [_ [= -> ->]]. exists []. by rewrite app_nil_r.
  - simpl in Hr. apply bind_Ret in Hr as (v & [s1 t1] & Hv & Hr).
    unfold on_fst in Hv. destruct (aml_call op s) as [[v' s1']|]; [|done]. injection Hv as <- <- <-.
    apply IH in Hr as [tr1 ->]. exists (op :: tr1). by rewrite <-(assoc_L (++)).
Qed.

Lemma run_prog_effect {A} (prog : aml_prog A) : ∀ s tr0 a s' tr1, aml_inv s →
  run_prog prog (s, tr0) = Ret (a, (s', tr0 ++ tr1)) → Forall op_ok tr1 →
  aml_inv s' ∧ ∀ k, aml_held s' k = aml_held s k + asked k tr1 ∧
    (asked k tr1 = 0 → aml_page s' k = aml_page s k).
Proof.
  induction prog as [a0|op next IH]; intros s tr0 a s' tr1 Hi Hr Hok.
  - apply ret_Ret in Hr as [_ [= -> Et]]. rewrite <-(app_nil_r tr0) in Et at 2.
    apply app_inv_head in Et as ->. split; [done|]. intros k. unfold asked. simpl. split; [lia|done].
  - simpl in Hr. apply bind_Ret in Hr as (v & [s1 t1] & Hv & Hr).
    unfold on_fst in Hv. destruct (aml_call op s) as [[v' s1']|] eqn:E; [|done].
    injection Hv as <- <- <-. erewrite run_bind in Hr by done. erewrite run_bind in Hr by done.
    simpl in Hr. destruct (run_prog_journal _ _ _ _ _ _ Hr) as [tr2 Et].
    rewrite <-(assoc_L (++)) in Et. apply app_inv_head in Et as ->.
    apply Forall_cons in Hok as [Hop Hok].
    destruct (aml_call_effect op s v' s1' Hi Hop E) as [Hi1 He1].
    rewrite (assoc_L (++)) in Hr. apply IH in Hr as [Hi2 He2]; [|done..].
    split; [done|]. intros k. destruct (He1 k) as [Hh1 Hp1], (He2 k) as [Hh2 Hp2].
    change ([op] ++ tr2) with (op :: tr2). rewrite asked_cons.
    pose proof (asks_nonneg k op). pose proof (asked_nonneg k tr2).
    split; [lia|]. intros Hz. rewrite Hp2, Hp1 by lia. done.
Qed.
End programs.

(** ** The laws of [LockedHandler] *)

Section laws.
Context `{BootInfo} `{!BootInfoLaws} `{Addresses} `{!AddressesLaws}.
Context {T : Type} `{Mapper T} `{!MapperLaws T} `{!Translate T} `{!TranslateLaws T}.
Context {D : Type} `{Bus D} {PciAddress PciHeader : Type} `{PciTypes PciAddress PciHeader}.
Notation S := (HandlerState T * D)%type.

Definition consistent (s : S) : Prop := ∃ refs c, s.1 = (refs, Some c) ∧ handler_ok refs c.
Definition references (s : S) (k : Z) : Z := count s.1.1 k.
Definition page_of (s : S) (k : Z) : option (Z * PageTableFlags) := s.1.2 ≫= λ c, pages c.1 !! k.

(** The effect of a call that asks for the frames [n] counts. *)
Definition effect (n : Z → Z) (s s' : S) : Prop :=
  consistent s' ∧ ∀ k, references s' k = references s k + n k ∧ (n k = 0 → page_of s' k = page_of s k).

(** A memory access raises the count of one frame. *)
Lemma raises_effect refs c d a st' d' : raises_only (align_down a) refs c st' →
  effect (λ k, if bool_decide (align_down a = k) then 1 else 0) ((refs, Some c), d) (st', d').
Proof.
  intros (refs' & c' & -> & Hok & Hc & Ho). split; [by exists refs', c'|]. intros k.
  unfold references, page_of. simpl. case_bool_decide as E; [subst k; split; [done|lia]|].
  destruct (Ho k) as [E1 E2]; [congruence|]. unfold count. rewrite E1. split; [lia|done].
Qed.

Lemma read_effect w a s v s' : consistent s → 0 ≤ a < 2 ^ 47 → handler_read w a s = Ret (v, s') →
  effect (λ k, if bool_decide (align_down a = k) then 1 else 0) s s'.
Proof.
  destruct s as [st d], s' as [st' d']. intros (refs & c & E & Hok) Ha Hr. simpl in E. subst st.
  apply (handler_read_Ret refs c d w a) in Hr as [_ Hk]; [|done..]. by apply raises_effect.
Qed.

Lemma write_effect w a x s v s' : consistent s → 0 ≤ a < 2 ^ 47 →
  handler_write w a x s = Ret (v, s') →
  effect (λ k, if bool_decide (align_down a = k) then 1 else 0) s s'.
Proof.
  destruct s as [st d], s' as [st' d']. intros (refs & c & E & Hok) Ha Hr. simpl in E. subst st.
  apply (handler_write_Ret refs c d w a) in Hr as [_ Hk]; [|done..]. by apply raises_effect.
Qed.

(** A port access does not reach the handler's state. *)
Lemma device_effect {A} (m : M D A) s a s' : consistent s → on_snd m s = Ret (a, s') →
  effect (λ _, 0) s s'.
Proof.
  destruct s as [st d]. intros (refs & c & E & Hok) Hr. unfold on_snd in Hr.
  destruct (m d) as [[a' d']|]; [|done]. injection Hr as _ <-. split; [by exists refs, c|].
  intros k. unfold references, page_of. simpl. split; [lia|done].
Qed.

Ltac by_width :=
  repeat match goal with
  | H : context [match ?w with _ => _ end] |- _ => is_var w; destruct w; try done
  end.

#[export] Instance LockedHandler_laws : AmlHandlerLaws S.
Proof.
  refine {| aml_inv := consistent; aml_held := references; aml_page := page_of |}.
  intros op s v s' Hi Hop Hr. change (effect (λ k, asks k op) s s').
  destruct op; simpl in Hop, Hr |- *; try (apply bind_Ret in Hr as ([] & s1 & Hr & [_ ->]%ret_Ret));
    by_width; first [by eapply read_effect|by eapply write_effect|by eapply device_effect].
Defined.
End laws.

(** ** Interpreters that are such programs *)

Section interpreters.
Context `{BootInfo} `{!BootInfoLaws} `{Addresses} `{!AddressesLaws}.
Context {T : Type} `{Mapper T} `{!MapperLaws T} `{!Translate T} `{!TranslateLaws T}.
Context {D : Type} `{Bus D} {PciAddress PciHeader : Type} `{PciTypes PciAddress PciHeader}.

(** The run of a program without its journal. *)
Definition interpret {A} (prog : aml_prog A) : M (HandlerState T * D) A :=
  r ← with_local [] (run_prog prog);
  mret r.1.

(** An interpreter that reaches the machine only through the handler keeps what is
    held, as [AcpiCratesLaws] asks of parsing a table and initialising the objects. *)
Lemma interpret_keeping {A} (prog : aml_prog A) :
  (∀ s a st, run_prog prog (s, []) = Ret (a, st) → Forall op_ok st.2) →
  keeping (interpret prog).
Proof.
  intros Hok s a s' Hi Hr. unfold interpret in Hr. apply bind_Ret in Hr as ([a1 tr] & s1 & Hr & Hret).
  apply ret_Ret in Hret as [_ ->]. unfold with_local in Hr.
  destruct (run_prog prog (s, [])) as [[a2 [s2 tr2]]|] eqn:E; [|done]. injection Hr as -> -> ->.
  destruct (run_prog_effect prog s [] a1 s1 tr) as [Hi' He]; [exact Hi|exact E|exact (Hok _ _ _ E)|].
  split; [exact Hi'|]. intros k. pose proof (asked_nonneg k tr).
  destruct (He k) as [Hk _]. unfold aml_held in Hk. simpl in Hk. unfold held, references in *. lia.
Qed.
End interpreters.

(** ** Properties *)

Section aml_properties.
Context `{BootInfo} `{!BootInfoLaws} `{Addresses} `{!AddressesLaws}.
Context {T : Type} `{Mapper T} `{!MapperLaws T} `{!Translate T} `{!TranslateLaws T}.
Context {D : Type} `{Bus D} {PciAddress PciHeader : Type} `{PciTypes PciAddress PciHeader}.

(** C40. Whatever AML code does through the handler, in any order and depending on any
    answers, the handler's table stays consistent; the references to each frame grow by
    exactly the number of memory accesses whose first byte lies in it, so none is
    ever released; and no page outside the frames it accessed changes its mapping. *)
Theorem aml_code_leaks_frames {A} (prog : aml_prog A) refs (c : PagingContext T) (d : D) a st' tr :
  handler_ok refs c →
  run_prog prog (((refs, Some c), d), []) = Ret (a, (st', tr)) → Forall op_ok tr →
  ∃ refs' c' d', st' = ((refs', Some c'), d') ∧ handler_ok refs' c' ∧
    ∀ k, count refs' k = count refs k + asked k tr ∧
      (asked k tr = 0 → pages c'.1 !! k = pages c.1 !! k).
Proof.
  intros Hok Hr Htr.
  destruct (run_prog_effect prog ((refs, Some c), d) [] a st' tr) as [Hi He]; [by exists refs, c|done..|].
  destruct st' as [hs d'], Hi as (refs' & c' & E & Hok'). simpl in E. subst hs.
  exists refs', c', d'. split_and!; [done|done|exact He].
Qed.
End aml_properties.

(** ** Witnesses *)

Module AmlWitness.
Import Reference AllocatorWitness MemoryWitness PciWitness HandlerWitness.

(** A machine whose memory and ports answer all ones. *)
#[export] Instance ones_bus : Bus unit := {|
  port_in w _ h := (Z.ones w, h); port_out _ _ _ h := h;
  mem_in w _ h := (Z.ones w, h); mem_out _ _ _ h := h; halt h := h |}.

#[export] Instance demo_handler : AmlHandler (HandlerState tables * unit) :=
  LockedHandler_AmlHandler (PciAddress:=Z * Z * Z) (PciHeader:=Z * Z * Z).

(** It polls a byte until it is 255, then writes the next word and a port. *)
Definition demo_prog : aml_prog Z :=
  Call (OpRead 8 0x4010) (λ v,
    if v =? 255 then Call (OpWrite 32 0x4014 1) (λ _, Call (OpWriteIo 8 0x80 v) (λ _, Done v))
    else Done 0).

Lemma aml_code_leaks_frames_witness :
  ∃ refs' c' d' tr, run_prog demo_prog (((Handler_new, Some demo_ctx), tt), []) =
      Ret (255, (((refs', Some c'), d'), tr)) ∧
    count refs' 0x4000 = 2 ∧ count refs' 0x5000 = 0.
Proof.
  destruct (run_prog demo_prog (((Handler_new, Some demo_ctx), tt), [])) as [[a [st' tr]]|p] eqn:E;
    [|by vm_compute in E].
  assert (a = 255 ∧ tr = [OpRead 8 0x4010; OpWrite 32 0x4014 1; OpWriteIo 8 0x80 255]) as [-> ->].
  { vm_compute in E. by injection E as <- _ <-. }
  destruct (aml_code_leaks_frames (PciAddress:=Z * Z * Z) (PciHeader:=Z * Z * Z) demo_prog
    Handler_new demo_ctx tt 255 st' _ empty_handler_ok E) as (refs' & c' & d' & -> & _ & Hk).
  { repeat constructor; simpl; lia. }
  eexists refs', c', d', _. split; [reflexivity|].
  exact (conj (proj1 (Hk 0x4000)) (proj1 (Hk 0x5000))).
Defined.
End AmlWitness.
